(* ===== verification/_CoqProject ===== *)
-Q . S2P
Prelude.v
Common.v
Eviction.v
Storage.v
Wire.v
Codec.v
TCPServer.v
TCPLoop.v
BladeClient.v
TCPClient.v
System.v
ObjectStore.v
CacheManager.v
Iterator.v
RemoteStore.v
EndToEnd.v
Double.v
GraphVertex.v
Resident.v
Wcc.v
PageRank.v
GraphPrograms.v
MLChecksum.v
MLData.v
MLModel.v
MLSerializers.v
MLText.v
MLInput.v
MLConfig.v
MLTasks.v
MLPrograms.v
MLTraining.v
RDMAVerbs.v
RDMAServer.v
BladeServers.v
RDMAClient.v
RDMASystem.v
RDMAStore.v
RDMABounds.v
RDMALimits.v
