(* ===== verification/Prelude.v ===== *)
(** * Cirrus: a verification of the key-value store

    Cirrus (src/src) is a key-value store for serverless computing: a server
    keeps objects as bytes under 64-bit ids, a client library sends requests
    over TCP and hands out futures, an object store serialises the user's
    objects, a cache manager keeps copies and prefetches, and iterators walk
    over ranges of ids.  A second client keeps its objects in the memory of an
    allocation server, which it reads and writes with RDMA.  This library
    models both stacks, from the system calls and the verbs up to the
    iterators, and the programs that use the library (two graph algorithms and
    the distributed training of models, src/examples), as executable
    definitions, and proves what makes each part correct, each part against the
    interface of the part below, up to theorems about the whole.

    ** The parts of the program and their files

    - Prelude.v (this file): C++ integers at their width ([u32], [u64],
      [i32]), bytes in memory, [htonl]/[ntohl], exceptions ([exn]), and the
      monad [M S A] of the model: a state and an [outcome], which is a value, a
      thrown exception, undefined behaviour, an abort, a thread that blocks, or
      fuel that ran out.  [mstep] runs a call whose result is known;
      [preserves] is the logic of invariants that hold at every outcome, with
      its rules in a hint database and the tactic [preserve].  [let?] and
      [ofor] are for computations without a state.
    - Common.v: common/Exception.h, common/Serializer.h (the memory layout of
      [WriteUnit] and [WriteUnits]).
    - Eviction.v: cache_manager/EvictionPolicy.h, LRAddedEvictionPolicy.cpp,
      LRUEvictionPolicy.cpp, and [TrackingPolicy], what the cache manager needs
      of a policy.
    - Storage.v: server/MemSlice.h, StorageBackend.h, MemoryBackend.cpp,
      NVStorageBackend.cpp (over RocksDB, a parameter), and [StorageSpec], what
      the server needs of a backend.
    - Wire.v: the messages of common/schemas/TCPBladeMessage.fbs, sockets whose
      streams arrive in segments and whose sends are partial, and [send_all],
      [read_all], [read_from_client] of the server and the client.  The
      generated flatbuffers code is a parameter ([Flatbuffers]) with its round
      trip as contract ([FlatbuffersSpec]).  Codec.v instantiates it.
    - TCPServer.v: server/TCPServer.cpp: construction, [init], [loop] with the
      table of descriptors, [process] and the five requests, and the abstract
      server ([astate], [a_step]): a map with a counter of stored bytes.
    - TCPLoop.v: the loop of the server with any number of connected clients.
    - BladeClient.v: common/Synchronization.h and client/BladeClient.cpp: locks
      and futures, in a heap that the caller and the receiver thread share;
      the class [BladeClient] is the interface of client/BladeClient.h, with
      the TCP and the RDMA client as its instances.
    - TCPClient.v: client/TCPClient.cpp: requests, queues, transaction map, one
      round of the sender's and of the receiver's loop.
    - System.v: a client, a server and the network between them.  [step] is
      what one thread (or the network) does between two points where it can
      block; [reaches] is reachability under any interleaving; [pump] is one
      fair round of a scheduler, used for callers that wait.
    - ObjectStore.v: object_store/ObjectStore.h and FullBladeObjectStore.h, and
      [StoreSpec], what the cache manager needs of a store, with a reference
      implementation without network ([MapStore]).
    - CacheManager.v: cache_manager/CacheManager.h and PrefetchPolicy.h.  A
      cache entry has an address, so that a purged entry that is still
      referenced is undefined behaviour.
    - Iterator.v: iterator/CirrusIterable.h and IteratorPolicy.h.
    - RemoteStore.v: FullBladeObjectStore run on System.v; the proof that it
      implements [StoreSpec] ([store_spec]).
    - EndToEnd.v: the cache manager on top of RemoteStore.v.
    - Double.v: [double] as its 64 bits, with the arithmetic of the Standard
      Library's SpecFloat.
    - GraphVertex.v: the vertices of examples/graphs, their serialiser and
      readGraph.  Wcc.v: the program for connected components
      (examples/graphs/wcc).  PageRank.v: examples/graphs/page_rank.  Resident.v:
      the cache manager with room for everything, which Wcc.v relies on.
      GraphPrograms.v: Wcc.v over the network.
    - MLChecksum.v, MLData.v, MLModel.v, MLSerializers.v: Checksum.cpp,
      Matrix.cpp and Dataset.cpp, LRModel.cpp, SoftmaxModel.cpp,
      ModelGradient.cpp and MlUtils.cpp, Serializers.cpp and Serializers.h of
      examples/ml: the checksum, the data, the two models with their gradients
      and losses, and their bytes.  MLText.v: extraction from streams, [strsep].
      MLInput.v: Input.cpp, with the threads of [read_input_csv] as a state
      machine.  MLConfig.v: Configuration.cpp.
    - MLTasks.v: Tasks.cpp and Tasks_softmax.cpp: the parameter server, the
      worker, the error task and the loader, as programs of requests ([prog])
      for any family of models.  MLPrograms.v: these programs over the network.
      MLTraining.v: parameter_server_softmax.cpp, all processes on one store
      ([pool]), a logic of rely and guarantee for them ([wp]), and the abstract
      trainer ([trained]).
    - RDMAVerbs.v: what the RDMA code uses of the verbs (work requests,
      completions, registrations, connection events) and its two message
      schemas; the generated code of the messages is a parameter.
    - RDMAServer.v: server/RDMAServer.cpp and ConnectionContext.cpp: events of
      the connection manager, receive requests, completions, with the handler
      of a message as a parameter.  BladeServers.v: the servers on top of it
      (BladeAllocServer.cpp, BladeObjectStore.cpp, BladePoolServer.cpp), the
      resource allocator, the allocator messages and the authentication tokens.
    - RDMAClient.v: client/RDMAClient.cpp and .h: connection, registration of
      memory, requests and completions, locations of the objects, and the
      operations, in a state that the caller and the polling thread share.
    - RDMASystem.v: an RDMA client, the adapter and the allocation server; a
      schedule says what the adapter and the polling thread do while the caller
      waits.  RDMAStore.v: the map that a client of it sees, and
      FullBladeObjectStore over it.  RDMABounds.v: invariants that hold in all
      runs, also those in which library calls fail.  RDMALimits.v: what happens
      beyond the limits of RDMAStore.v.

    ** What the theorems show

    The whole: [cache_over_network] (C1): the cache over the network answers
    as the map it is a cache of, up to the first get of an id that is not there,
    which throws; in runs of at most 5000 operations (50 with deferred writes).
    It follows from the theorems of the parts:

    - the server: [loop_serves_all_clients] (C6), any number of clients are
      served as by one abstract server, each reply to the one who asked;
      [dispatch_refines] (C2) and [process_serves] (C3) refine the
      abstract server, over any backend; [accounting_invariant] (C20) on the
      bytes counted; [table_invariant] (C30) and [make_room_compacts] (C31) on
      the table of descriptors; [backends_agree] (C34) on the two backends;
    - the client and the network: [frame_roundtrip] (C27);
      [interleavings_are_sequential] (C4): every interleaving of the threads
      gives the replies of a sequential server; [every_future_completes] (C5):
      every wait ends;
    - the store: [put_then_get] (C21), [bulk_put_then_bulk_get] (C22),
      [put_bulk_then_get_bulk] (C23), [removeBulk_removes] (C24);
    - the cache: [cache_refines_map] (C9), for any store and any policy that
      satisfy their interfaces; [lru_keeps_most_recent] (C32),
      [lradded_is_fifo] (C33), [ordered_prefetches_next] (C35);
    - the iterators: [ordered_iteration] (C36), [unordered_iteration] (C37);
    - the graph programs: [wcc_over_network] (C8), the labels are the connected
      components, from the input file through the cache, the network and the
      server, for graphs that fit into the cache and whose loading and visits
      fit into the send queue; [page_rank_round] (C14), the two loops of a round,
      which distribute ranks through a cache that prefetches, collect them to
      the bit; [page_rank_undefined] (C29), the program runs the second loop
      over an iterable whose policy has been destroyed;
    - the training programs: [training_protocol] (C7), every interleaving of the
      processes trains as a sequential trainer does; [loader_over_network] (C11)
      and [load_then_evaluate] (C18), what the loader stores and the error task
      computes from it; [csv_dataset] (C16) and [csv_reader_finishes] (C25) on the
      threads that read the input; [training_objects_roundtrip] (C19) on the
      bytes; [crc32_is_remainder] (C17) and [crc32_detects_bursts] (C26) on the
      checksum;
    - the RDMA stack: [client_refines_map] (C10), the client, the adapter and
      the allocation server are a map under every schedule of what happens while
      the caller waits;
      [object_store_over_rdma] (C15) on the store over it;
      [allocations_disjoint] (C12) on the blocks that the server grants to its
      clients; [connections_invariant] (C13) on its connections, those that
      ended included; [send_queue_bounded] (C28) on all runs of a client whose
      counter starts within the limit, errors included.

    The last group describes behaviour at the limits that a user
    of the code meets: polling ([first_poll_answers_true]), a refused overwrite
    ([refused_overwrite_exceeds_pool]), a full map of pending writes
    ([pending_overflow_undefined]), loops whose counter wraps
    ([bulk_loop_never_ends], [removeBulk_never_ends]), the LRU policy on puts
    ([lru_put_throws_when_full]), puts on prefetched entries
    ([put_after_prefetch_is_lost]), gets of missing ids
    ([second_get_of_missing_id]), deep prefetching ([prefetch_purges_result]),
    peers that vanish ([read_all_spins_on_eof]), repeated connections
    ([connect_retry_does_nothing]), a full send queue ([full_queue_aliases]),
    completions that come before their caller waits
    ([completion_overtakes_caller]), graphs larger than the cache
    ([small_cache_never_ends]), directed graphs ([directed_graphs_split]), the
    test for convergence ([pageRank_stops_early]) and the greatest read-ahead of an
    unordered iterator ([prefetch_loop_never_ends]).

    ** Fuel and bounds

    Loops on sockets take one unit of fuel per system call: a message of [n]
    bytes needs at most [4 + n] calls to read and as many to send, since every
    call moves at least one byte; [served_ok] asks for the sum of both.  A
    caller that waits takes one unit per round of the scheduler, and a round
    completes at least one request, so the number of requests made suffices
    ([every_future_completes], [poll_loop_ok]).  The theorems give such fuel
    and conclude that the run ends with a value; only the theorems about loops
    that do not end say so for every fuel.  Transaction ids are kept in an
    [int] by the client, so a run has less than 2^31 requests; messages are
    less than 2^31 bytes; the pool is at least 2^32 below 2^64 ([pool_ok]);
    the send queue has 10000 places ([SEND_QUEUE_SIZE]).

    A caller of the RDMA client that waits takes one unit of fuel per step of
    the schedule, and then per step of the adapter, the server or the polling
    thread.  Fewer than 500 requests are pending ([MAX_SEND_WR]) and each needs
    at most three steps, so the length of the schedule and 1600 steps suffice.

    The traversal of Wcc.v takes one unit of fuel per visit of a vertex, and
    [visits] counts the visits of a graph by the same traversal without a cache (a
    tree is visited once per vertex).  It is defined for every graph: with [u]
    vertices not seen and at most [D] neighbours each, a vertex of the fringe
    costs at most [weight D u] visits ([visits_total]).  The loops of PageRank.v
    take one per vertex.

    A run of the threads of MLInput.v and of the processes of MLTraining.v is a
    schedule, a list of who makes the next step.  The reader returns
    [OutOfFuel] for a schedule at whose end not all threads have returned;
    [csv_reader_finishes] gives one that is long enough.  The loops of the
    training tasks have no end; [training_protocol] holds after every number of
    steps.  The ids of the programs are apart for fewer than 10^9 batches
    ([max_batches]), and the parameter server has room for ten workers.

    ** What is a parameter

    Flatbuffers (generated), RocksDB and Boost's managed_external_buffer
    (libraries), the user's serialiser and deserialiser, custom prefetch and
    iterator policies, [std::shuffle]; the products of Eigen ([Eigen],
    [EigenSpec]), [exp], [log] and [pow] of the C library ([Libm]) and the
    numbers of the random generators, in the training programs; the results of system calls and of the
    calls of the verbs and of the connection manager.  Each library has its
    contract as a class, and an instance for the concrete runs.

    ** What is not modelled

    Code that no build target names (FullCacheStore, RDMAObjectStore and the
    policies beside it), the destructor of RDMAServer, the constants that
    build_params and build_qp_attr hand to the library, logging, timing and
    statistics, the macOS branch of the semaphore, the main programs of the
    servers and the benchmarks.  Of the training programs: the worker of
    Tasks.cpp, whose two caches share one store with objects of other types
    (CacheManager.v owns its store and gives all its objects one type), the
    start-up of MPI, the ownership of arrays that are not freed, and the data
    race on the flag [terminate], which is read as if it were atomic.
    System.v and RDMASystem.v have one client each:
    several clients are covered on the side of the servers (TCPLoop.v,
    BladeServers.v), without the code of the clients in the same system. *)

From stdpp Require Import gmap list strings sorting.
From Stdlib Require Import ZArith Lia.
From Stdlib.Strings Require Import Byte.
From Corelib.Init Require Export Byte.

#[global] Open Scope Z_scope.
Declare Scope cirrus_scope.
Delimit Scope cirrus_scope with cirrus.
#[global] Open Scope cirrus_scope.

(** [using ObjectID = uint64_t;] and [using TxnID = uint64_t;]. *)
Abbreviation ObjectID := Z (only parsing).
Abbreviation TxnID := Z (only parsing).

(** ** Machine-width integers *)

(** Conversions to the C++ integer types: unsigned types reduce modulo
    [2^w]; [int] conversions keep the low 32 bits in two's complement. *)
Definition u32 (z : Z) : Z := z mod 2 ^ 32.
Definition u64 (z : Z) : Z := z mod 2 ^ 64.
Definition i32 (z : Z) : Z := (z + 2 ^ 31) mod 2 ^ 32 - 2 ^ 31.

Definition is_u32 (z : Z) : Prop := 0 <= z < 2 ^ 32.
Definition is_u64 (z : Z) : Prop := 0 <= z < 2 ^ 64.

#[global] Instance is_u64_dec z : Decision (is_u64 z).
Proof. unfold is_u64. apply _. Defined.
#[global] Instance is_u32_dec z : Decision (is_u32 z).
Proof. unfold is_u32. apply _. Defined.

Create HintDb cirrus.
Create Rewrite HintDb cirrus.

Lemma u32_small z : is_u32 z -> u32 z = z.
Proof. intros H. apply Z.mod_small, H. Qed.

Lemma u64_small z : is_u64 z -> u64 z = z.
Proof. intros H. apply Z.mod_small, H. Qed.

Lemma u32_range z : is_u32 (u32 z).
Proof. apply Z.mod_pos_bound. lia. Qed.

Lemma u64_range z : is_u64 (u64 z).
Proof. apply Z.mod_pos_bound. lia. Qed.

Lemma u64_idemp z : u64 (u64 z) = u64 z.
Proof. apply u64_small, u64_range. Qed.

Lemma i32_small z : - 2 ^ 31 <= z < 2 ^ 31 -> i32 z = z.
Proof. intros H. unfold i32. rewrite Z.mod_small; lia. Qed.

#[export] Hint Resolve u32_range u64_range : cirrus.
#[export] Hint Rewrite u64_idemp : cirrus.

(** ** Bytes and the memory representation of integers *)

Abbreviation byte := Byte.byte (only parsing).
Abbreviation bytes := (list Byte.byte) (only parsing).

#[global] Instance byte_eq_decision : EqDecision byte := Byte.byte_eq_dec.

Definition byte_to_Z (b : byte) : Z := Z.of_N (Byte.to_N b).
Definition Z_to_byte (z : Z) : byte :=
  default x00 (Byte.of_N (Z.to_N (z mod 256))).

Lemma byte_to_Z_range b : 0 <= byte_to_Z b < 256.
Proof.
  unfold byte_to_Z. pose proof (Byte.to_N_bounded b). lia.
Qed.

Lemma Z_to_byte_to_Z b : Z_to_byte (byte_to_Z b) = b.
Proof.
  unfold Z_to_byte. pose proof (byte_to_Z_range b).
  rewrite Z.mod_small by done. unfold byte_to_Z.
  by rewrite N2Z.id, Byte.of_to_N.
Qed.

Lemma byte_to_Z_to_byte z : byte_to_Z (Z_to_byte z) = z mod 256.
Proof.
  unfold Z_to_byte, byte_to_Z.
  pose proof (Z.mod_pos_bound z 256 ltac:(lia)) as Hm.
  destruct (Byte.of_N (Z.to_N (z mod 256))) as [b|] eqn:Hb; simpl.
  - apply Byte.to_of_N in Hb. rewrite Hb. lia.
  - apply Byte.of_N_None_iff in Hb. lia.
Qed.

(** [n] bytes of an integer in the host's order (x86-64: little endian). *)
Fixpoint le_bytes (n : nat) (z : Z) : bytes :=
  match n with
  | O => []
  | S n => Z_to_byte z :: le_bytes n (z / 256)
  end.

Fixpoint le_val (bs : bytes) : Z :=
  match bs with
  | [] => 0
  | b :: bs => byte_to_Z b + 256 * le_val bs
  end.

Lemma length_le_bytes n z : length (le_bytes n z) = n.
Proof. revert z. induction n; intros; simpl; auto. Qed.

Lemma le_val_range bs : 0 <= le_val bs < 256 ^ Z.of_nat (length bs).
Proof.
  induction bs as [|b bs IH]; simpl length; simpl le_val; [lia|].
  pose proof (byte_to_Z_range b).
  rewrite Nat2Z.inj_succ, Z.pow_succ_r by lia. nia.
Qed.

Lemma le_val_le_bytes n z : le_val (le_bytes n z) = z mod 256 ^ Z.of_nat n.
Proof.
  revert z. induction n as [|n IH]; intros z; simpl le_bytes; simpl le_val.
  - by rewrite Z.mod_1_r.
  - rewrite IH, byte_to_Z_to_byte, Nat2Z.inj_succ, Z.pow_succ_r by lia.
    rewrite Z.rem_mul_r by lia. lia.
Qed.

Lemma le_bytes_le_val bs : le_bytes (length bs) (le_val bs) = bs.
Proof.
  induction bs as [|b bs IH]; simpl; [done|].
  pose proof (byte_to_Z_range b).
  assert (Hq : (byte_to_Z b + 256 * le_val bs) / 256 = le_val bs).
  { rewrite Z.mul_comm, Z.div_add, Z.div_small by lia. lia. }
  assert (Hr : Z_to_byte (byte_to_Z b + 256 * le_val bs) = b).
  { rewrite <- (Z_to_byte_to_Z b) at 2. unfold Z_to_byte. do 3 f_equal.
    rewrite Z.mul_comm, Z_mod_plus_full. done. }
  by rewrite Hq, Hr, IH.
Qed.

#[global] Arguments le_bytes : simpl never.
#[global] Arguments le_val : simpl never.

(** [htonl]/[ntohl]: swap the four bytes of a 32-bit integer. *)
Definition htonl (z : Z) : Z := le_val (rev (le_bytes 4 z)).
Definition ntohl (z : Z) : Z := le_val (rev (le_bytes 4 z)).

Lemma le_bytes_htonl z : le_bytes 4 (htonl z) = rev (le_bytes 4 z).
Proof.
  unfold htonl. pose proof (le_bytes_le_val (rev (le_bytes 4 z))) as H.
  by rewrite length_rev, length_le_bytes in H.
Qed.

Lemma ntohl_htonl z : ntohl (htonl z) = u32 z.
Proof.
  unfold ntohl. rewrite le_bytes_htonl, rev_involutive, le_val_le_bytes. done.
Qed.

Lemma htonl_range z : is_u32 (htonl z).
Proof. unfold htonl. apply (le_val_range (rev (le_bytes 4 z))). Qed.

#[export] Hint Rewrite length_le_bytes ntohl_htonl le_bytes_htonl : cirrus.

(** ** Lists and signed indices *)

(** The element of index [i], which may be negative. *)
Definition znth {A} (l : list A) (i : Z) : option A :=
  if 0 <=? i then l !! Z.to_nat i else None.

Lemma znth_is_Some {A} (l : list A) i : is_Some (znth l i) <-> 0 <= i < Z.of_nat (length l).
Proof.
  unfold znth. destruct (Z.leb_spec 0 i).
  - rewrite lookup_lt_is_Some. lia.
  - split; [by intros []|lia].
Qed.

Lemma znth_Some {A} (l : list A) i x : znth l i = Some x -> l !! Z.to_nat i = Some x.
Proof. unfold znth. by destruct (0 <=? i). Qed.

Lemma znth_nat {A} (l : list A) (i : nat) : znth l (Z.of_nat i) = l !! i.
Proof. unfold znth. by rewrite (proj2 (Z.leb_le 0 (Z.of_nat i))), Nat2Z.id by lia. Qed.

Lemma znth_insert {A} (l : list A) (i : nat) x (j : Z) : (i < length l)%nat ->
  znth (<[i := x]> l) j = if decide (j = Z.of_nat i) then Some x else znth l j.
Proof.
  intros Hi. destruct (decide _) as [->|Hne].
  - by rewrite znth_nat, list_lookup_insert_eq.
  - unfold znth. destruct (Z.leb_spec 0 j); [|done]. by rewrite list_lookup_insert_ne by lia.
Qed.

Lemma znth_snoc {A} (l : list A) x (j : Z) :
  znth (l ++ [x]) j = if decide (j = Z.of_nat (length l)) then Some x else znth l j.
Proof.
  destruct (decide _) as [->|Hne].
  - rewrite znth_nat. by apply list_lookup_middle.
  - unfold znth. destruct (Z.leb_spec 0 j); [|done].
    destruct (decide (j < Z.of_nat (length l))).
    + by rewrite lookup_app_l by lia.
    + rewrite !lookup_ge_None_2; [done|lia|rewrite length_app; simpl; lia].
Qed.

(** ** Outcomes and the state-and-exception monad

    A C++ exception does not undo the stores made before it, so a computation
    returns the state it reached together with its outcome. *)

(** The exception classes of [common/Exception.h], and the exceptions
    of the standard library that the code throws or lets through. *)
Inductive exn : Type :=
| Exception (msg : string)
| ServerMemoryErrorException (msg : string)
| CacheCapacityException (msg : string)
| NoSuchIDException (msg : string)
| ConnectionException (msg : string)
| ServerReadException (msg : string)
| RuntimeError (msg : string)
| OutOfRange (msg : string)
| LengthError (msg : string).

#[global] Instance exn_eq_decision : EqDecision exn.
Proof. solve_decision. Defined.

(** [Undefined] is undefined behaviour of the source (an out-of-range access,
    an increment past [end()], a division by zero), [Exited] a call of
    [exit], [Blocked] a system call that never returns in the modelled
    environment, [OutOfFuel] a loop cut off by the model's fuel. *)
Inductive outcome (A : Type) : Type :=
| Ok (a : A)
| Throw (e : exn)
| Undefined
| Exited
| Blocked
| OutOfFuel.
Arguments Ok {A} _.
Arguments Throw {A} _.
Arguments Undefined {A}.
Arguments Exited {A}.
Arguments Blocked {A}.
Arguments OutOfFuel {A}.

(** Sequencing without a state. *)
Definition outcome_bind {A B} (o : outcome A) (k : A -> outcome B) : outcome B :=
  match o with
  | Ok a => k a
  | Throw e => Throw e
  | Undefined => Undefined
  | Exited => Exited
  | Blocked => Blocked
  | OutOfFuel => OutOfFuel
  end.

Definition M (S A : Type) : Type := S -> S * outcome A.

Definition ret {S A} (a : A) : M S A := fun s => (s, Ok a).

Definition bind {S A B} (m : M S A) (k : A -> M S B) : M S B := fun s =>
  match m s with
  | (s', Ok a) => k a s'
  | (s', Throw e) => (s', Throw e)
  | (s', Undefined) => (s', Undefined)
  | (s', Exited) => (s', Exited)
  | (s', Blocked) => (s', Blocked)
  | (s', OutOfFuel) => (s', OutOfFuel)
  end.

Definition stop {S A} (o : outcome A) : M S A := fun s => (s, o).
Definition throw {S A} (e : exn) : M S A := stop (Throw e).
Definition undefined {S A} : M S A := stop Undefined.
Definition gets {S A} (f : S -> A) : M S A := fun s => (s, Ok (f s)).
Definition modify {S} (f : S -> S) : M S unit := fun s => (f s, Ok tt).

(** Run a computation on a field of the state. *)
Definition zoom {S s A} (get : S -> s) (set : s -> S -> S) (m : M s A) : M S A :=
  fun st => let '(x, r) := m (get st) in (set x st, r).

Notation "'let*' x ':=' m 'in' k" := (bind m (fun x => k))
  (at level 10, x name, m at level 100, k at level 200)
  : cirrus_scope.
Notation "'let*' ' p ':=' m 'in' k" :=
  (bind m (fun x => match x with p => k end))
  (at level 10, p pattern, m at level 100, k at level 200) : cirrus_scope.
Notation "m ;;; k" := (bind m (fun _ => k))
  (at level 100, k at level 200, right associativity) : cirrus_scope.

Definition is_Ok {A} (o : outcome A) : bool :=
  match o with Ok _ => true | _ => false end.

(** [for (const auto& x : l) f(x)]. *)
Fixpoint mfor {S A} (l : list A) (f : A -> M S unit) : M S unit :=
  match l with
  | [] => ret tt
  | x :: l => f x ;;; mfor l f
  end.

(** [for (...) res.push_back(f(x))]. *)
Fixpoint mmap {S A B} (l : list A) (f : A -> M S B) : M S (list B) :=
  match l with
  | [] => ret []
  | x :: l => let* y := f x in let* ys := mmap l f in ret (y :: ys)
  end.

Section monad_laws.
Context {S : Type}.

Lemma bind_ok {A B} (m : M S A) (k : A -> M S B) s s' a :
  m s = (s', Ok a) -> bind m k s = k a s'.
Proof. intros H. unfold bind. by rewrite H. Qed.

Lemma bind_throw {A B} (m : M S A) (k : A -> M S B) s s' e :
  m s = (s', Throw e) -> bind m k s = (s', Throw e).
Proof. intros H. unfold bind. by rewrite H. Qed.

Lemma bind_undefined {A B} (m : M S A) (k : A -> M S B) s s' :
  m s = (s', Undefined) -> bind m k s = (s', Undefined).
Proof. intros H. unfold bind. by rewrite H. Qed.

Lemma bind_assoc {A B C} (m : M S A) (f : A -> M S B) (g : B -> M S C) s :
  bind m (fun a => bind (f a) g) s = bind (bind m f) g s.
Proof. unfold bind. by destruct (m s) as [s' []]. Qed.

Lemma bind_blocked {A B} (m : M S A) (k : A -> M S B) s :
  (m s).2 = Blocked -> (bind m k s).2 = Blocked.
Proof. unfold bind. intros Hm. by destruct (m s) as [s' []]. Qed.

Lemma bind_Ok_inv {A B} (m : M S A) (k : A -> M S B) s s' b :
  bind m k s = (s', Ok b) ->
  exists a s1, m s = (s1, Ok a) /\ k a s1 = (s', Ok b).
Proof.
  unfold bind. destruct (m s) as [s1 [a| | | | |]]; intros; simplify_eq; eauto.
Qed.

(** The result of a run whose outcome is known. *)
Lemma pair_ok {A} (p : S * outcome A) a : p.2 = Ok a -> p = (p.1, Ok a).
Proof. destruct p; cbn. by intros ->. Qed.

(** An invariant of the state that holds after every step of a loop holds
    after the loop, however the loop ends. *)
Lemma mfor_inv {A} (P : S -> Prop) (l : list A) (f : A -> M S unit) :
  (forall x s, x ∈ l -> P s -> P (f x s).1) ->
  forall s, P s -> P (mfor l f s).1.
Proof.
  induction l as [|x l IH]; intros Hf s Hs; simpl; [done|].
  unfold bind. pose proof (Hf x s ltac:(set_solver) Hs) as Hx.
  destruct (f x s) as [s1 [[]| | | | |]]; simpl in *; auto.
  apply IH; [|done]. intros y t Hy. apply Hf. set_solver.
Qed.

Lemma mfor_app {A} (l1 l2 : list A) (f : A -> M S unit) s :
  mfor (l1 ++ l2) f s = (mfor l1 f ;;; mfor l2 f) s.
Proof.
  revert s. induction l1 as [|x l1 IH]; intros s; [done|]. simpl.
  unfold bind at 1. unfold bind at 1. unfold bind at 1.
  destruct (f x s) as [s1 [[]| | | | |]]; by rewrite ?IH.
Qed.

(** A loop whose body changes nothing. *)
Lemma mfor_id {A} (l : list A) (f : A -> M S unit) s :
  (forall x, x ∈ l -> f x s = (s, Ok tt)) -> mfor l f s = (s, Ok tt).
Proof.
  intros Hf. induction l as [|x l IH]; [done|]. cbn [mfor].
  rewrite (bind_ok _ _ _ _ _ (Hf x ltac:(left))). apply IH. intros y Hy. apply Hf. by right.
Qed.
End monad_laws.

(** *** Invariants of computations *)

(** Whatever the outcome, the state keeps satisfying [I]. *)
Definition preserves {S A} (I : S -> Prop) (m : M S A) : Prop := forall s, I s -> I (m s).1.

Section preserving.
Context {S : Type} (I : S -> Prop).

Lemma preserves_ret {A} (a : A) : preserves I (ret a).
Proof. by intros s. Qed.

Lemma preserves_stop {A} (o : outcome A) : preserves I (stop o).
Proof. by intros s. Qed.

Lemma preserves_gets {A} (f : S -> A) : preserves I (gets f).
Proof. by intros s. Qed.

Lemma preserves_modify f : (forall s, I s -> I (f s)) -> preserves I (modify f).
Proof. intros Hf s. apply Hf. Qed.

Lemma preserves_bind {A B} (m : M S A) (k : A -> M S B) :
  preserves I m -> (forall a, preserves I (k a)) -> preserves I (bind m k).
Proof.
  intros Hm Hk s Hs. unfold bind. specialize (Hm s Hs).
  destruct (m s) as [s' []]; try done. by apply Hk.
Qed.

(** Reading the state and going on from it. *)
Lemma preserves_read {B} (k : S -> M S B) :
  (forall s, I s -> I (k s s).1) -> preserves I (bind (gets id) k).
Proof. intros Hk s. apply Hk. Qed.

Lemma preserves_mfor {A} (l : list A) (f : A -> M S unit) :
  (forall x, preserves I (f x)) -> preserves I (mfor l f).
Proof. intros Hf s. apply mfor_inv. intros x t _. apply Hf. Qed.
End preserving.

Create HintDb preserving.
#[export] Hint Resolve preserves_ret preserves_stop preserves_gets preserves_mfor : preserving.

(** Split a computation into calls; [auto] knows what they preserve. *)
Ltac preserve := repeat
  match goal with
  | |- forall _, _ => intro
  | |- preserves _ _ => solve [auto with preserving]
  | |- preserves _ (bind _ _) => apply preserves_bind
  | |- preserves _ (match ?x with _ => _ end) => destruct x
  end.

(** Evaluate the next step of a computation whose result is known. *)
Ltac mstep H := rewrite (bind_ok _ _ _ _ _ H).

(** Invert an equation saying that a computation returned normally. *)
Ltac minv H :=
  let a := fresh "a" in let s := fresh "s" in let H1 := fresh H in
  apply bind_Ok_inv in H as (a & s & H1 & H).

(** ** Shared list and map lemmas *)

Lemma size_eq_length_elements (X : gset Z) (l : list Z) :
  NoDup l -> (forall x, x ∈ X <-> x ∈ l) -> size X = length l.
Proof.
  intros Hnd Heq. rewrite <- (size_list_to_set (C := gset Z) l Hnd).
  f_equal. apply set_eq. intros x. rewrite elem_of_list_to_set. apply Heq.
Qed.

Lemma alter_insert {A} (f : A -> A) (l : list A) i x :
  l !! i = Some x -> alter f i l = <[i := f x]> l.
Proof.
  intros Hx. rewrite list_insert_alter. apply list_alter_ext; [|done].
  intros y Hy. by simplify_eq.
Qed.

Lemma alter_alter {A} (f g : A -> A) (m : gmap Z A) i :
  alter f i (alter g i m) = alter (f ∘ g) i m.
Proof.
  apply map_eq. intros j. destruct (decide (i = j)) as [<-|Hne].
  - rewrite !lookup_alter_eq. by destruct (m !! i).
  - by rewrite !lookup_alter_ne.
Qed.

(** ** Raw memory *)

(** A store of the bytes [bs] at offset [off] of the block [buf]; writing
    outside of the block is undefined. *)
Definition write_at (off : nat) (bs buf : bytes) : outcome bytes :=
  if decide (off + length bs <= length buf)%nat
  then Ok (take off buf ++ bs ++ drop (off + length bs) buf)
  else Undefined.

(** A load of [n] bytes at offset [off]. *)
Definition read_at (off n : nat) (buf : bytes) : outcome bytes :=
  if decide (off + n <= length buf)%nat then Ok (take n (drop off buf))
  else Undefined.

Lemma write_at_next (pre rest bs : bytes) :
  (length bs <= length rest)%nat ->
  write_at (length pre) bs (pre ++ rest) = Ok ((pre ++ bs) ++ drop (length bs) rest).
Proof.
  intros Hle. unfold write_at. rewrite decide_True by (rewrite length_app; lia).
  rewrite take_app_length, <- drop_drop, drop_app_length, app_assoc. done.
Qed.

Lemma read_at_next (pre bs rest : bytes) :
  read_at (length pre) (length bs) (pre ++ bs ++ rest) = Ok bs.
Proof.
  unfold read_at. rewrite decide_True by (rewrite !length_app; lia).
  by rewrite drop_app_length, take_app_length.
Qed.

(** ** Computations without a state *)

Notation "'let?' x ':=' o 'in' k" := (outcome_bind o (fun x => k))
  (at level 10, x name, o at level 100, k at level 200) : cirrus_scope.
Notation "'let?' ' p ':=' o 'in' k" :=
  (outcome_bind o (fun x => match x with p => k end))
  (at level 10, p pattern, o at level 100, k at level 200) : cirrus_scope.

(** [for (const auto& x : l) f(x)], and with results collected. *)
Fixpoint ofor {A} (l : list A) (f : A -> outcome unit) : outcome unit :=
  match l with
  | [] => Ok tt
  | x :: l => let? _ := f x in ofor l f
  end.
Fixpoint omapM {A B} (l : list A) (f : A -> outcome B) : outcome (list B) :=
  match l with
  | [] => Ok []
  | x :: l => let? y := f x in let? ys := omapM l f in Ok (y :: ys)
  end.

(** [l[i]], and the pointer [&l[i]], which may be one past the end. *)
Definition at_index {A} (l : list A) (i : Z) : outcome A :=
  match znth l i with Some x => Ok x | None => Undefined end.
Definition from_index {A} (l : list A) (i : Z) : outcome (list A) :=
  if (0 <=? i) && (i <=? Z.of_nat (length l)) then Ok (drop (Z.to_nat i) l) else Undefined.

(** The indices of [for (i = 0; i < n; ++i)]. *)
Definition below (n : Z) : list Z := Z.of_nat <$> seq 0 (Z.to_nat n).

Lemma elem_of_below i n : i ∈ below n <-> 0 <= i < n.
Proof.
  unfold below. rewrite list_elem_of_fmap. split.
  - intros (j & -> & Hj%elem_of_seq). lia.
  - intros Hi. exists (Z.to_nat i). rewrite elem_of_seq. lia.
Qed.

Lemma ofor_ok {A} (l : list A) f : (forall x, x ∈ l -> f x = Ok tt) -> ofor l f = Ok tt.
Proof.
  induction l as [|x l IH]; intros Hf; [done|]. cbn. rewrite Hf by left. apply IH.
  intros y Hy. apply Hf. by right.
Qed.

Lemma ofor_Ok_inv {A} (l : list A) f x : ofor l f = Ok tt -> x ∈ l -> f x = Ok tt.
Proof.
  induction l as [|y l IH]; cbn; [set_solver|].
  destruct (f y) as [[]| | | | |] eqn:Hy; cbn; try done. intros Hl [->|Hx]%elem_of_cons; auto.
Qed.

Lemma omapM_ok {A B} (l : list A) (f : A -> outcome B) g :
  (forall x, x ∈ l -> f x = Ok (g x)) -> omapM l f = Ok (g <$> l).
Proof.
  induction l as [|x l IH]; intros Hf; [done|]. cbn. rewrite Hf by left. cbn.
  rewrite IH; [done|]. intros y Hy. apply Hf. by right.
Qed.

Lemma omapM_Ok_inv {A B} (l : list A) (f : A -> outcome B) ys : omapM l f = Ok ys ->
  Forall2 (fun x y => f x = Ok y) l ys.
Proof.
  revert ys. induction l as [|x l IH]; intros ys; cbn; [intros [= <-]; constructor|].
  destruct (f x) as [y| | | | |] eqn:Hy; cbn; try done.
  destruct (omapM l f) as [zs| | | | |]; cbn; try done. intros [= <-]. constructor; auto.
Qed.

Lemma at_index_ok {A} (l : list A) (i : nat) x : l !! i = Some x -> at_index l (Z.of_nat i) = Ok x.
Proof. unfold at_index. rewrite znth_nat. by intros ->. Qed.

Lemma outcome_bind_Ok_inv {A B} (o : outcome A) (k : A -> outcome B) b :
  outcome_bind o k = Ok b -> exists a, o = Ok a /\ k a = Ok b.
Proof. destruct o; simpl; try done. eauto. Qed.
