(* ===== verification/Common.v ===== *)
(** * Common definitions ([src/common])

    [ErrorCodes] (Exception.h) and the serialisers of Serializer.h.  A user's
    [Serializer<T>] is a parameter: the size it announces for an object and the
    bytes it writes to memory for it. *)

From stdpp Require Import gmap list strings.
From S2P Require Import Prelude.

(** ** Exception.h *)

Inductive ErrorCodes := kOk | kException | kServerMemoryErrorException
  | kNoSuchIDException.

(** [static_cast<int64_t>(error_code)]. *)
Definition error_code_to_Z (e : ErrorCodes) : Z :=
  match e with
  | kOk => 0
  | kException => 1
  | kServerMemoryErrorException => 2
  | kNoSuchIDException => 3
  end.

(** ** Serializer.h *)

Class Serializer (T : Type) := {
  ser_size : T -> Z;
  ser_serialize : T -> bytes;
}.

(** What Serializer.h asks of an implementation: [size] is the number of bytes
    that [serialize] writes. *)
Class SerializerSpec (T : Type) `{Serializer T} := {
  ser_size_spec obj : ser_size obj = Z.of_nat (length (ser_serialize obj));
}.

Module WriteUnit.
Section write_unit.
Context {T : Type} `{Serializer T}.

Definition size (obj : T) : Z := ser_size obj.

(** [serialize(mem)], [mem] pointing to the block [buf]. *)
Definition serialize (obj : T) (buf : bytes) : outcome bytes :=
  write_at 0 (ser_serialize obj) buf.

Lemma unit_serialize_exact `{!SerializerSpec T} obj buf :
  length buf = Z.to_nat (size obj) -> serialize obj buf = Ok (ser_serialize obj).
Proof.
  unfold size. rewrite ser_size_spec, Nat2Z.id. intros Hlen.
  pose proof (write_at_next [] buf (ser_serialize obj)) as Hw. simpl in Hw.
  unfold serialize. rewrite Hw by lia.
  by rewrite drop_ge, app_nil_r by lia.
Qed.
End write_unit.
End WriteUnit.

Module WriteUnits.
Section write_units.
Context {T : Type} `{Serializer T}.

(** [size()]: 8 bytes of header per object. *)
Definition size (objs : list T) : Z :=
  fold_left (fun total_size obj => u64 (total_size + u64 (ser_size obj + 8)))
    objs 0.

(** The header of an object: a 64-bit store of [htonl(object_size)], which
    takes a [uint32_t]. *)
Definition object_header (object_size : Z) : bytes := le_bytes 8 (htonl object_size).

(** [serialize(mem)]: [ptr] is the offset of the cursor in the block [buf]. *)
Fixpoint serialize (objs : list T) (ptr : nat) (buf : bytes) : outcome bytes :=
  match objs with
  | [] => Ok buf
  | obj :: objs =>
      let object_size := u64 (ser_size obj) in
      match write_at ptr (object_header object_size) buf with
      | Ok buf =>
          match write_at (ptr + 8) (ser_serialize obj) buf with
          | Ok buf => serialize objs (ptr + 8 + Z.to_nat object_size) buf
          | _ => Undefined
          end
      | _ => Undefined
      end
  end.

(** The layout that [serialize] is meant to produce. *)
Definition layout (objs : list T) : bytes :=
  concat ((fun obj => object_header (ser_size obj) ++ ser_serialize obj) <$> objs).

(** What the callers rely on: no size is lost in the 32 bits of a header. *)
Definition small (objs : list T) : Prop :=
  Forall (fun obj => is_u32 (ser_size obj)) objs.

Context `{!SerializerSpec T}.

Lemma length_object_header n : length (object_header n) = 8%nat.
Proof. apply length_le_bytes. Qed.

Lemma layout_cons obj objs :
  layout (obj :: objs) =
    (object_header (ser_size obj) ++ ser_serialize obj) ++ layout objs.
Proof. done. Qed.

Lemma length_layout_cons obj objs :
  length (layout (obj :: objs)) =
    (8 + Z.to_nat (ser_size obj) + length (layout objs))%nat.
Proof.
  rewrite layout_cons, !length_app, length_object_header, ser_size_spec. lia.
Qed.

Lemma size_layout objs : Z.of_nat (length (layout objs)) < 2 ^ 64 ->
  size objs = Z.of_nat (length (layout objs)).
Proof.
  intros Hlt. unfold size.
  enough (Hgen : forall acc, 0 <= acc ->
    acc + Z.of_nat (length (layout objs)) < 2 ^ 64 ->
    fold_left (fun t obj => u64 (t + u64 (ser_size obj + 8))) objs acc =
      acc + Z.of_nat (length (layout objs))) by (rewrite Hgen; lia).
  clear Hlt. induction objs as [|obj objs IH]; intros acc Ha Hlt.
  { simpl. lia. }
  rewrite length_layout_cons in *. cbn [fold_left].
  pose proof (ser_size_spec obj).
  rewrite (u64_small (ser_size obj + 8)), u64_small by (split; lia).
  rewrite IH; lia.
Qed.

Lemma serialize_layout objs (pre rest : bytes) :
  small objs -> (length (layout objs) <= length rest)%nat ->
  serialize objs (length pre) (pre ++ rest) =
    Ok ((pre ++ layout objs) ++ drop (length (layout objs)) rest).
Proof.
  revert pre rest. induction objs as [|obj objs IH]; intros pre rest Hs Hlen.
  { unfold layout; simpl. by rewrite app_nil_r. }
  apply Forall_cons in Hs as [Ho Hs]. rewrite length_layout_cons in Hlen.
  pose proof (ser_size_spec obj) as Hsz.
  assert (Hu : u64 (ser_size obj) = ser_size obj)
    by (apply u64_small; destruct Ho; split; lia).
  cbn [serialize]. rewrite Hu.
  rewrite write_at_next by (rewrite length_object_header; lia).
  rewrite length_object_header.
  assert (H1 : (length pre + 8)%nat = length (pre ++ object_header (ser_size obj)))
    by (rewrite length_app, length_object_header; lia).
  rewrite H1, write_at_next by (rewrite length_drop; lia).
  assert (H2 : (length (pre ++ object_header (ser_size obj)) +
                  Z.to_nat (ser_size obj))%nat =
    length ((pre ++ object_header (ser_size obj)) ++ ser_serialize obj))
    by (rewrite (length_app (_ ++ _)); lia).
  rewrite H2, IH by (rewrite ?length_drop; (done || lia)). f_equal.
  rewrite length_layout_cons, !drop_drop, layout_cons, <- !app_assoc.
  do 5 f_equal. lia.
Qed.

(** Serialising into a block of the announced size fills it with the layout. *)
Lemma units_serialize_exact objs buf :
  small objs -> Z.of_nat (length (layout objs)) < 2 ^ 64 ->
  length buf = Z.to_nat (size objs) -> serialize objs 0 buf = Ok (layout objs).
Proof.
  intros Hs Hlt Hb. rewrite size_layout in Hb by done. rewrite Nat2Z.id in Hb.
  pose proof (serialize_layout objs [] buf Hs ltac:(lia)) as H1. simpl in H1.
  rewrite H1, drop_ge, app_nil_r by lia. done.
Qed.
End write_units.
End WriteUnits.
