(* ===== verification/Eviction.v ===== *)
(** * Eviction policies ([src/cache_manager])

    The interface [EvictionPolicy] (EvictionPolicy.h), the two policies that
    implement it, [LRAddedEvictionPolicy] and [LRUEvictionPolicy], and the
    contract [TrackingPolicy] that the cache manager relies on.  A [std::deque]
    is a list, a [std::set] a [gset]; a [std::list] is a list of nodes, each
    with its address, because [object_map] keeps iterators into it. *)

From stdpp Require Import gmap list.
From S2P Require Import Prelude.

(** ** The interface *)

(** EvictionPolicy.h: each method returns the ids to purge from the cache. *)
Class EvictionPolicy (P : Type) := {
  ep_get : ObjectID -> M P (list ObjectID);
  ep_put : ObjectID -> M P (list ObjectID);
  ep_prefetch : ObjectID -> M P (list ObjectID);
  ep_remove : ObjectID -> M P unit;
}.

(** [admits X oid evs Y]: a policy that tracked the ids [X] was told of an
    access to [oid], asked for [evs] (at most one id) to be purged, and now
    tracks [Y]. *)
Definition admits (X : gset Z) (oid : ObjectID) (evs : list ObjectID)
    (Y : gset Z) : Prop :=
  NoDup evs /\ (forall e, e ∈ evs -> e ∈ X) /\ oid ∉ evs /\
  Y = ({[oid]} ∪ X) ∖ list_to_set evs /\ (length evs <= 1)%nat.

(** A method that records every access, [admit_spec inv tracked cap op]. *)
Definition admit_spec {P} (inv : P -> Prop) (tracked : P -> gset Z)
    (cap : P -> Z) (op : ObjectID -> M P (list ObjectID)) : Prop :=
  forall p oid, inv p -> exists p' evs,
    op oid p = (p', Ok evs) /\ inv p' /\ cap p' = cap p /\
    admits (tracked p) oid evs (tracked p').

(** What the cache manager needs of a policy: it keeps track of exactly the
    ids that the cache holds, never more than its capacity of them, and asks
    only for tracked ids to be purged. *)
Class TrackingPolicy (P : Type) `{EvictionPolicy P} := {
  ep_inv : P -> Prop;
  ep_tracked : P -> gset Z;
  ep_capacity : P -> Z;
  ep_bounded p : ep_inv p -> Z.of_nat (size (ep_tracked p)) <= ep_capacity p;
  ep_get_spec : admit_spec ep_inv ep_tracked ep_capacity ep_get;
  ep_put_spec : admit_spec ep_inv ep_tracked ep_capacity ep_put;
  ep_prefetch_spec : admit_spec ep_inv ep_tracked ep_capacity ep_prefetch;
  ep_remove_spec p oid : ep_inv p -> exists p',
    ep_remove oid p = (p', Ok tt) /\ ep_inv p' /\
    ep_capacity p' = ep_capacity p /\
    ep_tracked p' = ep_tracked p ∖ {[oid]};
}.

(** ** LRAddedEvictionPolicy *)

Module LRAdded.

Record state := mk {
  max_size : Z;
  object_deque : list ObjectID;
  object_set : gset Z;
}.

(** The constructor. *)
Definition init (max_size : Z) : state := mk max_size [] ∅.

Definition set_deque (d : list ObjectID) (s : state) : state :=
  mk s.(max_size) d s.(object_set).
Definition set_set (x : gset Z) (s : state) : state :=
  mk s.(max_size) s.(object_deque) x.

(** [object_set.erase(it)]: undefined when [it] is [end()]. *)
Definition erase_set (oid : ObjectID) : M state unit :=
  let* s := gets id in
  if decide (oid ∈ s.(object_set))
  then modify (set_set (s.(object_set) ∖ {[oid]}))
  else undefined.

(** Erase the first element equal to [oid]: [std::find], then [erase]. *)
Fixpoint erase_first (oid : ObjectID) (d : list ObjectID)
    : option (list ObjectID) :=
  match d with
  | [] => None
  | x :: d => if decide (x = oid) then Some d else (x ::.) <$> erase_first oid d
  end.

Definition process_oid (oid : ObjectID) : M state (list ObjectID) :=
  let* s := gets id in
  if decide (oid ∈ s.(object_set)) then ret [] else
  modify (set_set ({[oid]} ∪ s.(object_set))) ;;;
  modify (set_deque (s.(object_deque) ++ [oid])) ;;;
  let* s := gets id in
  if s.(max_size) <? Z.of_nat (length s.(object_deque)) then
    match s.(object_deque) with
    | [] => undefined
    | to_remove :: rest =>
        modify (set_deque rest) ;;;
        erase_set to_remove ;;;
        ret [to_remove]
    end
  else ret [].

Definition get (oid : ObjectID) : M state (list ObjectID) := process_oid oid.
Definition put (oid : ObjectID) : M state (list ObjectID) := process_oid oid.
Definition prefetch (oid : ObjectID) : M state (list ObjectID) :=
  process_oid oid.

Definition remove (oid : ObjectID) : M state unit :=
  let* s := gets id in
  if decide (oid ∈ s.(object_set)) then
    erase_set oid ;;;
    match erase_first oid s.(object_deque) with
    | Some d => modify (set_deque d)
    | None => undefined
    end
  else ret tt.

#[global] Instance policy : EvictionPolicy state := {
  ep_get := get; ep_put := put; ep_prefetch := prefetch; ep_remove := remove;
}.

(** The deque has no duplicates, holds the ids of the set, and at most
    [max_size] of them; the policy has room for one object. *)
Definition wf (s : state) : Prop :=
  NoDup s.(object_deque) /\
  s.(object_set) = list_to_set s.(object_deque) /\
  Z.of_nat (length s.(object_deque)) <= s.(max_size) /\
  1 <= s.(max_size).

Lemma lradded_init_wf n : 1 <= n -> wf (init n).
Proof. intros. repeat split; simpl; try lia. constructor. Qed.

(** The abstract policy: a first-in first-out queue of at most [n] ids. *)
Definition fifo_access (n : Z) (q : list ObjectID) (oid : ObjectID)
    : list ObjectID * list ObjectID :=
  if decide (oid ∈ q) then (q, []) else
  let q' := q ++ [oid] in
  if n <? Z.of_nat (length q') then (tail q', take 1 q') else (q', []).

Definition of_queue (n : Z) (q : list ObjectID) : state :=
  mk n q (list_to_set q).

Lemma wf_of_queue s : wf s -> s = of_queue s.(max_size) s.(object_deque).
Proof. destruct s; intros (_ & Hs & _); simpl in *; by subst. Qed.

Lemma process_oid_fifo n q oid :
  NoDup q -> 1 <= n ->
  process_oid oid (of_queue n q) =
    (of_queue n (fifo_access n q oid).1, Ok (fifo_access n q oid).2).
Proof.
  intros Hnd Hn. unfold process_oid, fifo_access, of_queue, bind, gets, id; simpl.
  rewrite (decide_ext (oid ∈ list_to_set (C := gset Z) q) (oid ∈ q))
    by apply elem_of_list_to_set.
  destruct (decide (oid ∈ q)) as [|Hnot]; [done|].
  unfold modify, set_set, set_deque, ret; simpl.
  assert (Hset : {[oid]} ∪ list_to_set q =@{gset Z} list_to_set (q ++ [oid]))
    by set_solver.
  rewrite Hset. clear Hset.
  assert (Hnd' : NoDup (q ++ [oid])).
  { apply NoDup_app. repeat split; [done|set_solver|apply NoDup_singleton]. }
  destruct (n <? Z.of_nat (length (q ++ [oid]))) eqn:Hlen; [|done].
  destruct (q ++ [oid]) as [|x rest] eqn:Hq; [destruct q; discriminate|]. simpl.
  unfold erase_set, bind, gets, id; simpl.
  rewrite decide_True by set_solver. unfold modify, set_set; simpl.
  apply NoDup_cons in Hnd' as [Hx _].
  do 2 f_equal. set_solver.
Qed.

Lemma fifo_access_spec n q oid :
  NoDup q -> Z.of_nat (length q) <= n -> 1 <= n ->
  let '(q', evs) := fifo_access n q oid in
  NoDup q' /\ Z.of_nat (length q') <= n /\
  admits (list_to_set q) oid evs (list_to_set q').
Proof.
  intros Hnd Hlen Hn. unfold fifo_access.
  destruct (decide (oid ∈ q)) as [Hin|Hnot].
  { split_and!; auto. unfold admits.
    split_and!; [constructor|set_solver..|simpl; lia]. }
  assert (Hnd' : NoDup (q ++ [oid])).
  { apply NoDup_app. repeat split; [done|set_solver|apply NoDup_singleton]. }
  destruct (Z.ltb_spec n (Z.of_nat (length (q ++ [oid])))) as [Hgt|Hle].
  - rewrite length_app in Hgt; simpl in Hgt.
    destruct q as [|x q]; simpl in *; [lia|].
    apply NoDup_cons in Hnd' as [Hx Hnd'].
    split_and!; [done|rewrite length_app; simpl; lia|].
    unfold admits. split_and!; [apply NoDup_singleton|set_solver|set_solver| |simpl; lia].
    apply set_eq. intros y. set_solver.
  - split_and!; [done|done|]. unfold admits.
    split_and!; [constructor|set_solver|set_solver|set_solver|simpl; lia].
Qed.

Lemma lradded_process_oid_spec : admit_spec wf object_set max_size process_oid.
Proof.
  intros s oid Hwf. rewrite (wf_of_queue s Hwf).
  destruct Hwf as (Hnd & _ & Hlen & Hn).
  rewrite process_oid_fifo by done.
  pose proof (fifo_access_spec (max_size s) (object_deque s) oid Hnd Hlen Hn)
    as Hspec.
  destruct (fifo_access _ _ _) as [q' evs]. destruct Hspec as (Hnd' & Hlen' & Ha).
  eexists _, _. split; [done|]. simpl. repeat split; auto.
  all: apply Ha.
Qed.

Lemma erase_first_spec oid d :
  NoDup d -> oid ∈ d -> exists d',
    erase_first oid d = Some d' /\ NoDup d' /\ S (length d') = length d /\
    forall x, x ∈ d' <-> x ∈ d /\ x <> oid.
Proof.
  induction d as [|y d IH]; intros Hnd Hin; [set_solver|].
  apply NoDup_cons in Hnd as [Hy Hnd]. simpl.
  destruct (decide (y = oid)) as [->|Hne].
  { exists d. split_and!; [done|done|done|]. set_solver. }
  destruct IH as (d' & -> & Hnd' & Hlen & Hel); [done|set_solver|].
  exists (y :: d'). simpl. split_and!; [done| |lia|set_solver].
  apply NoDup_cons. split; [|done]. rewrite Hel. naive_solver.
Qed.

Lemma lradded_remove_spec s oid : wf s -> exists s',
  remove oid s = (s', Ok tt) /\ wf s' /\ max_size s' = max_size s /\
  object_set s' = object_set s ∖ {[oid]}.
Proof.
  intros (Hnd & Hset & Hlen & Hn). unfold remove, bind, gets, id; simpl.
  destruct (decide (oid ∈ object_set s)) as [Hin|Hnot].
  - unfold erase_set, bind, gets, id. rewrite decide_True by done.
    unfold modify, set_set; simpl.
    destruct (erase_first_spec oid (object_deque s)) as (d' & -> & Hd & Hl & He);
      [done|set_solver|].
    unfold set_deque; simpl. eexists. split; [done|].
    repeat split; simpl; auto; [|lia].
    rewrite Hset. apply set_eq. intros x. set_solver.
  - exists s. unfold ret. repeat split; auto. set_solver.
Qed.

#[global] Program Instance tracking : TrackingPolicy state := {
  ep_inv := wf; ep_tracked := object_set; ep_capacity := max_size;
  ep_get_spec := lradded_process_oid_spec; ep_put_spec := lradded_process_oid_spec;
  ep_prefetch_spec := lradded_process_oid_spec;
}.
Next Obligation.
  intros s (Hnd & -> & Hlen & _). by rewrite size_list_to_set.
Qed.
Next Obligation. exact lradded_remove_spec. Qed.

End LRAdded.

(** ** LRUEvictionPolicy *)

Module LRU.

(** The address of a node of the [std::list]: what its iterator designates. *)
Definition node : Type := nat.

Record state := mk {
  max_size : Z;
  object_map : gmap Z node;
  object_list : list (node * ObjectID);
  next_node : node;
}.

(** The constructor. *)
Definition init (max_size : Z) : state := mk max_size ∅ [] 0%nat.

Definition set_map (m : gmap Z node) (s : state) : state :=
  mk s.(max_size) m s.(object_list) s.(next_node).
Definition set_list (l : list (node * ObjectID)) (s : state) : state :=
  mk s.(max_size) s.(object_map) l s.(next_node).

(** [object_list.insert(object_list.begin(), oid)]: a new node at the front. *)
Definition insert_front (oid : ObjectID) : M state node := fun s =>
  (mk s.(max_size) s.(object_map) ((s.(next_node), oid) :: s.(object_list))
      (S s.(next_node)), Ok s.(next_node)).

(** Unlink the node at an address: its value and the other nodes. *)
Fixpoint unlink (n : node) (l : list (node * ObjectID))
    : option (ObjectID * list (node * ObjectID)) :=
  match l with
  | [] => None
  | (m, x) :: l =>
      if decide (m = n) then Some (x, l)
      else '(y, l') ← unlink n l; Some (y, (m, x) :: l')
  end.

(** [object_map.erase(it)]: undefined when [it] is [end()]. *)
Definition erase_map (oid : ObjectID) : M state unit :=
  let* s := gets id in
  match s.(object_map) !! oid with
  | Some _ => modify (set_map (delete oid s.(object_map)))
  | None => undefined
  end.

Definition process_oid (oid : ObjectID) : M state (list ObjectID) :=
  let* it := gets (fun s => s.(object_map) !! oid) in
  match it with
  | None =>
      let* n := insert_front oid in
      modify (fun s => set_map (<[oid := n]> s.(object_map)) s) ;;;
      let* s := gets id in
      if s.(max_size) <? Z.of_nat (size s.(object_map)) then
        match last s.(object_list) with
        | None => undefined
        | Some (_, to_remove) =>
            modify (set_list (take (pred (length s.(object_list)))
                                   s.(object_list))) ;;;
            erase_map to_remove ;;;
            ret [to_remove]
        end
      else ret []
  | Some n =>
      let* s := gets id in
      match unlink n s.(object_list) with
      | None => undefined
      | Some (x, l) => modify (set_list ((n, x) :: l)) ;;; ret []
      end
  end.

Definition get (oid : ObjectID) : M state (list ObjectID) := process_oid oid.
Definition put (oid : ObjectID) : M state (list ObjectID) := ret [].
Definition prefetch (oid : ObjectID) : M state (list ObjectID) :=
  process_oid oid.

Definition remove (oid : ObjectID) : M state unit :=
  let* it := gets (fun s => s.(object_map) !! oid) in
  match it with
  | Some n =>
      let* s := gets id in
      match unlink n s.(object_list) with
      | None => undefined
      | Some (_, l) => modify (set_list l) ;;; erase_map oid
      end
  | None => ret tt
  end.

#[global] Instance policy : EvictionPolicy state := {
  ep_get := get; ep_put := put; ep_prefetch := prefetch; ep_remove := remove;
}.

(** The values of the nodes, most recently used first. *)
Definition ids (s : state) : list ObjectID := s.(object_list).*2.

(** [object_map] sends each id of the list to the address of its node; nodes
    have distinct addresses, all of them allocated, and distinct values. *)
Definition linked (s : state) : Prop :=
  NoDup (s.(object_list).*1) /\ NoDup (ids s) /\
  (forall oid n, s.(object_map) !! oid = Some n <-> (n, oid) ∈ s.(object_list)) /\
  (forall n oid, (n, oid) ∈ s.(object_list) -> (n < s.(next_node))%nat).

Definition wf (s : state) : Prop :=
  linked s /\ Z.of_nat (length s.(object_list)) <= s.(max_size) /\
  1 <= s.(max_size).

(** The abstract policy: ids in order of recency, at most [n] of them. *)
Definition touch (oid : ObjectID) (l : list ObjectID) : list ObjectID :=
  oid :: filter (fun x => x <> oid) l.

Definition lru_access (n : Z) (l : list ObjectID) (oid : ObjectID)
    : list ObjectID * list ObjectID :=
  let l' := touch oid l in
  (take (Z.to_nat n) l', drop (Z.to_nat n) l').

(** The distinct ids of a sequence of accesses, the last accessed first. *)
Definition recency (accesses : list ObjectID) : list ObjectID :=
  fold_left (fun l oid => touch oid l) accesses [].

Lemma lru_init_wf n : 1 <= n -> wf (init n).
Proof.
  intros. unfold wf, linked, init, ids; simpl.
  split_and!; try lia; try constructor.
  - by rewrite lookup_empty.
  - set_solver.
  - set_solver.
Qed.

Lemma unlink_spec n x l :
  NoDup (l.*1) -> (n, x) ∈ l -> exists l1 l2,
    l = l1 ++ (n, x) :: l2 /\ unlink n l = Some (x, l1 ++ l2).
Proof.
  induction l as [|[m y] l IH]; simpl; intros Hnd Hin; [set_solver|].
  apply NoDup_cons in Hnd as [Hm Hnd].
  destruct (decide (m = n)) as [->|Hne].
  - assert (y = x) as ->.
    { apply elem_of_cons in Hin as [?|Hin]; [by simplify_eq|].
      exfalso. apply Hm. apply list_elem_of_fmap. by exists (n, x). }
    by exists [], l.
  - apply elem_of_cons in Hin as [?|Hin]; [by simplify_eq|].
    destruct (IH Hnd Hin) as (l1 & l2 & -> & ->). by exists ((m, y) :: l1), l2.
Qed.

Lemma filter_ne_id (x : Z) (l : list Z) : x ∉ l -> filter (fun y => y <> x) l = l.
Proof.
  intros Hx. induction l as [|y l IH]; [done|].
  rewrite filter_cons_True by set_solver. f_equal. apply IH. set_solver.
Qed.

Lemma touch_middle (x : Z) (l1 l2 : list Z) :
  NoDup (l1 ++ x :: l2) -> touch x (l1 ++ x :: l2) = x :: l1 ++ l2.
Proof.
  intros Hnd. unfold touch. f_equal.
  apply NoDup_app in Hnd as (_ & Hd & Hnd). apply NoDup_cons in Hnd as [Hx _].
  rewrite filter_app, filter_cons_False by tauto.
  rewrite !filter_ne_id; [done|done|]. intros Hin. apply (Hd x Hin). left.
Qed.

Lemma ids_in s oid : linked s -> oid ∈ ids s <-> is_Some (s.(object_map) !! oid).
Proof.
  intros (_ & _ & Hmap & _). unfold ids. rewrite list_elem_of_fmap. split.
  - intros ([n ?] & ? & Hin). simplify_eq/=. exists n. by apply Hmap.
  - intros [n Hn]. exists (n, oid). split; [done|]. by apply Hmap.
Qed.

Lemma linked_size s : linked s -> size s.(object_map) = length s.(object_list).
Proof.
  intros Hs. rewrite <- size_dom.
  transitivity (length (ids s)); [|apply length_fmap].
  apply size_eq_length_elements; [apply Hs|]. intros oid.
  by rewrite elem_of_dom, ids_in.
Qed.

(** The order of the nodes does not matter for the links. *)
Lemma linked_perm s l :
  linked s -> s.(object_list) ≡ₚ l -> linked (set_list l s).
Proof.
  intros (Hnd1 & Hnd2 & Hmap & Hnext) Hp. unfold linked, ids in *; simpl.
  pose proof (fmap_Permutation fst _ _ Hp) as Hp1.
  pose proof (fmap_Permutation snd _ _ Hp) as Hp2.
  split_and!; [by rewrite <- Hp1|by rewrite <- Hp2| |].
  - intros. by rewrite Hmap, Hp.
  - intros m o. rewrite <- Hp. apply Hnext.
Qed.

(** Moving the node of a known id to the front. *)
Lemma process_oid_hit s oid n :
  wf s -> s.(object_map) !! oid = Some n -> exists s',
    process_oid oid s = (s', Ok []) /\ wf s' /\ max_size s' = max_size s /\
    ids s' = touch oid (ids s) /\ length (ids s') = length (ids s).
Proof.
  intros [Hlk [Hlen Hmax]] Hn. pose proof Hlk as (Hnd1 & Hnd2 & Hmap & _).
  destruct (unlink_spec n oid (object_list s)) as (l1 & l2 & Hl & Hu);
    [done|by apply Hmap|].
  unfold process_oid, bind, gets, id, modify, ret; simpl. rewrite Hn, Hu.
  assert (Hp : object_list s ≡ₚ (n, oid) :: l1 ++ l2)
    by (rewrite Hl; symmetry; apply Permutation_middle).
  pose proof (Permutation_length Hp) as Hpl. simpl in Hpl.
  eexists. split; [done|]. split_and!.
  - split; [by apply linked_perm|simpl; lia].
  - done.
  - unfold ids in *; simpl. rewrite Hl in Hnd2 |- *.
    rewrite !fmap_app in *; simpl in *. by rewrite touch_middle.
  - unfold ids; simpl. rewrite !length_fmap. lia.
Qed.

(** The state after [insert_front], before any eviction. *)
Definition push (oid : ObjectID) (s : state) : state :=
  mk s.(max_size) (<[oid := s.(next_node)]> s.(object_map))
     ((s.(next_node), oid) :: s.(object_list)) (S s.(next_node)).

Lemma push_linked s oid : linked s -> oid ∉ ids s -> linked (push oid s).
Proof.
  intros (Hnd1 & Hnd2 & Hmap & Hnext) Hnot. unfold linked, ids, push; simpl.
  assert (Hfresh : s.(next_node) ∉ s.(object_list).*1).
  { intros ([m o] & Heq & Hin)%list_elem_of_fmap. apply Hnext in Hin.
    simpl in Heq. lia. }
  split_and!; [by constructor|by constructor| |].
  - intros o m. rewrite lookup_insert_Some, elem_of_cons, Hmap.
    assert ((m, o) ∈ object_list s -> o ∈ ids s)
      by (intros; apply list_elem_of_fmap; by exists (m, o)).
    naive_solver.
  - intros m o [?|Hin]%elem_of_cons; simplify_eq; [lia|].
    apply Hnext in Hin. lia.
Qed.

(** Dropping the last node of the list and its map entry. *)
Lemma evict_last_linked s l n x :
  linked s -> s.(object_list) = l ++ [(n, x)] ->
  linked (mk s.(max_size) (delete x s.(object_map)) l s.(next_node)).
Proof.
  intros (Hnd1 & Hnd2 & Hmap & Hnext) Hl. unfold linked, ids in *; simpl.
  rewrite Hl in Hnd1, Hnd2, Hmap, Hnext. rewrite fmap_app in Hnd1.
  rewrite fmap_app in Hnd2.
  apply NoDup_app in Hnd1 as (Hnd1 & _ & _).
  apply NoDup_app in Hnd2 as (Hnd2 & Hx & _).
  split_and!; auto.
  - intros oid m.
    rewrite lookup_delete_Some, Hmap, elem_of_app, list_elem_of_singleton.
    split; [naive_solver|]. intros Hin. split; [|by left]. intros <-.
    apply (Hx x); [|set_solver]. apply list_elem_of_fmap. by exists (m, x).
  - intros m oid Hin. apply (Hnext m oid). set_solver.
Qed.

Lemma process_oid_miss s oid :
  wf s -> s.(object_map) !! oid = None -> exists s' evs,
    process_oid oid s = (s', Ok evs) /\ wf s' /\ max_size s' = max_size s /\
    (ids s', evs) = lru_access (max_size s) (ids s) oid.
Proof.
  intros [Hlk [Hlen Hmax]] Hn.
  assert (Hnot : oid ∉ ids s) by (rewrite ids_in, Hn by done; by intros [? ?]).
  pose proof (push_linked s oid Hlk Hnot) as Hpush.
  pose proof (linked_size _ Hpush) as Hsz.
  unfold process_oid, bind, gets, id, insert_front, modify, ret, set_map; simpl.
  rewrite Hn. simpl in Hsz. rewrite Hsz.
  unfold lru_access, touch. rewrite filter_ne_id by done.
  destruct (Z.ltb_spec (max_size s) (Z.of_nat (S (length (object_list s)))))
    as [Hgt|Hle].
  - destruct (exists_last (l := (push oid s).(object_list)))
      as (l & [n x] & Hl); [done|].
    assert (Hlenl : length l = length (object_list s)).
    { apply (f_equal length) in Hl. rewrite length_app in Hl. simpl in Hl. lia. }
    simpl in Hl. rewrite Hl, last_snoc.
    unfold set_list, erase_map, bind, gets, id, modify, set_map; simpl.
    assert (Hx : (push oid s).(object_map) !! x = Some n)
      by (apply Hpush; simpl; rewrite Hl; set_solver).
    simpl in Hx. rewrite Hx. rewrite take_app_length' by lia.
    eexists _, _. split; [done|]. split; [|split; [done|]].
    + split; [|simpl; lia].
      exact (evict_last_linked (push oid s) l n x Hpush Hl).
    + assert (Hids : oid :: ids s = l.*2 ++ [x])
        by (apply (f_equal (fmap snd)) in Hl; rewrite fmap_app in Hl; exact Hl).
      assert (Hm : Z.to_nat (max_size s) = length (l.*2))
        by (rewrite length_fmap; lia).
      by rewrite Hids, Hm, take_app_length, drop_app_length.
  - eexists _, _. split; [done|]. split; [|split; [done|]].
    + split; [done|simpl; lia].
    + unfold ids; simpl.
      rewrite take_ge, drop_ge by (simpl; rewrite length_fmap; lia). done.
Qed.

(** Every access of a well-formed policy is the access of the abstract one. *)
Lemma process_oid_lru s oid :
  wf s -> exists s' evs,
    process_oid oid s = (s', Ok evs) /\ wf s' /\ max_size s' = max_size s /\
    (ids s', evs) = lru_access (max_size s) (ids s) oid.
Proof.
  intros Hwf. destruct (object_map s !! oid) as [n|] eqn:Hn.
  - destruct (process_oid_hit s oid n Hwf Hn) as (s' & He & Hwf' & Hm & Hi & Hl).
    exists s', []. split_and!; auto. unfold lru_access. rewrite <- Hi.
    destruct Hwf as (_ & Hlen & _). unfold ids in *. rewrite !length_fmap in Hl.
    rewrite take_ge, drop_ge by (rewrite length_fmap; lia). done.
  - by apply process_oid_miss.
Qed.

Lemma touch_NoDup oid l : NoDup l -> NoDup (touch oid l).
Proof.
  intros Hl. constructor; [|by apply NoDup_filter].
  rewrite list_elem_of_filter. tauto.
Qed.

Lemma recency_snoc l oid : recency (l ++ [oid]) = touch oid (recency l).
Proof. unfold recency. by rewrite fold_left_app. Qed.

Lemma recency_NoDup l : NoDup (recency l).
Proof.
  induction l as [|oid l IH] using rev_ind; [constructor|].
  rewrite recency_snoc. by apply touch_NoDup.
Qed.

Lemma take_filter_ne (x : Z) k (l : list Z) : NoDup l ->
  take k (filter (fun y => y <> x) (take (S k) l)) =
  take k (filter (fun y => y <> x) l).
Proof.
  revert k. induction l as [|y l IH]; intros k Hnd; [done|].
  apply NoDup_cons in Hnd as [Hy Hnd]. simpl (take (S k) (y :: l)).
  destruct (decide (y = x)) as [->|Hne].
  - rewrite !filter_cons_False by tauto.
    assert (x ∉ take k l)
      by (intros Hin; apply Hy; rewrite <- (take_drop k l); set_solver).
    rewrite !filter_ne_id by done. rewrite take_take. f_equal. lia.
  - rewrite !filter_cons_True by done. destruct k as [|k]; [done|].
    simpl. f_equal. by apply IH.
Qed.

(** LRU is a stack algorithm: cutting the recency list to [n] ids commutes
    with an access. *)
Lemma lru_access_recency n l oid : 1 <= n -> NoDup l ->
  (lru_access n (take (Z.to_nat n) l) oid).1 = take (Z.to_nat n) (touch oid l).
Proof.
  intros Hn Hnd. unfold lru_access, touch; simpl.
  destruct (Z.to_nat n) as [|k] eqn:Hk; [lia|]. simpl. f_equal.
  by apply take_filter_ne.
Qed.

Lemma lru_access_admits n l oid : 1 <= n -> NoDup l ->
  Z.of_nat (length l) <= n ->
  let '(l', evs) := lru_access n l oid in
  Z.of_nat (length l') <= n /\
  admits (list_to_set l) oid evs (list_to_set l').
Proof.
  intros Hn Hnd Hlen. unfold lru_access.
  pose proof (touch_NoDup oid l Hnd) as Ht.
  rewrite <- (take_drop (Z.to_nat n) (touch oid l)) in Ht.
  apply NoDup_app in Ht as (Hnt & Hdis & Hnd').
  assert (Hin : oid ∈ take (Z.to_nat n) (touch oid l)).
  { destruct (Z.to_nat n) as [|k] eqn:Hk; [lia|]. left. }
  assert (Hel : forall x, x ∈ touch oid l <-> x = oid \/ x ∈ l).
  { intros x. unfold touch. rewrite elem_of_cons, list_elem_of_filter.
    destruct (decide (x = oid)); naive_solver. }
  split; [rewrite length_take; lia|]. unfold admits. split_and!; [done| | | |].
  - intros e He. assert (e ∈ touch oid l) as Hte.
    { rewrite <- (take_drop (Z.to_nat n) (touch oid l)). set_solver. }
    apply Hel in Hte as [->|]; [|set_solver]. by destruct (Hdis oid).
  - intros Ho. by apply (Hdis oid).
  - apply set_eq. intros x.
    assert (Hx : x ∈ touch oid l <-> x ∈ take (Z.to_nat n) (touch oid l) \/
                                     x ∈ drop (Z.to_nat n) (touch oid l)).
    { rewrite <- (take_drop (Z.to_nat n) (touch oid l)) at 1. apply elem_of_app. }
    rewrite Hel in Hx. specialize (Hdis x). set_solver.
  - rewrite length_drop. unfold touch. simpl.
    pose proof (length_filter (fun y => y <> oid) l). lia.
Qed.

(** The ids that the policy tracks. *)
Definition tracked (s : state) : gset Z := list_to_set (ids s).

Lemma lru_process_oid_spec : admit_spec wf tracked max_size process_oid.
Proof.
  intros s oid Hwf. pose proof Hwf as [(_ & Hnd & _) [Hlen Hn]].
  destruct (process_oid_lru s oid Hwf) as (s' & evs & He & Hwf' & Hm & Ha).
  pose proof (lru_access_admits (max_size s) (ids s) oid Hn Hnd) as Hadm.
  rewrite <- Ha in Hadm. exists s', evs. split_and!; auto. apply Hadm.
  unfold ids. rewrite length_fmap. done.
Qed.

Lemma lru_remove_spec s oid : wf s -> exists s',
  remove oid s = (s', Ok tt) /\ wf s' /\ max_size s' = max_size s /\
  tracked s' = tracked s ∖ {[oid]}.
Proof.
  intros [Hlk [Hlen Hmax]]. pose proof Hlk as (Hnd1 & Hnd2 & Hmap & _).
  unfold remove, bind, gets, id, modify, ret; simpl.
  destruct (object_map s !! oid) as [n|] eqn:Hn.
  - destruct (unlink_spec n oid (object_list s)) as (l1 & l2 & Hl & ->);
      [done|by apply Hmap|].
    unfold erase_map, bind, gets, id, modify; simpl. rewrite Hn.
    assert (Hp : object_list s ≡ₚ (l1 ++ l2) ++ [(n, oid)])
      by (by rewrite Hl, <- Permutation_middle, <- Permutation_cons_append).
    pose proof (linked_perm s _ Hlk Hp) as Hlk'.
    apply Permutation_length in Hp. rewrite length_app in Hp. simpl in Hp.
    eexists. split; [done|]. split_and!; [split|done|].
    + exact (evict_last_linked _ (l1 ++ l2) n oid Hlk' eq_refl).
    + simpl. lia.
    + unfold ids in Hnd2. rewrite Hl, fmap_app in Hnd2. simpl in Hnd2.
      apply NoDup_app in Hnd2 as (_ & Hd & Hnd2).
      apply NoDup_cons in Hnd2 as [Ho _].
      unfold tracked, ids; simpl. rewrite Hl, !fmap_app. simpl.
      specialize (Hd oid). set_solver.
  - exists s. split_and!; [done|by split|done|].
    assert (oid ∉ ids s) by (rewrite ids_in, Hn by done; by intros [? ?]).
    unfold tracked. set_solver.
Qed.
End LRU.

(** ** Properties of the policies *)

(** A run of accesses, with what each asked to purge. *)
Definition accesses {P} (op : ObjectID -> M P (list ObjectID))
    (trace : list ObjectID) : M P (list (list ObjectID)) := mmap trace op.

Lemma lru_accesses s l trace :
  LRU.wf s -> NoDup l ->
  LRU.ids s = take (Z.to_nat (LRU.max_size s)) l -> exists s' evss,
    accesses LRU.process_oid trace s = (s', Ok evss) /\ LRU.wf s' /\
    LRU.max_size s' = LRU.max_size s /\
    LRU.ids s' = take (Z.to_nat (LRU.max_size s))
                   (fold_left (fun l oid => LRU.touch oid l) trace l).
Proof.
  revert s l. induction trace as [|oid trace IH]; intros s l Hwf Hnd Hids.
  { exists s, []. done. }
  destruct (LRU.process_oid_lru s oid Hwf) as (s1 & evs & He & Hwf1 & Hm1 & Ha).
  pose proof Hwf as [_ [_ Hmax]].
  destruct (IH s1 (LRU.touch oid l)) as (s' & evss & Hrun & Hwf' & Hm' & Hids');
    [done|by apply LRU.touch_NoDup| |].
  { rewrite Hm1, <- LRU.lru_access_recency by done.
    apply (f_equal fst) in Ha. by rewrite Hids in Ha. }
  exists s', (evs :: evss). unfold accesses in *. simpl. mstep He.
  mstep Hrun. rewrite <- Hm1. done.
Qed.

(** C32: after any sequence of [get]s, the LRU policy tracks exactly the
    [max_size] most recently used ids, most recent first, and no access fails
    or is undefined. *)
Theorem lru_keeps_most_recent (n : Z) (trace : list ObjectID) :
  1 <= n -> exists s' evss,
    accesses LRU.get trace (LRU.init n) = (s', Ok evss) /\ LRU.wf s' /\
    LRU.ids s' = take (Z.to_nat n) (LRU.recency trace).
Proof.
  intros Hn.
  destruct (lru_accesses (LRU.init n) [] trace) as (s' & evss & H1 & H2 & _ & H3).
  - by apply LRU.lru_init_wf.
  - constructor.
  - simpl. by rewrite take_nil.
  - exists s', evss. done.
Qed.

Lemma lru_keeps_most_recent_witness :
  exists s' evss,
    accesses LRU.get [1; 2; 3; 1; 4] (LRU.init 3) = (s', Ok evss) /\ LRU.wf s' /\
    LRU.ids s' = [4; 1; 3].
Proof. apply (lru_keeps_most_recent 3 [1; 2; 3; 1; 4]). lia. Defined.

(** The operations of the [LRAdded] policy, and those of the queue: [remove] takes
    the id out and purges nothing. *)
Inductive lradded_op := LGet (oid : ObjectID) | LPut (oid : ObjectID)
  | LPrefetch (oid : ObjectID) | LRemove (oid : ObjectID).

Definition lradded_run_op (o : lradded_op) : M LRAdded.state (list ObjectID) :=
  match o with
  | LGet oid => LRAdded.get oid
  | LPut oid => LRAdded.put oid
  | LPrefetch oid => LRAdded.prefetch oid
  | LRemove oid => LRAdded.remove oid ;;; ret []
  end.

Definition fifo_op (n : Z) (q : list ObjectID) (o : lradded_op)
    : list ObjectID * list ObjectID :=
  match o with
  | LGet oid | LPut oid | LPrefetch oid => LRAdded.fifo_access n q oid
  | LRemove oid => (filter (fun x => x <> oid) q, [])
  end.
Fixpoint fifo_run (n : Z) (q : list ObjectID) (os : list lradded_op)
    : list ObjectID * list (list ObjectID) :=
  match os with
  | [] => (q, [])
  | o :: os =>
      let '(q', evs) := fifo_op n q o in
      let '(q'', evss) := fifo_run n q' os in (q'', evs :: evss)
  end.

Lemma filter_absent (oid : ObjectID) (d : list ObjectID) : oid ∉ d ->
  filter (fun x => x <> oid) d = d.
Proof.
  induction d as [|y d IH]; intros Hin; [done|].
  rewrite filter_cons, decide_True, IH by set_solver. done.
Qed.

Lemma erase_first_filter oid d : NoDup d -> oid ∈ d ->
  LRAdded.erase_first oid d = Some (filter (fun x => x <> oid) d).
Proof.
  induction d as [|y d IH]; intros Hnd Hin; [set_solver|]. apply NoDup_cons in Hnd as [Hy Hnd].
  cbn [LRAdded.erase_first]. rewrite filter_cons. destruct (decide (y = oid)) as [->|Hne].
  - rewrite decide_False by tauto. by rewrite filter_absent.
  - rewrite decide_True, IH by set_solver. done.
Qed.

Lemma lradded_remove_fifo n q oid : NoDup q ->
  LRAdded.remove oid (LRAdded.of_queue n q) =
    (LRAdded.of_queue n (filter (fun x => x <> oid) q), Ok tt).
Proof.
  intros Hnd. unfold LRAdded.remove, bind, gets, id; cbn.
  rewrite (decide_ext (oid ∈ list_to_set (C := gset Z) q) (oid ∈ q))
    by apply elem_of_list_to_set.
  destruct (decide (oid ∈ q)) as [Hin|Hnot].
  - unfold LRAdded.erase_set, bind, gets, id. cbn. rewrite decide_True by set_solver.
    cbn. rewrite erase_first_filter by done. unfold LRAdded.of_queue, modify, LRAdded.set_deque.
    cbn. do 2 f_equal. apply set_eq. intros x.
    rewrite elem_of_difference, !elem_of_list_to_set, list_elem_of_filter. set_solver.
  - by rewrite filter_absent.
Qed.

(** One operation: the queue's, and the invariant is kept. *)
Lemma lradded_op_fifo s o : LRAdded.wf s ->
  let n := s.(LRAdded.max_size) in
  lradded_run_op o s = (LRAdded.of_queue n (fifo_op n s.(LRAdded.object_deque) o).1,
                        Ok (fifo_op n s.(LRAdded.object_deque) o).2) /\
  LRAdded.wf (LRAdded.of_queue n (fifo_op n s.(LRAdded.object_deque) o).1).
Proof.
  intros Hwf n. pose proof Hwf as (Hnd & _ & Hlen & Hn).
  assert (Haccess : forall oid, LRAdded.process_oid oid s =
      (LRAdded.of_queue n (LRAdded.fifo_access n (LRAdded.object_deque s) oid).1,
       Ok (LRAdded.fifo_access n (LRAdded.object_deque s) oid).2) /\
      LRAdded.wf (LRAdded.of_queue n (LRAdded.fifo_access n (LRAdded.object_deque s) oid).1)).
  { intros oid. pose proof (LRAdded.fifo_access_spec n _ oid Hnd Hlen Hn) as Hspec.
    rewrite (LRAdded.wf_of_queue s Hwf) at 1. rewrite LRAdded.process_oid_fifo by done.
    split; [done|]. destruct (LRAdded.fifo_access _ _ _). by destruct Hspec as (? & ? & _). }
  destruct o as [oid|oid|oid|oid]; try apply Haccess. cbn [lradded_run_op fifo_op fst snd].
  rewrite (LRAdded.wf_of_queue s Hwf) at 1.
  rewrite (bind_ok _ _ _ _ _ (lradded_remove_fifo n _ oid Hnd)). split; [done|].
  split_and!; [by apply NoDup_filter|done| |done]. cbn.
  pose proof (length_filter (fun x => x <> oid) (LRAdded.object_deque s)). lia.
Qed.

Lemma lradded_run_fifo os : forall s, LRAdded.wf s ->
  let n := s.(LRAdded.max_size) in
  mmap os lradded_run_op s = (LRAdded.of_queue n (fifo_run n s.(LRAdded.object_deque) os).1,
                              Ok (fifo_run n s.(LRAdded.object_deque) os).2) /\
  LRAdded.wf (LRAdded.of_queue n (fifo_run n s.(LRAdded.object_deque) os).1).
Proof.
  induction os as [|o os IH]; intros s Hwf n; cbn [mmap fifo_run].
  { cbn [fst snd]. unfold n. by rewrite <- (LRAdded.wf_of_queue s Hwf). }
  destruct (lradded_op_fifo s o Hwf) as [Hrun Hwf1]. fold n in Hrun, Hwf1. mstep Hrun.
  destruct (fifo_op n (LRAdded.object_deque s) o) as [q1 evs]. cbn [fst snd] in *.
  destruct (IH _ Hwf1) as [Hrun2 Hwf2]. cbn in Hrun2, Hwf2. mstep Hrun2.
  by destruct (fifo_run n q1 os) as [q2 evss].
Qed.

(** C33: the [LRAdded] policy is a bounded first-in first-out queue.  In every
    sequence of [get], [put], [prefetch] and [remove], no operation fails; an
    access to a tracked id changes nothing, an access to a new id appends it and,
    when the queue is over [max_size], asks for the oldest id to be purged; a
    removal takes the id out and asks for nothing. *)
Theorem lradded_is_fifo (s : LRAdded.state) (os : list lradded_op) :
  LRAdded.wf s ->
  let '(q, evss) := fifo_run s.(LRAdded.max_size) s.(LRAdded.object_deque) os in
  exists s', mmap os lradded_run_op s = (s', Ok evss) /\
    LRAdded.object_deque s' = q /\ LRAdded.max_size s' = s.(LRAdded.max_size) /\ LRAdded.wf s'.
Proof.
  intros Hwf. destruct (lradded_run_fifo os s Hwf) as [Hrun Hwf'].
  destruct (fifo_run _ _ os) as [q evss]. eexists. by split.
Qed.

Lemma lradded_is_fifo_witness :
  exists s', mmap [LPut 9; LGet 8; LRemove 8; LPrefetch 7; LGet 6] lradded_run_op
      (LRAdded.of_queue 2 [7; 8]) = (s', Ok [[7]; []; []; []; [9]]) /\
    LRAdded.object_deque s' = [7; 6] /\ LRAdded.max_size s' = 2 /\ LRAdded.wf s'.
Proof.
  apply (lradded_is_fifo (LRAdded.of_queue 2 [7; 8])
    [LPut 9; LGet 8; LRemove 8; LPrefetch 7; LGet 6]).
  unfold LRAdded.wf; simpl. split_and!; try lia; try done.
  apply (bool_decide_unpack _). vm_compute. done.
Defined.
