(* ===== verification/Storage.v ===== *)
(** * Storage backends ([src/server])

    [MemSlice] (MemSlice.h), the interface [StorageBackend] (StorageBackend.h)
    with the contract [StorageSpec] that the server relies on, and its two
    implementations: [MemoryBackend] (an [unordered_map]) and
    [NVStorageBackend] (RocksDB, a parameter of the model).  Bytes of a
    [std::vector<int8_t>], of a flatbuffers vector and of a [std::string] are
    the same [list byte]. *)

From stdpp Require Import gmap list strings pretty.
From S2P Require Import Prelude.

(** ** MemSlice *)

Module MemSlice.

(** The three sources a slice can have; [range_] is the memory between the
    pointers [begin] and [end]. *)
Record t := mk {
  dataStdVector_ : option bytes;
  dataFbVector_ : option bytes;
  range_ : option bytes;
  fromString : bool;
}.

(** The constructors. *)
Definition of_string (data : bytes) : t := mk (Some data) None None true.
Definition of_std_vector (data : bytes) : t := mk (Some data) None None false.
Definition of_fb_vector (data : bytes) : t := mk None (Some data) None false.
Definition of_range (data : bytes) : t := mk None None (Some data) false.

Definition size (s : t) : outcome Z :=
  match s.(dataStdVector_), s.(dataFbVector_), s.(range_) with
  | Some v, _, _ => Ok (Z.of_nat (length v))
  | None, Some v, _ => Ok (Z.of_nat (length v))
  | None, None, Some v => Ok (Z.of_nat (length v))
  | None, None, None => Throw (RuntimeError "Error in size()")
  end.

(** [s.assign(p, s_size)]: [s_size] bytes starting at [p]. *)
Definition assign (p : bytes) (s_size : Z) : bytes := take (Z.to_nat s_size) p.

Definition toString (s : t) : outcome bytes :=
  match size s with
  | Ok s_size =>
      match s.(dataStdVector_), s.(dataFbVector_), s.(range_) with
      | Some v, _, _ => Ok (assign v s_size)
      | None, Some v, _ => Ok (assign v s_size)
      | None, None, Some v => Ok (assign v s_size)
      | None, None, None => Throw (RuntimeError "Error in toString()")
      end
  | Throw e => Throw e
  | Undefined => Undefined
  | Exited => Exited
  | Blocked => Blocked
  | OutOfFuel => OutOfFuel
  end.

Definition get (s : t) : outcome bytes :=
  match s.(dataStdVector_), s.(dataFbVector_), s.(range_) with
  | Some v, _, _ => Ok v
  | None, Some v, _ => Ok v
  | None, None, Some v => Ok v
  | None, None, None => Throw (RuntimeError "Error in get()")
  end.

(** The three views of a slice agree. *)
Lemma get_size_toString s v :
  get s = Ok v -> size s = Ok (Z.of_nat (length v)) /\ toString s = Ok v.
Proof.
  destruct s as [[a|] [b|] [c|] f]; unfold get, size, toString, assign; simpl;
    intros; simplify_eq; rewrite ?Nat2Z.id, ?firstn_all; done.
Qed.

End MemSlice.

(** ** The interface *)

(** StorageBackend.h. *)
Class StorageBackend (B : Type) := {
  sb_init : M B unit;
  sb_put : ObjectID -> MemSlice.t -> M B bool;
  sb_exists : ObjectID -> M B bool;
  sb_get : ObjectID -> M B MemSlice.t;
  sb_delet : ObjectID -> M B bool;
  sb_size : ObjectID -> M B Z;
}.

(** A backend implements a finite map from ids to byte strings:
    [sb_rep b m] says that [b] represents [m]. *)
Class StorageSpec (B : Type) `{StorageBackend B} := {
  sb_rep : B -> gmap Z bytes -> Prop;
  sb_put_spec b m oid data v :
    sb_rep b m -> is_u64 oid -> MemSlice.get data = Ok v -> exists b',
      sb_put oid data b = (b', Ok true) /\ sb_rep b' (<[oid := v]> m);
  sb_exists_spec b m oid :
    sb_rep b m -> is_u64 oid ->
    sb_exists oid b = (b, Ok (bool_decide (is_Some (m !! oid))));
  sb_get_spec b m oid v :
    sb_rep b m -> is_u64 oid -> m !! oid = Some v -> exists s,
      sb_get oid b = (b, Ok s) /\ MemSlice.get s = Ok v;
  sb_size_spec b m oid v :
    sb_rep b m -> is_u64 oid -> m !! oid = Some v ->
    sb_size oid b = (b, Ok (Z.of_nat (length v)));
  sb_delet_spec b m oid v :
    sb_rep b m -> is_u64 oid -> m !! oid = Some v -> exists b',
      sb_delet oid b = (b', Ok true) /\ sb_rep b' (delete oid m);
}.

(** ** MemoryBackend *)

Module MemoryBackend.

Record t := mk {
  store : gmap Z bytes;
  remove_counter : Z;
  remove_increment : Z;
}.

(** The default constructor, and the one with the increment in bytes. *)
Definition default_ctor : t := mk ∅ 0 1000000.
Definition ctor (bytes : Z) : t := mk ∅ 0 bytes.

Definition set_store (m : gmap Z bytes) (b : t) : t :=
  mk m b.(remove_counter) b.(remove_increment).
Definition set_counter (c : Z) (b : t) : t :=
  mk b.(store) c b.(remove_increment).

Definition init : M t unit := ret tt.

Definition put (oid : ObjectID) (data : MemSlice.t) : M t bool :=
  let* v := stop (MemSlice.get data) in
  modify (fun b => set_store (<[oid := v]> b.(store)) b) ;;;
  ret true.

Definition exists_ (oid : ObjectID) : M t bool :=
  gets (fun b => bool_decide (is_Some (b.(store) !! oid))).

Definition get (oid : ObjectID) : M t MemSlice.t :=
  let* it := gets (fun b => b.(store) !! oid) in
  match it with
  | None => throw (RuntimeError "MemoryBackend get() called on nonexistent id")
  | Some v => ret (MemSlice.of_std_vector v)
  end.

(** [store[oid]] inserts an empty vector when the id is absent. *)
Definition subscript (oid : ObjectID) : M t bytes :=
  modify (fun b => match b.(store) !! oid with
                   | Some _ => b
                   | None => set_store (<[oid := []]> b.(store)) b
                   end) ;;;
  gets (fun b => default [] (b.(store) !! oid)).

Definition delet (oid : ObjectID) : M t bool :=
  let* v := subscript oid in
  modify (fun b => set_counter
            (u64 (b.(remove_counter) + Z.of_nat (length v))) b) ;;;
  modify (fun b => set_store (delete oid b.(store)) b) ;;;
  let* b := gets id in
  if b.(remove_increment) <=? b.(remove_counter) then
    if b.(remove_increment) =? 0 then undefined
    else modify (set_counter (b.(remove_counter) mod b.(remove_increment))) ;;;
         ret true
  else ret true.

Definition size (oid : ObjectID) : M t Z :=
  let* it := gets (fun b => b.(store) !! oid) in
  match it with
  | None => ret 0
  | Some v => ret (Z.of_nat (length v))
  end.

#[global] Instance backend : StorageBackend t := {
  sb_init := init; sb_put := put; sb_exists := exists_; sb_get := get;
  sb_delet := delet; sb_size := size;
}.

Definition rep (b : t) (m : gmap Z bytes) : Prop :=
  b.(store) = m /\ 0 < b.(remove_increment).

Lemma delet_store b oid :
  0 < b.(remove_increment) -> exists b',
    delet oid b = (b', Ok true) /\ b'.(store) = delete oid b.(store) /\
    b'.(remove_increment) = b.(remove_increment).
Proof.
  intros Hpos. unfold delet, subscript, bind, gets, modify, ret, id; simpl.
  destruct (store b !! oid) as [v|] eqn:Hoid; simpl.
  all: destruct (_ <=? _) eqn:Hle; simpl.
  all: repeat match goal with
       | |- context [?x =? 0] => destruct (Z.eqb_spec x 0); [lia|]
       end.
  all: eexists; split; [done|]; simpl; split; [|done].
  all: by rewrite ?delete_insert_eq, ?delete_insert_id.
Qed.

#[global] Program Instance spec : StorageSpec t := { sb_rep := rep }.
Next Obligation.
  intros b m oid data v [<- Hi] _ Hd. unfold sb_put, backend, put, bind, stop.
  rewrite Hd. simpl. eexists. split; [done|]. split; [done|]. done.
Qed.
Next Obligation. intros b m oid [<- _] _. done. Qed.
Next Obligation.
  intros b m oid v [<- _] _ Hm. exists (MemSlice.of_std_vector v). simpl.
  unfold get, bind, gets. by rewrite Hm.
Qed.
Next Obligation.
  intros b m oid v [<- _] _ Hm. simpl. unfold size, bind, gets. by rewrite Hm.
Qed.
Next Obligation.
  intros b m oid v [<- Hi] _ Hm. destruct (delet_store b oid Hi) as (b' & H1 & H2 & H3).
  exists b'. split; [done|]. split; [done|]. by rewrite H3.
Qed.

End MemoryBackend.

(** ** NVStorageBackend *)

(** RocksDB: the part of its interface that the backend calls.  [db_Open]
    returns the handle of the database at a path. *)
Inductive Status := StatusOk | StatusNotFound | StatusError.

Definition ok (s : Status) : bool :=
  match s with StatusOk => true | _ => false end.
Definition IsNotFound (s : Status) : bool :=
  match s with StatusNotFound => true | _ => false end.

Class RocksDB (D : Type) := {
  db_Open : string -> Status * D;
  db_Put : string -> bytes -> D -> D * Status;
  db_Get : string -> D -> Status * bytes;
  db_Delete : string -> D -> D * Status;
}.

(** The documented behaviour of a database without I/O errors. *)
Class RocksDBSpec (D : Type) `{RocksDB D} := {
  db_map : D -> gmap string bytes;
  db_Put_spec k v d : exists d',
    db_Put k v d = (d', StatusOk) /\ db_map d' = <[k := v]> (db_map d);
  db_Get_found k v d :
    db_map d !! k = Some v -> db_Get k d = (StatusOk, v);
  db_Get_missing k d :
    db_map d !! k = None -> (db_Get k d).1 = StatusNotFound;
  db_Delete_spec k d : exists d',
    db_Delete k d = (d', StatusOk) /\ db_map d' = delete k (db_map d);
}.

Module NVStorageBackend.
Section nv.
Context {D : Type} `{RocksDB D}.

Record t := mk {
  path : string;
  db : option D;
}.

Definition ctor (path : string) : t := mk path None.

(** [std::to_string(oid)]: the decimal digits. *)
Definition to_string (oid : ObjectID) : string := pretty (Z.to_N oid).

(** A use of [db]: a null pointer before [init]. *)
Definition handle : M t D :=
  let* b := gets id in
  match b.(db) with
  | Some d => ret d
  | None => undefined
  end.

Definition init : M t unit :=
  let* b := gets id in
  match db_Open b.(path) with
  | (s, d) =>
      if ok s then modify (fun b => mk b.(path) (Some d))
      else throw (RuntimeError "Error opening rocksdb")
  end.

Definition put (oid : ObjectID) (data : MemSlice.t) : M t bool :=
  let* _ := stop (MemSlice.size data) in
  let* value := stop (MemSlice.toString data) in
  let* d := handle in
  match db_Put (to_string oid) value d with
  | (d', s) =>
      modify (fun b => mk b.(path) (Some d')) ;;;
      if ok s then ret true
      else throw (RuntimeError "Error in put in rocksdb")
  end.

Definition exists_ (oid : ObjectID) : M t bool :=
  let* d := handle in
  match db_Get (to_string oid) d with
  | (s, _) => ret (negb (IsNotFound s))
  end.

Definition get (oid : ObjectID) : M t MemSlice.t :=
  let* d := handle in
  match db_Get (to_string oid) d with
  | (s, value) =>
      if (negb (ok s) || IsNotFound s)%bool
      then throw (RuntimeError "Error in get in rocksdb")
      else ret (MemSlice.of_string value)
  end.

Definition delet (oid : ObjectID) : M t bool :=
  let* d := handle in
  match db_Delete (to_string oid) d with
  | (d', _) => modify (fun b => mk b.(path) (Some d')) ;;; ret true
  end.

Definition size (oid : ObjectID) : M t Z :=
  let* obj := get oid in
  stop (MemSlice.size obj).

#[global] Instance backend : StorageBackend t := {
  sb_init := init; sb_put := put; sb_exists := exists_; sb_get := get;
  sb_delet := delet; sb_size := size;
}.

Context `{!RocksDBSpec D}.

(** The database holds the value of each id under its decimal digits. *)
Definition rep (b : t) (m : gmap Z bytes) : Prop :=
  exists d, b.(db) = Some d /\
    forall oid, is_u64 oid -> db_map d !! to_string oid = m !! oid.

Lemma to_string_inj oid oid' :
  is_u64 oid -> is_u64 oid' -> to_string oid = to_string oid' -> oid = oid'.
Proof.
  unfold to_string, is_u64. intros ? ? Heq%(inj pretty). lia.
Qed.

Lemma handle_ok b d : b.(db) = Some d -> handle b = (b, Ok d).
Proof. intros Hd. unfold handle, bind, gets, id. by rewrite Hd. Qed.

#[global] Program Instance spec : StorageSpec t := { sb_rep := rep }.
Next Obligation.
  intros b m oid data v (d & Hd & Hm) Hoid Hv. simpl. unfold put.
  destruct (MemSlice.get_size_toString data v Hv) as [Hs Ht].
  unfold stop. rewrite Hs, Ht. unfold bind at 1 2. mstep (handle_ok b d Hd).
  destruct (db_Put_spec (to_string oid) v d) as (d' & -> & Hd').
  eexists. split; [done|]. exists d'. split; [done|].
  intros o Ho. rewrite Hd'. destruct (decide (o = oid)) as [->|Hne].
  - by rewrite !lookup_insert_eq.
  - rewrite !lookup_insert_ne; [by apply Hm|done|].
    intros Heq. apply Hne. symmetry. by apply to_string_inj.
Qed.
Next Obligation.
  intros b m oid (d & Hd & Hm) Hoid. simpl. unfold exists_.
  mstep (handle_ok b d Hd). rewrite <- Hm by done.
  destruct (db_map d !! to_string oid) as [v|] eqn:Hv.
  - by rewrite (db_Get_found _ _ _ Hv).
  - pose proof (db_Get_missing _ _ Hv) as Hs.
    destruct (db_Get (to_string oid) d) as [s v]. simpl in Hs. by subst.
Qed.
Next Obligation.
  intros b m oid v (d & Hd & Hm) Hoid Hv. simpl. unfold get.
  rewrite <- Hm in Hv by done. exists (MemSlice.of_string v). split; [|done].
  mstep (handle_ok b d Hd). by rewrite (db_Get_found _ _ _ Hv).
Qed.
Next Obligation.
  intros b m oid v (d & Hd & Hm) Hoid Hv. simpl. unfold size, get.
  rewrite <- Hm in Hv by done. unfold bind at 1. mstep (handle_ok b d Hd).
  by rewrite (db_Get_found _ _ _ Hv).
Qed.
Next Obligation.
  intros b m oid v (d & Hd & Hm) Hoid Hv. simpl. unfold delet.
  mstep (handle_ok b d Hd).
  destruct (db_Delete_spec (to_string oid) d) as (d' & -> & Hd').
  eexists. split; [done|]. exists d'. split; [done|].
  intros o Ho. rewrite Hd'. destruct (decide (o = oid)) as [->|Hne].
  - by rewrite !lookup_delete_eq.
  - rewrite !lookup_delete_ne; [by apply Hm|done|].
    intros Heq. apply Hne. symmetry. by apply to_string_inj.
Qed.
End nv.
Arguments t : clear implicits.
End NVStorageBackend.

(** ** [std::unique_ptr<StorageBackend>] *)

(** The server holds either backend behind the interface. *)
Module AnyBackend.
Section any.
Context {D : Type} `{RocksDB D}.

Inductive t :=
| Memory (b : MemoryBackend.t)
| Storage (b : NVStorageBackend.t D).

(** A virtual call. *)
Definition virtual {A} (f : M MemoryBackend.t A) (g : M (NVStorageBackend.t D) A)
    : M t A := fun b =>
  match b with
  | Memory b => let '(b', r) := f b in (Memory b', r)
  | Storage b => let '(b', r) := g b in (Storage b', r)
  end.

#[global] Instance backend : StorageBackend t := {
  sb_init := virtual sb_init sb_init;
  sb_put oid data := virtual (sb_put oid data) (sb_put oid data);
  sb_exists oid := virtual (sb_exists oid) (sb_exists oid);
  sb_get oid := virtual (sb_get oid) (sb_get oid);
  sb_delet oid := virtual (sb_delet oid) (sb_delet oid);
  sb_size oid := virtual (sb_size oid) (sb_size oid);
}.

Context `{!RocksDBSpec D}.

Definition rep (b : t) (m : gmap Z bytes) : Prop :=
  match b with
  | Memory b => sb_rep b m
  | Storage b => sb_rep b m
  end.

#[global] Program Instance spec : StorageSpec t := { sb_rep := rep }.
Next Obligation.
  intros [b|b] m oid data v Hr Hu Hd; cbn [sb_put backend virtual];
    destruct (sb_put_spec b m oid data v Hr Hu Hd) as (b' & -> & Hr'); eauto.
Qed.
Next Obligation.
  intros [b|b] m oid Hr Hu; cbn [sb_exists backend virtual];
    by rewrite (sb_exists_spec b m oid Hr Hu).
Qed.
Next Obligation.
  intros [b|b] m oid v Hr Hu Hv; cbn [sb_get backend virtual];
    destruct (sb_get_spec b m oid v Hr Hu Hv) as (s & -> & Hs); eauto.
Qed.
Next Obligation.
  intros [b|b] m oid v Hr Hu Hv; cbn [sb_size backend virtual];
    by rewrite (sb_size_spec b m oid v Hr Hu Hv).
Qed.
Next Obligation.
  intros [b|b] m oid v Hr Hu Hv; cbn [sb_delet backend virtual];
    destruct (sb_delet_spec b m oid v Hr Hu Hv) as (b' & -> & Hr'); eauto.
Qed.
End any.
Arguments t : clear implicits.
End AnyBackend.

(** ** The backends are interchangeable *)

Module Backends.

(** The operations of the interface and their results. *)
Inductive bop :=
| BPut (oid : ObjectID) (data : MemSlice.t)
| BExists (oid : ObjectID)
| BGet (oid : ObjectID)
| BSize (oid : ObjectID)
| BDelet (oid : ObjectID).
Inductive bres := RBool (b : bool) | RBytes (v : bytes) | RSize (n : Z).

Section run.
Context {B : Type} `{StorageSpec B}.

Definition run_bop (o : bop) : M B bres :=
  match o with
  | BPut oid data => let* b := sb_put oid data in ret (RBool b)
  | BExists oid => let* b := sb_exists oid in ret (RBool b)
  | BGet oid => let* s := sb_get oid in let* v := stop (MemSlice.get s) in ret (RBytes v)
  | BSize oid => let* n := sb_size oid in ret (RSize n)
  | BDelet oid => let* b := sb_delet oid in ret (RBool b)
  end.

(** What a map does on the same operations; [None]: the operation is not
    allowed (the callers get, measure and delete only ids that exist). *)
Definition map_bop (o : bop) (m : gmap Z bytes) : option (gmap Z bytes * bres) :=
  match o with
  | BPut oid data =>
      match MemSlice.get data with
      | Ok v => Some (<[oid := v]> m, RBool true)
      | _ => None
      end
  | BExists oid => Some (m, RBool (bool_decide (is_Some (m !! oid))))
  | BGet oid => (fun v => (m, RBytes v)) <$> m !! oid
  | BSize oid => (fun v => (m, RSize (Z.of_nat (length v)))) <$> m !! oid
  | BDelet oid => (fun v => (delete oid m, RBool true)) <$> m !! oid
  end.
Definition bop_id (o : bop) : ObjectID :=
  match o with
  | BPut oid _ | BExists oid | BGet oid | BSize oid | BDelet oid => oid
  end.
Fixpoint map_bops (os : list bop) (m : gmap Z bytes) : option (gmap Z bytes * list bres) :=
  match os with
  | [] => Some (m, [])
  | o :: os =>
      match map_bop o m with
      | Some (m', r) =>
          match map_bops os m' with
          | Some (m'', rs) => Some (m'', r :: rs)
          | None => None
          end
      | None => None
      end
  end.

Lemma run_bop_ok o b m m' r : sb_rep b m -> is_u64 (bop_id o) ->
  map_bop o m = Some (m', r) -> exists b', run_bop o b = (b', Ok r) /\ sb_rep b' m'.
Proof.
  intros Hr Hu Hm. destruct o as [oid data|oid|oid|oid|oid]; simpl in *.
  - destruct (MemSlice.get data) as [v| | | | |] eqn:Hv; simplify_eq.
    destruct (sb_put_spec b m oid data v Hr Hu Hv) as (b' & Hrun & Hr').
    exists b'. by mstep Hrun.
  - simplify_eq. exists b. by mstep (sb_exists_spec b m' oid Hr Hu).
  - apply fmap_Some in Hm as (v & Hv & [= -> ->]).
    destruct (sb_get_spec b m oid v Hr Hu Hv) as (sl & Hrun & Hsl).
    exists b. mstep Hrun. unfold bind, stop. by rewrite Hsl.
  - apply fmap_Some in Hm as (v & Hv & [= -> ->]).
    exists b. by mstep (sb_size_spec b m oid v Hr Hu Hv).
  - apply fmap_Some in Hm as (v & Hv & [= -> ->]).
    destruct (sb_delet_spec b m oid v Hr Hu Hv) as (b' & Hrun & Hr').
    exists b'. by mstep Hrun.
Qed.

Lemma run_bops_ok os b m m' rs : sb_rep b m -> Forall (fun o => is_u64 (bop_id o)) os ->
  map_bops os m = Some (m', rs) ->
  exists b', mmap os run_bop b = (b', Ok rs) /\ sb_rep b' m'.
Proof.
  intros Hr Hu. revert b m rs Hr. induction Hu as [|o os Ho Hos IH]; intros b m rs Hr Hm;
    cbn [map_bops mmap] in *; [simplify_eq; by exists b|].
  destruct (map_bop o m) as [[m1 r]|] eqn:Hop; [|done].
  destruct (map_bops os m1) as [[m2 rs']|] eqn:Hops; [|done]. simplify_eq.
  destruct (run_bop_ok o b m m1 r Hr Ho Hop) as (b1 & Hrun & Hr1). mstep Hrun.
  destruct (IH b1 m1 rs' Hr1 Hops) as (b' & Hrun' & Hr'). exists b'. by mstep Hrun'.
Qed.
End run.

(** C34: the two backends are interchangeable: from the same contents, the
    memory backend and the RocksDB backend give the same results on every
    sequence of operations that deletes and reads only existing objects, those
    of a map. *)
Theorem backends_agree {D} `{RocksDBSpec D} (b1 : MemoryBackend.t)
    (b2 : NVStorageBackend.t D) m m' os rs :
  sb_rep b1 m -> sb_rep b2 m -> Forall (fun o => is_u64 (bop_id o)) os ->
  map_bops os m = Some (m', rs) -> exists b1' b2',
    mmap os run_bop b1 = (b1', Ok rs) /\ mmap os run_bop b2 = (b2', Ok rs) /\
    sb_rep b1' m' /\ sb_rep b2' m'.
Proof.
  intros Hr1 Hr2 Hu Hm.
  destruct (run_bops_ok os b1 m m' rs Hr1 Hu Hm) as (b1' & Hrun1 & Hr1').
  destruct (run_bops_ok os b2 m m' rs Hr2 Hu Hm) as (b2' & Hrun2 & Hr2').
  by exists b1', b2'.
Qed.

(** A database that is a map, for the witness. *)
#[local] Instance map_db : RocksDB (gmap string bytes) := {
  db_Open _ := (StatusOk, ∅);
  db_Put k v d := (<[k := v]> d, StatusOk);
  db_Get k d := match d !! k with Some v => (StatusOk, v) | None => (StatusNotFound, []) end;
  db_Delete k d := (delete k d, StatusOk);
}.
#[local] Program Instance map_db_spec : RocksDBSpec (gmap string bytes) := {
  db_map d := d;
}.
Next Obligation. intros. eauto. Qed.
Next Obligation. intros k v d Hd. simpl. by rewrite Hd. Qed.
Next Obligation. intros k d Hd. simpl. by rewrite Hd. Qed.
Next Obligation. intros. eauto. Qed.

Lemma backends_agree_witness :
  let os := [BPut 7 (MemSlice.of_std_vector [x61; x62]); BExists 7; BGet 7;
             BPut 7 (MemSlice.of_range [x63]); BSize 7; BDelet 7; BExists 7] in
  let rs := [RBool true; RBool true; RBytes [x61; x62]; RBool true; RSize 1;
             RBool true; RBool false] in
  exists b1' b2', mmap os run_bop (MemoryBackend.ctor 1000) = (b1', Ok rs) /\
    mmap os run_bop (NVStorageBackend.mk "db" (Some (∅ : gmap string bytes))) =
      (b2', Ok rs) /\
    sb_rep b1' ∅ /\ sb_rep b2' ∅.
Proof.
  apply (backends_agree (MemoryBackend.ctor 1000)
           (NVStorageBackend.mk "db" (Some (∅ : gmap string bytes))) ∅ ∅).
  - split; [done|]. simpl. lia.
  - exists ∅. split; [done|]. intros oid _. by rewrite !lookup_empty.
  - repeat constructor; simpl; lia.
  - reflexivity.
Defined.
End Backends.
