(* ===== verification/Wire.v ===== *)
(** * Messages and the byte streams that carry them

    The tables of [src/common/schemas/TCPBladeMessage.fbs]; flatbuffers, whose
    code is generated at build time, as a parameter ([Flatbuffers]) with its
    round trip as a hypothesis ([FlatbuffersSpec]); a TCP socket; and the loops
    of TCPServer.cpp and TCPClient.cpp that move whole messages over it:
    [send_all], [read_all] and the reading of the 4-byte size. *)

From stdpp Require Import gmap list strings.
From S2P Require Import Prelude.

(** ** TCPBladeMessage.fbs *)

Inductive Message : Type :=
| Write (oid : ObjectID) (data : bytes)
| WriteAck (oid : ObjectID) (success : bool)
| WriteBulk (num_oids : Z) (oids : list ObjectID) (data : bytes)
| WriteBulkAck (success : bool)
| Read (oid : ObjectID)
| ReadAck (oid : ObjectID) (success : bool) (data : bytes)
| ReadBulk (num_oids : Z) (oids : list ObjectID)
| ReadBulkAck (success : bool) (data : bytes)
| Remove (oid : ObjectID)
| RemoveAck (oid : ObjectID) (success : bool).

Record TCPBladeMessage := mk_msg {
  txnid : TxnID;
  error_code : Z;
  message : Message;
}.

#[global] Instance Message_eq_decision : EqDecision Message.
Proof. solve_decision. Defined.
#[global] Instance TCPBladeMessage_eq_decision : EqDecision TCPBladeMessage.
Proof. solve_decision. Defined.

(** The fields fit the widths of the schema. *)
Definition message_fits (m : Message) : Prop :=
  match m with
  | Write oid _ | WriteAck oid _ | Read oid | ReadAck oid _ _ | Remove oid
  | RemoveAck oid _ => is_u64 oid
  | WriteBulk n oids _ | ReadBulk n oids => is_u64 n /\ Forall is_u64 oids
  | WriteBulkAck _ | ReadBulkAck _ _ => True
  end.

Definition msg_fits (m : TCPBladeMessage) : Prop :=
  is_u64 m.(txnid) /\ - 2 ^ 63 <= m.(error_code) < 2 ^ 63 /\
  message_fits m.(message).

(** [FlatBufferBuilder]/[GetTCPBladeMessage]: the finished buffer of a message,
    the message read back from a buffer ([None]: not a valid buffer), and the
    [n] bytes of [CreateUninitializedVector]. *)
Class Flatbuffers := {
  fb_encode : TCPBladeMessage -> bytes;
  fb_decode : bytes -> option TCPBladeMessage;
  fb_uninit : nat -> bytes;
}.

Class FlatbuffersSpec `{Flatbuffers} := {
  fb_roundtrip m : msg_fits m -> fb_decode (fb_encode m) = Some m;
  fb_uninit_length n : length (fb_uninit n) = n;
}.

(** The bytes of the objects that a message on single objects carries. *)
Definition payload (m : Message) : option nat :=
  match m with
  | Write _ d | ReadAck _ _ d => Some (length d)
  | WriteAck _ _ | Read _ | Remove _ | RemoveAck _ _ => Some 0%nat
  | _ => None
  end.

(** A buffer takes little more than its payload. *)
Class FlatbuffersSize `{Flatbuffers} := {
  fb_overhead : nat;
  fb_encode_size t e m n : payload m = Some n ->
    (length (fb_encode (mk_msg t e m)) <= fb_overhead + n)%nat;
}.

(** ** Sockets *)

(** How a byte stream goes on when no byte is left to read. *)
Inductive stream_end := StreamOpen | StreamClosed | StreamFailed.

(** A connected socket: the segments that have arrived and not been read, what
    happens after them, the bytes the program has sent, and how the kernel will
    answer the next [send] calls ([Some n]: it takes at most [n + 1] bytes,
    [None]: it fails; no entry: it takes everything), and whether the program
    still has it open. *)
Record socket := mk_socket {
  in_segs : list bytes;
  in_end : stream_end;
  sent : bytes;
  send_plan : list (option nat);
  is_open : bool;
}.

Definition set_in (l : list bytes) (s : socket) : socket :=
  mk_socket l s.(in_end) s.(sent) s.(send_plan) s.(is_open).

(** [close(sock)]. *)
Definition sys_close : M socket unit :=
  modify (fun s => mk_socket s.(in_segs) s.(in_end) s.(sent) s.(send_plan) false).

(** [read(sock, buf, n)]: the bytes of the first segment, at most [n]; an empty
    list at the end of the stream, [None] for the result -1. *)
Definition sys_read (n : nat) : M socket (option bytes) := fun s =>
  match s.(in_segs) with
  | seg :: segs =>
      if decide (length seg <= n)%nat then (set_in segs s, Ok (Some seg))
      else (set_in (drop n seg :: segs) s, Ok (Some (take n seg)))
  | [] =>
      match s.(in_end) with
      | StreamOpen => (s, Blocked)
      | StreamClosed => (s, Ok (Some []))
      | StreamFailed => (s, Ok None)
      end
  end.

(** [send(sock, data, len, 0)]: how many bytes were taken, [None] for -1. *)
Definition sys_send (data : bytes) : M socket (option nat) := fun s =>
  match s.(send_plan) with
  | [] => (mk_socket s.(in_segs) s.(in_end) (s.(sent) ++ data) []
             s.(is_open),
           Ok (Some (length data)))
  | None :: plan =>
      (mk_socket s.(in_segs) s.(in_end) s.(sent) plan s.(is_open), Ok None)
  | Some k :: plan =>
      (mk_socket s.(in_segs) s.(in_end) (s.(sent) ++ take (S k) data) plan
         s.(is_open),
       Ok (Some (length (take (S k) data))))
  end.

(** ** The loops over a socket *)

(** [TCPServer::send_all]: send until [to_send == total_sent]; -1 on failure. *)
Fixpoint server_send_all (fuel : nat) (data : bytes) (total_sent : Z)
    : M socket Z :=
  match data with
  | [] => ret total_sent
  | _ =>
      match fuel with
      | O => stop OutOfFuel
      | S fuel =>
          let* r := sys_send data in
          match r with
          | None => ret (-1)
          | Some n =>
              server_send_all fuel (drop n data) (total_sent + Z.of_nat n)
          end
      end
  end.

(** [TCPClient::send_all]: the same loop, which throws on failure. *)
Fixpoint client_send_all (fuel : nat) (data : bytes) (total_sent : Z)
    : M socket Z :=
  match data with
  | [] => ret total_sent
  | _ =>
      match fuel with
      | O => stop OutOfFuel
      | S fuel =>
          let* r := sys_send data in
          match r with
          | None => throw (Exception "Server error sending data to client")
          | Some n =>
              client_send_all fuel (drop n data) (total_sent + Z.of_nat n)
          end
      end
  end.

(** [TCPServer::read_all] and [TCPClient::read_all]: read until [len] bytes
    have arrived; [err] is the exception thrown when [read] fails. *)
Fixpoint read_all (err : exn) (fuel : nat) (len : nat) (buf : bytes)
    : M socket bytes :=
  if decide (len <= length buf)%nat then ret buf else
  match fuel with
  | O => stop OutOfFuel
  | S fuel =>
      let* r := sys_read (len - length buf) in
      match r with
      | None => throw err
      | Some bs => read_all err fuel len (buf ++ bs)
      end
  end.

Definition server_read_all := read_all (Exception "Error reading from client").
Definition client_read_all := read_all (Exception "Error reading from server").

(** [TCPServer::read_from_client]: the 4 bytes of the size; [None] when the
    client has closed the connection before the first byte. *)
Fixpoint read_from_client (fuel : nat) (first_loop : bool) (buf : bytes)
    : M socket (option bytes) :=
  if decide (4 <= length buf)%nat then ret (Some buf) else
  match fuel with
  | O => stop OutOfFuel
  | S fuel =>
      let* r := sys_read (4 - length buf) in
      match r with
      | Some [] => if first_loop then sys_close ;;; ret None
                   else read_from_client fuel false buf
      | None => throw (Exception
          "Server issue in reading socket during size read.")
      | Some bs => read_from_client fuel false (buf ++ bs)
      end
  end.

(** The size header on the wire: [htonl(message_size)] stored in memory. *)
Definition size_header (n : Z) : bytes := le_bytes 4 (htonl n).

(** The size read back: [ntohl] of the 32-bit integer at [buffer.data()]. *)
Definition header_size (buf : bytes) : Z := ntohl (le_val buf).

(** A message on the wire: its size, then its flatbuffer. *)
Definition frame (body : bytes) : bytes :=
  size_header (Z.of_nat (length body)) ++ body.

Arguments size_header : simpl never.
Arguments frame : simpl never.

(** ** Lemmas *)

Lemma length_size_header n : length (size_header n) = 4%nat.
Proof. apply length_le_bytes. Qed.

Lemma header_size_header n : header_size (size_header n) = u32 n.
Proof.
  unfold header_size, size_header. rewrite le_val_le_bytes.
  change (256 ^ Z.of_nat 4) with (2 ^ 32).
  rewrite Z.mod_small by apply htonl_range. apply ntohl_htonl.
Qed.

(** The bytes that a socket has yet to deliver. *)
Definition stream (s : socket) : bytes := concat s.(in_segs).

(** No segment is empty: an empty read means the end of the stream. *)
Definition live (s : socket) : Prop := Forall (fun seg => seg <> []) s.(in_segs).

(** [s'] is [s] after [n] bytes were read from it. *)
Definition after_read (n : nat) (s s' : socket) : Prop :=
  live s' /\ stream s' = drop n (stream s) /\ s'.(in_end) = s.(in_end) /\
  s'.(sent) = s.(sent) /\ s'.(send_plan) = s.(send_plan) /\
  s'.(is_open) = s.(is_open).

Lemma after_read_trans n m s1 s2 s3 :
  after_read n s1 s2 -> after_read m s2 s3 -> after_read (n + m) s1 s3.
Proof.
  unfold after_read. intros (_ & Hb & He & Hs & Hp & Ho) (Hl & Hb' & He' & Hs' & Hp' & Ho').
  split_and!; [done| |congruence..]. by rewrite Hb', Hb, drop_drop.
Qed.

Lemma sys_read_spec n s : (0 < n)%nat -> live s -> stream s <> [] ->
  exists k s', (0 < k <= n)%nat /\ (k <= length (stream s))%nat /\
    sys_read n s = (s', Ok (Some (take k (stream s)))) /\ after_read k s s'.
Proof.
  intros Hn Hl Hne. destruct s as [segs e snt plan o].
  unfold after_read, live, stream, sys_read, set_in in *; simpl in *.
  destruct segs as [|seg segs]; [done|]. apply Forall_cons in Hl as [Hseg Hl].
  assert (0 < length seg)%nat by (destruct seg; simpl; [done|lia]).
  simpl. rewrite length_app.
  destruct (decide (length seg <= n)%nat).
  - exists (length seg). eexists. split; [lia|]. split; [lia|]. split.
    + by rewrite take_app_length.
    + simpl. by rewrite drop_app_length.
  - exists n. eexists. split; [lia|]. split; [lia|]. split.
    + by rewrite take_app_le by lia.
    + simpl. split_and!; [|by rewrite drop_app_le by lia|done..].
      constructor; [|done]. intros Hd%(f_equal length).
      rewrite length_drop in Hd. simpl in Hd. lia.
Qed.

(** [read_all] delivers the next [len] bytes however they are segmented. *)
Lemma read_all_spec err fuel len buf s :
  live s -> (length buf <= len)%nat -> (len - length buf <= fuel)%nat ->
  (len - length buf <= length (stream s))%nat -> exists s',
    read_all err fuel len buf s =
      (s', Ok (buf ++ take (len - length buf) (stream s))) /\
    after_read (len - length buf) s s'.
Proof.
  revert buf s. induction fuel as [|fuel IH]; intros buf s Hl Hb Hf Hs; simpl;
    destruct (decide _) as [Hle|Hgt]; try lia.
  1, 2: replace (len - length buf)%nat with 0%nat by lia; exists s;
    unfold ret; rewrite take_0, app_nil_r; done.
  destruct (sys_read_spec (len - length buf) s)
    as (k & s1 & Hk & Hks & Hread & Haft); [lia|done| |].
  { intros Heq. rewrite Heq in Hs. simpl in Hs. lia. }
  mstep Hread.
  assert (Hlen : length (buf ++ take k (stream s)) = (length buf + k)%nat)
    by (rewrite length_app, length_take; lia).
  pose proof Haft as (Hl1 & Hst & _).
  destruct (IH (buf ++ take k (stream s)) s1) as (s' & Hr & Haft').
  { done. } { lia. } { lia. } { rewrite Hst, length_drop. lia. }
  exists s'. rewrite Hr, Hlen. split.
  - rewrite Hst, <- app_assoc, take_take_drop. do 4 f_equal. lia.
  - rewrite Hlen in Haft'. pose proof (after_read_trans _ _ _ _ _ Haft Haft') as Ht.
    by replace (k + (len - (length buf + k)))%nat
      with (len - length buf)%nat in Ht by lia.
Qed.

(** The size header is read whole however its bytes are segmented. *)
Lemma read_from_client_spec fuel fl buf s :
  live s -> (length buf <= 4)%nat -> (4 - length buf <= fuel)%nat ->
  (4 - length buf <= length (stream s))%nat -> exists s',
    read_from_client fuel fl buf s =
      (s', Ok (Some (buf ++ take (4 - length buf) (stream s)))) /\
    after_read (4 - length buf) s s'.
Proof.
  revert fl buf s. induction fuel as [|fuel IH]; intros fl buf s Hl Hb Hf Hs;
    cbn [read_from_client]; destruct (decide _) as [Hle|Hgt]; try lia.
  1, 2: replace (4 - length buf)%nat with 0%nat by lia; exists s;
    unfold ret; rewrite take_0, app_nil_r; done.
  destruct (sys_read_spec (4 - length buf) s)
    as (k & s1 & Hk & Hks & Hread & Haft); [lia|done| |].
  { intros Heq. rewrite Heq in Hs. simpl in Hs. lia. }
  mstep Hread.
  assert (Htk : length (take k (stream s)) = k) by (rewrite length_take; lia).
  pose proof Haft as (Hl1 & Hst & _).
  destruct (IH false (buf ++ take k (stream s)) s1) as (s' & Hr & Haft').
  { done. } { rewrite length_app. lia. } { rewrite length_app. lia. }
  { rewrite Hst, length_drop, length_app. lia. }
  rewrite length_app, Htk in Hr, Haft'. exists s'. split.
  - destruct (take k (stream s)) as [|b bs] eqn:Htake; [simpl in Htk; lia|].
    rewrite Hr, Hst, <- Htake, <- app_assoc, take_take_drop. do 5 f_equal. lia.
  - pose proof (after_read_trans _ _ _ _ _ Haft Haft') as Ht.
    by replace (k + (4 - (length buf + k)))%nat
      with (4 - length buf)%nat in Ht by lia.
Qed.

Lemma read_from_client_closed fuel s :
  in_segs s = [] -> in_end s = StreamClosed ->
  read_from_client (S fuel) true [] s = ((sys_close s).1, Ok None).
Proof.
  intros Hs He. cbn [read_from_client]. rewrite decide_False by (simpl; lia).
  unfold bind, sys_read. by rewrite Hs, He.
Qed.

(** Reads on an open stream that is too short block. *)
Lemma sys_read_nothing n s : stream s = [] -> live s -> in_end s = StreamOpen ->
  sys_read n s = (s, Blocked).
Proof.
  intros Hst Hl He. unfold sys_read, stream, live in *.
  destruct (in_segs s) as [|seg segs]; [by rewrite He|].
  apply Forall_cons in Hl as [Hseg _]. by destruct seg.
Qed.

Lemma read_all_blocked err fuel len buf s :
  live s -> in_end s = StreamOpen ->
  (length buf + length (stream s) < len)%nat -> (len - length buf <= fuel)%nat ->
  (read_all err fuel len buf s).2 = Blocked.
Proof.
  revert buf s. induction fuel as [|fuel IH]; intros buf s Hl He Hlen Hf; simpl;
    rewrite decide_False by lia; [lia|].
  destruct (decide (stream s = [])) as [Hnil|Hne].
  - unfold bind. by rewrite sys_read_nothing.
  - destruct (sys_read_spec (len - length buf) s)
      as (k & s1 & Hk & Hks & Hr & Hl1 & Hst & He1 & _); [lia|done|done|].
    mstep Hr. apply IH; [done|congruence|rewrite length_app, length_take, Hst, length_drop; lia|].
    rewrite length_app, length_take. lia.
Qed.

Lemma read_from_client_blocked fuel fl buf s :
  live s -> in_end s = StreamOpen ->
  (length buf + length (stream s) < 4)%nat -> (4 - length buf <= fuel)%nat ->
  (read_from_client fuel fl buf s).2 = Blocked.
Proof.
  revert fl buf s. induction fuel as [|fuel IH]; intros fl buf s Hl He Hlen Hf;
    cbn [read_from_client]; rewrite decide_False by lia; [lia|].
  destruct (decide (stream s = [])) as [Hnil|Hne].
  - unfold bind. by rewrite sys_read_nothing.
  - destruct (sys_read_spec (4 - length buf) s)
      as (k & s1 & Hk & Hks & Hr & Hl1 & Hst & He1 & _); [lia|done|done|].
    mstep Hr.
    assert (Htk : length (take k (stream s)) = k) by (rewrite length_take; lia).
    assert (Hgoal : (read_from_client fuel false (buf ++ take k (stream s)) s1).2
                    = Blocked).
    { apply IH; [done|congruence|rewrite length_app, Hst, length_drop; lia|].
      rewrite length_app. lia. }
    destruct (take k (stream s)) eqn:Htake; [simpl in Htk; lia|done].
Qed.

(** The kernel never refuses a [send]. *)
Definition send_ok (s : socket) : Prop := Forall (fun o => o <> None) s.(send_plan).

(** [s'] is [s] after the bytes [data] were sent on it. *)
Definition after_send (data : bytes) (s s' : socket) : Prop :=
  send_ok s' /\ s'.(sent) = s.(sent) ++ data /\ s'.(in_segs) = s.(in_segs) /\
  s'.(in_end) = s.(in_end) /\ s'.(is_open) = s.(is_open).

Lemma sys_send_spec data s : send_ok s -> data <> [] -> exists k s',
  (0 < k <= length data)%nat /\ sys_send data s = (s', Ok (Some k)) /\
  after_send (take k data) s s'.
Proof.
  intros Hok Hne. destruct s as [segs e snt plan o].
  assert (0 < length data)%nat by (destruct data; simpl; [done|lia]).
  unfold after_send, send_ok, sys_send in *; simpl in *.
  destruct plan as [|[k|] plan].
  - exists (length data). eexists. split; [lia|]. split; [done|].
    simpl. by rewrite firstn_all.
  - exists (length (take (S k) data)). eexists.
    split; [rewrite length_take; lia|]. split; [done|]. cbn [sent in_segs in_end send_plan is_open].
    apply Forall_cons in Hok as [_ Hok]. split_and!; auto.
    f_equal. destruct (Nat.le_ge_cases (S k) (length data)).
    + by rewrite length_take_le by lia.
    + rewrite length_take_ge, firstn_all by lia. apply take_ge. lia.
  - by apply Forall_cons in Hok as [? _].
Qed.

Lemma after_send_trans d1 d2 s1 s2 s3 :
  after_send d1 s1 s2 -> after_send d2 s2 s3 -> after_send (d1 ++ d2) s1 s3.
Proof.
  unfold after_send. intros (_ & H1 & H2 & H3 & H4) (H5 & H6 & H7 & H8 & H9).
  split_and!; [done| |congruence..]. by rewrite H6, H1, app_assoc.
Qed.

Lemma after_send_nil s : send_ok s -> after_send [] s s.
Proof. intros. unfold after_send. by rewrite app_nil_r. Qed.

(** Both [send_all] loops send all of the data, whatever the kernel takes. *)
Lemma server_send_all_spec fuel data n s :
  send_ok s -> (length data <= fuel)%nat -> exists s',
    server_send_all fuel data n s = (s', Ok (n + Z.of_nat (length data))) /\
    after_send data s s'.
Proof.
  revert data n s. induction fuel as [|fuel IH]; intros data n s Hok Hf;
    destruct data as [|b data]; simpl in Hf; try lia.
  1, 2: exists s; simpl; rewrite Z.add_0_r; auto using after_send_nil.
  destruct (sys_send_spec (b :: data) s Hok) as (k & s1 & Hk & Hs & Ha); [done|].
  cbn [server_send_all]. mstep Hs.
  destruct (IH (drop k (b :: data)) (n + Z.of_nat k) s1) as (s' & Hr & Ha').
  { apply Ha. } { rewrite length_drop. simpl. simpl in Hk. lia. }
  exists s'. rewrite Hr. split.
  - do 2 f_equal. rewrite length_drop. lia.
  - rewrite <- (take_drop k (b :: data)). eauto using after_send_trans.
Qed.

Lemma client_send_all_spec fuel data n s :
  send_ok s -> (length data <= fuel)%nat -> exists s',
    client_send_all fuel data n s = (s', Ok (n + Z.of_nat (length data))) /\
    after_send data s s'.
Proof.
  revert data n s. induction fuel as [|fuel IH]; intros data n s Hok Hf;
    destruct data as [|b data]; simpl in Hf; try lia.
  1, 2: exists s; simpl; rewrite Z.add_0_r; auto using after_send_nil.
  destruct (sys_send_spec (b :: data) s Hok) as (k & s1 & Hk & Hs & Ha); [done|].
  cbn [client_send_all]. mstep Hs.
  destruct (IH (drop k (b :: data)) (n + Z.of_nat k) s1) as (s' & Hr & Ha').
  { apply Ha. } { rewrite length_drop. simpl. simpl in Hk. lia. }
  exists s'. rewrite Hr. split.
  - do 2 f_equal. rewrite length_drop. lia.
  - rewrite <- (take_drop k (b :: data)). eauto using after_send_trans.
Qed.

(** ** Properties *)

(** Send a body the way both ends do: the size, then the body. *)
Definition send_frame (body : bytes) : M socket Z :=
  let* _ := server_send_all 4 (size_header (Z.of_nat (length body))) 0 in
  server_send_all (length body) body 0.

(** Read a message the way the server does: the size, then the body. *)
Definition receive_frame (fuel : nat) : M socket (option bytes) :=
  let* hdr := read_from_client 4 true [] in
  match hdr with
  | None => ret None
  | Some buf =>
      let* body := server_read_all fuel (Z.to_nat (header_size buf)) [] in
      ret (Some body)
  end.

Lemma send_frame_spec body s : send_ok s -> exists s',
  send_frame body s = (s', Ok (Z.of_nat (length body))) /\
  after_send (frame body) s s'.
Proof.
  intros Hok. unfold send_frame.
  destruct (server_send_all_spec 4 (size_header (Z.of_nat (length body))) 0 s)
    as (s1 & H1 & Ha1); [done|by rewrite length_size_header|].
  destruct (server_send_all_spec (length body) body 0 s1) as (s2 & H2 & Ha2);
    [apply Ha1|done|].
  exists s2. mstep H1. rewrite H2. split; [done|].
  eapply after_send_trans; eauto.
Qed.

Lemma receive_frame_spec fuel body rest s :
  live s -> stream s = frame body ++ rest ->
  Z.of_nat (length body) < 2 ^ 32 -> (length body <= fuel)%nat -> exists s',
    receive_frame fuel s = (s', Ok (Some body)) /\
    after_read (4 + length body) s s'.
Proof.
  intros Hl Hst Hlen Hf. unfold frame in Hst. rewrite <- app_assoc in Hst.
  assert (Hh : length (size_header (Z.of_nat (length body))) = 4%nat)
    by apply length_size_header.
  destruct (read_from_client_spec 4 true [] s) as (s1 & H1 & Ha1);
    [done|simpl; lia|simpl; lia|rewrite Hst, length_app; simpl; lia|].
  rewrite Hst in H1. simpl (length []) in H1. rewrite Nat.sub_0_r in H1.
  rewrite take_app_le, (take_ge (size_header _)) in H1 by lia.
  unfold receive_frame. mstep H1. simpl ([] ++ _).
  rewrite header_size_header, u32_small, Nat2Z.id by (split; lia).
  pose proof Ha1 as (Hl1 & Hs1 & _). simpl in Hs1.
  assert (Hst1 : stream s1 = body ++ rest).
  { rewrite Hs1, Hst. by apply drop_app_length'. }
  destruct (read_all_spec (Exception "Error reading from client") fuel
              (length body) [] s1) as (s2 & H2 & Ha2);
    [done|simpl; lia|simpl; lia|rewrite Hst1, length_app; simpl; lia|].
  unfold server_read_all. mstep H2. exists s2. unfold ret.
  simpl (length []) in *. rewrite Nat.sub_0_r in *. rewrite Hst1.
  rewrite take_app_length. split; [done|].
  exact (after_read_trans 4 (length body) s s1 s2 Ha1 Ha2).
Qed.

(** C27: framing round trip.  A body sent as size and bytes, whatever lengths
    the kernel takes at each [send], then delivered to the peer in any
    segmentation, is read back exactly, and the next message is left intact. *)
Theorem frame_roundtrip (fuel : nat) (body rest : bytes) (out inp : socket) :
  send_ok out -> sent out = [] -> live inp ->
  stream inp = sent (send_frame body out).1 ++ rest ->
  Z.of_nat (length body) < 2 ^ 32 -> (length body <= fuel)%nat ->
  exists inp', receive_frame fuel inp = (inp', Ok (Some body)) /\
    stream inp' = rest /\ live inp'.
Proof.
  intros Hok Hsent Hl Hst Hlen Hf.
  destruct (send_frame_spec body out Hok) as (out' & Hs & (_ & Ho & _)).
  rewrite Hs in Hst. cbn [fst] in Hst. rewrite Ho, Hsent, app_nil_l in Hst.
  destruct (receive_frame_spec fuel body rest inp) as (inp' & Hr & Hl' & Hs' & _);
    [done..|].
  exists inp'. split_and!; [done| |done]. rewrite Hs', Hst.
  apply (drop_app_length' (frame body)). unfold frame.
  by rewrite length_app, length_size_header.
Qed.

Lemma frame_roundtrip_witness :
  exists inp',
    receive_frame 3 (mk_socket [[x00; x00]; [x00]; [x03; x61; x62]; [x63; x78]]
                       StreamOpen [] [] true) = (inp', Ok (Some [x61; x62; x63])) /\
    stream inp' = [x78] /\ live inp'.
Proof.
  apply (frame_roundtrip 3 [x61; x62; x63] [x78]
           (mk_socket [] StreamOpen [] [Some 0%nat; Some 1%nat] true)); try done.
  - repeat constructor; done.
  - repeat constructor; done.
Defined.

(** A peer that closes the connection inside a message body makes
    [read_all] spin forever: [read] returns 0, which is not an error for the
    loop, so no amount of fuel lets it return or fail. *)
Theorem read_all_spins_on_eof (err : exn) (fuel len : nat) (s : socket) :
  live s -> in_end s = StreamClosed -> (length (stream s) < len)%nat ->
  (read_all err fuel len [] s).2 = OutOfFuel.
Proof.
  intros Hl He Hlen.
  enough (Hgen : forall buf s, live s -> in_end s = StreamClosed ->
    (length buf + length (stream s) < len)%nat ->
    (read_all err fuel len buf s).2 = OutOfFuel) by (apply Hgen; simpl; auto).
  clear s Hl He Hlen. induction fuel as [|fuel IH]; intros buf s Hl He Hlen;
    simpl; rewrite decide_False by lia; [done|].
  destruct (decide (stream s = [])) as [Hnil|Hne].
  - assert (Hsegs : in_segs s = []).
    { unfold live, stream in *. destruct (in_segs s) as [|seg segs]; [done|].
      apply Forall_cons in Hl as [Hseg _]. by destruct seg. }
    assert (Hr : sys_read (len - length buf) s = (s, Ok (Some [])))
      by (unfold sys_read; by rewrite Hsegs, He).
    mstep Hr. rewrite app_nil_r. apply IH; [done|done|lia].
  - destruct (sys_read_spec (len - length buf) s)
      as (k & s1 & Hk & Hks & Hr & Hl1 & Hst & He1 & _); [lia|done|done|].
    mstep Hr. apply IH; [done|congruence|].
    rewrite length_app, length_take, Hst, length_drop. lia.
Qed.

Lemma read_all_spins_on_eof_witness :
  (read_all (Exception "x") 1000 4 []
     (mk_socket [[x01; x02]] StreamClosed [] [] true)).2 = OutOfFuel.
Proof.
  apply read_all_spins_on_eof; [repeat constructor; done|done|simpl; lia].
Defined.
