(* ===== verification/Codec.v ===== *)
(** * A concrete message format

    The flatbuffers of the program are generated code and a parameter of the
    model ([Wire.Flatbuffers]).  This file instantiates the parameter with a
    small format and proves its round trip, so that the theorems that assume
    [FlatbuffersSpec] can be applied to concrete messages; it does the same for
    the user's [Serializer]. *)

From stdpp Require Import gmap list strings option.
From S2P Require Import Prelude Common Wire.

Module Codec.

(** A reader consumes a prefix of the bytes. *)
Definition reader (A : Type) : Type := bytes -> option (A * bytes).

Definition get_byte : reader byte := fun bs =>
  match bs with b :: bs => Some (b, bs) | [] => None end.

Definition get_u64 : reader Z := fun bs =>
  if decide (8 <= length bs)%nat then Some (le_val (take 8 bs), drop 8 bs)
  else None.

Definition put_bool (b : bool) : bytes := [if b then x01 else x00].
Definition get_bool : reader bool := fun bs =>
  match bs with
  | x00 :: bs => Some (false, bs)
  | x01 :: bs => Some (true, bs)
  | _ => None
  end.

(** Ids, each behind a continuation byte. *)
Fixpoint put_ids (l : list Z) : bytes :=
  match l with
  | [] => [x00]
  | z :: l => x01 :: le_bytes 8 z ++ put_ids l
  end.

Fixpoint get_ids (fuel : nat) : reader (list Z) := fun bs =>
  match fuel, bs with
  | _, x00 :: bs => Some ([], bs)
  | S fuel, x01 :: bs =>
      '(z, bs) ← get_u64 bs; '(l, bs) ← get_ids fuel bs; Some (z :: l, bs)
  | _, _ => None
  end.

Definition put_message (m : Message) : bytes :=
  match m with
  | Write oid d => x00 :: le_bytes 8 oid ++ d
  | WriteAck oid b => x01 :: le_bytes 8 oid ++ put_bool b
  | WriteBulk n l d => x02 :: le_bytes 8 n ++ put_ids l ++ d
  | WriteBulkAck b => x03 :: put_bool b
  | Read oid => x04 :: le_bytes 8 oid
  | ReadAck oid b d => x05 :: le_bytes 8 oid ++ put_bool b ++ d
  | ReadBulk n l => x06 :: le_bytes 8 n ++ put_ids l
  | ReadBulkAck b d => x07 :: put_bool b ++ d
  | Remove oid => x08 :: le_bytes 8 oid
  | RemoveAck oid b => x09 :: le_bytes 8 oid ++ put_bool b
  end.

Definition get_message (bs : bytes) : option Message :=
  '(tag, bs) ← get_byte bs;
  match tag with
  | x00 => '(oid, d) ← get_u64 bs; Some (Write oid d)
  | x01 => '(oid, bs) ← get_u64 bs; '(b, _) ← get_bool bs; Some (WriteAck oid b)
  | x02 => '(n, bs) ← get_u64 bs; '(l, d) ← get_ids (length bs) bs;
           Some (WriteBulk n l d)
  | x03 => '(b, _) ← get_bool bs; Some (WriteBulkAck b)
  | x04 => '(oid, _) ← get_u64 bs; Some (Read oid)
  | x05 => '(oid, bs) ← get_u64 bs; '(b, d) ← get_bool bs; Some (ReadAck oid b d)
  | x06 => '(n, bs) ← get_u64 bs; '(l, _) ← get_ids (length bs) bs;
           Some (ReadBulk n l)
  | x07 => '(b, d) ← get_bool bs; Some (ReadBulkAck b d)
  | x08 => '(oid, _) ← get_u64 bs; Some (Remove oid)
  | x09 => '(oid, bs) ← get_u64 bs; '(b, _) ← get_bool bs; Some (RemoveAck oid b)
  | _ => None
  end.

(** The error code is a signed 64-bit field. *)
Definition i64_of_u64 (z : Z) : Z := if z <? 2 ^ 63 then z else z - 2 ^ 64.

Definition encode (m : TCPBladeMessage) : bytes :=
  le_bytes 8 m.(txnid) ++ le_bytes 8 m.(error_code) ++ put_message m.(message).

Definition decode (bs : bytes) : option TCPBladeMessage :=
  '(t, bs) ← get_u64 bs; '(e, bs) ← get_u64 bs; m ← get_message bs;
  Some (mk_msg t (i64_of_u64 e) m).

Lemma get_u64_le_bytes z rest :
  get_u64 (le_bytes 8 z ++ rest) = Some (z mod 2 ^ 64, rest).
Proof.
  unfold get_u64. rewrite length_app, length_le_bytes, decide_True by lia.
  rewrite take_app_length', drop_app_length' by (by rewrite length_le_bytes).
  by rewrite le_val_le_bytes.
Qed.

Lemma get_u64_fits z rest : is_u64 z ->
  get_u64 (le_bytes 8 z ++ rest) = Some (z, rest).
Proof. intros Hz. rewrite get_u64_le_bytes. by rewrite Z.mod_small. Qed.

Lemma get_u64_last z : is_u64 z -> get_u64 (le_bytes 8 z) = Some (z, []).
Proof. intros Hz. rewrite <- (app_nil_r (le_bytes 8 z)). by apply get_u64_fits. Qed.

Lemma get_put_bool b rest : get_bool (put_bool b ++ rest) = Some (b, rest).
Proof. by destruct b. Qed.

Lemma get_put_ids fuel l rest : Forall is_u64 l -> (length l <= fuel)%nat ->
  get_ids fuel (put_ids l ++ rest) = Some (l, rest).
Proof.
  intros Hl. revert fuel. induction Hl as [|z l Hz Hl IH]; intros fuel Hf;
    destruct fuel as [|fuel]; simpl in Hf; try lia; try done.
  cbn [put_ids get_ids app]. rewrite <- app_assoc, get_u64_fits by done. simpl.
  rewrite IH by lia. done.
Qed.

Lemma length_put_ids l : (length l <= length (put_ids l))%nat.
Proof.
  induction l as [|z l IH]; cbn [length put_ids]; [lia|]. rewrite length_app. lia.
Qed.

Lemma get_put_message m : message_fits m -> get_message (put_message m) = Some m.
Proof.
  destruct m; cbn [message_fits put_message]; unfold get_message;
    cbn [get_byte mbind option_bind]; intros Hm; try destruct Hm as [Hn Hids];
    rewrite ?get_u64_fits, ?get_u64_last by done; cbn [mbind option_bind];
    rewrite ?get_put_bool; try done; try by destruct success.
  - rewrite get_put_ids; [done|done|].
    rewrite length_app. pose proof (length_put_ids oids). lia.
  - rewrite <- (app_nil_r (put_ids oids)) at 2.
    rewrite get_put_ids; [done|done|apply length_put_ids].
Qed.

#[global] Instance flatbuffers : Flatbuffers := {
  fb_encode := encode;
  fb_decode := decode;
  fb_uninit n := replicate n x00;
}.

#[global] Instance flatbuffers_spec : FlatbuffersSpec.
Proof.
  split; [|intros; apply length_replicate].
  intros [t e m] (Ht & He & Hm). cbn [fb_encode fb_decode flatbuffers].
  unfold encode, decode. cbn [txnid error_code message] in *.
  rewrite get_u64_fits by done. cbn [mbind option_bind].
  rewrite get_u64_le_bytes. cbn [mbind option_bind].
  rewrite get_put_message by done. cbn [mbind option_bind]. do 2 f_equal.
  unfold i64_of_u64. destruct (Z.lt_ge_cases e 0).
  - replace (e mod 2 ^ 64) with (e + 2 ^ 64)
      by (apply Z.mod_unique with (-1); lia).
    destruct (Z.ltb_spec (e + 2 ^ 64) (2 ^ 63)); lia.
  - rewrite Z.mod_small by lia. destruct (Z.ltb_spec e (2 ^ 63)); lia.
Qed.

#[global] Program Instance flatbuffers_size : FlatbuffersSize := { fb_overhead := 26 }.
Next Obligation.
  intros t e m n Hn. cbn [fb_encode flatbuffers]. unfold encode.
  cbn [txnid error_code message]. rewrite !length_app, !length_le_bytes.
  destruct m; simpl in Hn; simplify_eq; unfold put_message, put_bool;
    cbn [length]; rewrite ?length_app, ?length_le_bytes; cbn [length]; lia.
Qed.

(** Objects that are their own bytes. *)
#[global] Instance raw_serializer : Serializer bytes := {
  ser_size v := Z.of_nat (length v);
  ser_serialize v := v;
}.
#[global] Instance raw_serializer_spec : SerializerSpec bytes.
Proof. by split. Qed.

End Codec.
