(* ===== verification/TCPServer.v ===== *)
(** * The TCP server ([src/server/TCPServer.cpp])

    [TCPServer]: its state, one definition per request of [process], the whole
    of [process] over a socket, and the poll loop with its table of file
    descriptors.  The backend is any [StorageBackend].  The second half is the
    abstract server, a pair of a byte counter and a finite map, and the theorem
    that the requests implement it. *)

From stdpp Require Import gmap list strings.
From S2P Require Import Prelude Common Storage Wire Codec.

Module TCPServer.

(** [struct pollfd]. *)
Record pollfd := mk_pollfd { fd : Z; events : Z; revents : Z }.

Definition POLLIN : Z := 1.
Definition POLLHUP : Z := 16.

Section server.
Context {B : Type} `{StorageBackend B} `{Flatbuffers}.

Record t := mk {
  port_ : Z;
  server_sock_ : Z;
  pool_size : Z;
  curr_size : Z;
  max_fds : Z;
  curr_index : Z;
  fds : list pollfd;
  mem : B;
}.

Definition set_curr_size (c : Z) (s : t) : t :=
  mk s.(port_) s.(server_sock_) s.(pool_size) c s.(max_fds) s.(curr_index)
     s.(fds) s.(mem).
Definition set_mem (b : B) (s : t) : t :=
  mk s.(port_) s.(server_sock_) s.(pool_size) s.(curr_size) s.(max_fds)
     s.(curr_index) s.(fds) b.
Definition set_fds (l : list pollfd) (s : t) : t :=
  mk s.(port_) s.(server_sock_) s.(pool_size) s.(curr_size) s.(max_fds)
     s.(curr_index) l s.(mem).
Definition set_curr_index (i : Z) (s : t) : t :=
  mk s.(port_) s.(server_sock_) s.(pool_size) s.(curr_size) s.(max_fds)
     i s.(fds) s.(mem).
Definition set_server_sock (n : Z) (s : t) : t :=
  mk s.(port_) n s.(pool_size) s.(curr_size) s.(max_fds)
     s.(curr_index) s.(fds) s.(mem).

(** A call on [mem]. *)
Definition on_mem {A} (m : M B A) : M t A := zoom mem set_mem m.

(** [CreateTCPBladeMessage(builder, txn_id, error_code, type, ack)]. *)
Definition ack (txn_id : TxnID) (error_code : ErrorCodes) (m : Message)
    : TCPBladeMessage := mk_msg txn_id (error_code_to_Z error_code) m.

(** ** The requests *)

(** [if (mem->exists(oid)) curr_size -= mem->size(oid);] *)
Definition uncount (oid : ObjectID) : M t unit :=
  let* e := on_mem (sb_exists oid) in
  if e then
    let* n := on_mem (sb_size oid) in
    modify (fun s => set_curr_size (u64 (s.(curr_size) - n)) s)
  else ret tt.

Definition process_Write (txn_id : TxnID) (oid : ObjectID) (data : bytes)
    : M t TCPBladeMessage :=
  uncount oid ;;;
  let* s := gets id in
  if s.(pool_size) <? u64 (s.(curr_size) + Z.of_nat (length data)) then
    ret (ack txn_id kServerMemoryErrorException (WriteAck oid false))
  else
    let* _ := on_mem (sb_put oid (MemSlice.of_fb_vector data)) in
    modify (fun s => set_curr_size
              (u64 (s.(curr_size) + Z.of_nat (length data))) s) ;;;
    ret (ack txn_id kOk (WriteAck oid true)).

(** The loop of WRITE-BULK over the ids; [data_ptr] is the memory from the
    cursor to the end of the vector.  [false]: the store is full. *)
Fixpoint write_bulk (oids : list ObjectID) (data_ptr : bytes) : M t bool :=
  match oids with
  | [] => ret true
  | oid :: oids =>
      uncount oid ;;;
      let* word := stop (read_at 0 8 data_ptr) in
      let obj_size := ntohl (u32 (le_val word)) in
      let data_ptr := drop 8 data_ptr in
      let* s := gets id in
      if s.(pool_size) <? u64 (s.(curr_size) + obj_size) then ret false
      else
        let* obj := stop (read_at 0 (Z.to_nat obj_size) data_ptr) in
        let* _ := on_mem (sb_put oid (MemSlice.of_range obj)) in
        modify (fun s => set_curr_size (u64 (s.(curr_size) + obj_size)) s) ;;;
        write_bulk oids (drop (Z.to_nat obj_size) data_ptr)
  end.

(** [assert(num_oids = oids->size())] assigns, and so aborts on no ids. *)
Definition process_WriteBulk (txn_id : TxnID) (num_oids : Z)
    (oids : list ObjectID) (data : bytes) : M t TCPBladeMessage :=
  if (Z.of_nat (length oids) =? 0) then stop Exited else
  let* success := write_bulk oids data in
  if success : bool then ret (ack txn_id kOk (WriteBulkAck true))
  else ret (ack txn_id kServerMemoryErrorException (WriteBulkAck false)).

Definition process_Read (txn_id : TxnID) (oid : ObjectID) : M t TCPBladeMessage :=
  let* e := on_mem (sb_exists oid) in
  if e : bool then
    let* s := on_mem (sb_get oid) in
    let* data := stop (MemSlice.get s) in
    ret (ack txn_id kOk (ReadAck oid true data))
  else ret (ack txn_id kNoSuchIDException (ReadAck oid false [])).

(** READ BULK: the size to send back, a [uint32_t]; [None]: a missing id. *)
Fixpoint bulk_size (oids : list ObjectID) (data_size : Z) : M t (option Z) :=
  match oids with
  | [] => ret (Some data_size)
  | oid :: oids =>
      let* e := on_mem (sb_exists oid) in
      if e : bool then
        let data_size := u32 (data_size + 4) in
        let* n := on_mem (sb_size oid) in
        bulk_size oids (u32 (data_size + n))
      else ret None
  end.

(** READ BULK: copy size and content of the ids from index [i] on, [n] of them;
    [raw_mem] is the offset of the cursor in the vector [buf]. *)
Fixpoint bulk_copy (oids : list ObjectID) (i n : nat) (raw_mem : nat)
    (buf : bytes) : M t bytes :=
  match n with
  | O => ret buf
  | S n =>
      match oids !! i with
      | None => undefined
      | Some oid =>
          let* sl := on_mem (sb_get oid) in
          let* oid_data := stop (MemSlice.get sl) in
          let size := u32 (Z.of_nat (length oid_data)) in
          let* buf := stop (write_at raw_mem (le_bytes 4 (htonl size)) buf) in
          let* buf := stop (write_at (raw_mem + 4)
                              (take (Z.to_nat size) oid_data) buf) in
          bulk_copy oids (S i) n (raw_mem + 4 + Z.to_nat size) buf
      end
  end.

Definition process_ReadBulk (txn_id : TxnID) (num_oids : Z)
    (oids : list ObjectID) : M t TCPBladeMessage :=
  let num_oids := u32 num_oids in
  let* sz := bulk_size oids 4 in
  match sz with
  | None => ret (ack txn_id kNoSuchIDException (ReadBulkAck false []))
  | Some data_size =>
      let buf := fb_uninit (Z.to_nat data_size) in
      let* buf := stop (write_at 0 (le_bytes 4 num_oids) buf) in
      let* buf := bulk_copy oids 0 (Z.to_nat num_oids) 4 buf in
      ret (ack txn_id kOk (ReadBulkAck true buf))
  end.

(** The reply is built as a [WriteAck] table, which has the layout of
    [RemoveAck], under the type tag [Message_RemoveAck]. *)
Definition process_Remove (txn_id : TxnID) (oid : ObjectID) : M t TCPBladeMessage :=
  let* e := on_mem (sb_exists oid) in
  if e : bool then
    let* n := on_mem (sb_size oid) in
    modify (fun s => set_curr_size (u64 (s.(curr_size) - n)) s) ;;;
    let* _ := on_mem (sb_delet oid) in
    ret (ack txn_id kOk (RemoveAck oid true))
  else ret (ack txn_id kOk (RemoveAck oid false)).

(** The [switch] of [process]. *)
Definition dispatch (msg : TCPBladeMessage) : M t TCPBladeMessage :=
  let txn_id := msg.(txnid) in
  match msg.(message) with
  | Write oid data => process_Write txn_id oid data
  | WriteBulk n oids data => process_WriteBulk txn_id n oids data
  | Read oid => process_Read txn_id oid
  | ReadBulk n oids => process_ReadBulk txn_id n oids
  | Remove oid => process_Remove txn_id oid
  | _ => throw (Exception "Unknown message type received from client.")
  end.

(** ** [process]: one message on a socket *)

Definition on_server {A} (m : M t A) : M (t * socket) A :=
  zoom fst (fun s p => (s, p.2)) m.
Definition on_sock {A} (m : M socket A) : M (t * socket) A :=
  zoom snd (fun k p => (p.1, k)) m.

Definition process (fuel : nat) : M (t * socket) bool :=
  let* hdr := on_sock (read_from_client fuel true []) in
  match hdr with
  | None => ret false
  | Some buffer =>
      let incoming_size := header_size buffer in
      let* buffer := on_sock (server_read_all fuel (Z.to_nat incoming_size) []) in
      match fb_decode buffer with
      | None => undefined
      | Some msg =>
          let* reply := on_server (dispatch msg) in
          let body := fb_encode reply in
          let message_size := i32 (Z.of_nat (length body)) in
          if message_size <? 0 then undefined else
          let* n := on_sock (server_send_all fuel (size_header message_size) 0) in
          if n =? -1 then ret false else
          let* n := on_sock (server_send_all fuel
                               (take (Z.to_nat message_size) body) 0) in
          if negb (n =? message_size) then ret false else ret true
      end
  end.

(** ** Construction and the listening socket *)

(** [TCPServer::TCPServer] with the backend the caller's option names;
    [make] builds the backend ([None]: an unknown option). *)
Definition construct (port pool_size_ : Z) (make : option B) (max_fds_ : Z)
    : outcome (t) :=
  let max_fds := u64 (max_fds_ + 1) in
  if (2 ^ 63 - 1) / 8 <? max_fds then
    Throw (LengthError "cannot create std::vector larger than max_size()")
  else if max_fds =? 0 then
    Throw (Exception "Max_fds value too high, overflow occurred.")
  else match make with
  | None => Throw (RuntimeError "Wrong backend option")
  | Some b =>
      let s := mk port 0 pool_size_ 0 max_fds 0
                  (replicate (Z.to_nat max_fds) (mk_pollfd 0 0 0)) b in
      match on_mem sb_init s with
      | (s, Ok _) => Ok s
      | (_, Throw e) => Throw e
      | (_, Undefined) => Undefined
      | (_, Exited) => Exited
      | (_, Blocked) => Blocked
      | (_, OutOfFuel) => OutOfFuel
      end
  end.

(** The results of the system calls of [init]. *)
Record init_calls := mk_init {
  r_socket : Z;
  r_reuseaddr : Z;
  r_nodelay : Z;
  r_reuseport : Z;
  r_bind : Z;
  r_listen : Z;
}.

(** [fds.at(i) = ...]: checked access. *)
Definition fds_update (i : Z) (f : pollfd -> pollfd) : M t unit :=
  let* s := gets id in
  match s.(fds) !! Z.to_nat i with
  | None => throw (OutOfRange "vector::_M_range_check")
  | Some p => modify (fun s => set_fds (<[Z.to_nat i := f p]> s.(fds)) s)
  end.

Definition set_fd (n : Z) (p : pollfd) : pollfd :=
  mk_pollfd n p.(events) p.(revents).
Definition set_events (n : Z) (p : pollfd) : pollfd :=
  mk_pollfd p.(fd) n p.(revents).
Definition set_revents (n : Z) (p : pollfd) : pollfd :=
  mk_pollfd p.(fd) p.(events) n.

(** Enter a socket at [curr_index], which [init] and [loop] do. *)
Definition add_fd (sock : Z) : M t unit :=
  let* i := gets curr_index in
  fds_update i (set_fd sock) ;;;
  fds_update i (set_events POLLIN) ;;;
  modify (fun s => set_curr_index (u64 (s.(curr_index) + 1)) s).

Definition init (r : init_calls) : M t unit :=
  modify (set_server_sock r.(r_socket)) ;;;
  if r.(r_socket) <? 0 then
    throw (ConnectionException "Server error creating socket")
  else if negb (r.(r_reuseaddr) =? 0) then
    throw (ConnectionException "Error forcing port binding")
  else if negb (r.(r_nodelay) =? 0) then
    throw (ConnectionException "Error setting socket options.")
  else if negb (r.(r_reuseport) =? 0) then
    throw (ConnectionException "Error forcing port binding")
  else if r.(r_bind) <? 0 then
    throw (ConnectionException "Error binding in port")
  else if r.(r_listen) =? -1 then
    throw (ConnectionException "Error listening on port")
  else add_fd r.(r_socket).

(** ** The poll loop *)

(** The kernel's side: the connections by file descriptor, and the results of
    the next [accept] calls ([None]: -1). *)
Record net := mk_net {
  socks : gmap Z socket;
  accepts : list (option (Z * socket));
}.

Inductive poll_result := PollError | PollTimeout | PollReady (flags : list Z).

Definition on_table {A} (m : M t A) : M (t * net) A :=
  zoom fst (fun s p => (s, p.2)) m.

(** A file descriptor that is not open: every [read] on it fails. *)
Definition bad_socket : socket := mk_socket [] StreamFailed [] [] false.

Definition sock_of (n : Z) (w : net) : socket := default bad_socket (w.(socks) !! n).
Definition set_sock (n : Z) (k : socket) (w : net) : net :=
  mk_net (<[n := k]> w.(socks)) w.(accepts).

(** [process(sock)] on the descriptor [n], and [close(n)]. *)
Definition process_fd (fuel : nat) (n : Z) : M (t * net) bool :=
  zoom (fun p => (p.1, sock_of n p.2)) (fun q p => (q.1, set_sock n q.2 p.2))
       (process fuel).
Definition close_fd (n : Z) : M (t * net) unit :=
  zoom (fun p => sock_of n p.2) (fun k p => (p.1, set_sock n k p.2)) sys_close.

(** [accept(server_sock_, ...)]. *)
Definition sys_accept : M (t * net) Z := fun '(s, w) =>
  match w.(accepts) with
  | [] => ((s, w), Blocked)
  | None :: l => ((s, mk_net w.(socks) l), Ok (-1))
  | Some (n, k) :: l => ((s, mk_net (<[n := k]> w.(socks)) l), Ok n)
  end.

(** [poll]: the flags of the first [curr_index] descriptors; those that are
    ignored get none. *)
Definition poll_flags (flags : list Z) : M t unit :=
  modify (fun s => set_fds
    (imap (fun i p => if Z.of_nat i <? s.(curr_index) then
             set_revents (if p.(fd) <? 0 then 0 else default 0 (flags !! i)) p
           else p) s.(fds)) s).

(** The body of the loop over the descriptors. *)
Definition loop_fd (fuel : nat) (i : Z) : M (t * net) unit :=
  let* s := gets fst in
  match s.(fds) !! Z.to_nat i with
  | None => throw (OutOfRange "vector::_M_range_check")
  | Some curr_fd =>
      if curr_fd.(fd) =? -1 then ret tt else
      (if negb (curr_fd.(revents) =? POLLIN) then
         if negb (Z.land curr_fd.(revents) POLLHUP =? 0) then
           close_fd curr_fd.(fd) ;;; on_table (fds_update i (set_fd (-1)))
         else ret tt
       else if curr_fd.(fd) =? s.(server_sock_) then
         let* newsock := sys_accept in
         if newsock <? 0 then throw (RuntimeError "Error accepting socket")
         else if s.(curr_index) =? s.(max_fds) then close_fd newsock
         else on_table (add_fd newsock)
       else
         let* ok := process_fd fuel curr_fd.(fd) in
         if ok : bool then ret tt else on_table (fds_update i (set_fd (-1)))) ;;;
      on_table (fds_update i (set_revents 0))
  end.

(** [for (uint64_t i = 0; i < curr_index; i++)]; [n] bounds the rounds. *)
Fixpoint loop_for (n fuel : nat) (i : Z) : M (t * net) unit :=
  let* s := gets fst in
  if i <? s.(curr_index) then
    match n with
    | O => stop OutOfFuel
    | S n => loop_fd fuel i ;;; loop_for n fuel (i + 1)
    end
  else ret tt.

Definition testRemove (x : pollfd) : M t bool :=
  (if x.(fd) =? -1 then
     modify (fun s => set_curr_index (u64 (s.(curr_index) - 1)) s)
   else ret tt) ;;; ret (x.(fd) =? -1).

(** [std::remove_if(fds.begin(), fds.end(), testRemove)] from index [first] on,
    the kept elements being moved to [result]. *)
Fixpoint remove_if (n first result : nat) : M t nat :=
  match n with
  | O => ret result
  | S n =>
      let* s := gets id in
      match s.(fds) !! first with
      | None => undefined
      | Some x =>
          let* gone := testRemove x in
          if gone : bool then remove_if n (S first) result
          else
            modify (fun s => set_fds (<[result := x]> s.(fds)) s) ;;;
            remove_if n (S first) (S result)
      end
  end.

(** If at max capacity, try to make room. *)
Definition make_room : M t unit :=
  let* s := gets id in
  if s.(curr_index) =? s.(max_fds) then
    let* _ := remove_if (length s.(fds)) 0 0 in ret tt
  else ret tt.

(** One round of [while (1)]. *)
Definition loop_round (fuel : nat) (r : poll_result) : M (t * net) unit :=
  match r with
  | PollError => throw (ConnectionException "Server error calling poll.")
  | PollTimeout => on_table (poll_flags [])
  | PollReady flags =>
      on_table (poll_flags flags) ;;;
      let* s := gets fst in
      loop_for (Z.to_nat s.(max_fds)) fuel 0
  end ;;;
  on_table make_room.

(** [loop]: one round per return of [poll]; with none left, [poll] blocks. *)
Fixpoint loop (fuel : nat) (rs : list poll_result) : M (t * net) unit :=
  match rs with
  | [] => stop Blocked
  | r :: rs => loop_round fuel r ;;; loop fuel rs
  end.

End server.
Arguments t : clear implicits.

(** The [backend] option of the constructor. *)
Definition make_backend {D} `{RocksDB D} (backend storage_path : string)
    : option (AnyBackend.t D) :=
  if String.eqb backend "Memory" then
    Some (AnyBackend.Memory (MemoryBackend.ctor 100000000))
  else if String.eqb backend "Storage" then
    Some (AnyBackend.Storage (NVStorageBackend.ctor storage_path))
  else None.

Definition ctor {D} `{RocksDB D} (port pool_size_ : Z)
    (backend storage_path : string) (max_fds_ : Z) : outcome (t (AnyBackend.t D)) :=
  construct port pool_size_ (make_backend backend storage_path) max_fds_.

(** ** The abstract server *)

(** The bytes accounted for, and the objects. *)
Record astate := mk_a { a_curr : Z; a_map : gmap Z bytes }.

(** The requests a client makes. *)
Inductive request :=
| RWrite (oid : ObjectID) (v : bytes)
| RWriteBulk (objs : list (ObjectID * bytes))
| RRead (oid : ObjectID)
| RReadBulk (oids : list ObjectID)
| RRemove (oid : ObjectID).

Definition a_uncount (oid : ObjectID) (a : astate) : Z :=
  match a.(a_map) !! oid with
  | Some v => u64 (a.(a_curr) - Z.of_nat (length v))
  | None => a.(a_curr)
  end.

Definition a_write (pool : Z) (oid : ObjectID) (v : bytes) (a : astate)
    : astate * bool :=
  let c := a_uncount oid a in
  let c' := u64 (c + Z.of_nat (length v)) in
  if pool <? c' then (mk_a c a.(a_map), false)
  else (mk_a c' (<[oid := v]> a.(a_map)), true).

(** Writes in order, up to the first that does not fit. *)
Fixpoint a_write_bulk (pool : Z) (objs : list (ObjectID * bytes)) (a : astate)
    : astate * bool :=
  match objs with
  | [] => (a, true)
  | (oid, v) :: objs =>
      let '(a', fits) := a_write pool oid v a in
      if fits : bool then a_write_bulk pool objs a' else (a', false)
  end.

Lemma a_write_bulk_other pool objs a a' oid :
  a_write_bulk pool objs a = (a', true) -> oid ∉ objs.*1 ->
  a_map a' !! oid = a_map a !! oid.
Proof.
  revert a. induction objs as [|[o v] objs IH]; intros a Hw Hno; simpl in Hw.
  { by simplify_eq. }
  rewrite fmap_cons, not_elem_of_cons in Hno. destruct Hno as [Hne Hno].
  unfold a_write in Hw. destruct (pool <? _); [done|].
  rewrite (IH _ Hw Hno). simpl. by rewrite lookup_insert_ne.
Qed.

(** An accepted bulk write stores every object. *)
Lemma a_write_bulk_stores pool objs a a' :
  a_write_bulk pool objs a = (a', true) -> NoDup objs.*1 ->
  mapM (fun oid => a_map a' !! oid) objs.*1 = Some objs.*2.
Proof.
  revert a. induction objs as [|[o v] objs IH]; intros a Hw Hnd; [done|].
  rewrite !fmap_cons in *. apply NoDup_cons in Hnd as [Hno Hnd]. simpl in Hw, Hno, Hnd.
  unfold a_write in Hw. destruct (pool <? _); [done|]. simpl.
  rewrite (a_write_bulk_other _ _ _ _ _ Hw Hno). simpl. rewrite lookup_insert_eq.
  simpl. by rewrite (IH _ Hw Hnd).
Qed.

(** The payload of a bulk write, and the one of the reply to a bulk read. *)
Definition write_payload (objs : list (ObjectID * bytes)) : bytes :=
  concat ((fun p : ObjectID * bytes =>
             le_bytes 8 (htonl (Z.of_nat (length p.2))) ++ p.2) <$> objs).
Definition read_payload (vs : list bytes) : bytes :=
  concat ((fun v : bytes => size_header (Z.of_nat (length v)) ++ v) <$> vs).
Definition read_reply (vs : list bytes) : bytes :=
  le_bytes 4 (Z.of_nat (length vs)) ++ read_payload vs.

Arguments write_payload : simpl never.
Arguments read_payload : simpl never.
Arguments read_reply : simpl never.

(** One request: the new state, the error code and the reply. *)
Definition a_step (pool : Z) (r : request) (a : astate)
    : astate * (ErrorCodes * Message) :=
  match r with
  | RWrite oid v =>
      let '(a', fits) := a_write pool oid v a in
      (a', (if fits then kOk else kServerMemoryErrorException, WriteAck oid fits))
  | RWriteBulk objs =>
      let '(a', fits) := a_write_bulk pool objs a in
      (a', (if fits then kOk else kServerMemoryErrorException, WriteBulkAck fits))
  | RRead oid =>
      match a.(a_map) !! oid with
      | Some v => (a, (kOk, ReadAck oid true v))
      | None => (a, (kNoSuchIDException, ReadAck oid false []))
      end
  | RReadBulk oids =>
      match mapM (fun oid => a.(a_map) !! oid) oids with
      | Some vs => (a, (kOk, ReadBulkAck true (read_reply vs)))
      | None => (a, (kNoSuchIDException, ReadBulkAck false []))
      end
  | RRemove oid =>
      match a.(a_map) !! oid with
      | Some v => (mk_a (a_uncount oid a) (delete oid a.(a_map)),
                   (kOk, RemoveAck oid true))
      | None => (a, (kOk, RemoveAck oid false))
      end
  end.

(** The message of a request. *)
Definition request_msg (r : request) : Message :=
  match r with
  | RWrite oid v => Write oid v
  | RWriteBulk objs =>
      WriteBulk (Z.of_nat (length objs)) objs.*1 (write_payload objs)
  | RRead oid => Read oid
  | RReadBulk oids => ReadBulk (Z.of_nat (length oids)) oids
  | RRemove oid => Remove oid
  end.

(** Requests within the limits of the format: ids of 64 bits, sizes that their
    32-bit headers can carry, at least one object in a bulk write. *)
Definition request_ok (r : request) (a : astate) : Prop :=
  match r with
  | RWrite oid v => is_u64 oid
  | RWriteBulk objs =>
      objs <> [] /\
      Forall (fun p => is_u64 p.1 /\ Z.of_nat (length p.2) < 2 ^ 32) objs
  | RRead oid | RRemove oid => is_u64 oid
  | RReadBulk oids =>
      Forall is_u64 oids /\ Z.of_nat (length oids) < 2 ^ 32 /\
      forall vs, mapM (fun oid => a.(a_map) !! oid) oids = Some vs ->
        Z.of_nat (length (read_reply vs)) < 2 ^ 32
  end.

(** ** Refinement *)

Section refinement.
Context {B : Type} `{StorageSpec B} `{FlatbuffersSpec}.

Implicit Types s : t B.

(** The concrete state represents the abstract one. *)
Definition represents s (a : astate) : Prop :=
  s.(curr_size) = a.(a_curr) /\ sb_rep s.(mem) a.(a_map).

(** Only the accounting and the backend of a server have changed. *)
Definition stored (c : Z) (b : B) s : t B := set_mem b (set_curr_size c s).

Lemma on_mem_ok {A} (m : M B A) s b r :
  m s.(mem) = (b, r) -> on_mem m s = (set_mem b s, r).
Proof. intros Hm. unfold on_mem, zoom. by rewrite Hm. Qed.

Lemma set_mem_same s : set_mem s.(mem) s = s.
Proof. by destruct s. Qed.

Lemma exists_ok s m oid : sb_rep s.(mem) m -> is_u64 oid ->
  on_mem (sb_exists oid) s = (s, Ok (bool_decide (is_Some (m !! oid)))).
Proof.
  intros Hr Hu. rewrite (on_mem_ok _ _ _ _ (sb_exists_spec _ _ _ Hr Hu)).
  by rewrite set_mem_same.
Qed.

Lemma size_ok s m oid v : sb_rep s.(mem) m -> is_u64 oid -> m !! oid = Some v ->
  on_mem (sb_size oid) s = (s, Ok (Z.of_nat (length v))).
Proof.
  intros Hr Hu Hv. rewrite (on_mem_ok _ _ _ _ (sb_size_spec _ _ _ _ Hr Hu Hv)).
  by rewrite set_mem_same.
Qed.

Lemma get_ok s m oid v : sb_rep s.(mem) m -> is_u64 oid -> m !! oid = Some v ->
  exists sl, on_mem (sb_get oid) s = (s, Ok sl) /\ MemSlice.get sl = Ok v.
Proof.
  intros Hr Hu Hv. destruct (sb_get_spec _ _ _ _ Hr Hu Hv) as (sl & Hg & Hsl).
  exists sl. rewrite (on_mem_ok _ _ _ _ Hg). by rewrite set_mem_same.
Qed.

Lemma uncount_ok s m oid : sb_rep s.(mem) m -> is_u64 oid ->
  uncount oid s = (set_curr_size (a_uncount oid (mk_a s.(curr_size) m)) s, Ok tt).
Proof.
  intros Hr Hu. unfold uncount, a_uncount; simpl.
  mstep (exists_ok s m oid Hr Hu). destruct (m !! oid) as [v|] eqn:Hv.
  - rewrite bool_decide_true by eauto. by mstep (size_ok s m oid v Hr Hu Hv).
  - rewrite bool_decide_false by (intros [? ?]; done). by destruct s.
Qed.

(** Store an object whose size is known to fit. *)
Lemma put_ok s m oid sl v : sb_rep s.(mem) m -> is_u64 oid ->
  MemSlice.get sl = Ok v -> exists b,
  on_mem (sb_put oid sl) s = (set_mem b s, Ok true) /\ sb_rep b (<[oid := v]> m).
Proof.
  intros Hr Hu Hsl. destruct (sb_put_spec _ _ _ _ _ Hr Hu Hsl) as (b & Hp & Hb).
  exists b. split; [|done]. apply (on_mem_ok _ _ _ _ Hp).
Qed.

Lemma process_Write_ok s m txn oid v :
  sb_rep s.(mem) m -> is_u64 oid ->
  let '(a', fits) := a_write s.(pool_size) oid v (mk_a s.(curr_size) m) in
  exists b, process_Write txn oid v s =
    (stored a'.(a_curr) b s,
     Ok (ack txn (if fits then kOk else kServerMemoryErrorException)
             (WriteAck oid fits))) /\ sb_rep b a'.(a_map).
Proof.
  intros Hr Hu. unfold process_Write. mstep (uncount_ok s m oid Hr Hu).
  unfold a_write. set (c := a_uncount oid (mk_a (curr_size s) m)).
  unfold bind at 1; simpl.
  destruct (pool_size s <? u64 (c + Z.of_nat (length v))) eqn:Hfit.
  - exists s.(mem). split; [|done]. unfold stored. by destruct s.
  - destruct (put_ok (set_curr_size c s) m oid (MemSlice.of_fb_vector v) v)
      as (b & Hput & Hb); [done|done|done|].
    exists b. mstep Hput. unfold stored. by destruct s.
Qed.

Lemma read_header n rest : is_u32 n ->
  read_at 0 8 (le_bytes 8 (htonl n) ++ rest) = Ok (le_bytes 8 (htonl n)) /\
  ntohl (u32 (le_val (le_bytes 8 (htonl n)))) = n.
Proof.
  intros Hn. split.
  - pose proof (read_at_next [] (le_bytes 8 (htonl n)) rest) as Hr.
    by rewrite length_le_bytes in Hr.
  - pose proof (htonl_range n) as Hh. rewrite le_val_le_bytes.
    rewrite Z.mod_small by (destruct Hh; split; [lia|]; change (256 ^ Z.of_nat 8)
      with (2 ^ 64); lia).
    rewrite u32_small by done. rewrite ntohl_htonl. by apply u32_small.
Qed.

Lemma write_bulk_ok s m objs :
  sb_rep s.(mem) m ->
  Forall (fun p => is_u64 p.1 /\ Z.of_nat (length p.2) < 2 ^ 32) objs ->
  let '(a', fits) := a_write_bulk s.(pool_size) objs (mk_a s.(curr_size) m) in
  exists b, write_bulk objs.*1 (write_payload objs) s =
    (stored a'.(a_curr) b s, Ok fits) /\ sb_rep b a'.(a_map).
Proof.
  revert s m. induction objs as [|[oid v] objs IH]; intros s m Hr Hok.
  { exists s.(mem). split; [by destruct s|done]. }
  apply Forall_cons in Hok as [[Hu Hlen] Hok]. simpl in Hu, Hlen.
  cbn [a_write_bulk fmap list_fmap fst write_bulk]. unfold a_write.
  mstep (uncount_ok s m oid Hr Hu).
  set (c := a_uncount oid (mk_a (curr_size s) m)).
  change (write_payload ((oid, v) :: objs)) with
    ((le_bytes 8 (htonl (Z.of_nat (length v))) ++ v) ++ write_payload objs).
  rewrite <- app_assoc.
  destruct (read_header (Z.of_nat (length v)) (v ++ write_payload objs))
    as [Hrd Hsz]; [split; lia|].
  unfold stop at 1. rewrite Hrd. unfold bind at 1. rewrite Hsz.
  rewrite (drop_app_length' (le_bytes 8 _)) by (by rewrite length_le_bytes).
  unfold bind at 1, gets, id.
  change (pool_size (set_curr_size c s)) with (pool_size s).
  change (curr_size (set_curr_size c s)) with c.
  destruct (pool_size s <? u64 (c + Z.of_nat (length v))) eqn:Hfit.
  { exists s.(mem). split; [|done]. unfold stored. by destruct s. }
  rewrite Nat2Z.id. pose proof (read_at_next [] v (write_payload objs)) as Hobj.
  simpl in Hobj. unfold stop. rewrite Hobj. unfold bind at 1.
  destruct (put_ok (set_curr_size c s) m oid (MemSlice.of_range v) v)
    as (b & Hput & Hb); [done|done|done|].
  mstep Hput. unfold bind at 1, modify; simpl. rewrite drop_app_length.
  specialize (IH (stored (u64 (c + Z.of_nat (length v))) b s) (<[oid := v]> m) Hb Hok).
  simpl in IH. destruct (a_write_bulk _ _ _) as [a' fits].
  destruct IH as (b' & Hrun & Hb'). exists b'. split; [|done].
  destruct s; exact Hrun.
Qed.

Lemma length_read_payload_cons (v : bytes) vs :
  length (read_payload (v :: vs)) = (4 + length v + length (read_payload vs))%nat.
Proof.
  unfold read_payload. rewrite fmap_cons. cbn [concat].
  by rewrite !length_app, length_size_header.
Qed.

Lemma bulk_size_ok s m oids d :
  sb_rep s.(mem) m -> Forall is_u64 oids -> is_u32 d ->
  bulk_size oids d s =
    (s, Ok ((fun vs => u32 (d + Z.of_nat (length (read_payload vs)))) <$>
            mapM (fun oid => m !! oid) oids)).
Proof.
  intros Hr. revert d. induction oids as [|oid oids IH]; intros d Hok Hd.
  { simpl. unfold ret. by rewrite Z.add_0_r, u32_small. }
  apply Forall_cons in Hok as [Hu Hok]. cbn [bulk_size].
  mstep (exists_ok s m oid Hr Hu). simpl mapM.
  destruct (m !! oid) as [v|] eqn:Hv; simpl.
  - mstep (size_ok s m oid v Hr Hu Hv). rewrite IH by auto using u32_range.
    destruct (mapM _ oids) as [vs|]; [|done].
    cbn [fmap option_fmap option_map mbind option_bind mret option_ret].
    rewrite length_read_payload_cons. apply (f_equal (fun x => (s, Ok (Some x)))). unfold u32.
    rewrite Zplus_mod_idemp_l, <- Z.add_assoc, Zplus_mod_idemp_l.
    f_equal. lia.
  - done.
Qed.

Lemma bulk_copy_ok s m pre oids vs buf tail :
  sb_rep s.(mem) m -> Forall is_u64 oids ->
  mapM (fun oid => m !! oid) oids = Some vs ->
  Forall (fun v => Z.of_nat (length v) < 2 ^ 32) vs ->
  (length (read_payload vs) <= length tail)%nat ->
  bulk_copy (pre ++ oids) (length pre) (length oids) (length buf) (buf ++ tail) s =
    (s, Ok (buf ++ read_payload vs ++ drop (length (read_payload vs)) tail)).
Proof.
  intros Hr. revert pre vs buf tail.
  induction oids as [|oid oids IH]; intros pre vs buf tail Hok Hm Hlen Hle.
  { simpl in Hm. injection Hm as <-. done. }
  apply Forall_cons in Hok as [Hu Hok]. apply mapM_Some in Hm.
  apply Forall2_cons_inv_l in Hm as (v & vs' & Hv & Hm & ->).
  apply Forall_cons in Hlen as [Hv32 Hlen].
  rewrite length_read_payload_cons in *. cbn [bulk_copy length].
  rewrite (list_lookup_middle pre oids oid (length pre) eq_refl).
  destruct (get_ok s m oid v Hr Hu Hv) as (sl & Hget & Hsl).
  mstep Hget. unfold stop at 1. rewrite Hsl. unfold bind at 1.
  rewrite u32_small by (split; lia). fold (size_header (Z.of_nat (length v))).
  set (h := size_header (Z.of_nat (length v))).
  assert (Hh : length h = 4%nat) by apply length_size_header.
  unfold stop at 1. rewrite write_at_next by lia. unfold bind at 1.
  rewrite Nat2Z.id, firstn_all.
  replace (length buf + 4)%nat with (length (buf ++ h)) by (rewrite length_app; lia).
  unfold stop at 1. rewrite write_at_next by (rewrite length_drop; lia).
  unfold bind at 1. rewrite drop_drop.
  replace (length (buf ++ h) + length v)%nat with (length ((buf ++ h) ++ v))
    by (by rewrite length_app).
  replace (pre ++ oid :: oids) with ((pre ++ [oid]) ++ oids) by (by rewrite <- app_assoc).
  replace (S (length pre)) with (length (pre ++ [oid])) by (rewrite length_app; simpl; lia).
  rewrite (IH (pre ++ [oid]) vs');
    [|done|by apply mapM_Some|done|rewrite length_drop; lia].
  unfold read_payload at 3. rewrite fmap_cons. cbn [concat]. fold h.
  fold (read_payload vs'). rewrite drop_drop, <- !app_assoc, Hh. done.
Qed.

Lemma process_ReadBulk_ok s m txn oids :
  sb_rep s.(mem) m ->
  request_ok (RReadBulk oids) (mk_a s.(curr_size) m) ->
  process_ReadBulk txn (Z.of_nat (length oids)) oids s =
    (s, Ok (match mapM (fun oid => m !! oid) oids with
            | Some vs => ack txn kOk (ReadBulkAck true (read_reply vs))
            | None => ack txn kNoSuchIDException (ReadBulkAck false [])
            end)).
Proof.
  intros Hr (Hok & Hn & Hfit). cbn [a_map] in Hfit. unfold process_ReadBulk.
  assert (Hbs := bulk_size_ok s m oids 4 Hr Hok ltac:(split; lia)). mstep Hbs.
  destruct (mapM (fun oid => m !! oid) oids) as [vs|] eqn:Hm; [|done].
  cbn [fmap option_fmap option_map].
  specialize (Hfit vs eq_refl). unfold read_reply in Hfit |- *.
  rewrite length_app, length_le_bytes in Hfit.
  assert (Hvs : length vs = length oids).
  { apply mapM_Some in Hm. symmetry. eapply Forall2_length; eauto. }
  rewrite (u32_small (4 + _)), (u32_small (Z.of_nat (length oids))) by (split; lia).
  set (buf := fb_uninit _). set (n := length (read_payload vs)) in *.
  assert (Hbuf : length buf = (4 + n)%nat)
    by (unfold buf; rewrite fb_uninit_length; lia).
  pose proof (write_at_next [] buf (le_bytes 4 (Z.of_nat (length oids)))) as Hw.
  rewrite length_le_bytes, app_nil_l in Hw. simpl length in Hw.
  unfold stop. rewrite Hw by lia. unfold bind at 1. rewrite Nat2Z.id, app_nil_l.
  assert (Hcopy := bulk_copy_ok s m [] oids vs
    (le_bytes 4 (Z.of_nat (length oids))) (drop 4 buf) Hr Hok Hm).
  rewrite length_le_bytes in Hcopy. fold n in Hcopy.
  assert (Hsmall : Forall (fun v : bytes => Z.of_nat (length v) < 2 ^ 32) vs).
  { apply Forall_forall. intros v Hin.
    assert (length v <= n)%nat; [|lia]. unfold n. clear -Hin. revert Hin.
    induction vs as [|w vs IH]; [set_solver|]. rewrite length_read_payload_cons.
    intros [->|Hin]%elem_of_cons; [lia|]. specialize (IH Hin). lia. }
  mstep (Hcopy Hsmall ltac:(rewrite length_drop; lia)).
  unfold ret. rewrite drop_drop, (drop_ge buf) by lia.
  by rewrite app_nil_r, Hvs.
Qed.

Lemma process_Read_ok s m txn oid : sb_rep s.(mem) m -> is_u64 oid ->
  process_Read txn oid s =
    (s, Ok (match m !! oid with
            | Some v => ack txn kOk (ReadAck oid true v)
            | None => ack txn kNoSuchIDException (ReadAck oid false [])
            end)).
Proof.
  intros Hr Hu. unfold process_Read. mstep (exists_ok s m oid Hr Hu).
  destruct (m !! oid) as [v|] eqn:Hv; simpl; [|done].
  destruct (get_ok s m oid v Hr Hu Hv) as (sl & Hget & Hsl).
  mstep Hget. unfold stop. rewrite Hsl. done.
Qed.

Lemma process_Remove_ok s m txn oid : sb_rep s.(mem) m -> is_u64 oid ->
  let '(a', found) :=
    match m !! oid with
    | Some v => (mk_a (a_uncount oid (mk_a s.(curr_size) m)) (delete oid m), true)
    | None => (mk_a s.(curr_size) m, false)
    end in
  exists b, process_Remove txn oid s =
    (stored a'.(a_curr) b s, Ok (ack txn kOk (RemoveAck oid found))) /\
    sb_rep b a'.(a_map).
Proof.
  intros Hr Hu. unfold process_Remove. mstep (exists_ok s m oid Hr Hu).
  unfold a_uncount; simpl. destruct (m !! oid) as [v|] eqn:Hv; simpl.
  - mstep (size_ok s m oid v Hr Hu Hv). unfold bind at 1, modify.
    destruct (sb_delet_spec (mem s) m oid v Hr Hu Hv) as (b & Hd & Hb).
    exists b. split; [|done].
    set (s1 := set_curr_size _ s).
    assert (Hd1 : on_mem (sb_delet oid) s1 = (set_mem b s1, Ok true))
      by (apply on_mem_ok, Hd).
    by mstep Hd1.
  - exists s.(mem). split; [by destruct s|done].
Qed.

Lemma dispatch_ok s a r txn e :
  represents s a -> request_ok r a ->
  let '(a', (code, reply)) := a_step s.(pool_size) r a in
  exists b, dispatch (mk_msg txn e (request_msg r)) s =
    (stored a'.(a_curr) b s, Ok (ack txn code reply)) /\
    sb_rep b a'.(a_map).
Proof.
  destruct a as [c m]. intros [Hc Hr] Hok. simpl in Hc, Hr. subst c.
  destruct r as [oid v|objs|oid|oids|oid]; cbn [a_step a_map];
    unfold dispatch; cbn [request_msg message txnid].
  - pose proof (process_Write_ok s m txn oid v Hr Hok) as Hw.
    by destruct (a_write _ _ _ _) as [a' fits].
  - destruct Hok as [Hne Hok]. unfold process_WriteBulk.
    destruct objs as [|p objs]; [done|].
    rewrite length_fmap; cbn [length]. destruct (Z.eqb_spec (Z.of_nat (S (length objs))) 0);
      [lia|].
    pose proof (write_bulk_ok s m (p :: objs) Hr Hok) as Hw.
    destruct (a_write_bulk _ _ _) as [a' fits]. destruct Hw as (b & Hrun & Hb).
    exists b. split; [|done]. mstep Hrun. by destruct fits.
  - rewrite (process_Read_ok s m txn oid Hr Hok).
    destruct (m !! oid); exists s.(mem); by destruct s.
  - rewrite (process_ReadBulk_ok s m txn oids Hr Hok).
    destruct (mapM _ oids); exists s.(mem); by destruct s.
  - pose proof (process_Remove_ok s m txn oid Hr Hok) as Hd.
    by destruct (m !! oid).
Qed.

(** C2: every request is served as the abstract server serves it, over any
    backend that implements a map: same error code, same reply, and the new
    concrete state represents the new abstract one; nothing else changes. *)
Theorem dispatch_refines s a r txn e :
  represents s a -> request_ok r a ->
  let '(a', (code, reply)) := a_step s.(pool_size) r a in
  exists b, dispatch (mk_msg txn e (request_msg r)) s =
    (stored a'.(a_curr) b s, Ok (ack txn code reply)) /\
    sb_rep b a'.(a_map).
Proof. apply dispatch_ok. Qed.

(** ** One message on a socket *)

Lemma process_on_sock_ok {A} (f : M socket A) s k k' r :
  f k = (k', r) -> on_sock f (s, k) = ((s, k'), r).
Proof. intros Hf. unfold on_sock, zoom. simpl. by rewrite Hf. Qed.

Lemma on_server_ok {A} (f : M (t B) A) s s' k r :
  f s = (s', r) -> on_server f (s, k) = ((s', k), r).
Proof. intros Hf. unfold on_server, zoom. simpl. by rewrite Hf. Qed.

(** The part of [process] that reads the request. *)
Lemma process_read fuel k body rest :
  live k -> stream k = frame body ++ rest ->
  Z.of_nat (length body) < 2 ^ 32 -> (4 <= fuel)%nat -> (length body <= fuel)%nat ->
  exists k1 k2 hdr, read_from_client fuel true [] k = (k1, Ok (Some hdr)) /\
    server_read_all fuel (Z.to_nat (header_size hdr)) [] k1 = (k2, Ok body) /\
    after_read (4 + length body) k k2.
Proof.
  intros Hl Hst Hlen Hf4 Hf. unfold frame in Hst. rewrite <- app_assoc in Hst.
  set (h := size_header (Z.of_nat (length body))) in *.
  assert (Hh : length h = 4%nat) by apply length_size_header.
  destruct (read_from_client_spec fuel true [] k) as (k1 & Hrun1 & Ha1);
    [done|simpl; lia|simpl; lia|rewrite Hst, length_app; simpl; lia|].
  rewrite Hst in Hrun1. simpl (length []) in Hrun1. rewrite Nat.sub_0_r in Hrun1.
  rewrite take_app_le, (take_ge h), app_nil_l in Hrun1 by lia.
  pose proof Ha1 as (Hl1 & Hs1 & _).
  assert (Hst1 : stream k1 = body ++ rest).
  { rewrite Hs1, Hst. by apply drop_app_length'. }
  destruct (read_all_spec (Exception "Error reading from client") fuel
              (length body) [] k1) as (k2 & Hrun2 & Ha2);
    [done|simpl; lia|simpl; lia|rewrite Hst1, length_app; simpl; lia|].
  simpl (length []) in Hrun2, Ha2. rewrite Nat.sub_0_r in Hrun2, Ha2.
  rewrite Hst1, take_app_length, app_nil_l in Hrun2.
  exists k1, k2, h. split_and!; [done| |by apply (after_read_trans 4 _ k k1 k2)].
  unfold h. rewrite header_size_header, u32_small, Nat2Z.id by (split; lia). done.
Qed.

(** The reply of the abstract server, as a message. *)
Definition reply_msg (txn : TxnID) (x : astate * (ErrorCodes * Message))
    : TCPBladeMessage := ack txn x.2.1 x.2.2.

Lemma process_ok fuel s k a r txn rest :
  represents s a -> request_ok r a -> live k -> send_ok k ->
  msg_fits (mk_msg txn 0 (request_msg r)) ->
  let body := fb_encode (mk_msg txn 0 (request_msg r)) in
  let reply := fb_encode (reply_msg txn (a_step s.(pool_size) r a)) in
  stream k = frame body ++ rest ->
  Z.of_nat (length body) < 2 ^ 32 -> Z.of_nat (length reply) < 2 ^ 31 ->
  (4 + length body + length reply <= fuel)%nat ->
  exists s' k', process fuel (s, k) = ((s', k'), Ok true) /\
    represents s' (a_step s.(pool_size) r a).1 /\
    stream k' = rest /\ live k' /\ sent k' = sent k ++ frame reply /\
    pool_size s' = pool_size s /\ in_end k' = in_end k /\ send_ok k'.
Proof.
  intros Hr Hok Hl Hsend Hfits body reply Hst Hlen Hlen' Hf.
  destruct (process_read fuel k body rest) as (k1 & k2 & hdr & Hrun1 & Hrun2 & Ha);
    [done|done|done|lia|lia|].
  pose proof (dispatch_ok s a r txn 0 Hr Hok) as Hd.
  unfold reply_msg in reply.
  destruct (a_step (pool_size s) r a) as [a' [code rep]]. cbn [fst snd] in *.
  destruct Hd as (b & Hd & Hb).
  unfold process. mstep (process_on_sock_ok _ s _ _ _ Hrun1). mstep (process_on_sock_ok _ s _ _ _ Hrun2).
  unfold body. rewrite fb_roundtrip by done. mstep (on_server_ok _ s _ k2 _ Hd).
  cbn zeta. fold reply. rewrite i32_small by lia.
  destruct (Z.ltb_spec (Z.of_nat (length reply)) 0); [lia|].
  destruct Ha as (Hl2 & Hs2 & Hend2 & Hsent2 & Hplan2 & _).
  destruct (server_send_all_spec fuel (size_header (Z.of_nat (length reply))) 0 k2)
    as (k3 & Hrun3 & Ha3); [unfold send_ok; by rewrite Hplan2|
      rewrite length_size_header; lia|].
  rewrite length_size_header in Hrun3. mstep (process_on_sock_ok _ (stored (a_curr a') b s) _ _ _ Hrun3).
  change (0 + Z.of_nat 4 =? -1) with false. cbv iota.
  rewrite Nat2Z.id, firstn_all.
  destruct (server_send_all_spec fuel reply 0 k3) as (k4 & Hrun4 & Ha4);
    [apply Ha3|lia|].
  mstep (process_on_sock_ok _ (stored (a_curr a') b s) _ _ _ Hrun4).
  rewrite Z.add_0_l, Z.eqb_refl. eexists _, k4. split; [done|].
  pose proof (after_send_trans _ _ _ _ _ Ha3 Ha4) as (Hplan & Hsent & Hsegs & Hend & _).
  split; [by split|]. split_and!.
  - unfold stream. rewrite Hsegs. fold (stream k2). rewrite Hs2, Hst.
    apply drop_app_length'. unfold frame. by rewrite length_app, length_size_header.
  - unfold live. by rewrite Hsegs.
  - by rewrite Hsent, Hsent2.
  - done.
  - by rewrite Hend, Hend2.
  - done.
Qed.

(** C3: one call of [process] on a socket that holds a whole request, in any
    segmentation, consumes exactly that request, serves it as the abstract
    server does, sends exactly one framed reply carrying the request's
    transaction id, and returns true; the bytes after the request are left for
    the next call. *)
Theorem process_serves fuel s k a r txn rest :
  represents s a -> request_ok r a -> live k -> send_ok k ->
  msg_fits (mk_msg txn 0 (request_msg r)) ->
  let body := fb_encode (mk_msg txn 0 (request_msg r)) in
  let reply := fb_encode (reply_msg txn (a_step s.(pool_size) r a)) in
  stream k = frame body ++ rest ->
  Z.of_nat (length body) < 2 ^ 32 -> Z.of_nat (length reply) < 2 ^ 31 ->
  (4 + length body + length reply <= fuel)%nat ->
  exists s' k', process fuel (s, k) = ((s', k'), Ok true) /\
    represents s' (a_step s.(pool_size) r a).1 /\
    stream k' = rest /\ live k' /\ sent k' = sent k ++ frame reply.
Proof.
  intros. destruct (process_ok fuel s k a r txn rest) as (s' & k' & Hr); [done..|].
  exists s', k'. tauto.
Qed.

(** [process] on a socket that holds only a part of a request waits for the
    rest of it. *)
Lemma process_blocked fuel s k body y :
  live k -> in_end k = StreamOpen -> stream k ++ y = frame body -> y <> [] ->
  Z.of_nat (length body) < 2 ^ 32 -> (4 + length body <= fuel)%nat ->
  (process fuel (s, k)).2 = Blocked.
Proof.
  intros Hl He Hst Hy Hlen Hf.
  assert (Hpart : (length (stream k) < 4 + length body)%nat).
  { apply (f_equal length) in Hst. unfold frame in Hst.
    rewrite !length_app, length_size_header in Hst. destruct y; simpl in *; [done|lia]. }
  unfold process.
  destruct (decide (length (stream k) < 4)%nat) as [Hshort|Hlong].
  { apply bind_blocked. unfold on_sock, zoom; simpl.
    pose proof (read_from_client_blocked fuel true [] k Hl He ltac:(simpl; lia)
                  ltac:(simpl; lia)) as Hb.
    by destruct (read_from_client fuel true [] k). }
  destruct (read_from_client_spec fuel true [] k) as (k1 & Hr1 & Ha1);
    [done|simpl; lia|simpl; lia|simpl; lia|].
  simpl (length []) in Hr1, Ha1. rewrite Nat.sub_0_r in Hr1, Ha1.
  assert (Hh : take 4 (stream k) = size_header (Z.of_nat (length body))).
  { rewrite <- (take_app_le _ y), Hst by lia. unfold frame.
    apply take_app_length'. by rewrite length_size_header. }
  rewrite app_nil_l, Hh in Hr1. mstep (process_on_sock_ok _ s _ _ _ Hr1).
  rewrite header_size_header, u32_small, Nat2Z.id by (unfold is_u32; lia).
  destruct Ha1 as (Hl1 & Hs1 & He1 & _).
  apply bind_blocked. unfold on_sock, zoom; simpl.
  pose proof (read_all_blocked (Exception "Error reading from client") fuel
                (length body) [] k1) as Hb. unfold server_read_all.
  destruct (read_all _ fuel (length body) [] k1) as [k2 o]. simpl in *. apply Hb.
  - done.
  - by rewrite He1.
  - rewrite Hs1, length_drop. lia.
  - lia.
Qed.

Lemma process_idle fuel s k :
  live k -> in_end k = StreamOpen -> stream k = [] -> (4 <= fuel)%nat ->
  (process fuel (s, k)).2 = Blocked.
Proof.
  intros Hl He Hst Hf. apply bind_blocked. unfold on_sock, zoom; simpl.
  pose proof (read_from_client_blocked fuel true [] k Hl He
    ltac:(rewrite Hst; simpl; lia) ltac:(simpl; lia)) as Hb.
  by destruct (read_from_client fuel true [] k).
Qed.

(** A client that has closed its connection: [process] closes the socket and
    reports the connection as finished, without touching the store. *)
Lemma process_disconnected fuel s k :
  in_segs k = [] -> in_end k = StreamClosed ->
  process (S fuel) (s, k) = ((s, (sys_close k).1), Ok false).
Proof.
  intros Hs He. unfold process.
  mstep (process_on_sock_ok _ s _ _ _ (read_from_client_closed fuel k Hs He)). done.
Qed.
End refinement.

(** ** The accounting of the pool *)

(** The bytes that the objects of a map take. *)
Definition total (m : gmap Z bytes) : Z :=
  map_fold (fun _ v n => Z.of_nat (length v) + n) 0 m.

Lemma total_insert m oid v : m !! oid = None ->
  total (<[oid := v]> m) = Z.of_nat (length v) + total m.
Proof.
  intros Hm. unfold total.
  rewrite map_fold_insert_L; [done|intros; lia|done].
Qed.

Lemma total_delete m oid v : m !! oid = Some v ->
  total (delete oid m) = total m - Z.of_nat (length v).
Proof.
  intros Hm. unfold total at 2. rewrite (map_fold_delete_L _ _ oid v m); [|intros; lia|done].
  unfold total. lia.
Qed.

Lemma total_overwrite m oid v :
  total (<[oid := v]> m) = Z.of_nat (length v) + total (delete oid m).
Proof.
  rewrite <- insert_delete_eq. apply total_insert, lookup_delete_eq.
Qed.

Lemma total_nonneg m : 0 <= total m.
Proof.
  unfold total. apply (map_fold_weak_ind (fun n _ => 0 <= n)); [lia|].
  intros. lia.
Qed.

(** The counter is the sum of the sizes, within the pool. *)
Definition accounted (pool : Z) (a : astate) : Prop :=
  a.(a_curr) = total a.(a_map) /\ total a.(a_map) <= pool.

(** The pool leaves room for one more object of 32-bit size below 2^64. *)
Definition pool_ok (pool : Z) : Prop := 0 <= pool /\ pool + 2 ^ 32 <= 2 ^ 64.

Definition sizes_ok (r : request) : Prop :=
  match r with
  | RWrite _ v => Z.of_nat (length v) < 2 ^ 32
  | RWriteBulk objs => Forall (fun p => Z.of_nat (length p.2) < 2 ^ 32) objs
  | _ => True
  end.

Lemma a_uncount_ok pool oid a : pool_ok pool -> accounted pool a ->
  a_uncount oid a = total (delete oid a.(a_map)).
Proof.
  intros Hp [Hc Hle]. unfold a_uncount.
  destruct (a_map a !! oid) as [v|] eqn:Hv.
  - rewrite (total_delete _ _ _ Hv), Hc. apply u64_small.
    pose proof (total_nonneg (delete oid (a_map a))) as Hn.
    rewrite (total_delete _ _ _ Hv) in Hn. unfold is_u64, pool_ok in *. lia.
  - by rewrite delete_id.
Qed.

Lemma total_delete_le m oid : total (delete oid m) <= total m.
Proof.
  destruct (m !! oid) as [v|] eqn:Hv.
  - rewrite (total_delete _ _ _ Hv). lia.
  - by rewrite delete_id.
Qed.

Lemma a_write_accounted pool oid v a :
  pool_ok pool -> Z.of_nat (length v) < 2 ^ 32 -> accounted pool a ->
  let '(a', fits) := a_write pool oid v a in
  fits = true \/ a.(a_map) !! oid = None -> accounted pool a'.
Proof.
  intros Hp Hv Hacc. unfold a_write. rewrite (a_uncount_ok pool) by done.
  pose proof (total_nonneg (delete oid (a_map a))).
  pose proof (total_delete_le (a_map a) oid) as Hle.
  pose proof Hacc as [Hc Hpool].
  rewrite u64_small by (unfold is_u64, pool_ok in *; lia).
  destruct (Z.ltb_spec pool (total (delete oid (a_map a)) + Z.of_nat (length v))).
  - intros [?|Hfresh]; [done|]. unfold accounted; simpl.
    by rewrite delete_id in * by done.
  - intros _. unfold accounted; simpl. rewrite total_overwrite. lia.
Qed.

Lemma a_write_bulk_accounted pool objs a :
  pool_ok pool -> Forall (fun p => Z.of_nat (length p.2) < 2 ^ 32) objs ->
  accounted pool a ->
  let '(a', fits) := a_write_bulk pool objs a in
  fits = true -> accounted pool a'.
Proof.
  intros Hp Hobjs. revert a. induction Hobjs as [|[oid v] objs Hv Hobjs IH];
    intros a Hacc; [simpl; auto|]. cbn [a_write_bulk].
  pose proof (a_write_accounted pool oid v a Hp Hv Hacc) as Hw.
  destruct (a_write pool oid v a) as [a1 []]; [|done].
  apply IH. auto.
Qed.

(** Every request whose reply is not a memory error keeps the accounting. *)
Lemma a_step_accounted pool r a :
  pool_ok pool -> sizes_ok r -> accounted pool a ->
  (a_step pool r a).2.1 <> kServerMemoryErrorException ->
  accounted pool (a_step pool r a).1.
Proof.
  intros Hp Hs Hacc. destruct r as [oid v|objs|oid|oids|oid]; cbn [a_step].
  - pose proof (a_write_accounted pool oid v a Hp Hs Hacc) as Hw.
    destruct (a_write pool oid v a) as [a1 []]; intros Hne; [auto|by destruct Hne].
  - pose proof (a_write_bulk_accounted pool objs a Hp Hs Hacc) as Hw.
    destruct (a_write_bulk pool objs a) as [a1 []]; intros Hne; [auto|by destruct Hne].
  - by destruct (a_map a !! oid).
  - by destruct (mapM (fun oid => a_map a !! oid) oids).
  - destruct (a_map a !! oid) as [v|] eqn:Hv; [|done]. intros _. simpl.
    unfold accounted; simpl. rewrite (a_uncount_ok pool) by done.
    split; [done|]. etransitivity; [apply total_delete_le|apply Hacc].
Qed.

Section accounting.
Context {B : Type} `{StorageSpec B} `{FlatbuffersSpec}.
Implicit Types s : t B.

(** C20: the counter [curr_size] is the number of bytes stored, and never more
    than the pool, as long as requests are not refused for lack of memory: the
    64-bit arithmetic of the checks never wraps. *)
Theorem accounting_invariant s a r txn e :
  represents s a -> request_ok r a -> sizes_ok r -> pool_ok s.(pool_size) ->
  accounted s.(pool_size) a ->
  (a_step s.(pool_size) r a).2.1 <> kServerMemoryErrorException ->
  exists s' rep m', dispatch (mk_msg txn e (request_msg r)) s = (s', Ok rep) /\
    sb_rep s'.(mem) m' /\ s'.(curr_size) = total m' /\
    total m' <= s'.(pool_size).
Proof.
  intros Hr Hok Hs Hp Hacc Hcode.
  pose proof (a_step_accounted _ _ _ Hp Hs Hacc Hcode) as Hacc'.
  pose proof (dispatch_ok s a r txn e Hr Hok) as Hd.
  destruct (a_step (pool_size s) r a) as [a' [code rep]].
  destruct Hd as (b & Hd & Hb). destruct Hacc' as [Hc Hle].
  by exists (stored (a_curr a') b s), (ack txn code rep), (a_map a').
Qed.

(** A write refused for lack of memory has already given back the size of
    the object it would have replaced, which stays stored: the server then
    accepts a further object that takes the stored bytes over the pool. *)
Theorem refused_overwrite_exceeds_pool s m txn e oid oid' v w x :
  sb_rep s.(mem) m -> is_u64 oid -> is_u64 oid' -> pool_ok s.(pool_size) ->
  accounted s.(pool_size) (mk_a s.(curr_size) m) ->
  m !! oid = Some v -> m !! oid' = None -> 0 < Z.of_nat (length v) ->
  Z.of_nat (length w) < 2 ^ 32 ->
  Z.of_nat (length x) = s.(pool_size) - total m + Z.of_nat (length v) ->
  (length x < length w)%nat ->
  exists s1 s2 m2,
    dispatch (mk_msg txn e (Write oid w)) s =
      (s1, Ok (ack txn kServerMemoryErrorException (WriteAck oid false))) /\
    dispatch (mk_msg txn e (Write oid' x)) s1 =
      (s2, Ok (ack txn kOk (WriteAck oid' true))) /\
    sb_rep s2.(mem) m2 /\ total m2 = s.(pool_size) + Z.of_nat (length v).
Proof.
  intros Hr Hu Hu' Hp Hacc Hv Hfresh Hpos Hw Hx Hlt.
  pose proof (a_uncount_ok _ oid _ Hp Hacc) as Hun.
  pose proof (total_nonneg (delete oid m)) as Hnn.
  cbn [a_map] in Hun. rewrite (total_delete _ _ _ Hv) in Hun, Hnn.
  destruct Hacc as [Hc Hle]; cbn [a_curr a_map] in *. unfold pool_ok in Hp.
  pose proof (process_Write_ok s m txn oid w Hr Hu) as Hwr1. unfold a_write in Hwr1.
  rewrite Hun in Hwr1. rewrite u64_small in Hwr1 by (unfold is_u64; lia).
  destruct (Z.ltb_spec (pool_size s)
    (total m - Z.of_nat (length v) + Z.of_nat (length w))); [|lia].
  destruct Hwr1 as (b1 & Hrun1 & Hb1). cbn [a_curr a_map] in Hrun1, Hb1.
  set (s1 := stored (total m - Z.of_nat (length v)) b1 s) in *.
  pose proof (process_Write_ok s1 m txn oid' x Hb1 Hu') as Hwr2. unfold a_write in Hwr2.
  unfold a_uncount in Hwr2. cbn [a_curr a_map] in Hwr2. rewrite Hfresh in Hwr2.
  change (curr_size s1) with (total m - Z.of_nat (length v)) in Hwr2.
  change (pool_size s1) with (pool_size s) in Hwr2.
  rewrite u64_small in Hwr2 by (unfold is_u64; lia).
  destruct (Z.ltb_spec (pool_size s)
    (total m - Z.of_nat (length v) + Z.of_nat (length x))); [lia|].
  destruct Hwr2 as (b2 & Hrun2 & Hb2).
  eexists s1, _, _. split; [exact Hrun1|]. split; [exact Hrun2|].
  split; [exact Hb2|]. cbn [a_map]. rewrite total_insert by done. lia.
Qed.
End accounting.
(** ** The table of file descriptors *)

Section table.
Context {B : Type} `{StorageBackend B} `{Flatbuffers}.
Implicit Types s : t B.

(** Everything but the accounting and the backend. *)
Definition table s := (port_ s, server_sock_ s, pool_size s, max_fds s,
                       curr_index s, fds s).

(** A computation that leaves the table alone, however it ends. *)
Definition keeps {A} (m : M (t B) A) : Prop := forall s, table (m s).1 = table s.

Lemma keeps_bind {A C} (m : M (t B) A) (k : A -> M (t B) C) :
  keeps m -> (forall a, keeps (k a)) -> keeps (bind m k).
Proof.
  intros Hm Hk s. unfold bind. specialize (Hm s).
  destruct (m s) as [s1 [a| | | | |]]; simpl in *; [|done..]. by rewrite Hk.
Qed.
Lemma keeps_stop {A} (o : outcome A) : keeps (stop o).
Proof. done. Qed.
Lemma keeps_ret {A} (a : A) : keeps (ret a).
Proof. done. Qed.
Lemma keeps_gets {A} (f : t B -> A) : keeps (gets f).
Proof. done. Qed.
Lemma keeps_on_mem {A} (m : M B A) : keeps (on_mem m).
Proof. intros s. unfold on_mem, zoom. by destruct (m (mem s)). Qed.
Lemma keeps_curr_size f : keeps (modify (fun s => set_curr_size (f s) s)).
Proof. done. Qed.

Create HintDb server.
Hint Resolve keeps_bind keeps_stop keeps_ret keeps_gets keeps_on_mem
  keeps_curr_size : server.

Lemma keeps_uncount oid : keeps (uncount oid).
Proof. unfold uncount. apply keeps_bind; auto with server. intros []; auto with server. Qed.
Hint Resolve keeps_uncount : server.

Lemma keeps_write_bulk oids data : keeps (write_bulk oids data).
Proof.
  revert data. induction oids as [|oid oids IH]; intros data; cbn [write_bulk].
  - auto with server.
  - repeat (apply keeps_bind; auto with server; intros ?).
    destruct (_ <? _); repeat (apply keeps_bind; auto with server; intros ?).
    auto with server.
Qed.

Lemma keeps_bulk_size oids n : keeps (bulk_size oids n).
Proof.
  revert n. induction oids as [|oid oids IH]; intros n; cbn [bulk_size];
    auto with server.
  apply keeps_bind; auto with server. intros []; auto with server.
Qed.

Lemma keeps_bulk_copy oids i n raw buf : keeps (bulk_copy oids i n raw buf).
Proof.
  revert i raw buf. induction n as [|n IH]; intros i raw buf; cbn [bulk_copy];
    auto with server.
  destruct (oids !! i); [|apply keeps_stop].
  repeat (apply keeps_bind; auto with server; intros ?).
Qed.
Hint Resolve keeps_write_bulk keeps_bulk_size keeps_bulk_copy : server.

Lemma keeps_dispatch msg : keeps (dispatch msg).
Proof.
  unfold dispatch, process_Write, process_WriteBulk, process_Read, process_ReadBulk,
    process_Remove.
  destruct (message msg); try apply keeps_stop;
    repeat match goal with
      | |- keeps (bind _ _) => apply keeps_bind; [auto with server|intros ?]
      | |- keeps (if ?b then _ else _) => destruct b
      | |- keeps (match ?o with Some _ => _ | None => _ end) => destruct o
      | |- _ => progress auto with server
      end.
Qed.

Lemma keeps_process fuel s k : table (process fuel (s, k)).1.1 = table s.
Proof.
  unfold process, bind, on_sock, on_server, zoom; simpl.
  destruct (read_from_client fuel true [] k) as [k1 [[hdr|]| | | | |]]; simpl; try done.
  destruct (server_read_all fuel _ [] k1) as [k2 [body| | | | |]]; simpl; try done.
  destruct (fb_decode body) as [msg|]; simpl; [|done].
  pose proof (keeps_dispatch msg s) as Hd.
  destruct (dispatch msg s) as [s1 [rep| | | | |]]; simpl in *; try done.
  destruct (_ <? 0); [done|]. simpl.
  destruct (server_send_all fuel _ 0 k2) as [k3 [n| | | | |]]; simpl; try done.
  destruct (n =? -1); [done|]. simpl.
  destruct (server_send_all fuel _ 0 k3) as [k4 [n'| | | | |]]; simpl; try done.
  by destruct (negb _).
Qed.

(** The table has [max_fds] entries, [curr_index] of them in use. *)
Definition table_wf s : Prop :=
  Z.of_nat (length (fds s)) = max_fds s /\ 0 <= curr_index s <= max_fds s /\
  max_fds s < 2 ^ 64.

(** The connections that are being watched, in order. *)
Definition active s : list Z :=
  filter (fun n => n <> -1) (fd <$> take (Z.to_nat (curr_index s)) (fds s)).

Lemma table_wf_eq s s' : table s' = table s -> table_wf s -> table_wf s'.
Proof. unfold table, table_wf. intros Heq. by simplify_eq; congruence. Qed.

(** An entry that [testRemove] keeps. *)
Definition used (p : pollfd) : Prop := fd p <> -1.
#[global] Instance used_dec p : Decision (used p).
Proof. unfold used. apply _. Defined.

Lemma remove_if_spec rest : forall s pre mid,
  fds s = pre ++ mid ++ rest -> is_u64 (curr_index s) ->
  remove_if (length rest) (length (pre ++ mid)) (length pre) s =
    (set_curr_index (u64 (curr_index s -
                          Z.of_nat (length rest - length (filter used rest))))
       (set_fds (pre ++ filter used rest ++
                 drop (length (filter used rest)) (mid ++ rest)) s),
     Ok (length pre + length (filter used rest))%nat).
Proof.
  induction rest as [|x rest IH]; intros s pre mid Hfds Hci.
  { simpl. rewrite Z.sub_0_r, u64_small, Nat.add_0_r by done.
    rewrite app_nil_r in Hfds |- *. destruct s; simpl in *; by subst. }
  cbn [remove_if length]. unfold bind at 1, gets, id.
  rewrite Hfds, app_assoc, (list_lookup_middle _ _ _ _ eq_refl).
  unfold testRemove, bind at 1 2. rewrite filter_cons.
  destruct (decide (used x)) as [Hu|Hu]; unfold used in Hu.
  - destruct (Z.eqb_spec (fd x) (-1)); [done|]. simpl. unfold bind at 1, modify.
    rewrite Hfds.
    assert (Hins : <[length pre := x]> (pre ++ mid ++ x :: rest) =
                   (pre ++ [x]) ++ drop 1 (mid ++ [x]) ++ rest).
    { rewrite insert_app_r_alt, Nat.sub_diag by lia.
      rewrite <- app_assoc. f_equal.
      destruct mid; [done|]. cbn. by rewrite drop_0, <- app_assoc. }
    rewrite Hins.
    set (s1 := set_fds _ s).
    replace (S (length (pre ++ mid))) with
      (length ((pre ++ [x]) ++ drop 1 (mid ++ [x])))
      by (rewrite !length_app, length_drop, length_app; simpl; lia).
    replace (S (length pre)) with (length (pre ++ [x]))
      by (rewrite length_app; simpl; lia).
    rewrite (IH s1 (pre ++ [x]) (drop 1 (mid ++ [x]))); [|done|done].
    f_equal; [|rewrite length_app; simpl; f_equal; lia].
    unfold s1. destruct s; simpl. unfold set_curr_index, set_fds; simpl. f_equal.
    rewrite <- app_assoc. simpl. do 3 f_equal.
    destruct mid; [done|]. cbn. by rewrite drop_0, <- app_assoc.
  - assert (Hx : fd x = -1) by (destruct (decide (fd x = -1)); [done|tauto]).
    rewrite Hx. simpl. unfold modify.
    set (s1 := set_curr_index _ s).
    replace (S (length (pre ++ mid))) with (length (pre ++ (mid ++ [x])))
      by (rewrite !length_app; simpl; lia).
    rewrite (IH s1 pre (mid ++ [x]));
      [|unfold s1; simpl; rewrite Hfds, <- !app_assoc; done|apply u64_range].
    f_equal. unfold s1. destruct s; simpl. unfold set_curr_index, set_fds; simpl.
    rewrite <- app_assoc. f_equal. unfold u64. rewrite Zminus_mod_idemp_l. f_equal.
    pose proof (length_filter used rest). destruct (length (filter used rest)); lia.
Qed.

Lemma active_filter (l : list pollfd) :
  filter (fun n => n <> -1) (fd <$> l) = fd <$> filter used l.
Proof.
  induction l as [|p l IH]; [done|]. rewrite fmap_cons, !filter_cons, IH.
  by destruct (decide (fd p <> -1)), (decide (used p)).
Qed.

Lemma filter_used_idemp (l : list pollfd) : filter used (filter used l) = filter used l.
Proof.
  induction l as [|p l IH]; [done|]. rewrite filter_cons.
  destruct (decide (used p)); [|done]. rewrite filter_cons, decide_True by done.
  by rewrite IH.
Qed.

Lemma make_room_spec s :
  table_wf s -> curr_index s = max_fds s ->
  exists s', make_room s = (s', Ok tt) /\ active s' = active s /\
    curr_index s' = Z.of_nat (length (active s)) /\ table_wf s' /\
    mem s' = mem s /\ curr_size s' = curr_size s.
Proof.
  intros Hwf Hfull. pose proof Hwf as (Hlen & Hci & Hmax).
  unfold make_room, bind at 1, gets, id. rewrite Hfull, Z.eqb_refl.
  pose proof (remove_if_spec (fds s) s [] [] eq_refl ltac:(unfold is_u64; lia)) as Hrm.
  simpl in Hrm. mstep Hrm. clear Hrm.
  pose proof (length_filter used (fds s)) as Hk.
  set (n := length (filter used (fds s))) in *.
  replace (u64 (curr_index s - Z.of_nat (length (fds s) - n))) with (Z.of_nat n)
    by (rewrite u64_small; unfold is_u64; lia).
  assert (Hact : active s = fd <$> filter used (fds s)).
  { unfold active. rewrite take_ge by lia. apply active_filter. }
  eexists. split; [done|]. rewrite Hact, length_fmap. fold n.
  split; [|split; [done|split; [|done]]].
  - unfold active; simpl. rewrite Nat2Z.id. unfold n. rewrite take_app_length.
    by rewrite active_filter, filter_used_idemp.
  - unfold table_wf; simpl. rewrite length_app, length_drop. fold n. lia.
Qed.

(** C31: when the table is full, the purge keeps exactly the connections in
    use, in their order, packs them at the front and leaves [curr_index] at
    their number, so that a slot is free if and only if one was unused. *)
Theorem make_room_compacts s :
  table_wf s -> curr_index s = max_fds s ->
  exists s', make_room s = (s', Ok tt) /\ active s' = active s /\
    curr_index s' = Z.of_nat (length (active s)) /\ table_wf s' /\
    mem s' = mem s /\ curr_size s' = curr_size s.
Proof. apply make_room_spec. Qed.

(** A step of the loop that keeps the table well-formed, however it ends. *)
Definition safe {A} (m : M (t B * net) A) : Prop :=
  forall p, table_wf p.1 -> table_wf (m p).1.1.

Lemma safe_bind {A C} (m : M (t B * net) A) (k : A -> M (t B * net) C) :
  safe m -> (forall a, safe (k a)) -> safe (bind m k).
Proof.
  intros Hm Hk p Hp. specialize (Hm p Hp). unfold bind.
  destruct (m p) as [p1 [a| | | | |]]; simpl in *; [|done..]. by apply Hk.
Qed.
Lemma safe_stop {A} (o : outcome A) : safe (stop o).
Proof. intros p Hp. done. Qed.
Lemma safe_close n : safe (close_fd n).
Proof. intros p Hp. done. Qed.
Lemma safe_accept : safe sys_accept.
Proof. intros [s w] Hp. unfold sys_accept. by destruct (accepts w) as [|[[]|]]. Qed.
Lemma safe_process fuel n : safe (process_fd fuel n).
Proof.
  intros [s w] Hp. unfold process_fd, zoom. simpl.
  pose proof (keeps_process fuel s (sock_of n w)) as Hk.
  destruct (process fuel (s, sock_of n w)) as [q r]. simpl in *.
  by apply (table_wf_eq s).
Qed.

Lemma fds_update_wf i f s : table_wf s -> table_wf (fds_update i f s).1 /\
  curr_index (fds_update i f s).1 = curr_index s /\
  max_fds (fds_update i f s).1 = max_fds s.
Proof.
  intros Hp. unfold fds_update, bind, gets, id.
  destruct (fds s !! Z.to_nat i); [|done]. simpl. unfold table_wf in *; simpl.
  by rewrite length_insert.
Qed.

Lemma safe_update i f : safe (on_table (fds_update i f)).
Proof.
  intros [s w] Hp. unfold on_table, zoom. simpl in *.
  pose proof (fds_update_wf i f s Hp) as [Hw _]. by destruct (fds_update i f s).
Qed.

Lemma add_fd_wf n s :
  table_wf s -> curr_index s <> max_fds s -> table_wf (add_fd n s).1.
Proof.
  intros Hp Hne. unfold add_fd. unfold bind at 1, gets.
  unfold bind at 1. pose proof (fds_update_wf (curr_index s) (set_fd n) s Hp) as Hu.
  destruct (fds_update (curr_index s) (set_fd n) s) as [s1 [[]| | | | |]];
    simpl in Hu; try tauto.
  destruct Hu as (Hp1 & Hi1 & Hm1). unfold bind at 1.
  pose proof (fds_update_wf (curr_index s) (set_events POLLIN) s1 Hp1) as Hu.
  destruct (fds_update (curr_index s) (set_events POLLIN) s1) as [s2 [[]| | | | |]];
    simpl in Hu; try tauto.
  destruct Hu as (Hp2 & Hi2 & Hm2). simpl. unfold table_wf in *; simpl.
  rewrite u64_small by (unfold is_u64; lia). lia.
Qed.

Lemma safe_poll flags : safe (on_table (poll_flags flags)).
Proof. intros [s w] Hp. unfold table_wf in *; simpl in *. by rewrite length_imap. Qed.

Lemma safe_loop_fd fuel i : safe (loop_fd fuel i).
Proof.
  intros [s w] Hp. unfold loop_fd. unfold bind at 1, gets; simpl.
  destruct (fds s !! Z.to_nat i) as [p|]; [|done].
  destruct (fd p =? -1); [done|]. revert Hp.
  cut (safe (if negb (revents p =? POLLIN) then
         if negb (Z.land (revents p) POLLHUP =? 0) then
           close_fd (fd p) ;;; on_table (fds_update i (set_fd (-1)))
         else ret tt
       else
         let* ok := process_fd fuel (fd p) in
         if ok : bool then ret tt else on_table (fds_update i (set_fd (-1))))).
  - intros Hs Hp.
    destruct (negb (revents p =? POLLIN)).
    { apply (safe_bind _ _ Hs (fun _ => safe_update _ _) (s, w) Hp). }
    destruct (fd p =? server_sock_ s).
    2: { apply (safe_bind _ _ Hs (fun _ => safe_update _ _) (s, w) Hp). }
    unfold bind at 1 2. unfold sys_accept.
    destruct (accepts w) as [|[[n k]|] l]; simpl; try done.
    destruct (n <? 0); [done|]. destruct (Z.eqb_spec (curr_index s) (max_fds s)).
    + simpl. by apply (safe_update i (set_revents 0) (s, _)).
    + unfold on_table at 1, zoom at 1. simpl.
      pose proof (add_fd_wf n s Hp ltac:(done)) as Ha.
      destruct (add_fd n s) as [s1 [[]| | | | |]]; simpl in *; try done.
      by apply (safe_update i (set_revents 0) (s1, _)).
  - destruct (negb (revents p =? POLLIN)).
    + destruct (negb _); [|apply (safe_stop (Ok tt))]. apply safe_bind; [apply safe_close|].
      intros; apply safe_update.
    + apply safe_bind; [apply safe_process|]. intros []; [apply (safe_stop (Ok tt))|].
      apply safe_update.
Qed.

Lemma safe_loop_for n fuel i : safe (loop_for n fuel i).
Proof.
  revert i. induction n as [|n IH]; intros i; cbn [loop_for];
    (apply safe_bind; [by intros p|]; intros s;
     destruct (i <? _); [|apply (safe_stop (Ok tt))]).
  - apply safe_stop.
  - apply safe_bind; [apply safe_loop_fd|]. intros; apply IH.
Qed.

Lemma safe_make_room : safe (on_table make_room).
Proof.
  intros [s w] Hp. unfold on_table, zoom; simpl in *.
  destruct (Z.eqb_spec (curr_index s) (max_fds s)) as [Heq|Hne].
  - destruct (make_room_spec s Hp Heq) as (s' & -> & _ & _ & Hp' & _). done.
  - unfold make_room, bind, gets, id. by destruct (Z.eqb_spec (curr_index s) (max_fds s)).
Qed.

Lemma safe_loop_round fuel r : safe (loop_round fuel r).
Proof.
  unfold loop_round. apply safe_bind; [|intros; apply safe_make_room].
  destruct r; [apply safe_stop|apply safe_poll|].
  apply safe_bind; [apply safe_poll|intros _].
  apply safe_bind; [by intros p|]. intros. apply safe_loop_for.
Qed.

Lemma safe_loop fuel rs : safe (loop fuel rs).
Proof.
  induction rs as [|r rs IH]; cbn [loop]; [apply safe_stop|].
  apply safe_bind; [apply safe_loop_round|done].
Qed.

Lemma construct_wf port pool make max_fds_ s :
  construct port pool make max_fds_ = Ok s ->
  table_wf s /\ curr_index s = 0 /\ 0 < max_fds s.
Proof.
  unfold construct. pose proof (u64_range (max_fds_ + 1)) as Hm.
  destruct (_ <? _); [done|]. destruct (Z.eqb_spec (u64 (max_fds_ + 1)) 0); [done|].
  destruct make as [b|]; [|done].
  match goal with |- context [on_mem sb_init ?x] => set (s0 := x) end.
  pose proof (keeps_on_mem sb_init s0) as Hk.
  destruct (on_mem sb_init s0) as [s1 [[]| | | | |]]; intros Heq; try done.
  injection Heq as ->. simpl in Hk. assert (Hwf : table_wf s0).
  { unfold table_wf, s0; simpl. rewrite length_replicate. unfold is_u64 in Hm. lia. }
  split; [by apply (table_wf_eq s0)|]. unfold table, s0 in Hk. simpl in Hk.
  injection Hk as _ _ _ Hmax Hci _. unfold is_u64 in Hm. split; [congruence|lia].
Qed.

(** C30: from construction through [init] and any number of rounds of [loop],
    whatever [poll], [accept] and the clients do and however the run ends, the
    table keeps exactly [max_fds] entries and [curr_index] stays within it. *)
Theorem table_invariant port pool make max_fds_ s0 r s1 fuel rs w :
  construct port pool make max_fds_ = Ok s0 -> init r s0 = (s1, Ok tt) ->
  table_wf (loop fuel rs (s1, w)).1.1.
Proof.
  intros Hc Hi. apply construct_wf in Hc as (Hwf & Hci & Hpos).
  apply safe_loop; simpl. unfold init in Hi. unfold bind at 1, modify in Hi.
  repeat match type of Hi with
    | (if ?b then _ else _) _ = _ => destruct b; [done|]
    end.
  set (s0' := set_server_sock _ s0) in Hi.
  assert (Hne : curr_index s0' <> max_fds s0') by (unfold s0'; simpl; lia).
  pose proof (add_fd_wf (r_socket r) s0' Hwf Hne) as Ha. by rewrite Hi in Ha.
Qed.
End table.

(** ** Witnesses *)

(** A server with a pool of 10 bytes, on which object 1 has 4 bytes. *)
Definition demo : t MemoryBackend.t :=
  mk 12345 3 10 4 2 1 [mk_pollfd 3 1 0; mk_pollfd (-1) 1 0]
     (MemoryBackend.mk {[1 := [x61; x62; x63; x64]]} 0 1000).
Definition demo_a : astate := mk_a 4 {[1 := [x61; x62; x63; x64]]}.

Lemma demo_represents : represents demo demo_a.
Proof. split; [done|]. split; [done|]. simpl. lia. Qed.

Lemma demo_accounted : accounted 10 demo_a.
Proof. split; [reflexivity|]. vm_compute. congruence. Qed.

Lemma dispatch_refines_witness :
  exists b, dispatch (mk_msg 7 0 (WriteBulk 2 [2; 1]
                (write_payload [(2, [x61; x62]); (1, [x63])]))) demo =
    (stored 3 b demo, Ok (ack 7 kOk (WriteBulkAck true))) /\
    sb_rep b (<[1 := [x63]]> (<[2 := [x61; x62]]> {[1 := [x61; x62; x63; x64]]})).
Proof.
  apply (dispatch_refines demo demo_a (RWriteBulk [(2, [x61; x62]); (1, [x63])]) 7 0).
  - exact demo_represents.
  - split; [done|]. repeat constructor; simpl; lia.
Defined.

(** The bytes of a request to read objects 1 and 1, cut in three segments, with
    the first byte of another message behind. *)
Definition demo_request : bytes :=
  frame (fb_encode (mk_msg 9 0 (ReadBulk 2 [1; 1]))).
Definition demo_sock : socket :=
  mk_socket [take 3 demo_request; take 9 (drop 3 demo_request);
             drop 12 demo_request ++ [x78]] StreamOpen [] [Some 1%nat] true.

Lemma process_serves_witness :
  exists s' k', process 200 (demo, demo_sock) = ((s', k'), Ok true) /\
    represents s' demo_a /\ stream k' = [x78] /\ live k' /\
    sent k' = [] ++ frame (fb_encode (mk_msg 9 0 (ReadBulkAck true
      (read_reply [[x61; x62; x63; x64]; [x61; x62; x63; x64]])))).
Proof.
  apply (process_serves 200 demo demo_sock demo_a (RReadBulk [1; 1]) 9 [x78]).
  - exact demo_represents.
  - split; [repeat constructor; lia|]. split; [simpl; lia|].
    intros vs Hvs. vm_compute in Hvs. injection Hvs as <-. vm_compute. congruence.
  - repeat constructor; done.
  - repeat constructor; done.
  - repeat constructor; simpl; lia.
  - vm_compute. reflexivity.
  - vm_compute. congruence.
  - vm_compute. congruence.
  - apply (bool_decide_unpack _). vm_compute. done.
Defined.

Lemma accounting_invariant_witness :
  exists s' rep m', dispatch (mk_msg 7 0 (Write 2 [x61; x62; x63])) demo = (s', Ok rep) /\
    sb_rep s'.(mem) m' /\ s'.(curr_size) = total m' /\ total m' <= s'.(pool_size).
Proof.
  apply (accounting_invariant demo demo_a (RWrite 2 [x61; x62; x63]) 7 0).
  - exact demo_represents.
  - split; simpl; lia.
  - simpl. lia.
  - split; simpl; lia.
  - exact demo_accounted.
  - vm_compute. congruence.
Defined.

Lemma refused_overwrite_exceeds_pool_witness :
  exists s1 s2 m2,
    dispatch (mk_msg 7 0 (Write 1 (replicate 11 x61))) demo =
      (s1, Ok (ack 7 kServerMemoryErrorException (WriteAck 1 false))) /\
    dispatch (mk_msg 7 0 (Write 2 (replicate 10 x62))) s1 =
      (s2, Ok (ack 7 kOk (WriteAck 2 true))) /\
    sb_rep s2.(mem) m2 /\ total m2 = 10 + 4.
Proof.
  apply (refused_overwrite_exceeds_pool demo {[1 := [x61; x62; x63; x64]]} 7 0 1 2
           [x61; x62; x63; x64] (replicate 11 x61) (replicate 10 x62)).
  all: try (vm_compute; reflexivity).
  - apply demo_represents.
  - split; lia.
  - split; lia.
  - split; simpl; lia.
  - exact demo_accounted.
Defined.

Lemma make_room_compacts_witness :
  exists s', make_room (set_curr_index 2 demo) = (s', Ok tt) /\ active s' = [3] /\
    curr_index s' = 1 /\ table_wf s' /\ mem s' = mem demo /\ curr_size s' = 4.
Proof.
  apply (make_room_compacts (set_curr_index 2 demo)); [|done].
  split; [done|]. simpl. lia.
Defined.

Lemma table_invariant_witness :
  table_wf (loop 100 [PollReady [1]; PollTimeout; PollReady [0; 17]]
    (mk 12345 3 10 0 2 1 [mk_pollfd 3 1 0; mk_pollfd 0 0 0] (MemoryBackend.ctor 9),
     mk_net ∅ [Some (4, bad_socket)])).1.1.
Proof.
  apply (table_invariant 12345 10 (Some (MemoryBackend.ctor 9)) 1
           (mk 12345 0 10 0 2 0 [mk_pollfd 0 0 0; mk_pollfd 0 0 0] (MemoryBackend.ctor 9))
           (mk_init 3 0 0 0 0 0)).
  - reflexivity.
  - reflexivity.
Defined.
End TCPServer.
