(* ===== verification/TCPLoop.v ===== *)
(** * The TCP server and all its clients

    TCPServer.v proves what one call of [process] does on one connection.  Here
    the loop of TCPServer.cpp serves many: an abstract server that holds, for
    every connection, the requests that wait on it and the bytes that were sent
    on it, and the theorem that rounds of [loop] serve the connections that
    [poll] reports, one request each, in the order of the table. *)

From stdpp Require Import gmap list strings.
From S2P Require Import Prelude Common Storage Wire Codec TCPServer.

Module TCPLoop.
Import TCPServer.

(** ** The abstract server with its connections *)

Section abstract.
Context `{Flatbuffers}.

(** What waits on a connection, and what was sent on it. *)
Record conn := mk_conn { waiting : list (TxnID * request); outbox : bytes }.

Record abs := mk_abs { ab_state : astate; ab_conns : gmap Z conn }.

Definition request_bytes (q : TxnID * request) : bytes :=
  frame (fb_encode (mk_msg q.1 0 (request_msg q.2))).

Definition reply_bytes (q : TxnID * request) (x : astate * (ErrorCodes * Message)) : bytes :=
  frame (fb_encode (reply_msg q.1 x)).

(** Serve the oldest request of a connection. *)
Definition serve (pool : Z) (x : abs) (n : Z) : abs :=
  match x.(ab_conns) !! n with
  | Some (mk_conn (q :: qs) out) =>
      let y := a_step pool q.2 x.(ab_state) in
      mk_abs y.1 (<[n := mk_conn qs (out ++ reply_bytes q y)]> x.(ab_conns))
  | _ => x
  end.

(** The connections [ns] can be served one after the other: each has a request
    that the format can carry, and the server has the fuel for its bytes. *)
Definition admissible (fuel : nat) (pool : Z) (q : TxnID * request) (a : astate) : Prop :=
  let body := fb_encode (mk_msg q.1 0 (request_msg q.2)) in
  let reply := fb_encode (reply_msg q.1 (a_step pool q.2 a)) in
  request_ok q.2 a /\ msg_fits (mk_msg q.1 0 (request_msg q.2)) /\
  Z.of_nat (length body) < 2 ^ 32 /\ Z.of_nat (length reply) < 2 ^ 31 /\
  (4 + length body + length reply <= fuel)%nat.

Fixpoint servable (fuel : nat) (pool : Z) (x : abs) (ns : list Z) : Prop :=
  match ns with
  | [] => True
  | n :: ns =>
      (exists q qs out, x.(ab_conns) !! n = Some (mk_conn (q :: qs) out) /\
         admissible fuel pool q x.(ab_state)) /\
      servable fuel pool (serve pool x n) ns
  end.

Definition serve_all (pool : Z) (x : abs) (ns : list Z) : abs := foldl (serve pool) x ns.
End abstract.

(** ** The loop *)

Section loop.
Context {B : Type} `{StorageSpec B} `{FlatbuffersSpec}.
Implicit Types (s : t B) (w : net) (x : abs).

(** What [poll] answers when the connections [F] have data. *)
Definition flag (F : gset Z) (p : pollfd) : Z := if decide (p.(fd) ∈ F) then POLLIN else 0.

(** Rounds of [loop], [poll] reporting the connections of the next set. *)
Fixpoint rounds (fuel : nat) (Fs : list (gset Z)) : M (t B * net) unit :=
  match Fs with
  | [] => ret tt
  | F :: Fs =>
      let* s := gets fst in
      loop_round fuel (PollReady (flag F <$> s.(fds))) ;;;
      rounds fuel Fs
  end.

(** The server and the sockets hold what the abstract server says. *)
Record holds s w x : Prop := {
  ho_state : represents s x.(ab_state);
  ho_conn n c : x.(ab_conns) !! n = Some c -> exists k rest,
    w.(socks) !! n = Some k /\ live k /\ send_ok k /\
    stream k = concat (request_bytes <$> c.(waiting)) ++ rest /\ sent k = c.(outbox);
}.

(** Everything that serving requests leaves alone. *)
Definition frame_of s := (port_ s, server_sock_ s, pool_size s, max_fds s, curr_index s,
  fd <$> fds s).

(** The connections in the table from index [i] on. *)
Definition entries (i : nat) s : list Z :=
  drop i (take (Z.to_nat (curr_index s)) (fd <$> fds s)).

Lemma process_fd_serves fuel s w x n q qs out :
  holds s w x -> x.(ab_conns) !! n = Some (mk_conn (q :: qs) out) ->
  admissible fuel (pool_size s) q x.(ab_state) ->
  exists s' w', process_fd fuel n (s, w) = ((s', w'), Ok true) /\
    holds s' w' (serve (pool_size s) x n) /\ table s' = table s.
Proof.
  intros [Hr Hc] Hn (Hok & Hfits & Hb & Hrep & Hfu).
  destruct (Hc n _ Hn) as (k & rest & Hk & Hl & Hsend & Hst & Hsent).
  cbn [waiting outbox] in *. rewrite fmap_cons in Hst. cbn [concat] in Hst.
  rewrite <- app_assoc in Hst.
  destruct (process_ok fuel s k (ab_state x) q.2 q.1
    (concat (request_bytes <$> qs) ++ rest) Hr Hok Hl Hsend Hfits Hst Hb Hrep Hfu)
    as (s' & k' & Hp & Hr' & Hst' & Hl' & Hsent' & _ & _ & Hsend').
  pose proof (keeps_process fuel s k) as Ht. rewrite Hp in Ht. cbn in Ht.
  exists s', (set_sock n k' w). unfold process_fd, zoom, sock_of. cbn [fst snd]. rewrite Hk.
  change (default bad_socket (Some k)) with k. rewrite Hp. split; [done|]. split; [|done].
  unfold serve. rewrite Hn. split; [done|]. cbn [ab_conns set_sock socks]. intros m c.
  destruct (decide (n = m)) as [<-|Hne].
  - rewrite !lookup_insert_eq. intros [= <-]. exists k', rest. cbn [waiting outbox].
    split_and!; try done. by rewrite Hsent', Hsent.
  - rewrite !lookup_insert_ne by done. apply Hc.
Qed.

(** [fds.at(i).revents = 0]. *)
Definition cleared (i : nat) (p : pollfd) s : t B := set_fds (<[i := set_revents 0 p]> (fds s)) s.

Lemma clear_ok i p s w : fds s !! i = Some p ->
  on_table (fds_update (Z.of_nat i) (set_revents 0)) (s, w) = ((cleared i p s, w), Ok tt).
Proof.
  intros Hp. unfold on_table, zoom, fds_update, bind, gets, id. cbn [fst snd].
  by rewrite Nat2Z.id, Hp.
Qed.

Lemma frame_cleared i p s : fds s !! i = Some p -> frame_of (cleared i p s) = frame_of s.
Proof.
  intros Hp. unfold frame_of, cleared. cbn. f_equal. rewrite list_fmap_insert. cbn.
  apply list_insert_id. by rewrite list_lookup_fmap, Hp.
Qed.

Lemma holds_cleared i p s w x : holds s w x -> holds (cleared i p s) w x.
Proof. by intros []. Qed.

(** What one iteration does: nothing but its own entry changes. *)
Definition visited (i : nat) s s' : Prop :=
  frame_of s' = frame_of s /\ forall j, j <> i -> fds s' !! j = fds s !! j.

Lemma visited_cleared i p s s' : table s' = table s -> fds s !! i = Some p ->
  visited i s (cleared i p s').
Proof.
  intros Ht Hp. unfold table in Ht. injection Ht as E1 E2 E3 E4 E5 E6. split.
  - rewrite frame_cleared by congruence. unfold frame_of. congruence.
  - intros j Hj. unfold cleared. cbn. by rewrite list_lookup_insert_ne, E6.
Qed.

Definition serve_if (F : gset Z) (pool : Z) x (n : Z) : abs :=
  if decide (n ∈ F) then serve pool x n else x.

Section visiting.
Context (fuel : nat) (F : gset Z) (HF : forall n, n ∈ F -> 0 <= n).

Lemma loop_fd_serves i s w x p : holds s w x -> server_sock_ s ∉ F ->
  fds s !! i = Some p -> revents p = flag F p ->
  servable fuel (pool_size s) x (filter (.∈ F) [fd p]) ->
  exists s' w', loop_fd fuel (Z.of_nat i) (s, w) = ((s', w'), Ok tt) /\
    holds s' w' (serve_if F (pool_size s) x (fd p)) /\ visited i s s'.
Proof.
  intros Hh Hsrv Hp Hrev Hsv. unfold loop_fd, bind at 1, gets. cbn [fst].
  rewrite Nat2Z.id, Hp. unfold serve_if. unfold flag in Hrev.
  destruct (decide (fd p ∈ F)) as [Hin|Hin].
  - rewrite filter_cons_True in Hsv by done. destruct Hsv as [(q & qs & out & Hn & Had) _].
    destruct (Z.eqb_spec (fd p) (-1)) as [He|_]; [specialize (HF _ Hin); lia|].
    rewrite Hrev, Z.eqb_refl. cbn [negb].
    destruct (Z.eqb_spec (fd p) (server_sock_ s)) as [He|_]; [by rewrite He in Hin|].
    destruct (process_fd_serves fuel s w x (fd p) q qs out Hh Hn Had) as (s1 & w1 & Hrun & Hh1 & Ht).
    assert (Hp1 : fds s1 !! i = Some p) by (unfold table in Ht; congruence).
    exists (cleared i p s1), w1. split_and!.
    + rewrite <- bind_assoc. mstep Hrun. by apply clear_ok.
    + by apply holds_cleared.
    + by apply visited_cleared.
  - destruct (Z.eqb_spec (fd p) (-1)) as [He|_].
    { exists s, w. split; [done|]. split; [done|]. by split. }
    rewrite Hrev. exists (cleared i p s), w. split_and!.
    + by apply clear_ok.
    + by apply holds_cleared.
    + by apply visited_cleared.
Qed.
Lemma frame_wf s s' : frame_of s' = frame_of s -> table_wf s -> table_wf s'.
Proof.
  unfold frame_of, table_wf. intros Heq. injection Heq as _ _ _ E4 E5 E6.
  apply (f_equal length) in E6. rewrite !length_fmap in E6. by rewrite E4, E5, E6.
Qed.

Lemma entries_cons i s p : table_wf s -> Z.of_nat i < curr_index s ->
  fds s !! i = Some p -> entries i s = fd p :: entries (S i) s.
Proof.
  intros (Hlen & Hci & _) Hi Hp. unfold entries. apply drop_S.
  rewrite lookup_take_lt by lia. by rewrite list_lookup_fmap, Hp.
Qed.

(** The entries from [i] on have the flags of [F]. *)
Definition flagged (i : nat) s : Prop := forall j p, (i <= j)%nat ->
  Z.of_nat j < curr_index s -> fds s !! j = Some p -> revents p = flag F p.

Lemma loop_for_serves n : forall i s w x, holds s w x -> server_sock_ s ∉ F ->
  table_wf s -> flagged i s ->
  servable fuel (pool_size s) x (filter (.∈ F) (entries i s)) ->
  (Z.to_nat (curr_index s) <= i + n)%nat ->
  exists s' w', loop_for n fuel (Z.of_nat i) (s, w) = ((s', w'), Ok tt) /\
    holds s' w' (serve_all (pool_size s) x (filter (.∈ F) (entries i s))) /\
    frame_of s' = frame_of s.
Proof.
  induction n as [|n IH]; intros i s w x Hh Hsrv Hwf Hfl Hsv Hn; cbn [loop_for];
    unfold bind at 1, gets; cbn [fst];
    destruct (Z.ltb_spec (Z.of_nat i) (curr_index s)) as [Hi|Hi]; try lia.
  1, 3: exists s, w; split; [done|]; split; [|done]; unfold entries;
    rewrite drop_ge by (rewrite length_take; lia); done.
  destruct Hwf as (Hlen & Hci & Hmax).
  destruct (lookup_lt_is_Some_2 (fds s) i) as [p Hp]; [lia|].
  assert (Hwf : table_wf s) by done.
  rewrite (entries_cons i s p Hwf Hi Hp) in *. rewrite filter_cons in Hsv |- *.
  destruct (loop_fd_serves i s w x p Hh Hsrv Hp (Hfl i p ltac:(lia) Hi Hp))
    as (s1 & w1 & Hrun & Hh1 & Hfr & Hother).
  { rewrite filter_cons, filter_nil. destruct (decide (fd p ∈ F)); [|done]. by destruct Hsv. }
  pose proof Hfr as Hfr'. unfold frame_of in Hfr'. injection Hfr' as _ Esrv Epool _ Eci Efds.
  destruct (IH (S i) s1 w1 (serve_if F (pool_size s) x (fd p)) Hh1) as (s' & w' & Hrun' & Hh' & Hfr2).
  - by rewrite Esrv.
  - by eapply frame_wf.
  - intros j p' Hj Hjc. rewrite Hother by lia. apply Hfl; [lia|]. by rewrite <- Eci.
  - unfold entries. rewrite Epool, Eci, Efds. fold (entries (S i) s). unfold serve_if.
    destruct (decide (fd p ∈ F)); [by destruct Hsv|done].
  - rewrite Eci. lia.
  - exists s', w'. split; [|split; [|by rewrite Hfr2]].
    + mstep Hrun. replace (Z.of_nat i + 1) with (Z.of_nat (S i)) by lia. done.
    + revert Hh'. unfold entries. rewrite Epool, Eci, Efds. unfold serve_if, serve_all.
      by destruct (decide (fd p ∈ F)).
Qed.
End visiting.

(** *** A round *)

Lemma filter_entries (F : gset Z) s : (forall n, n ∈ F -> 0 <= n) ->
  filter (.∈ F) (entries 0 s) = filter (.∈ F) (active s).
Proof.
  intros HF. unfold entries, active. rewrite drop_0, <- fmap_take.
  induction (take _ (fds s)) as [|p l IH]; [done|]. rewrite fmap_cons, !filter_cons.
  destruct (decide (fd p <> -1)) as [Hn|Hn]; [rewrite filter_cons; by rewrite IH|].
  rewrite decide_False by (intros Hin; specialize (HF _ Hin); lia). done.
Qed.

(** The state after [poll]. *)
Definition polled (F : gset Z) s : t B := (poll_flags (flag F <$> fds s) s).1.

Lemma polled_lookup F s j p : (forall n, n ∈ F -> 0 <= n) ->
  Z.of_nat j < curr_index s -> fds (polled F s) !! j = Some p -> revents p = flag F p.
Proof.
  intros HF Hj. unfold polled, poll_flags, modify. cbn [fst fds set_fds].
  rewrite list_lookup_imap. intros (p0 & Hp0 & ->)%fmap_Some.
  rewrite (proj2 (Z.ltb_lt _ _) Hj), list_lookup_fmap, Hp0. unfold flag. cbn [fd revents set_revents].
  destruct (Z.ltb_spec (fd p0) 0); [|done].
  by rewrite decide_False by (intros Hin; specialize (HF _ Hin); lia).
Qed.

Lemma polled_frame F s : frame_of (polled F s) = frame_of s.
Proof.
  unfold frame_of, polled, poll_flags, modify. cbn. f_equal.
  apply list_eq. intros j. rewrite !list_lookup_fmap, list_lookup_imap.
  destruct (fds s !! j) as [p|]; [|done]. cbn. by destruct (_ <? _).
Qed.

Lemma make_room_fixed s :
  server_sock_ (make_room s).1 = server_sock_ s /\ pool_size (make_room s).1 = pool_size s.
Proof.
  assert (Hp : preserves (fun s' => server_sock_ s' = server_sock_ s /\
    pool_size s' = pool_size s) make_room); [|by apply Hp].
  assert (Hr : forall n a b, preserves (fun s' => server_sock_ s' = server_sock_ s /\
    pool_size s' = pool_size s) (remove_if n a b)).
  { intros n. induction n as [|n IH]; intros a b; cbn [remove_if]; [by apply preserves_ret|].
    unfold testRemove, undefined. preserve; by apply preserves_modify. }
  unfold make_room. preserve.
Qed.

Lemma make_room_keeps s : table_wf s ->
  exists s', make_room s = (s', Ok tt) /\ active s' = active s /\ table_wf s' /\
    mem s' = mem s /\ curr_size s' = curr_size s /\
    server_sock_ s' = server_sock_ s /\ pool_size s' = pool_size s.
Proof.
  intros Hwf. pose proof (make_room_fixed s) as Hfix.
  destruct (decide (curr_index s = max_fds s)) as [Hfull|Hroom].
  - destruct (make_room_spec s Hwf Hfull) as (s' & Hm & Ha & _ & Hwf' & Hmem & Hc).
    rewrite Hm in Hfix. by exists s'.
  - exists s. unfold make_room, bind, gets, id. by rewrite (proj2 (Z.eqb_neq _ _) Hroom).
Qed.

(** What a round keeps of the server. *)
Definition same_clients s s' : Prop :=
  active s' = active s /\ table_wf s' /\ server_sock_ s' = server_sock_ s /\
  pool_size s' = pool_size s.

Lemma active_frame s s' : frame_of s' = frame_of s -> active s' = active s.
Proof.
  unfold frame_of, active. intros Heq. injection Heq as _ _ _ _ Eci Efds.
  by rewrite Eci, !fmap_take, Efds.
Qed.

Lemma on_table_ok {A} (m : M (t B) A) s w s' r : m s = (s', r) ->
  on_table m (s, w) = ((s', w), r).
Proof. intros Hm. unfold on_table, zoom. cbn. by rewrite Hm. Qed.

Lemma round_serves fuel F s w x : (forall n, n ∈ F -> 0 <= n) -> holds s w x ->
  server_sock_ s ∉ F -> table_wf s ->
  servable fuel (pool_size s) x (filter (.∈ F) (active s)) ->
  exists s' w', loop_round fuel (PollReady (flag F <$> fds s)) (s, w) = ((s', w'), Ok tt) /\
    holds s' w' (serve_all (pool_size s) x (filter (.∈ F) (active s))) /\ same_clients s s'.
Proof.
  intros HF Hh Hsrv Hwf Hsv. pose proof (polled_frame F s) as Hfr.
  rewrite <- (filter_entries F s HF) in *.
  pose proof (f_equal snd Hfr) as Efds. change (fd <$> fds (polled F s) = fd <$> fds s) in Efds.
  assert (Esrv : server_sock_ (polled F s) = server_sock_ s) by done.
  assert (Epool : pool_size (polled F s) = pool_size s) by done.
  assert (Emax : max_fds (polled F s) = max_fds s) by done.
  assert (Eci : curr_index (polled F s) = curr_index s) by done.
  destruct (loop_for_serves fuel F HF (Z.to_nat (max_fds s)) 0 (polled F s) w x)
    as (s1 & w1 & Hrun & Hh1 & Hfr1).
  - destruct Hh. by split.
  - by rewrite Esrv.
  - by eapply frame_wf.
  - intros j p _. rewrite Eci. by apply polled_lookup.
  - unfold entries. by rewrite Epool, Eci, Efds.
  - rewrite Eci. destruct Hwf as (_ & Hci & _). lia.
  - assert (Hwf1 : table_wf s1) by (eapply frame_wf; [|exact Hwf]; congruence).
    destruct (make_room_keeps s1 Hwf1) as (s' & Hm & Ha & Hwf' & Hmem & Hc & Hs & Hp).
    exists s', w1. split_and!.
    + unfold loop_round. rewrite <- bind_assoc.
      mstep (on_table_ok (poll_flags (flag F <$> fds s)) s w (polled F s) (Ok tt) eq_refl).
      rewrite <- bind_assoc. unfold bind at 1, gets. cbn [fst]. rewrite Emax.
      change 0 with (Z.of_nat 0). mstep Hrun. by apply on_table_ok.
    + rewrite Epool in Hh1. unfold entries in Hh1. rewrite Eci, Efds in Hh1.
      destruct Hh1 as [[Hcur Hrep] Hconn]. split; [|done]. unfold represents.
      by rewrite Hc, Hmem.
    + split_and!; try done.
      * rewrite Ha. apply active_frame. congruence.
      * unfold frame_of in Hfr1. congruence.
      * unfold frame_of in Hfr1. congruence.
Qed.

(** *** All rounds *)

Definition served (act : list Z) (F : gset Z) : list Z := filter (.∈ F) act.

Lemma servable_app fuel pool x ns ms : servable fuel pool x (ns ++ ms) <->
  servable fuel pool x ns /\ servable fuel pool (serve_all pool x ns) ms.
Proof.
  revert x. induction ns as [|n ns IH]; intros x; cbn [servable app serve_all foldl]; [naive_solver|].
  rewrite IH. unfold serve_all. naive_solver.
Qed.

Lemma rounds_serve fuel Fs : forall s w x,
  (forall F n, F ∈ Fs -> n ∈ F -> 0 <= n /\ n <> server_sock_ s) -> holds s w x -> table_wf s ->
  servable fuel (pool_size s) x (Fs ≫= served (active s)) ->
  exists s' w', rounds fuel Fs (s, w) = ((s', w'), Ok tt) /\
    holds s' w' (serve_all (pool_size s) x (Fs ≫= served (active s))) /\ same_clients s s'.
Proof.
  induction Fs as [|F Fs IH]; intros s w x HF Hh Hwf Hsv.
  { exists s, w. by split_and!. }
  rewrite bind_cons in *. apply servable_app in Hsv as [Hsv1 Hsv2].
  destruct (round_serves fuel F s w x) as (s1 & w1 & Hrun & Hh1 & (Ha & Hwf1 & Hs & Hp)); try done.
  { intros n Hn. apply (HF F); [apply list_elem_of_here|done]. }
  { intros Hin. by destruct (HF F _ ltac:(apply list_elem_of_here) Hin). }
  destruct (IH s1 w1 (serve_all (pool_size s) x (served (active s) F))) as
    (s2 & w2 & Hrun2 & Hh2 & (Ha2 & Hwf2 & Hs2 & Hp2)); try done.
  { intros F' n HF' Hn. rewrite Hs. apply (HF F'); [by apply list_elem_of_further|done]. }
  { by rewrite Ha, Hp. }
  exists s2, w2. split_and!.
  - cbn [rounds]. unfold bind at 1, gets. cbn [fst]. by mstep Hrun.
  - rewrite Ha, Hp in Hh2. unfold serve_all in *. by rewrite foldl_app.
  - unfold same_clients. rewrite Ha2, Hs2, Hp2. done.
Qed.

(** C6: with any number of clients connected, rounds of [loop] in which [poll]
    reports connections that hold a whole request (in any segmentation) serve
    all of them and return: each reported connection has its oldest request
    served, in the order of the table, round after round, as one abstract
    server serves them one at a time; each reply is framed and sent on the
    connection that asked, behind the earlier ones; what the other connections
    hold and were sent does not change, also when a full table is compacted
    between rounds; and no connection is lost. *)
Theorem loop_serves_all_clients fuel Fs s w x :
  (forall F n, F ∈ Fs -> n ∈ F -> 0 <= n /\ n <> server_sock_ s) -> holds s w x -> table_wf s ->
  servable fuel (pool_size s) x (Fs ≫= served (active s)) ->
  exists s' w', rounds fuel Fs (s, w) = ((s', w'), Ok tt) /\
    holds s' w' (serve_all (pool_size s) x (Fs ≫= served (active s))) /\
    active s' = active s /\ table_wf s'.
Proof.
  intros HF Hh Hwf Hsv. destruct (rounds_serve fuel Fs s w x HF Hh Hwf Hsv)
    as (s' & w' & Hrun & Hh' & Ha & Hwf' & _).
  by exists s', w'.
Qed.

End loop.

(** ** Witness *)

(** Two clients, one of which writes object 2 and then reads it, while the
    other reads it in the first round already; the table is full. *)
Definition demo_server : t MemoryBackend.t :=
  mk 12345 3 10 4 3 3 [mk_pollfd 3 1 0; mk_pollfd 4 1 0; mk_pollfd 5 1 0]
     (MemoryBackend.mk {[1 := [x61; x62; x63; x64]]} 0 1000).

Definition demo_conns : gmap Z conn :=
  {[4 := mk_conn [(1, RWrite 2 [x78]); (2, RRead 2)] [];
    5 := mk_conn [(1, RRead 2)] []]}.

Definition demo_socket (n : Z) : socket :=
  mk_socket (match demo_conns !! n with
             | Some c => [concat (request_bytes <$> c.(waiting))]
             | None => [] end) StreamOpen [] [] true.

Definition demo_net : net := mk_net {[4 := demo_socket 4; 5 := demo_socket 5]} [].

Definition demo_rounds : list (gset Z) := [{[4; 5]}; {[4]}].

Lemma demo_holds : holds demo_server demo_net (mk_abs demo_a demo_conns).
Proof.
  split; [split; [done|]; split; [done|]; simpl; lia|].
  cbn [ab_conns]. unfold demo_conns at 1. intros n c Hc.
  apply lookup_insert_Some in Hc as [[<- <-]|[Hn Hc]];
    [|apply lookup_singleton_Some in Hc as [<- <-]].
  all: eexists _, []; split; [reflexivity|].
  all: split; [repeat constructor; vm_compute; congruence|].
  all: split; [constructor|]; split; [vm_compute; reflexivity|reflexivity].
Qed.

Lemma loop_serves_all_clients_witness :
  served (active demo_server) {[4; 5]} = [4; 5] /\
  exists s' w', rounds 200 demo_rounds (demo_server, demo_net) = ((s', w'), Ok tt) /\
    holds s' w' (serve_all 10 (mk_abs demo_a demo_conns)
      (demo_rounds ≫= served (active demo_server))) /\
    active s' = active demo_server /\ table_wf s'.
Proof.
  split; [reflexivity|].
  apply (loop_serves_all_clients 200 demo_rounds demo_server demo_net (mk_abs demo_a demo_conns)).
  - intros F n HF Hn. simpl. unfold demo_rounds in HF. set_unfold.
    destruct HF as [HF|[HF|[]]]; subst F; set_unfold; lia.
  - exact demo_holds.
  - split; [reflexivity|]. split; simpl; lia.
  - change (demo_rounds ≫= served (active demo_server)) with [4; 5; 4].
    cbn [servable]. split_and!; try done.
    all: eexists _, _, _; split; [reflexivity|].
    all: split_and!.
    all: try (vm_compute; first [reflexivity|congruence]).
    all: try (apply (bool_decide_unpack _); vm_compute; done).
    all: repeat constructor; simpl; lia.
Defined.
End TCPLoop.
