(* ===== verification/BladeClient.v ===== *)
(** * Futures ([src/client/BladeClient.cpp], [src/common/Synchronization.h])

    The locks, the [FutureData] that a future shares with the client's receiver
    thread, and the operations of [ClientFuture].  A thread that spins lets the
    rest of the system run: the operations that wait take the step of the
    environment as an argument. *)

From stdpp Require Import gmap list strings.
From S2P Require Import Prelude Common.

(** ** Synchronization.h *)

(** [class Lock].  [wait] is a loop around an attempt for both locks: the
    attempt is [lk_acquire]. *)
Class Lock (L : Type) := {
  lk_init : L;
  lk_acquire : L -> L * bool;
  lk_signal : L -> L;
  lk_signal_count : Z -> L -> outcome L;
}.

Module SpinLock.
(** The [atomic_flag]: set when the lock is taken. *)
Definition t := bool.

Definition test_and_set (l : t) : t * bool := (true, l).

Definition trywait (l : t) : t * bool :=
  let '(l, was_set) := test_and_set l in (l, negb was_set).

Definition signal (l : t) : t := false.

#[global] Instance lock : Lock t := {
  lk_init := false;
  lk_acquire := trywait;
  lk_signal := signal;
  lk_signal_count _ _ := Throw (RuntimeError "Not implemented");
}.
End SpinLock.

Module PosixSemaphore.
(** The value of the [sem_t]. *)
Definition t := Z.

Definition trywait (l : t) : t * bool :=
  if 0 <? l then (l - 1, true) else (l, false).

Definition signal (l : t) : t := l + 1.

(** [while (count-- > 0) sem_post(&m_sema);] *)
Definition signal_count (count : Z) (l : t) : t := l + Z.max 0 count.

#[global] Instance lock : Lock t := {
  lk_init := 0;
  lk_acquire := trywait;
  lk_signal := signal;
  lk_signal_count n l := Ok (signal_count n l);
}.
End PosixSemaphore.

(** ** BladeClient.h *)

(** [error_code] is the integer that was cast to [ErrorCodes]; [data_ptr] the
    bytes that the pointer gives access to. *)
Record FutureData := mk_fd {
  result : bool;
  result_available : bool;
  sem : SpinLock.t;
  fd_error_code : Z;
  data_ptr : option bytes;
  data_size : Z;
}.

(** [std::make_shared<FutureData>()]. *)
Definition new_FutureData : FutureData := mk_fd false false lk_init 0 None 0.

Definition set_sem (l : SpinLock.t) (d : FutureData) : FutureData :=
  mk_fd d.(result) d.(result_available) l d.(fd_error_code) d.(data_ptr)
    d.(data_size).

(** A state that has a heap of [FutureData], shared with the futures. *)
Class HasFutures (S : Type) := {
  futures : S -> list FutureData;
  set_futures : list FutureData -> S -> S;
}.

Class HasFuturesSpec (S : Type) `{HasFutures S} := {
  futures_set l s : futures (set_futures l s) = l;
  set_futures_same s : set_futures (futures s) s = s;
}.

Module ClientFuture.

(** A [ClientFuture]: the address of its [FutureData]. *)
Abbreviation t := nat (only parsing).

Section future.
Context {S : Type} `{HasFutures S} (env : M S unit).

(** [*fd]; a dangling address is undefined. *)
Definition deref (fd : t) : M S FutureData :=
  let* s := gets id in
  match futures s !! fd with
  | Some d => ret d
  | None => undefined
  end.

Definition update (fd : t) (f : FutureData -> FutureData) : M S unit :=
  modify (fun s => set_futures (alter f fd (futures s)) s).

(** [fd->sem->trywait()]. *)
Definition sem_trywait (fd : t) : M S bool :=
  let* d := deref fd in
  let '(l, got) := lk_acquire d.(sem) in
  update fd (set_sem l) ;;; ret got.

(** [fd->sem->wait()]: spin until the lock is obtained. *)
Fixpoint sem_wait (fuel : nat) (fd : t) : M S unit :=
  let* got := sem_trywait fd in
  if got : bool then ret tt else
  match fuel with
  | O => stop OutOfFuel
  | Datatypes.S fuel => env ;;; sem_wait fuel fd
  end.

Fixpoint wait (fuel : nat) (fd : t) : M S unit :=
  let* d := deref fd in
  if d.(result_available) then ret tt else
  match fuel with
  | O => stop OutOfFuel
  | Datatypes.S fuel' => sem_wait fuel fd ;;; wait fuel' fd
  end.

Definition try_wait (fd : t) : M S bool :=
  let* d := deref fd in
  if negb d.(result_available) then sem_trywait fd else ret true.

(** The [switch] on the error code. *)
Definition check_error (code : Z) : outcome unit :=
  if code =? error_code_to_Z kOk then Ok tt
  else if code =? error_code_to_Z kException then
    Throw (Exception "Server threw generic exception.")
  else if code =? error_code_to_Z kServerMemoryErrorException then
    Throw (ServerMemoryErrorException
             "Server memory exhausted during call to put.")
  else if code =? error_code_to_Z kNoSuchIDException then
    Throw (NoSuchIDException
             "Call to get was made for id that did not exist on server.")
  else Throw (Exception "Unrecognized error code during get().").

Definition get (fuel : nat) (fd : t) : M S bool :=
  wait fuel fd ;;;
  let* d := deref fd in
  stop (check_error d.(fd_error_code)) ;;;
  ret d.(result).

(** The pair's second component is an [unsigned int]. *)
Definition getDataPair (fuel : nat) (fd : t) : M S (bytes * Z) :=
  let* _ := get fuel fd in
  let* d := deref fd in
  match d.(data_ptr) with
  | None => throw (Exception "getData called on a non read future")
  | Some p => ret (p, u32 d.(data_size))
  end.

End future.
End ClientFuture.

(** [class BladeClient], the interface of the clients, in a system [W] that
    holds one.  The results of the library calls of [connect] are its argument. *)
Class BladeClient (W T : Type) := {
  bc_connection : Type;
  bc_connect : bc_connection -> M W unit;
  bc_read_sync : ObjectID -> M W (bytes * Z);
  bc_read_sync_bulk : list ObjectID -> M W (bytes * Z);
  bc_read_async : ObjectID -> M W ClientFuture.t;
  bc_read_async_bulk : list ObjectID -> M W ClientFuture.t;
  bc_write_sync : ObjectID -> T -> M W bool;
  bc_write_sync_bulk : list ObjectID -> list T -> M W bool;
  bc_write_async : ObjectID -> T -> M W ClientFuture.t;
  bc_write_async_bulk : list ObjectID -> list T -> M W ClientFuture.t;
  bc_remove : ObjectID -> M W bool;
}.

(** ** Lemmas *)

Section lemmas.
Context {S : Type} `{HasFuturesSpec S} (env : M S unit).
Import ClientFuture.

Lemma deref_ok fd d (s : S) : futures s !! fd = Some d -> deref fd s = (s, Ok d).
Proof. intros Hd. unfold deref, bind, gets, id. by rewrite Hd. Qed.

Lemma wait_available fuel fd d (s : S) :
  futures s !! fd = Some d -> result_available d = true ->
  wait env fuel fd s = (s, Ok tt).
Proof.
  intros Hd Ha. destruct fuel; simpl; mstep (deref_ok fd d s Hd); by rewrite Ha.
Qed.

Lemma get_available fuel fd d (s : S) :
  futures s !! fd = Some d -> result_available d = true ->
  get env fuel fd s =
    (s, match check_error (fd_error_code d) with
        | Ok _ => Ok (result d) | Throw e => Throw e | Undefined => Undefined
        | Exited => Exited | Blocked => Blocked | OutOfFuel => OutOfFuel end).
Proof.
  intros Hd Ha. unfold get. mstep (wait_available fuel fd d s Hd Ha).
  mstep (deref_ok fd d s Hd). unfold bind, stop. by destruct (check_error _).
Qed.

Lemma sem_trywait_ok fd d (s : S) : futures s !! fd = Some d ->
  sem_trywait fd s =
    (set_futures (<[fd := set_sem true d]> (futures s)) s, Ok (negb (sem d))).
Proof.
  intros Hd. unfold sem_trywait. mstep (deref_ok fd d s Hd). simpl.
  unfold update, bind, modify, ret. do 2 f_equal.
  by apply alter_insert.
Qed.

(** The first attempt on a fresh future succeeds: [trywait] takes the lock,
    which nobody held, although no result has arrived. *)
Lemma try_wait_fresh fd d (s : S) :
  futures s !! fd = Some d -> result_available d = false -> sem d = false ->
  try_wait fd s = (set_futures (<[fd := set_sem true d]> (futures s)) s, Ok true).
Proof.
  intros Hd Ha Hs. unfold try_wait. mstep (deref_ok fd d s Hd). rewrite Ha.
  cbn [negb]. rewrite (sem_trywait_ok fd d s Hd). by rewrite Hs.
Qed.

(** Waiting on [fd] in an environment that completes it: [J n] says that the
    result arrives within exactly [n] more steps of the environment, whatever
    the state of the future's lock, and the step that brings the result
    releases the lock. *)
Section waiting.
Context (fd : nat) (J : nat -> S -> Prop).
Context (J_lock : forall n s d l, J n s -> futures s !! fd = Some d ->
  J n (set_futures (<[fd := set_sem l d]> (futures s)) s)).
Context (J_pending : forall n s, J (Datatypes.S n) s ->
  exists d, futures s !! fd = Some d /\ result_available d = false).
Context (J_done : forall s, J 0 s ->
  exists d, futures s !! fd = Some d /\ result_available d = true).
Context (J_env : forall n s, J (Datatypes.S n) s -> exists s',
  env s = (s', Ok tt) /\ J n s' /\
  match n with
  | O => exists d, futures s' !! fd = Some d /\ sem d = false
  | Datatypes.S _ => futures s' !! fd = futures s !! fd
  end).

Lemma lookup_lock s d l : futures s !! fd = Some d ->
  futures (set_futures (<[fd := set_sem l d]> (futures s)) s) !! fd =
    Some (set_sem l d).
Proof.
  intros Hd. rewrite futures_set. apply list_lookup_insert_eq.
  by apply lookup_lt_Some in Hd.
Qed.

(** The lock is held: [sem_wait] spins until the result is there. *)
Lemma sem_wait_held n fuel s d :
  J (Datatypes.S n) s -> futures s !! fd = Some d -> sem d = true ->
  (n < fuel)%nat ->
  exists s', sem_wait env fuel fd s = (s', Ok tt) /\ J 0 s'.
Proof.
  revert n s d. induction fuel as [|fuel IH]; intros n s d Hj Hd Hl Hf; [lia|].
  cbn [sem_wait]. mstep (sem_trywait_ok fd d s Hd). rewrite Hl. cbn [negb].
  destruct (J_env n _ (J_lock _ s d true Hj Hd)) as (s1 & He & Hj1 & Hlock).
  mstep He. destruct n as [|n].
  - destruct Hlock as (d1 & Hd1 & Hl1).
    exists (set_futures (<[fd := set_sem true d1]> (futures s1)) s1).
    split; [|by apply J_lock]. destruct fuel; cbn [sem_wait];
      mstep (sem_trywait_ok fd d1 s1 Hd1); by rewrite Hl1.
  - rewrite (lookup_lock s d true Hd) in Hlock.
    apply (IH n s1 (set_sem true d)); [done..|lia].
Qed.

Lemma wait_held n fuel s d :
  J (Datatypes.S n) s -> futures s !! fd = Some d ->
  result_available d = false -> sem d = true -> (n < fuel)%nat ->
  exists s', wait env fuel fd s = (s', Ok tt) /\ J 0 s'.
Proof.
  intros Hj Hd Ha Hl Hf. destruct fuel as [|fuel]; [lia|].
  cbn [wait]. mstep (deref_ok fd d s Hd). rewrite Ha.
  destruct (sem_wait_held n (Datatypes.S fuel) s d Hj Hd Hl ltac:(lia))
    as (s1 & Hw & Hj1).
  mstep Hw. destruct (J_done s1 Hj1) as (d1 & Hd1 & Ha1). exists s1.
  by rewrite (wait_available fuel fd d1 s1 Hd1 Ha1).
Qed.

(** Whatever the state of the lock, [wait] returns once the result is there. *)
Lemma wait_returns n fuel s :
  J n s -> (n < fuel)%nat ->
  exists s', wait env fuel fd s = (s', Ok tt) /\ J 0 s'.
Proof.
  intros Hj Hf. destruct n as [|n].
  { destruct (J_done s Hj) as (d & Hd & Ha). exists s.
    by rewrite (wait_available fuel fd d s Hd Ha). }
  destruct (J_pending n s Hj) as (d & Hd & Ha).
  destruct (sem d) eqn:Hl; [by apply (wait_held n fuel s d); try lia|].
  destruct fuel as [|fuel]; [lia|]. cbn [wait]. mstep (deref_ok fd d s Hd). rewrite Ha.
  assert (Hw : sem_wait env (Datatypes.S fuel) fd s =
    (set_futures (<[fd := set_sem true d]> (futures s)) s, Ok tt)).
  { cbn [sem_wait]. mstep (sem_trywait_ok fd d s Hd). by rewrite Hl. }
  mstep Hw. apply (wait_held n fuel _ (set_sem true d)); [| |done|done|lia].
  - by apply J_lock.
  - by apply lookup_lock.
Qed.
End waiting.

(** Waiting on [fd] in an environment that makes progress: [I] is an invariant
    of its steps, [mu] bounds their number, and the step that brings the result
    releases the lock. *)
Section measured.
Context (fd : nat) (I : S -> Prop) (mu : S -> nat).
Context (I_fd : forall s, I s -> is_Some (futures s !! fd)).
Context (I_lock : forall s d l, I s -> futures s !! fd = Some d ->
  let s' := set_futures (<[fd := set_sem l d]> (futures s)) s in I s' /\ mu s' = mu s).
Context (I_env : forall s d, I s -> futures s !! fd = Some d ->
  result_available d = false -> exists s' d', env s = (s', Ok tt) /\ I s' /\
    (mu s' < mu s)%nat /\ futures s' !! fd = Some d' /\
    (result_available d' = false /\ sem d' = sem d \/
     result_available d' = true /\ sem d' = false)).

Definition arrived (s : S) : Prop :=
  I s /\ exists d, futures s !! fd = Some d /\ result_available d = true.

Lemma sem_wait_measured_held fuel s d :
  I s -> futures s !! fd = Some d -> result_available d = false -> sem d = true ->
  (mu s < fuel)%nat ->
  exists s', sem_wait env fuel fd s = (s', Ok tt) /\ arrived s'.
Proof.
  revert s d. induction fuel as [|fuel IH]; intros s d Hi Hd Ha Hl Hf; [lia|].
  cbn [sem_wait]. mstep (sem_trywait_ok fd d s Hd). rewrite Hl. cbn [negb].
  destruct (I_lock s d true Hi Hd) as [Hi1 Hm1].
  pose proof (lookup_lock fd s d true Hd) as Hd1.
  destruct (I_env _ _ Hi1 Hd1 Ha) as (s1 & d1 & He & Hi2 & Hm2 & Hd2 & Hc).
  mstep He. destruct Hc as [[Ha2 Hl2]|[Ha2 Hl2]].
  - apply (IH s1 d1); [done..|lia].
  - exists (set_futures (<[fd := set_sem true d1]> (futures s1)) s1). split.
    + destruct fuel; cbn [sem_wait]; mstep (sem_trywait_ok fd d1 s1 Hd2); by rewrite Hl2.
    + destruct (I_lock s1 d1 true Hi2 Hd2) as [Hi3 _]. split; [done|].
      exists (set_sem true d1). by rewrite (lookup_lock fd s1 d1 true Hd2).
Qed.

Lemma wait_measured fuel s : I s -> (Datatypes.S (mu s) < fuel)%nat ->
  exists s', wait env fuel fd s = (s', Ok tt) /\ arrived s'.
Proof.
  intros Hi Hf. destruct (I_fd s Hi) as [d Hd].
  destruct (result_available d) eqn:Ha.
  { exists s. rewrite (wait_available fuel fd d s Hd Ha). split; [done|]. split; eauto. }
  assert (Hheld : forall n s d, (mu s < n)%nat -> I s -> futures s !! fd = Some d ->
    result_available d = false -> sem d = true ->
    exists s', wait env n fd s = (s', Ok tt) /\ arrived s').
  { clear dependent s d. intros n s d Hf Hi Hd Ha Hl. destruct n as [|n]; [lia|].
    cbn [wait]. mstep (deref_ok fd d s Hd). rewrite Ha.
    destruct (sem_wait_measured_held (Datatypes.S n) s d Hi Hd Ha Hl ltac:(lia))
      as (s1 & Hw & Hi1 & d1 & Hd1 & Ha1).
    mstep Hw. exists s1. rewrite (wait_available n fd d1 s1 Hd1 Ha1).
    split; [done|]. split; eauto. }
  destruct (sem d) eqn:Hl; [apply (Hheld fuel s d); (done || lia)|].
  destruct fuel as [|fuel]; [lia|]. cbn [wait]. mstep (deref_ok fd d s Hd). rewrite Ha.
  assert (Hw : sem_wait env (Datatypes.S fuel) fd s =
    (set_futures (<[fd := set_sem true d]> (futures s)) s, Ok tt)).
  { cbn [sem_wait]. mstep (sem_trywait_ok fd d s Hd). by rewrite Hl. }
  mstep Hw. destruct (I_lock s d true Hi Hd) as [Hi1 Hm1].
  apply (Hheld fuel _ (set_sem true d)); [lia|done| |done|done].
  by apply lookup_lock.
Qed.
End measured.
End lemmas.
