(* ===== verification/TCPClient.v ===== *)
(** * The TCP client ([src/client/TCPClient.cpp])

    The client's state, shared by the caller's thread, the sender thread and the
    receiver thread; one definition per public operation, and one round of each
    thread's loop ([process_send], [process_received]).  A round is what the
    thread does between two points where it can block. *)

From stdpp Require Import gmap list strings.
From S2P Require Import Prelude Common Wire BladeClient.

Module TCPClient.

Definition SEND_QUEUE_SIZE : Z := 10000.
Definition reuse_max : Z := 5.

(** A [FlatBufferBuilder] is the bytes it has finished (none when cleared).
    [txn_map] gives the address of the transaction's [FutureData]. *)
Record t := mk {
  curr_txn_id : Z;
  txn_map : gmap Z nat;
  heap : list FutureData;
  send_queue : list bytes;
  reuse_queue : list bytes;
  queue_lock : SpinLock.t;
  reuse_lock : SpinLock.t;
  queue_semaphore : PosixSemaphore.t;
  receiver_thread : bool;
  sender_thread : bool;
  terminate_threads : bool;
  has_connected : bool;
  sock : socket;
}.

Definition set_curr_txn_id x (c : t) := mk x c.(txn_map) c.(heap) c.(send_queue)
  c.(reuse_queue) c.(queue_lock) c.(reuse_lock) c.(queue_semaphore)
  c.(receiver_thread) c.(sender_thread) c.(terminate_threads) c.(has_connected)
  c.(sock).
Definition set_txn_map x (c : t) := mk c.(curr_txn_id) x c.(heap) c.(send_queue)
  c.(reuse_queue) c.(queue_lock) c.(reuse_lock) c.(queue_semaphore)
  c.(receiver_thread) c.(sender_thread) c.(terminate_threads) c.(has_connected)
  c.(sock).
Definition set_heap x (c : t) := mk c.(curr_txn_id) c.(txn_map) x c.(send_queue)
  c.(reuse_queue) c.(queue_lock) c.(reuse_lock) c.(queue_semaphore)
  c.(receiver_thread) c.(sender_thread) c.(terminate_threads) c.(has_connected)
  c.(sock).
Definition set_send_queue x (c : t) := mk c.(curr_txn_id) c.(txn_map) c.(heap) x
  c.(reuse_queue) c.(queue_lock) c.(reuse_lock) c.(queue_semaphore)
  c.(receiver_thread) c.(sender_thread) c.(terminate_threads) c.(has_connected)
  c.(sock).
Definition set_reuse_queue x (c : t) := mk c.(curr_txn_id) c.(txn_map) c.(heap)
  c.(send_queue) x c.(queue_lock) c.(reuse_lock) c.(queue_semaphore)
  c.(receiver_thread) c.(sender_thread) c.(terminate_threads) c.(has_connected)
  c.(sock).
Definition set_queue_lock x (c : t) := mk c.(curr_txn_id) c.(txn_map) c.(heap)
  c.(send_queue) c.(reuse_queue) x c.(reuse_lock) c.(queue_semaphore)
  c.(receiver_thread) c.(sender_thread) c.(terminate_threads) c.(has_connected)
  c.(sock).
Definition set_reuse_lock x (c : t) := mk c.(curr_txn_id) c.(txn_map) c.(heap)
  c.(send_queue) c.(reuse_queue) c.(queue_lock) x c.(queue_semaphore)
  c.(receiver_thread) c.(sender_thread) c.(terminate_threads) c.(has_connected)
  c.(sock).
Definition set_queue_semaphore x (c : t) := mk c.(curr_txn_id) c.(txn_map)
  c.(heap) c.(send_queue) c.(reuse_queue) c.(queue_lock) c.(reuse_lock) x
  c.(receiver_thread) c.(sender_thread) c.(terminate_threads) c.(has_connected)
  c.(sock).
Definition set_threads r s (c : t) := mk c.(curr_txn_id) c.(txn_map) c.(heap)
  c.(send_queue) c.(reuse_queue) c.(queue_lock) c.(reuse_lock)
  c.(queue_semaphore) r s c.(terminate_threads) c.(has_connected) c.(sock).
Definition set_terminate x (c : t) := mk c.(curr_txn_id) c.(txn_map) c.(heap)
  c.(send_queue) c.(reuse_queue) c.(queue_lock) c.(reuse_lock)
  c.(queue_semaphore) c.(receiver_thread) c.(sender_thread) x c.(has_connected)
  c.(sock).
Definition set_has_connected x (c : t) := mk c.(curr_txn_id) c.(txn_map) c.(heap)
  c.(send_queue) c.(reuse_queue) c.(queue_lock) c.(reuse_lock)
  c.(queue_semaphore) c.(receiver_thread) c.(sender_thread)
  c.(terminate_threads) x c.(sock).
Definition set_sock x (c : t) := mk c.(curr_txn_id) c.(txn_map) c.(heap)
  c.(send_queue) c.(reuse_queue) c.(queue_lock) c.(reuse_lock)
  c.(queue_semaphore) c.(receiver_thread) c.(sender_thread)
  c.(terminate_threads) c.(has_connected) x.

#[global] Instance has_futures : HasFutures t := {
  futures := heap;
  set_futures := set_heap;
}.
#[global] Instance has_futures_spec : HasFuturesSpec t.
Proof. split; [done|]. by intros []. Qed.

(** [sock] as a [socket] that nobody has connected. *)
Definition no_socket : socket := mk_socket [] StreamFailed [] [] false.

Definition ctor : t :=
  mk 0 ∅ [] [] [] lk_init lk_init lk_init false false false false no_socket.

(** ** Connecting *)

(** The results of the calls that [connect] makes, and the socket it gets. *)
Record connect_calls := mk_connect {
  r_socket : Z;
  r_setsockopt : Z;
  r_inet_pton : Z;
  r_stoi : outcome Z;
  r_connect : Z;
  r_sock : socket;
}.

Definition connect (r : connect_calls) : M t unit :=
  let* was := gets has_connected in
  modify (set_has_connected true) ;;;
  if was : bool then ret tt
  else if r.(r_socket) <? 0 then
    throw (ConnectionException "Error when creating socket.")
  else if negb (r.(r_setsockopt) =? 0) then
    throw (ConnectionException "Error setting socket options.")
  else if negb (r.(r_inet_pton) =? 1) then
    throw (ConnectionException
             "Address family invalid or invalid IP address passed in")
  else
    let* _ := stop r.(r_stoi) in
    if r.(r_connect) <? 0 then
      throw (ConnectionException "Client could not connect to server.")
    else modify (fun c => set_threads true true (set_sock r.(r_sock) c)).

(** The destructor: the receiver is cancelled, the sender is woken and sees
    [terminate_threads]. *)
Definition destroy : M t unit :=
  modify (set_terminate true) ;;;
  let* s := gets sender_thread in
  (if s : bool then
     modify (fun c => set_queue_semaphore (lk_signal c.(queue_semaphore)) c)
   else ret tt) ;;;
  modify (set_threads false false).

(** ** Requests *)

Section client.
Context `{Flatbuffers} {T : Type} `{Serializer T}.

(** [lock.wait()] by the only thread running: it has the lock, or spins on a
    lock that nobody is there to release. *)
Definition take_reuse_lock : M t unit :=
  let* c := gets id in
  let '(l, got) := lk_acquire c.(reuse_lock) in
  modify (set_reuse_lock l) ;;;
  if got : bool then ret tt else stop Blocked.
Definition release_reuse_lock : M t unit :=
  modify (fun c => set_reuse_lock (lk_signal c.(reuse_lock)) c).

(** [const int txn_id = curr_txn_id++;] *)
Definition next_txn_id : M t Z :=
  let* n := gets curr_txn_id in
  modify (set_curr_txn_id (u64 (n + 1))) ;;;
  ret (i32 n).

(** [CreateTCPBladeMessage(builder, txn_id, 0, type, contents)]: the [int] is
    converted to the [uint64_t] of the schema. *)
Definition build (txn_id : Z) (m : Message) : bytes :=
  fb_encode (mk_msg (u64 txn_id) 0 m).

(** A full queue makes the caller spin in [while (!send_queue.push(builder))]
    until the sender thread takes a message off it. *)
Definition enqueue_message (builder : bytes) (txn_id : Z) : M t ClientFuture.t :=
  let* fd := gets (fun c => length c.(heap)) in
  modify (fun c => set_heap (c.(heap) ++ [new_FutureData]) c) ;;;
  modify (fun c => set_txn_map (<[u64 txn_id := fd]> c.(txn_map)) c) ;;;
  let* c := gets id in
  if Z.of_nat (length c.(send_queue)) <? SEND_QUEUE_SIZE then
    modify (fun c => set_send_queue (c.(send_queue) ++ [builder]) c) ;;;
    modify (fun c => set_queue_semaphore (lk_signal c.(queue_semaphore)) c) ;;;
    ret fd
  else stop Blocked.

Definition write_async (oid : ObjectID) (w : T) : M t ClientFuture.t :=
  let size := u64 (WriteUnit.size w) in
  take_reuse_lock ;;;
  modify (fun c => set_reuse_queue (tail c.(reuse_queue)) c) ;;;
  release_reuse_lock ;;;
  let* data := stop (WriteUnit.serialize w (fb_uninit (Z.to_nat size))) in
  let* txn_id := next_txn_id in
  enqueue_message (build txn_id (Write oid data)) txn_id.

Definition read_async (oid : ObjectID) : M t ClientFuture.t :=
  let* txn_id := next_txn_id in
  enqueue_message (build txn_id (Read oid)) txn_id.

Definition read_async_bulk (oids : list ObjectID) : M t ClientFuture.t :=
  let* txn_id := next_txn_id in
  enqueue_message
    (build txn_id (ReadBulk (Z.of_nat (length oids)) oids)) txn_id.

Definition write_async_bulk (oids : list ObjectID) (w : list T)
    : M t ClientFuture.t :=
  let w_size := WriteUnits.size w in
  let* data := stop (WriteUnits.serialize w 0 (fb_uninit (Z.to_nat w_size))) in
  let* txn_id := next_txn_id in
  enqueue_message
    (build txn_id (WriteBulk (Z.of_nat (length oids)) oids data)) txn_id.

Definition remove_async (oid : ObjectID) : M t ClientFuture.t :=
  let* txn_id := next_txn_id in
  enqueue_message (build txn_id (Remove oid)) txn_id.

(** ** The sender thread *)

(** One round of [process_send]; [false]: the thread has returned. *)
Definition process_send (fuel : nat) : M t bool :=
  let* c := gets id in
  let '(l, got) := lk_acquire c.(queue_semaphore) in
  modify (set_queue_semaphore l) ;;;
  if negb got then stop Blocked else
  if c.(terminate_threads) then ret false else
  match c.(send_queue) with
  | [] => ret true
  | builder :: rest =>
      modify (set_send_queue rest) ;;;
      let message_size := i32 (Z.of_nat (length builder)) in
      if message_size <? 0 then undefined else
      let* n := zoom sock set_sock
                  (client_send_all fuel (size_header message_size) 0) in
      if negb (n =? 4) then
        throw (Exception "Client error sending data to server") else
      let* n := zoom sock set_sock
                  (client_send_all fuel (take (Z.to_nat message_size) builder) 0) in
      if negb (n =? message_size) then
        throw (Exception "Client error sending data to server") else
      modify (fun c => set_queue_lock (lk_signal c.(queue_lock)) c) ;;;
      take_reuse_lock ;;;
      let* c := gets id in
      (if Z.of_nat (length c.(reuse_queue)) <? reuse_max then
         match fb_decode builder with
         | None => undefined
         | Some m =>
             match m.(message) with
             | Write _ _ => modify (set_reuse_queue (c.(reuse_queue) ++ [[]]))
             | _ => ret tt
             end
         end
       else ret tt) ;;;
      release_reuse_lock ;;;
      ret true
  end.

(** ** The receiver thread *)

(** The loop that reads the 4 bytes of the size.  [eintr]: a failing [read]
    was interrupted by a signal.  [None]: the thread returns. *)
Fixpoint read_size (fuel : nat) (eintr : bool) (buf : bytes)
    : M t (option bytes) :=
  if decide (4 <= length buf)%nat then ret (Some buf) else
  match fuel with
  | O => stop OutOfFuel
  | S fuel =>
      let* r := zoom sock set_sock (sys_read (4 - length buf)) in
      match r with
      | None =>
          let* stopping := gets terminate_threads in
          if (eintr && stopping)%bool then ret None
          else throw (Exception ("Issue in reading socket. " ++
                 "Full size not read. Socket may have been closed."))
      | Some bs => read_size fuel eintr (buf ++ bs)
      end
  end.

(** What an acknowledgement writes to the future's data. *)
Definition ack_result (m : Message) (d : FutureData) : outcome FutureData :=
  match m with
  | WriteAck _ success | WriteBulkAck success | RemoveAck _ success =>
      Ok (mk_fd success d.(result_available) d.(sem) d.(fd_error_code)
            d.(data_ptr) d.(data_size))
  | ReadAck _ success data | ReadBulkAck success data =>
      Ok (mk_fd success d.(result_available) d.(sem) d.(fd_error_code)
            (Some data) (Z.of_nat (length data)))
  | _ => Throw (Exception "Unknown message type:")
  end.

Definition set_fd_error (e : Z) (d : FutureData) : FutureData :=
  mk_fd d.(result) d.(result_available) d.(sem) e d.(data_ptr) d.(data_size).

(** [result_available = true; sem->signal();] *)
Definition complete (d : FutureData) : FutureData :=
  mk_fd d.(result) true (lk_signal d.(sem)) d.(fd_error_code) d.(data_ptr)
    d.(data_size).

(** Hand an acknowledgement to its transaction. *)
Definition handle_ack (ack : TCPBladeMessage) : M t unit :=
  let txn_id := ack.(txnid) in
  let* c := gets id in
  match c.(txn_map) !! txn_id with
  | None => throw (Exception ("Client error when processing " ++
                     "Messages. txn_id received was invalid."))
  | Some fd =>
      modify (fun c => set_txn_map (delete txn_id c.(txn_map)) c) ;;;
      ClientFuture.update fd (set_fd_error ack.(error_code)) ;;;
      let* d := ClientFuture.deref fd in
      let* d' := stop (ack_result ack.(message) d) in
      ClientFuture.update fd (fun _ => d') ;;;
      ClientFuture.update fd complete
  end.

(** One round of [process_received]; [false]: the thread has returned. *)
Definition process_received (fuel : nat) (eintr : bool) : M t bool :=
  let* hdr := read_size fuel eintr [] in
  match hdr with
  | None => ret false
  | Some buffer =>
      let incoming_size := i32 (header_size buffer) in
      if incoming_size <? 0 then undefined else
      let* body := zoom sock set_sock
                     (client_read_all fuel (Z.to_nat incoming_size) []) in
      match fb_decode body with
      | None => undefined
      | Some ack => handle_ack ack ;;; ret true
      end
  end.

(** ** Synchronous operations *)

(** In a system [W] that holds the client and a heap of futures, and whose
    other threads take the step [env] while the caller spins. *)
Section sync.
Context {W : Type} `{HasFutures W} (on_client : forall A, M t A -> M W A).
Context (env : M W unit) (fuel : nat).
Arguments on_client {A} _.

Definition read_sync (oid : ObjectID) : M W (bytes * Z) :=
  let* future := on_client (read_async oid) in
  ClientFuture.getDataPair env fuel future.

Definition read_sync_bulk (oids : list ObjectID) : M W (bytes * Z) :=
  let* future := on_client (read_async_bulk oids) in
  ClientFuture.getDataPair env fuel future.

Definition write_sync (oid : ObjectID) (w : T) : M W bool :=
  let* future := on_client (write_async oid w) in
  ClientFuture.get env fuel future.

Definition write_sync_bulk (oids : list ObjectID) (w : list T) : M W bool :=
  let* future := on_client (write_async_bulk oids w) in
  ClientFuture.get env fuel future.

Definition remove (oid : ObjectID) : M W bool :=
  let* future := on_client (remove_async oid) in
  ClientFuture.get env fuel future.

(** [TCPClient : public BladeClient]. *)
Definition blade_client : BladeClient W T := {|
  bc_connection := connect_calls;
  bc_connect r := on_client (connect r);
  bc_read_sync := read_sync;
  bc_read_sync_bulk := read_sync_bulk;
  bc_read_async oid := on_client (read_async oid);
  bc_read_async_bulk oids := on_client (read_async_bulk oids);
  bc_write_sync := write_sync;
  bc_write_sync_bulk := write_sync_bulk;
  bc_write_async oid w := on_client (write_async oid w);
  bc_write_async_bulk oids w := on_client (write_async_bulk oids w);
  bc_remove := remove;
|}.
End sync.

End client.

(** ** Lemmas *)

Section lemmas.
Context `{FlatbuffersSpec} {T : Type} `{SerializerSpec T}.

(** The client with one more request: its transaction, its future and its
    message at the end of the queue. *)
Definition requested (txn_id : Z) (builder : bytes) (c : t) : t :=
  set_queue_semaphore (c.(queue_semaphore) + 1)
    (set_send_queue (c.(send_queue) ++ [builder])
      (set_txn_map (<[u64 txn_id := length c.(heap)]> c.(txn_map))
        (set_heap (c.(heap) ++ [new_FutureData]) c))).

Lemma enqueue_ok builder txn_id (c : t) :
  Z.of_nat (length c.(send_queue)) < SEND_QUEUE_SIZE ->
  enqueue_message builder txn_id c =
    (requested txn_id builder c, Ok (length c.(heap))).
Proof.
  intros Hq. unfold enqueue_message, bind, gets, modify, id. simpl.
  rewrite (proj2 (Z.ltb_lt _ _) Hq). done.
Qed.

(** A request with the next transaction id. *)
Definition issued (m : Message) (c : t) : t :=
  requested (i32 c.(curr_txn_id)) (build (i32 c.(curr_txn_id)) m)
    (set_curr_txn_id (u64 (c.(curr_txn_id) + 1)) c).

(** Send a message under the next transaction id. *)
Definition send_next (m : Message) : M t nat :=
  let* txn_id := next_txn_id in enqueue_message (build txn_id m) txn_id.

Lemma send_next_ok m (c : t) :
  Z.of_nat (length c.(send_queue)) < SEND_QUEUE_SIZE ->
  send_next m c = (issued m c, Ok (length c.(heap))).
Proof.
  intros Hq. unfold send_next, next_txn_id, bind, gets, modify, ret.
  by rewrite enqueue_ok.
Qed.

(** With the queue full, the caller spins. *)
Lemma send_next_full m (c : t) :
  SEND_QUEUE_SIZE <= Z.of_nat (length c.(send_queue)) -> (send_next m c).2 = Blocked.
Proof.
  intros Hq. unfold send_next, next_txn_id, enqueue_message, bind, gets, modify, ret, id.
  simpl. destruct (Z.ltb_spec (Z.of_nat (length (send_queue c))) SEND_QUEUE_SIZE);
    [lia|done].
Qed.

Lemma take_reuse_lock_ok (c : t) : c.(reuse_lock) = false ->
  take_reuse_lock c = (set_reuse_lock true c, Ok tt).
Proof. intros Hl. unfold take_reuse_lock, bind, gets, id; simpl. by rewrite Hl. Qed.

Lemma write_async_eq oid (w : T) (c : t) :
  c.(reuse_lock) = false -> ser_size w < 2 ^ 64 ->
  write_async oid w c =
    send_next (Write oid (ser_serialize w)) (set_reuse_queue (tail c.(reuse_queue)) c).
Proof.
  intros Hlock Hsz. unfold write_async. mstep (take_reuse_lock_ok c Hlock).
  unfold bind at 1, modify. unfold bind at 1, release_reuse_lock, modify, stop.
  unfold WriteUnit.size. pose proof (ser_size_spec w) as Hs.
  rewrite u64_small by (split; lia).
  rewrite WriteUnit.unit_serialize_exact
    by (rewrite fb_uninit_length; unfold WriteUnit.size; done).
  unfold bind at 1. destruct c; simpl in *; by subst.
Qed.

Lemma write_async_bulk_eq oids (ws : list T) (c : t) :
  WriteUnits.small ws -> Z.of_nat (length (WriteUnits.layout ws)) < 2 ^ 64 ->
  write_async_bulk oids ws c =
    send_next (WriteBulk (Z.of_nat (length oids)) oids (WriteUnits.layout ws)) c.
Proof.
  intros Hsmall Hlt. unfold write_async_bulk. unfold bind at 1, stop.
  rewrite WriteUnits.units_serialize_exact; [|done|done|by rewrite fb_uninit_length].
  done.
Qed.

Lemma on_sock_ok {A} (f : M socket A) (c : t) k r :
  f c.(sock) = (k, r) -> zoom sock set_sock f c = (set_sock k c, r).
Proof. intros Hf. unfold zoom. by rewrite Hf. Qed.

(** A round of the sender: the first message of the queue is framed and sent;
    apart from the queue, the semaphore and the socket, only the builders kept
    for reuse and the two locks of the sender change. *)
Lemma process_send_ok fuel (c : t) builder rest :
  c.(send_queue) = builder :: rest -> 0 < c.(queue_semaphore) ->
  c.(terminate_threads) = false -> c.(reuse_lock) = false -> send_ok c.(sock) ->
  (exists m, fb_decode builder = Some m) ->
  Z.of_nat (length builder) < 2 ^ 31 -> (4 + length builder <= fuel)%nat ->
  exists q k, process_send fuel c =
    (set_queue_semaphore (c.(queue_semaphore) - 1) (set_send_queue rest
       (set_sock k (set_queue_lock false (set_reuse_queue q c)))), Ok true) /\
    after_send (frame builder) c.(sock) k.
Proof.
  intros Hq Hsem Hterm Hlock Hok [m Hm] Hlen Hf. unfold process_send.
  unfold bind at 1, gets, id. cbn [lk_acquire PosixSemaphore.lock].
  unfold PosixSemaphore.trywait. rewrite (proj2 (Z.ltb_lt _ _) Hsem).
  unfold bind at 1, modify. cbn [negb]. rewrite Hterm, Hq.
  unfold bind at 1. rewrite i32_small by lia.
  destruct (Z.ltb_spec (Z.of_nat (length builder)) 0); [lia|].
  set (c1 := set_send_queue rest _).
  destruct (client_send_all_spec fuel (size_header (Z.of_nat (length builder))) 0
              c1.(sock)) as (k1 & Hs1 & Ha1); [done|rewrite length_size_header; lia|].
  rewrite length_size_header in Hs1. mstep (on_sock_ok _ _ _ _ Hs1).
  change (negb (0 + Z.of_nat 4 =? 4)) with false. cbv iota.
  rewrite Nat2Z.id, firstn_all.
  destruct (client_send_all_spec fuel builder 0 (sock (set_sock k1 c1)))
    as (k2 & Hs2 & Ha2); [apply Ha1|lia|].
  mstep (on_sock_ok _ _ _ _ Hs2). rewrite Z.add_0_l, Z.eqb_refl. cbn [negb].
  unfold take_reuse_lock, release_reuse_lock, bind, gets, modify, ret, stop, id.
  simpl. rewrite Hlock. simpl. rewrite Hm.
  exists (if Z.of_nat (length (reuse_queue c)) <? reuse_max then
            match message m with
            | Write _ _ => reuse_queue c ++ [[]] | _ => reuse_queue c
            end else reuse_queue c), k2.
  assert (Hafter : after_send (frame builder) (sock c) k2)
    by exact (after_send_trans _ _ _ _ _ Ha1 Ha2).
  split; [|exact Hafter]. subst c1. destruct c; simpl in *; subst.
  destruct (_ <? reuse_max); [destruct (message m)|]; done.
Qed.

Lemma read_size_spec fuel eintr buf (c : t) :
  live c.(sock) -> (length buf <= 4)%nat -> (4 - length buf <= fuel)%nat ->
  (4 - length buf <= length (stream c.(sock)))%nat -> exists k,
    read_size fuel eintr buf c =
      (set_sock k c, Ok (Some (buf ++ take (4 - length buf) (stream c.(sock))))) /\
    after_read (4 - length buf) c.(sock) k.
Proof.
  revert buf c. induction fuel as [|fuel IH]; intros buf c Hl Hb Hf Hs;
    cbn [read_size]; destruct (decide _) as [Hle|Hgt]; try lia.
  1, 2: replace (4 - length buf)%nat with 0%nat by lia; exists c.(sock);
    unfold ret; rewrite take_0, app_nil_r; by destruct c.
  destruct (sys_read_spec (4 - length buf) c.(sock))
    as (n & k1 & Hn & Hns & Hread & Haft); [lia|done| |].
  { intros Heq. rewrite Heq in Hs. simpl in Hs. lia. }
  mstep (on_sock_ok _ _ _ _ Hread).
  assert (Htk : length (take n (stream c.(sock))) = n) by (rewrite length_take; lia).
  pose proof Haft as (Hl1 & Hst & _).
  destruct (IH (buf ++ take n (stream c.(sock))) (set_sock k1 c)) as (k & Hr & Haft').
  { done. } { rewrite length_app. lia. } { rewrite length_app. lia. }
  { cbn [sock set_sock]. rewrite Hst, length_drop, length_app. lia. }
  cbn [sock set_sock] in *. rewrite length_app, Htk in Hr, Haft'. exists k. split.
  - rewrite Hr, Hst, <- app_assoc, take_take_drop.
    replace (n + (4 - (length buf + n)))%nat with (4 - length buf)%nat by lia. done.
  - pose proof (after_read_trans _ _ _ _ _ Haft Haft') as Ht.
    by replace (n + (4 - (length buf + n)))%nat
      with (4 - length buf)%nat in Ht by lia.
Qed.

Lemma read_size_blocked fuel eintr buf (c : t) :
  live c.(sock) -> in_end c.(sock) = StreamOpen ->
  (length buf + length (stream c.(sock)) < 4)%nat -> (4 - length buf <= fuel)%nat ->
  (read_size fuel eintr buf c).2 = Blocked.
Proof.
  revert buf c. induction fuel as [|fuel IH]; intros buf c Hl He Hlen Hf;
    cbn [read_size]; rewrite decide_False by lia; [lia|].
  destruct (decide (stream c.(sock) = [])) as [Hnil|Hne].
  - unfold bind, zoom. by rewrite sys_read_nothing.
  - destruct (sys_read_spec (4 - length buf) c.(sock))
      as (k & s1 & Hk & Hks & Hr & Hl1 & Hst & He1 & _); [lia|done|done|].
    mstep (on_sock_ok _ _ _ _ Hr). apply IH; simpl; [done|congruence| |];
      rewrite length_app, length_take, ?Hst, ?length_drop; lia.
Qed.

Lemma update_ok fd f d (c : t) : c.(heap) !! fd = Some d ->
  ClientFuture.update fd f c = (set_heap (<[fd := f d]> c.(heap)) c, Ok tt).
Proof.
  intros Hd. unfold ClientFuture.update, modify. simpl. by rewrite (alter_insert f _ _ d).
Qed.

(** An acknowledgement completes the future of its transaction, and only it. *)
Lemma handle_ack_ok ack fd d d' (c : t) :
  c.(txn_map) !! txnid ack = Some fd -> c.(heap) !! fd = Some d ->
  ack_result (message ack) (set_fd_error (error_code ack) d) = Ok d' ->
  handle_ack ack c =
    (set_heap (<[fd := complete d']> c.(heap))
       (set_txn_map (delete (txnid ack) c.(txn_map)) c), Ok tt).
Proof.
  intros Htxn Hd Hres. unfold handle_ack; cbn zeta.
  rewrite (bind_ok (gets id) _ c c c eq_refl), Htxn.
  unfold bind at 1, modify. set (c1 := set_txn_map _ c).
  assert (Hlt : (fd < length c.(heap))%nat) by (by apply lookup_lt_Some in Hd).
  mstep (update_ok fd (set_fd_error (error_code ack)) d c1 Hd).
  set (c2 := set_heap _ c1).
  assert (Hd2 : futures c2 !! fd = Some (set_fd_error (error_code ack) d))
    by (unfold c2; simpl; by apply list_lookup_insert_eq).
  mstep (deref_ok fd _ c2 Hd2). unfold bind at 1, stop. rewrite Hres.
  mstep (update_ok fd (fun _ => d') _ c2 Hd2).
  set (c3 := set_heap _ c2).
  assert (Hd3 : heap c3 !! fd = Some d')
    by (unfold c3; simpl; apply list_lookup_insert_eq; by rewrite length_insert).
  rewrite (update_ok fd complete d' c3 Hd3). unfold c3, c2, c1. simpl.
  by rewrite !list_insert_insert_eq.
Qed.

(** A round of the receiver on a socket that holds a whole acknowledgement. *)
Lemma process_received_ok fuel eintr ack rest (c : t) fd d d' :
  live c.(sock) -> stream c.(sock) = frame (fb_encode ack) ++ rest -> msg_fits ack ->
  Z.of_nat (length (fb_encode ack)) < 2 ^ 31 ->
  (4 + length (fb_encode ack) <= fuel)%nat ->
  c.(txn_map) !! txnid ack = Some fd -> c.(heap) !! fd = Some d ->
  ack_result (message ack) (set_fd_error (error_code ack) d) = Ok d' ->
  exists k, process_received fuel eintr c =
    (set_heap (<[fd := complete d']> c.(heap))
       (set_txn_map (delete (txnid ack) c.(txn_map)) (set_sock k c)), Ok true) /\
    after_read (4 + length (fb_encode ack)) c.(sock) k.
Proof.
  intros Hl Hst Hfit Hlen Hf Htxn Hd Hres. set (body := fb_encode ack) in *.
  unfold frame in Hst. rewrite <- app_assoc in Hst.
  set (h := size_header (Z.of_nat (length body))) in *.
  assert (Hh : length h = 4%nat) by apply length_size_header.
  destruct (read_size_spec fuel eintr [] c) as (k1 & Hr1 & Ha1);
    [done|simpl; lia|simpl; lia|rewrite Hst, length_app; simpl; lia|].
  rewrite Hst in Hr1. simpl (length []) in Hr1, Ha1. rewrite Nat.sub_0_r in Hr1, Ha1.
  rewrite take_app_le, (take_ge h), app_nil_l in Hr1 by lia.
  unfold process_received. mstep Hr1. unfold h. rewrite header_size_header.
  rewrite u32_small, i32_small by (unfold is_u32; lia).
  destruct (Z.ltb_spec (Z.of_nat (length body)) 0); [lia|]. rewrite Nat2Z.id.
  pose proof Ha1 as (Hl1 & Hs1 & _).
  assert (Hst1 : stream k1 = body ++ rest).
  { rewrite Hs1, Hst. by apply drop_app_length'. }
  destruct (read_all_spec (Exception "Error reading from server") fuel
              (length body) [] k1) as (k2 & Hr2 & Ha2);
    [done|simpl; lia|simpl; lia|rewrite Hst1, length_app; simpl; lia|].
  simpl (length []) in Hr2, Ha2. rewrite Nat.sub_0_r in Hr2, Ha2.
  rewrite Hst1, take_app_length, app_nil_l in Hr2. unfold client_read_all.
  mstep (on_sock_ok _ (set_sock k1 c) _ _ Hr2).
  unfold body at 1. rewrite fb_roundtrip by done. exists k2.
  set (c2 := set_sock k2 (set_sock k1 c)).
  mstep (handle_ack_ok ack fd d d' c2 Htxn Hd Hres).
  split; [done|]. by apply (after_read_trans 4 _ _ k1).
Qed.

(** A round of the receiver on a socket that holds only a part of a message. *)
Lemma process_received_blocked fuel eintr body y (c : t) :
  live c.(sock) -> in_end c.(sock) = StreamOpen ->
  stream c.(sock) ++ y = frame body -> y <> [] ->
  Z.of_nat (length body) < 2 ^ 31 -> (4 + length body <= fuel)%nat ->
  (process_received fuel eintr c).2 = Blocked.
Proof.
  intros Hl He Hst Hy Hlen Hf.
  assert (Hpart : (length (stream c.(sock)) < 4 + length body)%nat).
  { apply (f_equal length) in Hst. unfold frame in Hst.
    rewrite !length_app, length_size_header in Hst. destruct y; simpl in *; [done|lia]. }
  unfold process_received.
  destruct (decide (length (stream c.(sock)) < 4)%nat) as [Hshort|Hlong].
  { apply bind_blocked, read_size_blocked; (done || simpl; lia). }
  destruct (read_size_spec fuel eintr [] c) as (k1 & Hr1 & Ha1);
    [done|simpl; lia|simpl; lia|simpl; lia|].
  simpl (length []) in Hr1, Ha1. rewrite Nat.sub_0_r in Hr1, Ha1.
  assert (Hh : take 4 (stream c.(sock)) = size_header (Z.of_nat (length body))).
  { rewrite <- (take_app_le _ y), Hst by lia. unfold frame.
    apply take_app_length'. by rewrite length_size_header. }
  rewrite app_nil_l, Hh in Hr1. mstep Hr1. rewrite header_size_header.
  rewrite u32_small, i32_small by (unfold is_u32; lia).
  destruct (Z.ltb_spec (Z.of_nat (length body)) 0); [lia|]. rewrite Nat2Z.id.
  destruct Ha1 as (Hl1 & Hs1 & He1 & _).
  apply bind_blocked. unfold zoom, client_read_all. cbn [sock set_sock].
  pose proof (read_all_blocked (Exception "Error reading from server") fuel
                (length body) [] k1) as Hb.
  destruct (read_all _ fuel (length body) [] k1) as [k2 o]. simpl in *. apply Hb.
  - done.
  - by rewrite He1.
  - rewrite Hs1, length_drop. lia.
  - lia.
Qed.

Lemma process_received_idle fuel eintr (c : t) :
  live c.(sock) -> in_end c.(sock) = StreamOpen -> stream c.(sock) = [] ->
  (4 <= fuel)%nat -> (process_received fuel eintr c).2 = Blocked.
Proof.
  intros Hl He Hst Hf. apply bind_blocked, read_size_blocked;
    [done|done|rewrite Hst; simpl; lia|simpl; lia].
Qed.
End lemmas.

(** ** Properties *)

(** [connect] marks the client as connected before it tries.  After an
    attempt that failed, every further [connect] returns normally, whatever the
    system calls would have said, without a connection and without threads. *)
Theorem connect_retry_does_nothing r r' (c c1 : t) e :
  c.(has_connected) = false -> c.(sender_thread) = false ->
  c.(receiver_thread) = false -> connect r c = (c1, Throw e) ->
  connect r' c1 = (c1, Ok tt) /\ sock c1 = sock c /\
  sender_thread c1 = false /\ receiver_thread c1 = false.
Proof.
  intros Hc Hs Hr Hrun.
  assert (Hc1 : c1 = set_has_connected true c).
  { unfold connect, bind, gets, modify, throw, stop in Hrun. rewrite Hc in Hrun.
    repeat case_match; by simplify_eq. }
  subst c1. unfold connect, bind, gets, modify, ret. simpl. by destruct c.
Qed.

Lemma connect_retry_does_nothing_witness :
  let refused := mk_connect 5 0 1 (Ok 12345) (-1) no_socket in
  let open := mk_connect 5 0 1 (Ok 12345) 0 (mk_socket [] StreamOpen [] [] true) in
  let c1 := (connect refused ctor).1 in
  connect open c1 = (c1, Ok tt) /\ sock c1 = sock ctor /\
  sender_thread c1 = false /\ receiver_thread c1 = false.
Proof.
  apply (connect_retry_does_nothing (mk_connect 5 0 1 (Ok 12345) (-1) no_socket)
    (mk_connect 5 0 1 (Ok 12345) 0 (mk_socket [] StreamOpen [] [] true)) ctor _
    (ConnectionException "Client could not connect to server.")); reflexivity.
Defined.
End TCPClient.
