(* ===== verification/System.v ===== *)
(** * The system: one client, the network and the server

    The client of TCPClient.v and the server of TCPServer.v joined by a network
    that moves the bytes each side has sent, in pieces of any size.  The threads
    are interleaved freely: the sender and the receiver of the client, the
    server, and the two directions of the network.  The theorems relate every
    interleaving to the abstract server that serves the requests one by one in
    the order in which they were made. *)

From stdpp Require Import gmap list strings.
From S2P Require Import Prelude Common Storage Wire.
From S2P Require Import Codec BladeClient TCPClient TCPServer.

Module System.
Import TCPServer.

Section system.
Context {B : Type} `{StorageBackend B} `{Flatbuffers}.

Record sys := mk_sys {
  client : TCPClient.t;
  server : TCPServer.t B;
  conn : socket;
}.

Definition on_client {A} (m : M TCPClient.t A) : M sys A :=
  zoom client (fun c w => mk_sys c w.(server) w.(conn)) m.
Definition on_process {A} (m : M (TCPServer.t B * socket) A) : M sys A :=
  zoom (fun w => (w.(server), w.(conn))) (fun p w => mk_sys w.(client) p.1 p.2) m.

#[global] Instance has_futures : HasFutures sys := {
  futures w := futures w.(client);
  set_futures l w := mk_sys (set_futures l w.(client)) w.(server) w.(conn);
}.

#[global] Instance has_futures_spec : HasFuturesSpec sys.
Proof. split; [done|]. by intros [[] s k]. Qed.

(** The network takes [n] of the bytes that one end has sent, and delivers them
    to the other end as one segment. *)
Definition take_sent (n : nat) (k : socket) : socket :=
  mk_socket k.(in_segs) k.(in_end) (drop n k.(sent)) k.(send_plan) k.(is_open).
Definition arrive (seg : bytes) (k : socket) : socket :=
  match seg with
  | [] => k
  | _ => set_in (k.(in_segs) ++ [seg]) k
  end.

Definition net_up (n : nat) (w : sys) : sys :=
  let k := w.(client).(TCPClient.sock) in
  mk_sys (TCPClient.set_sock (take_sent n k) w.(client)) w.(server)
    (arrive (take n k.(sent)) w.(conn)).
Definition net_down (n : nat) (w : sys) : sys :=
  let k := w.(client).(TCPClient.sock) in
  mk_sys (TCPClient.set_sock (arrive (take n w.(conn).(sent)) k) w.(client))
    w.(server) (take_sent n w.(conn)).

Inductive thread := Sender | Receiver | Server | Up (n : nat) | Down (n : nat).

(** What a thread does between two points where it can block. *)
Definition step (fuel : nat) (th : thread) : M sys unit :=
  match th with
  | Sender => on_client (TCPClient.process_send fuel) ;;; ret tt
  | Receiver => on_client (TCPClient.process_received fuel false) ;;; ret tt
  | Server => on_process (TCPServer.process fuel) ;;; ret tt
  | Up n => modify (net_up n)
  | Down n => modify (net_down n)
  end.

(** One round of a scheduler that runs whoever has something to do. *)
Definition pump (fuel : nat) : M sys unit :=
  let* w := gets id in
  (if 0 <? w.(client).(TCPClient.queue_semaphore) then step fuel Sender else ret tt) ;;;
  let* w := gets id in
  step fuel (Up (length w.(client).(TCPClient.sock).(sent))) ;;;
  let* w := gets id in
  (match stream w.(conn) with [] => ret tt | _ => step fuel Server end) ;;;
  let* w := gets id in
  step fuel (Down (length w.(conn).(sent))) ;;;
  let* w := gets id in
  match stream w.(client).(TCPClient.sock) with
  | [] => ret tt
  | _ => step fuel Receiver
  end.
End system.
Arguments sys : clear implicits.

(** ** The specification: the requests one by one *)

Definition a_run (pool : Z) (a : astate) (rs : list request) : astate :=
  fold_left (fun a r => (a_step pool r a).1) rs a.

(** The reply to request [i]. *)
Definition reply_of (pool : Z) (a : astate) (rs : list request) (i : nat)
    : option (ErrorCodes * Message) :=
  (fun r => (a_step pool r (a_run pool a (take i rs))).2) <$> rs !! i.

(** What a reply leaves in the [FutureData] of its request, [l] being the state
    of its lock. *)
Definition reply_data (x : ErrorCodes * Message) (l : bool) : FutureData :=
  match x.2 with
  | WriteAck _ b | WriteBulkAck b | RemoveAck _ b =>
      mk_fd b true l (error_code_to_Z x.1) None 0
  | ReadAck _ b v | ReadBulkAck b v =>
      mk_fd b true l (error_code_to_Z x.1) (Some v) (Z.of_nat (length v))
  | _ => mk_fd false true l (error_code_to_Z x.1) None 0
  end.

(** The requests a caller makes of the client. *)
Inductive op (T : Type) :=
| OpWrite (oid : ObjectID) (w : T)
| OpWriteBulk (objs : list (ObjectID * T))
| OpRead (oid : ObjectID)
| OpReadBulk (oids : list ObjectID)
| OpRemove (oid : ObjectID).
Arguments OpWrite {T} _ _.
Arguments OpWriteBulk {T} _.
Arguments OpRead {T} _.
Arguments OpReadBulk {T} _.
Arguments OpRemove {T} _.

Definition issue `{Flatbuffers} {T} `{Serializer T} (o : op T) : M TCPClient.t nat :=
  match o with
  | OpWrite oid w => TCPClient.write_async oid w
  | OpWriteBulk objs => TCPClient.write_async_bulk objs.*1 objs.*2
  | OpRead oid => TCPClient.read_async oid
  | OpReadBulk oids => TCPClient.read_async_bulk oids
  | OpRemove oid => TCPClient.remove_async oid
  end.

Definition request_of {T} `{Serializer T} (o : op T) : request :=
  match o with
  | OpWrite oid w => RWrite oid (ser_serialize w)
  | OpWriteBulk objs => RWriteBulk ((fun p => (p.1, ser_serialize p.2)) <$> objs)
  | OpRead oid => RRead oid
  | OpReadBulk oids => RReadBulk oids
  | OpRemove oid => RRemove oid
  end.

(** Sizes that 64-bit (and, in bulk, 32-bit) fields can hold. *)
Definition op_ok {T} `{Serializer T} (o : op T) : Prop :=
  match o with
  | OpWrite _ w => ser_size w < 2 ^ 64
  | OpWriteBulk objs => WriteUnits.small objs.*2 /\
      Z.of_nat (length (WriteUnits.layout objs.*2)) < 2 ^ 64
  | _ => True
  end.

Lemma a_run_snoc pool a rs r :
  a_run pool a (rs ++ [r]) = (a_step pool r (a_run pool a rs)).1.
Proof. unfold a_run. by rewrite fold_left_app. Qed.

Section pipeline.
Context {B : Type} `{StorageSpec B} `{FlatbuffersSpec}.
Context (fuel : nat) (pool : Z) (a0 : astate).

Definition req_bytes (i : nat) (r : request) : bytes :=
  fb_encode (mk_msg (Z.of_nat i) 0 (request_msg r)).
Definition rep_bytes (i : nat) (r : request) (a : astate) : bytes :=
  fb_encode (reply_msg (Z.of_nat i) (a_step pool r a)).

Fixpoint req_frames (i : nat) (l : list request) : bytes :=
  match l with
  | [] => []
  | r :: l => frame (req_bytes i r) ++ req_frames (S i) l
  end.
Fixpoint rep_frames (i : nat) (a : astate) (l : list request) : bytes :=
  match l with
  | [] => []
  | r :: l => frame (rep_bytes i r a) ++ rep_frames (S i) (a_step pool r a).1 l
  end.

(** Request [i], made in state [a], is within the limits of the format, and the
    model's fuel covers its messages. *)
Definition served_ok (i : nat) (r : request) (a : astate) : Prop :=
  request_ok r a /\ message_fits (request_msg r) /\
  Z.of_nat (length (req_bytes i r)) < 2 ^ 31 /\
  Z.of_nat (length (rep_bytes i r a)) < 2 ^ 31 /\
  (4 + length (req_bytes i r) + length (rep_bytes i r a) <= fuel)%nat.

Definition all_served_ok (rs : list request) : Prop :=
  Z.of_nat (length rs) < 2 ^ 31 /\
  forall i r, rs !! i = Some r -> served_ok i r (a_run pool a0 (take i rs)).

(** The state of the system after the requests [D ++ R ++ Q ++ U]: those of [D]
    are complete, the replies of [R] are on their way, the requests of [Q] are
    on their way, those of [U] are in the client's queue. *)
Record pipe (D R Q U : list request) (w : sys B) : Prop := mk_pipe {
  p_ok : all_served_ok (D ++ R ++ Q ++ U);
  p_txn : TCPClient.curr_txn_id w.(client) = Z.of_nat (length (D ++ R ++ Q ++ U));
  p_len : length (TCPClient.heap w.(client)) = length (D ++ R ++ Q ++ U);
  p_queue : TCPClient.send_queue w.(client) =
    imap (fun k r => req_bytes (length (D ++ R ++ Q) + k) r) U;
  p_sem : TCPClient.queue_semaphore w.(client) = Z.of_nat (length U);
  p_up : stream w.(conn) ++ sent (TCPClient.sock w.(client)) =
    req_frames (length (D ++ R)) Q;
  p_down : stream (TCPClient.sock w.(client)) ++ sent w.(conn) =
    rep_frames (length D) (a_run pool a0 D) R;
  p_server : represents w.(server) (a_run pool a0 (D ++ R));
  p_pool : pool_size w.(server) = pool;
  p_done : forall i x, (i < length D)%nat -> reply_of pool a0 D i = Some x ->
    exists l, TCPClient.heap w.(client) !! i = Some (reply_data x l);
  p_wait : forall i, (length D <= i < length (D ++ R ++ Q ++ U))%nat ->
    exists l, TCPClient.heap w.(client) !! i = Some (set_sem l new_FutureData);
  p_map : forall i, (length D <= i < length (D ++ R ++ Q ++ U))%nat ->
    TCPClient.txn_map w.(client) !! Z.of_nat i = Some i;
  p_live : live w.(conn) /\ live (TCPClient.sock w.(client));
  p_end : in_end w.(conn) = StreamOpen /\
    in_end (TCPClient.sock w.(client)) = StreamOpen;
  p_send : send_ok w.(conn) /\ send_ok (TCPClient.sock w.(client));
  p_flags : TCPClient.reuse_lock w.(client) = false /\
    TCPClient.terminate_threads w.(client) = false;
}.

(** *** Lists of frames *)

Lemma req_frames_app i l1 l2 :
  req_frames i (l1 ++ l2) = req_frames i l1 ++ req_frames (i + length l1) l2.
Proof.
  revert i. induction l1 as [|r l1 IH]; intros i; simpl.
  - by rewrite Nat.add_0_r.
  - by rewrite IH, <- app_assoc, Nat.add_succ_r.
Qed.

Lemma rep_frames_snoc i a l r :
  rep_frames i a (l ++ [r]) =
    rep_frames i a l ++ frame (rep_bytes (i + length l) r (a_run pool a l)).
Proof.
  revert i a. induction l as [|r' l IH]; intros i a; simpl.
  - by rewrite Nat.add_0_r, app_nil_r.
  - by rewrite IH, <- app_assoc, Nat.add_succ_r.
Qed.

Lemma served_at P r S : all_served_ok (P ++ r :: S) ->
  served_ok (length P) r (a_run pool a0 P) /\ Z.of_nat (length P) < 2 ^ 31.
Proof.
  intros [Hn Hs]. specialize (Hs (length P) r).
  rewrite list_lookup_middle, take_app_length in Hs by done.
  split; [by apply Hs|]. rewrite length_app in Hn. lia.
Qed.

Lemma req_fits i r : message_fits (request_msg r) -> Z.of_nat i < 2 ^ 31 ->
  msg_fits (mk_msg (Z.of_nat i) 0 (request_msg r)).
Proof. intros Hm Hi. unfold msg_fits, is_u64; simpl. split_and!; (done || lia). Qed.

Lemma rep_fits i r a : message_fits (request_msg r) -> Z.of_nat i < 2 ^ 31 ->
  msg_fits (reply_msg (Z.of_nat i) (a_step pool r a)).
Proof.
  intros Hm Hi. split; [simpl; unfold is_u64; lia|]. split.
  { simpl. destruct (a_step pool r a).2.1; simpl; lia. }
  destruct r as [oid v|objs|oid|oids|oid]; cbn [a_step].
  - by destruct (a_write pool oid v a) as [? []].
  - by destruct (a_write_bulk pool objs a) as [? []].
  - by destruct (a_map a !! oid).
  - by destruct (mapM _ oids).
  - by destruct (a_map a !! oid).
Qed.

(** *** Network *)

Lemma stream_arrive seg k : stream (arrive seg k) = stream k ++ seg.
Proof.
  destruct seg; simpl; [by rewrite app_nil_r|].
  unfold stream, set_in; simpl. rewrite concat_app. simpl. by rewrite app_nil_r.
Qed.

Lemma live_arrive seg k : live k -> live (arrive seg k).
Proof.
  intros Hl. destruct seg; simpl; [done|]. unfold live, set_in; simpl.
  apply Forall_app. split; [done|]. by constructor.
Qed.

Lemma arrive_fields seg k :
  sent (arrive seg k) = sent k /\ in_end (arrive seg k) = in_end k /\
  send_plan (arrive seg k) = send_plan k.
Proof. by destruct seg. Qed.

Lemma pipe_up D R Q U n w : pipe D R Q U w -> pipe D R Q U (net_up n w).
Proof.
  intros [Hok Htx Hlen Hq Hsem Hup Hdn Hsrv Hp Hdone Hwait Hmap [Hl1 Hl2]
          [He1 He2] [Hs1 Hs2] Hfl].
  destruct (arrive_fields (take n (sent (TCPClient.sock (client w)))) (conn w))
    as (Hf1 & Hf2 & Hf3).
  split; try done; simpl.
  - by rewrite stream_arrive, <- app_assoc, take_drop.
  - by rewrite Hf1.
  - split; [by apply live_arrive|done].
  - by rewrite Hf2.
  - split; [|done]. unfold send_ok. by rewrite Hf3.
Qed.

Lemma pipe_down D R Q U n w : pipe D R Q U w -> pipe D R Q U (net_down n w).
Proof.
  intros [Hok Htx Hlen Hq Hsem Hup Hdn Hsrv Hp Hdone Hwait Hmap [Hl1 Hl2]
          [He1 He2] [Hs1 Hs2] Hfl].
  destruct (arrive_fields (take n (sent (conn w))) (TCPClient.sock (client w)))
    as (Hf1 & Hf2 & Hf3).
  split; try done; simpl.
  - by rewrite Hf1.
  - by rewrite stream_arrive, <- app_assoc, take_drop.
  - split; [done|by apply live_arrive].
  - by rewrite Hf2.
  - split; [done|]. unfold send_ok. by rewrite Hf3.
Qed.

(** *** The sender *)

Lemma on_client_ok {A} (m : M TCPClient.t A) (w : sys B) c r :
  m w.(client) = (c, r) -> on_client m w = (mk_sys c w.(server) w.(conn), r).
Proof. intros Hm. unfold on_client, zoom. by rewrite Hm. Qed.

Lemma pipe_sender D R Q U r w : pipe D R Q (r :: U) w -> exists w',
  step fuel Sender w = (w', Ok tt) /\ pipe D R (Q ++ [r]) U w' /\
  futures w' = futures w.
Proof.
  intros [Hok Htx Hlen Hq Hsem Hup Hdn Hsrv Hp Hdone Hwait Hmap [Hl1 Hl2]
          [He1 He2] [Hs1 Hs2] [Hf1 Hf2]].
  assert (Heq : D ++ R ++ (Q ++ [r]) ++ U = D ++ R ++ Q ++ r :: U)
    by (by rewrite <- app_assoc).
  assert (Hat : all_served_ok ((D ++ R ++ Q) ++ r :: U)) by (by rewrite <- !app_assoc).
  apply served_at in Hat as [(Hrok & Hfit & Hreq & Hrep & Hfuel) Hn].
  cbn [imap] in Hq. rewrite Nat.add_0_r in Hq.
  destruct (TCPClient.process_send_ok fuel (client w) _ _ Hq) as (q & k & Hrun & Ha);
    [rewrite Hsem; simpl; lia|done|done|done| |done|lia|].
  { unfold req_bytes. rewrite fb_roundtrip by (by apply req_fits). eauto. }
  unfold step. mstep (on_client_ok _ w _ _ Hrun). eexists. split; [done|].
  destruct Ha as (Ha1 & Ha2 & Ha3 & Ha4 & Ha5).
  split; [|done]. split; simpl; rewrite ?Heq; try done.
  - apply imap_ext. intros. simpl. f_equal. rewrite !length_app. simpl. lia.
  - rewrite Hsem. simpl. lia.
  - rewrite Ha2, app_assoc, Hup, req_frames_app. simpl. rewrite app_nil_r.
    replace (length (D ++ R) + length Q)%nat with (length (D ++ R ++ Q))
      by (rewrite !length_app; lia). done.
  - unfold stream. by rewrite Ha3.
  - split; [done|]. unfold live. by rewrite Ha3.
  - by rewrite Ha4.
Qed.

(** *** The server *)

Lemma on_process_ok {A} (m : M (TCPServer.t B * socket) A) (w : sys B) s k r :
  m (w.(server), w.(conn)) = ((s, k), r) ->
  on_process m w = (mk_sys w.(client) s k, r).
Proof. intros Hm. unfold on_process, zoom. by rewrite Hm. Qed.

Lemma length_frame body : length (frame body) = (4 + length body)%nat.
Proof. unfold frame. by rewrite length_app, length_size_header. Qed.

(** A stream that has received at least its first frame starts with it. *)
Lemma whole_frame (x f rest rest' : bytes) :
  x ++ rest = f ++ rest' -> (length f <= length x)%nat ->
  exists y, x = f ++ y /\ rest' = y ++ rest.
Proof.
  intros Heq Hlen. exists (drop (length f) x).
  assert (Hf : f = take (length f) x).
  { rewrite <- (take_app_length f rest'), <- Heq at 1. by rewrite take_app_le. }
  split; [by rewrite Hf at 1; rewrite take_drop|].
  rewrite <- (drop_app_length f rest'), <- Heq, drop_app_le by done. done.
Qed.

Lemma pipe_server D R Q U r w : pipe D R (r :: Q) U w ->
  (length (frame (req_bytes (length (D ++ R)) r)) <= length (stream w.(conn)))%nat ->
  exists w', step fuel Server w = (w', Ok tt) /\ pipe D (R ++ [r]) Q U w' /\
    futures w' = futures w.
Proof.
  intros [Hok Htx Hlen Hq Hsem Hup Hdn Hsrv Hp Hdone Hwait Hmap [Hl1 Hl2]
          [He1 He2] [Hs1 Hs2] Hfl] Hfull.
  assert (Heq : D ++ (R ++ [r]) ++ Q ++ U = D ++ R ++ (r :: Q) ++ U)
    by (by rewrite <- app_assoc).
  assert (Hat : all_served_ok ((D ++ R) ++ r :: Q ++ U)) by (by rewrite <- app_assoc).
  apply served_at in Hat as [(Hrok & Hfit & Hreq & Hrep & Hfuel) Hn].
  destruct (whole_frame _ _ _ (req_frames (S (length (D ++ R))) Q) Hup Hfull) as (rest & Hst & Hrest).
  destruct (process_ok fuel (server w) (conn w) (a_run pool a0 (D ++ R)) r
              (Z.of_nat (length (D ++ R))) rest)
    as (s' & k' & Hrun & Hsrv' & Hst' & Hl' & Hsent' & Hp' & He' & Hs');
    rewrite ?Hp; try done.
  { by apply req_fits. }
  { unfold req_bytes in Hreq. lia. }
  unfold step. mstep (on_process_ok _ w s' k' _ Hrun). eexists. split; [done|].
  split; [|done]. split; simpl; rewrite ?Heq; try done.
  - rewrite Hq. apply imap_ext. intros. f_equal. rewrite !length_app. simpl. lia.
  - rewrite Hst', <- Hrest. f_equal. rewrite !length_app. simpl. lia.
  - rewrite Hsent', Hp, app_assoc, Hdn, rep_frames_snoc. do 2 f_equal.
    unfold rep_bytes. rewrite length_app. unfold a_run. by rewrite fold_left_app.
  - rewrite app_assoc, a_run_snoc. by rewrite Hp in Hsrv'.
  - by rewrite Hp'.
  - by rewrite He'.
Qed.

(** *** The receiver *)

Lemma ack_result_reply (r : request) a l :
  exists d, TCPClient.ack_result (a_step pool r a).2.2
    (TCPClient.set_fd_error (error_code_to_Z (a_step pool r a).2.1)
       (set_sem l new_FutureData)) = Ok d /\
    TCPClient.complete d = reply_data (a_step pool r a).2 false.
Proof.
  destruct r as [oid v|objs|oid|oids|oid]; cbn [a_step].
  - destruct (a_write pool oid v a) as [? []]; eexists; done.
  - destruct (a_write_bulk pool objs a) as [? []]; eexists; done.
  - destruct (a_map a !! oid); eexists; done.
  - destruct (mapM _ oids); eexists; done.
  - destruct (a_map a !! oid); eexists; done.
Qed.

Lemma reply_of_app rs rs' i : (i < length rs)%nat ->
  reply_of pool a0 (rs ++ rs') i = reply_of pool a0 rs i.
Proof.
  intros Hi. unfold reply_of. by rewrite lookup_app_l, take_app_le by lia.
Qed.

Lemma pipe_receiver D R Q U r w : pipe D (r :: R) Q U w ->
  (length (frame (rep_bytes (length D) r (a_run pool a0 D))) <=
     length (stream (TCPClient.sock w.(client))))%nat ->
  exists w', step fuel Receiver w = (w', Ok tt) /\ pipe (D ++ [r]) R Q U w' /\
    (exists d, futures w' !! length D = Some d /\ sem d = false) /\
    (forall i, i <> length D -> futures w' !! i = futures w !! i).
Proof.
  intros [Hok Htx Hlen Hq Hsem Hup Hdn Hsrv Hp Hdone Hwait Hmap [Hl1 Hl2]
          [He1 He2] [Hs1 Hs2] Hfl] Hfull.
  assert (Heq : (D ++ [r]) ++ R ++ Q ++ U = D ++ (r :: R) ++ Q ++ U)
    by (by rewrite <- app_assoc).
  assert (Hat : all_served_ok (D ++ r :: R ++ Q ++ U)) by done.
  apply served_at in Hat as [(Hrok & Hfit & Hreq & Hrep & Hfuel) Hn].
  set (a := a_run pool a0 D) in *.
  destruct (whole_frame _ _ _ (rep_frames (S (length D)) (a_step pool r a).1 R)
              Hdn Hfull) as (rest & Hst & Hrest).
  assert (Hlt : (length D < length (D ++ (r :: R) ++ Q ++ U))%nat)
    by (rewrite !length_app; simpl; lia).
  destruct (Hwait (length D) ltac:(lia)) as [l Hd].
  destruct (ack_result_reply r a l) as (d & Hres & Hcomp).
  destruct (TCPClient.process_received_ok fuel false
              (reply_msg (Z.of_nat (length D)) (a_step pool r a)) rest (client w)
              (length D) (set_sem l new_FutureData) d Hl2 Hst) as (k & Hrun & Ha);
    [by apply rep_fits|done|unfold rep_bytes in *; lia|by apply Hmap|done|done|].
  unfold step. mstep (on_client_ok _ w _ _ Hrun). eexists. split; [done|].
  assert (Hst' : stream k = rest).
  { destruct Ha as (_ & -> & _). rewrite Hst. apply drop_app_length'.
    by rewrite length_frame. }
  destruct Ha as (Ha1 & _ & Ha3 & Ha4 & Ha5 & _).
  assert (HD : length (D ++ [r]) = S (length D)) by (rewrite length_app; simpl; lia).
  rewrite Hcomp. split.
  - split; simpl; rewrite ?Heq; try done.
    + by rewrite length_insert.
    + rewrite Hq. apply imap_ext. intros. f_equal. rewrite !length_app. simpl. lia.
    + by rewrite Ha4, Hup, <- (app_assoc D).
    + by rewrite Hst', <- Hrest, HD, a_run_snoc.
    + by rewrite <- app_assoc.
    + intros i x Hi Hx. destruct (decide (i = length D)) as [->|Hne].
      * exists false. rewrite list_lookup_insert_eq by lia. f_equal.
        unfold reply_of in Hx. rewrite list_lookup_middle in Hx by done.
        simpl in Hx. rewrite take_app_length in Hx. by simplify_eq.
      * rewrite reply_of_app in Hx by lia. rewrite list_lookup_insert_ne by done.
        apply Hdone; [lia|done].
    + intros i Hi. rewrite list_lookup_insert_ne by lia. apply Hwait. lia.
    + intros i Hi. rewrite lookup_delete_ne by lia. apply Hmap. lia.
    + by rewrite Ha3.
    + split; [done|]. unfold send_ok. by rewrite Ha5.
  - split.
    + exists (reply_data (a_step pool r a).2 false).
      split; [|rewrite <- Hcomp; done]. simpl. apply list_lookup_insert_eq. lia.
    + intros i Hi. simpl. by rewrite list_lookup_insert_ne.
Qed.

(** *** A round of the scheduler *)

Lemma phase_send D R Q U w : pipe D R Q U w -> exists w' Q' U',
  (if 0 <? TCPClient.queue_semaphore w.(client) then step fuel Sender else ret tt) w =
    (w', Ok tt) /\ pipe D R Q' U' w' /\ Q' ++ U' = Q ++ U /\
  futures w' = futures w /\ (Q' = [] -> U' = []).
Proof.
  intros Hp. rewrite (p_sem _ _ _ _ _ Hp). destruct U as [|r U].
  - by exists w, Q, [].
  - destruct (Z.ltb_spec 0 (Z.of_nat (length (r :: U)))); [|simpl length in *; lia].
    destruct (pipe_sender D R Q U r w Hp) as (w' & Hrun & Hp' & Hf).
    exists w', (Q ++ [r]), U. split_and!; try done.
    + by rewrite <- app_assoc.
    + by destruct Q.
Qed.

Lemma frame_app_nil body rest : frame body ++ rest <> [].
Proof.
  intros Hx%(f_equal length). rewrite length_app, length_frame in Hx. simpl in Hx. lia.
Qed.

Lemma phase_serve D R Q U w : pipe D R Q U w ->
  sent (TCPClient.sock w.(client)) = [] -> exists w' R' Q',
  (match stream w.(conn) with [] => ret tt | _ => step fuel Server end) w =
    (w', Ok tt) /\ pipe D R' Q' U w' /\ R' ++ Q' = R ++ Q /\
  futures w' = futures w /\ (R' = [] -> Q' = []).
Proof.
  intros Hp Hs. pose proof (p_up _ _ _ _ _ Hp) as Hup. rewrite Hs, app_nil_r in Hup.
  destruct Q as [|r Q].
  - rewrite Hup. by exists w, R, [].
  - destruct (pipe_server D R Q U r w Hp) as (w' & Hrun & Hp' & Hf).
    { rewrite Hup. cbn [req_frames]. rewrite (length_app (frame _)). apply Nat.le_add_r. }
    exists w', (R ++ [r]), Q. split_and!; try done.
    + destruct (stream (conn w)) eqn:Hst; [|done]. simpl in Hup.
      by destruct (frame_app_nil (req_bytes (length (D ++ R)) r)
                     (req_frames (S (length (D ++ R))) Q)).
    + by rewrite <- app_assoc.
    + by destruct R.
Qed.

Lemma phase_receive D R Q U r w : pipe D (r :: R) Q U w -> sent w.(conn) = [] ->
  exists w',
  (match stream (TCPClient.sock w.(client)) with
   | [] => ret tt | _ => step fuel Receiver end) w = (w', Ok tt) /\
  pipe (D ++ [r]) R Q U w' /\
  (exists d, futures w' !! length D = Some d /\ sem d = false) /\
  (forall i, i <> length D -> futures w' !! i = futures w !! i).
Proof.
  intros Hp Hs. pose proof (p_down _ _ _ _ _ Hp) as Hdn. rewrite Hs, app_nil_r in Hdn.
  destruct (pipe_receiver D R Q U r w Hp) as (w' & Hrun & Hp' & Hlast & Hrest).
  { rewrite Hdn. cbn [rep_frames]. rewrite (length_app (frame _)). apply Nat.le_add_r. }
  exists w'. split_and!; try done.
  destruct (stream (TCPClient.sock (client w))) eqn:Hst; [|done]. simpl in Hdn.
  by destruct (frame_app_nil (rep_bytes (length D) r (a_run pool a0 D))
                 (rep_frames (S (length D)) (a_step pool r (a_run pool a0 D)).1 R)).
Qed.

(** Every round completes the oldest request that is not complete, and touches
    no other future. *)
Lemma pump_completes D R Q U r rs w :
  pipe D R Q U w -> R ++ Q ++ U = r :: rs -> exists w' R' Q' U',
    pump fuel w = (w', Ok tt) /\ pipe (D ++ [r]) R' Q' U' w' /\ R' ++ Q' ++ U' = rs /\
    (exists d, futures w' !! length D = Some d /\ sem d = false) /\
    (forall i, i <> length D -> futures w' !! i = futures w !! i).
Proof.
  intros Hp Hrs. unfold pump.
  rewrite (bind_ok (gets id) _ w w w eq_refl).
  destruct (phase_send D R Q U w Hp) as (w1 & Q1 & U1 & Hr1 & Hp1 & HQ1 & Hf1 & He1).
  mstep Hr1. rewrite (bind_ok (gets id) _ w1 w1 w1 eq_refl).
  set (n2 := length (sent (TCPClient.sock (client w1)))). set (w2 := net_up n2 w1).
  assert (Hp2 : pipe D R Q1 U1 w2) by (by apply pipe_up).
  rewrite (bind_ok (step fuel (Up n2)) _ w1 w2 tt eq_refl).
  rewrite (bind_ok (gets id) _ w2 w2 w2 eq_refl).
  destruct (phase_serve D R Q1 U1 w2 Hp2) as (w3 & R3 & Q3 & Hr3 & Hp3 & HR3 & Hf3 & He3).
  { unfold w2, n2; simpl. by rewrite drop_all. }
  mstep Hr3. rewrite (bind_ok (gets id) _ w3 w3 w3 eq_refl).
  set (n4 := length (sent (conn w3))). set (w4 := net_down n4 w3).
  assert (Hp4 : pipe D R3 Q3 U1 w4) by (by apply pipe_down).
  rewrite (bind_ok (step fuel (Down n4)) _ w3 w4 tt eq_refl).
  rewrite (bind_ok (gets id) _ w4 w4 w4 eq_refl).
  assert (Hall : R3 ++ Q3 ++ U1 = r :: rs).
  { by rewrite app_assoc, HR3, <- app_assoc, HQ1. }
  destruct R3 as [|r3 R3].
  { specialize (He3 eq_refl). subst Q3. simpl in HR3, Hall. destruct R; [|done].
    simpl in HR3. rewrite <- HR3 in He1. rewrite (He1 eq_refl) in Hall. done. }
  simpl in Hall. injection Hall as -> Hall.
  destruct (phase_receive D R3 Q3 U1 r w4 Hp4) as (w5 & Hr5 & Hp5 & Hl5 & Ho5).
  { unfold w4, n4; simpl. by rewrite drop_all. }
  exists w5, R3, Q3, U1. split_and!; try done.
  intros i Hi. rewrite Ho5 by done. unfold w4, w2 in *. simpl in *.
  by rewrite Hf3, Hf1.
Qed.

Lemma pump_idle D w : pipe D [] [] [] w ->
  exists w', pump fuel w = (w', Ok tt) /\ pipe D [] [] [] w'.
Proof.
  intros Hp. unfold pump. rewrite (bind_ok (gets id) _ w w w eq_refl).
  rewrite (p_sem _ _ _ _ _ Hp). simpl (0 <? _).
  rewrite (bind_ok (ret tt) _ w w tt eq_refl), (bind_ok (gets id) _ w w w eq_refl).
  set (n1 := length (sent _)). set (w1 := net_up n1 w).
  rewrite (bind_ok (step fuel (Up n1)) _ w w1 tt eq_refl).
  assert (Hp1 : pipe D [] [] [] w1) by (by apply pipe_up). clearbody w1 n1.
  rewrite (bind_ok (gets id) _ w1 w1 w1 eq_refl).
  pose proof (p_up _ _ _ _ _ Hp1) as Hup. simpl in Hup. apply app_eq_nil in Hup as [-> _].
  rewrite (bind_ok (ret tt) _ w1 w1 tt eq_refl), (bind_ok (gets id) _ w1 w1 w1 eq_refl).
  set (n2 := length (sent _)). set (w2 := net_down n2 w1).
  rewrite (bind_ok (step fuel (Down n2)) _ w1 w2 tt eq_refl).
  assert (Hp2 : pipe D [] [] [] w2) by (by apply pipe_down). clearbody w2 n2.
  rewrite (bind_ok (gets id) _ w2 w2 w2 eq_refl).
  pose proof (p_down _ _ _ _ _ Hp2) as Hdn. simpl in Hdn. apply app_eq_nil in Hdn as [-> _].
  by exists w2.
Qed.

(** A round of the scheduler, whatever there is to do. *)
Lemma pump_progress D R Q U w : pipe D R Q U w -> exists w' D' R' Q' U',
  pump fuel w = (w', Ok tt) /\ pipe D' R' Q' U' w' /\
  D' ++ R' ++ Q' ++ U' = D ++ R ++ Q ++ U /\
  length D' = Nat.min (S (length D)) (length (D ++ R ++ Q ++ U)).
Proof.
  intros Hp. destruct (R ++ Q ++ U) as [|r rs] eqn:Hrs.
  - apply app_eq_nil in Hrs as [-> [-> ->]%app_eq_nil].
    destruct (pump_idle D w Hp) as (w' & Hr & Hp'). exists w', D, [], [], [].
    split_and!; [done|done|done|rewrite app_nil_r; lia].
  - destruct (pump_completes D R Q U r rs w Hp Hrs) as (w' & R' & Q' & U' & Hr & Hp' & He & _).
    exists w', (D ++ [r]), R', Q', U'. split_and!; [done|done| |].
    + by rewrite He, <- app_assoc.
    + rewrite !length_app. cbn [length]. lia.
Qed.

(** *** The caller *)

Lemma lookup_all D i : (i < length D)%nat -> exists x, reply_of pool a0 D i = Some x.
Proof.
  intros Hi. unfold reply_of. destruct (lookup_lt_is_Some_2 D i Hi) as [r ->]. eauto.
Qed.

Lemma reply_data_lock x l l' : set_sem l' (reply_data x l) = reply_data x l'.
Proof. by destruct x as [c []]. Qed.

(** Taking or releasing the lock of a future changes nothing else. *)
Lemma pipe_lock D R Q U w i d l : pipe D R Q U w -> futures w !! i = Some d ->
  pipe D R Q U (set_futures (<[i := set_sem l d]> (futures w)) w).
Proof.
  intros [Hok Htx Hlen Hq Hsem Hup Hdn Hsrv Hp Hdone Hwait Hmap Hl He Hs Hfl] Hd.
  assert (Hi : (i < length (TCPClient.heap (client w)))%nat)
    by (by apply lookup_lt_Some in Hd).
  split; try done; simpl in *.
  - by rewrite length_insert.
  - intros j x Hj Hx. destruct (decide (j = i)) as [->|Hne].
    + destruct (Hdone i x Hj Hx) as [l' Hd']. simplify_eq. exists l.
      rewrite list_lookup_insert_eq by done. by rewrite reply_data_lock.
    + rewrite list_lookup_insert_ne by done. eauto.
  - intros j Hj. destruct (decide (j = i)) as [->|Hne].
    + destruct (Hwait i Hj) as [l' Hd']. simplify_eq. exists l.
      by rewrite list_lookup_insert_eq.
    + rewrite list_lookup_insert_ne by done. eauto.
Qed.

Section waiting.
Context (hist : list request) (fd : nat) (Hfd : (fd < length hist)%nat).
Context (lo : nat).

(** [n] rounds of the scheduler away from the reply to request [fd], with at
    least [lo] requests complete. *)
Definition rounds_left (n : nat) (w : sys B) : Prop :=
  exists D R Q U, pipe D R Q U w /\ D ++ R ++ Q ++ U = hist /\
    n = (S fd - length D)%nat /\ (lo <= length D)%nat.

Lemma wait_pump n k w : rounds_left n w -> (n < k)%nat ->
  exists w', ClientFuture.wait (pump fuel) k fd w = (w', Ok tt) /\ rounds_left 0 w'.
Proof.
  apply (wait_returns (pump fuel) fd rounds_left).
  - intros m w' d l (D & R & Q & U & Hp & Hh & Hm & Hlo) Hd.
    exists D, R, Q, U. split; [by apply pipe_lock|done].
  - intros m w' (D & R & Q & U & Hp & Hh & Hm & Hlo).
    destruct (p_wait _ _ _ _ _ Hp fd) as [l Hd]; [rewrite Hh; lia|]. eauto.
  - intros w' (D & R & Q & U & Hp & Hh & Hm & Hlo).
    destruct (lookup_all D fd) as [x Hx]; [lia|].
    destruct (p_done _ _ _ _ _ Hp fd x ltac:(lia) Hx) as [l Hd].
    exists (reply_data x l). split; [done|]. by destruct x as [c []].
  - intros m w' (D & R & Q & U & Hp & Hh & Hm & Hlo).
    destruct (R ++ Q ++ U) as [|r rs] eqn:Hrs.
    { rewrite app_nil_r in Hh. subst D. lia. }
    destruct (pump_completes D R Q U r rs w' Hp Hrs)
      as (w1 & R1 & Q1 & U1 & Hrun & Hp1 & Hrs1 & Hlock & Hrest).
    exists w1. split; [done|]. split.
    + exists (D ++ [r]), R1, Q1, U1. split; [done|]. rewrite Hrs1, <- app_assoc.
      split; [done|]. rewrite length_app. simpl. lia.
    + destruct m as [|m].
      * by replace fd with (length D) by lia.
      * apply Hrest. lia.
Qed.
End waiting.

(** A future of the history can be waited for, and gives the reply that the
    abstract server gives to its request. *)
Lemma future_get D R Q U w fd x k :
  pipe D R Q U w -> reply_of pool a0 (D ++ R ++ Q ++ U) fd = Some x ->
  (S fd < k)%nat -> exists w' D' R' Q' U' l,
    ClientFuture.wait (pump fuel) k fd w = (w', Ok tt) /\
    pipe D' R' Q' U' w' /\ D' ++ R' ++ Q' ++ U' = D ++ R ++ Q ++ U /\
    (length D <= length D')%nat /\ futures w' !! fd = Some (reply_data x l).
Proof.
  intros Hp Hx Hk.
  assert (Hfd : (fd < length (D ++ R ++ Q ++ U))%nat).
  { unfold reply_of in Hx. apply fmap_Some in Hx as (r & Hr & _).
    by apply lookup_lt_Some in Hr. }
  destruct (wait_pump (D ++ R ++ Q ++ U) fd Hfd (length D) (S fd - length D) k w)
    as (w' & Hrun & D' & R' & Q' & U' & Hp' & Hh & Hm & Hlo).
  { by exists D, R, Q, U. } { lia. }
  assert (Hlt : (fd < length D')%nat) by lia.
  rewrite <- Hh, reply_of_app in Hx by done.
  destruct (p_done _ _ _ _ _ Hp' fd x Hlt Hx) as [l Hd].
  by exists w', D', R', Q', U', l.
Qed.

Section requests.
Context {T : Type} `{SerializerSpec T}.

Lemma write_payload_layout (objs : list (ObjectID * T)) :
  write_payload ((fun p => (p.1, ser_serialize p.2)) <$> objs) =
    WriteUnits.layout objs.*2.
Proof.
  induction objs as [|[oid w] objs IH]; [done|].
  rewrite !fmap_cons, WriteUnits.layout_cons, <- IH. cbn [snd].
  unfold WriteUnits.object_header. rewrite ser_size_spec. done.
Qed.

Lemma issue_eq (o : op T) (c : TCPClient.t) :
  op_ok o -> TCPClient.reuse_lock c = false -> exists q,
  issue o c = TCPClient.send_next (request_msg (request_of o))
                (TCPClient.set_reuse_queue q c).
Proof.
  intros Ho Hl.
  assert (Hsame : TCPClient.set_reuse_queue (TCPClient.reuse_queue c) c = c)
    by (by destruct c).
  destruct o as [oid w|objs|oid|oids|oid]; simpl in *;
    [|exists (TCPClient.reuse_queue c); rewrite Hsame; try done..].
  - eexists. by apply TCPClient.write_async_eq.
  - destruct Ho as [Hs Hz]. rewrite TCPClient.write_async_bulk_eq by done.
    by rewrite write_payload_layout, !length_fmap, <- list_fmap_compose.
Qed.

(** The system after one more request. *)
Lemma pipe_issue D R Q U w w' (o : op T) fd :
  pipe D R Q U w -> op_ok o -> all_served_ok (D ++ R ++ Q ++ U ++ [request_of o]) ->
  on_client (issue o) w = (w', Ok fd) ->
  pipe D R Q (U ++ [request_of o]) w' /\ fd = length (D ++ R ++ Q ++ U).
Proof.
  intros [Hok Htx Hlen Hq Hsem Hup Hdn Hsrv Hp Hdone Hwait Hmap Hl He Hs [Hf1 Hf2]]
    Hop Hserved Hi.
  destruct (issue_eq o (client w) Hop Hf1) as [q Heq].
  unfold on_client, zoom in Hi. rewrite Heq in Hi.
  set (c := TCPClient.set_reuse_queue q (client w)) in *.
  destruct (Z.lt_ge_cases (Z.of_nat (length (TCPClient.send_queue c)))
              TCPClient.SEND_QUEUE_SIZE) as [Hfree|Hfull].
  2: { pose proof (TCPClient.send_next_full (request_msg (request_of o)) c Hfull) as Hb.
       destruct (TCPClient.send_next _ c). simpl in Hb. by subst. }
  rewrite (TCPClient.send_next_ok _ _ Hfree) in Hi. injection Hi as <- Hn.
  set (n := length (D ++ R ++ Q ++ U)) in *.
  set (r := request_of o) in *.
  assert (Hall : D ++ R ++ Q ++ U ++ [r] = (D ++ R ++ Q ++ U) ++ [r])
    by (by rewrite <- !app_assoc).
  assert (Hn1 : length (D ++ R ++ Q ++ U ++ [r]) = S n)
    by (rewrite Hall, length_app; simpl; fold n; lia).
  assert (Hsmall : Z.of_nat n < 2 ^ 31) by (destruct Hserved as [Hs' _]; lia).
  assert (Hid : u64 (i32 (Z.of_nat n)) = Z.of_nat n)
    by (rewrite i32_small, u64_small by (unfold is_u64; lia); done).
  split; [|by rewrite <- Hn].
  split; simpl; rewrite ?Hn1; try done.
  - rewrite Htx, u64_small; unfold is_u64; lia.
  - rewrite length_app; simpl. lia.
  - rewrite Hq, imap_app. f_equal. simpl. unfold TCPClient.build, req_bytes.
    rewrite Htx. fold n. rewrite Hid. do 3 f_equal. unfold n. rewrite !length_app. lia.
  - rewrite Hsem, length_app. simpl. lia.
  - intros i x Hi Hx. destruct (Hdone i x Hi Hx) as [l Hd]. exists l.
    by apply lookup_app_l_Some.
  - intros i Hi. destruct (decide (i = n)) as [->|Hne].
    + exists false. rewrite lookup_app_r by lia. rewrite Hlen, Nat.sub_diag. done.
    + destruct (Hwait i ltac:(fold n; lia)) as [l Hd]. exists l.
      by apply lookup_app_l_Some.
  - intros i Hi. rewrite Htx. fold n. rewrite Hid. destruct (decide (i = n)) as [->|Hne].
    + rewrite lookup_insert_eq. by rewrite Hlen.
    + rewrite lookup_insert_ne by lia. apply Hmap. fold n. lia.
Qed.

(** *** Every interleaving *)

Lemma part_frame (x f rest rest' : bytes) :
  x ++ rest = f ++ rest' -> (length x < length f)%nat ->
  exists y, x ++ y = f /\ y <> [].
Proof.
  intros Heq Hlen. exists (drop (length x) f).
  assert (Hx : x = take (length x) f).
  { rewrite <- (take_app_le f rest'), <- Heq, take_app_length by lia. done. }
  split; [by rewrite Hx at 1; rewrite take_drop|].
  intros Hd%(f_equal length). rewrite length_drop in Hd. simpl in Hd. lia.
Qed.

Lemma app_nil_inv (x y : bytes) : x ++ y = [] -> x = [].
Proof. by destruct x. Qed.

(** A step of thread [th] blocks, or is a step of the pipeline. *)
Definition step_ok (D R Q U : list request) (w : sys B) (th : thread) : Prop :=
  (step fuel th w).2 = Blocked \/
  exists w' D' R' Q' U', step fuel th w = (w', Ok tt) /\ pipe D' R' Q' U' w' /\
    D' ++ R' ++ Q' ++ U' = D ++ R ++ Q ++ U.

Lemma sender_safe D R Q U w : pipe D R Q U w -> step_ok D R Q U w Sender.
Proof.
  intros Hp. destruct U as [|r U].
  + left. pose proof (p_sem _ _ _ _ _ Hp) as Hsem. apply bind_blocked.
    unfold on_client, zoom, TCPClient.process_send. simpl. unfold bind at 1, gets, id.
    simpl. unfold PosixSemaphore.trywait. by rewrite Hsem.
  + right. destruct (pipe_sender D R Q U r w Hp) as (w' & Hrun & Hp' & _).
    exists w', D, R, (Q ++ [r]), U. by rewrite <- app_assoc.
Qed.

Lemma receiver_safe D R Q U w : pipe D R Q U w -> (4 <= fuel)%nat ->
  step_ok D R Q U w Receiver.
Proof.
  intros Hp Hf4. pose proof (p_live _ _ _ _ _ Hp) as [Hl1 Hl2].
  pose proof (p_end _ _ _ _ _ Hp) as [He1 He2].
  pose proof (p_down _ _ _ _ _ Hp) as Hdn. destruct R as [|r R].
  + left. apply bind_blocked. unfold on_client, zoom.
    pose proof (TCPClient.process_received_idle fuel false (client w) Hl2 He2
                  (app_nil_inv _ _ Hdn) Hf4) as Hb.
    by destruct (TCPClient.process_received fuel false (client w)).
  + destruct (decide (length (frame (rep_bytes (length D) r (a_run pool a0 D))) <=
      length (stream (TCPClient.sock (client w))))%nat) as [Hfull|Hpart].
    * right. destruct (pipe_receiver D R Q U r w Hp Hfull) as (w' & Hrun & Hp' & _).
      exists w', (D ++ [r]), R, Q, U. by rewrite <- app_assoc.
    * left. destruct (part_frame _ _ _ _ Hdn ltac:(lia)) as (y & Hy & Hne).
      assert (Hat : all_served_ok (D ++ r :: R ++ Q ++ U)) by apply Hp.
      apply served_at in Hat as [(_ & _ & _ & Hrep & Hfuel) _].
      pose proof (TCPClient.process_received_blocked fuel false _ y (client w)
                    Hl2 He2 Hy Hne Hrep ltac:(lia)) as Hb.
      apply bind_blocked. unfold on_client, zoom.
      by destruct (TCPClient.process_received fuel false (client w)).
Qed.

Lemma server_safe D R Q U w : pipe D R Q U w -> (4 <= fuel)%nat ->
  step_ok D R Q U w Server.
Proof.
  intros Hp Hf4. pose proof (p_live _ _ _ _ _ Hp) as [Hl1 Hl2].
  pose proof (p_end _ _ _ _ _ Hp) as [He1 He2].
  pose proof (p_up _ _ _ _ _ Hp) as Hup. destruct Q as [|r Q].
  + left. apply bind_blocked. unfold on_process, zoom.
    pose proof (process_idle fuel (server w) (conn w) Hl1 He1
                  (app_nil_inv _ _ Hup) Hf4) as Hb.
    by destruct (process fuel (server w, conn w)).
  + destruct (decide (length (frame (req_bytes (length (D ++ R)) r)) <=
      length (stream (conn w)))%nat) as [Hfull|Hpart].
    * right. destruct (pipe_server D R Q U r w Hp Hfull) as (w' & Hrun & Hp' & _).
      exists w', D, (R ++ [r]), Q, U. by rewrite <- (app_assoc R).
    * left. destruct (part_frame _ _ _ _ Hup ltac:(lia)) as (y & Hy & Hne).
      assert (Hat : all_served_ok ((D ++ R) ++ r :: Q ++ U))
        by (rewrite <- app_assoc; apply Hp).
      apply served_at in Hat as [(_ & _ & Hreq & _ & Hfuel) _].
      pose proof (process_blocked fuel (server w) (conn w) _ y
                    Hl1 He1 Hy Hne ltac:(lia) ltac:(lia)) as Hb.
      apply bind_blocked. unfold on_process, zoom.
      by destruct (process fuel (server w, conn w)).
Qed.

(** A thread of a system in a pipeline state waits, or takes a step that leads
    to a pipeline state of the same requests; it never fails. *)
Lemma step_safe D R Q U w th : pipe D R Q U w -> (4 <= fuel)%nat ->
  step_ok D R Q U w th.
Proof.
  intros Hp Hf4. destruct th as [| | |n|n].
  - by apply sender_safe.
  - by apply receiver_safe.
  - by apply server_safe.
  - right. exists (net_up n w), D, R, Q, U. split; [done|]. split; [|done].
    by apply pipe_up.
  - right. exists (net_down n w), D, R, Q, U. split; [done|]. split; [|done].
    by apply pipe_down.
Qed.

(** A connected system: nothing requested, nothing in flight. *)
Definition initial (w : sys B) : Prop := pipe [] [] [] [] w.

(** The states that a connected system reaches, with the requests made so far:
    the threads move in any order, the caller makes requests and polls or waits
    on its futures in between. *)
Inductive reaches (w0 : sys B) : list (op T) -> sys B -> Prop :=
| reach_start : reaches w0 [] w0
| reach_thread os w th w' :
    reaches w0 os w -> step fuel th w = (w', Ok tt) -> reaches w0 os w'
| reach_request os w o fd w' :
    reaches w0 os w -> op_ok o -> on_client (issue o) w = (w', Ok fd) ->
    reaches w0 (os ++ [o]) w'
| reach_poll os w fd b w' :
    reaches w0 os w -> ClientFuture.sem_trywait fd w = (w', Ok b) ->
    reaches w0 os w'.

Lemma all_served_prefix l1 l2 : all_served_ok (l1 ++ l2) -> all_served_ok l1.
Proof.
  intros [Hn Hs]. split; [rewrite length_app in Hn; lia|]. intros i r Hi.
  assert (Hlt : (i < length l1)%nat) by (by apply lookup_lt_Some in Hi).
  rewrite <- (take_app_le l1 l2) by lia. apply Hs. by apply lookup_app_l_Some.
Qed.

Lemma reaches_pipe w0 os w : initial w0 -> (4 <= fuel)%nat -> reaches w0 os w ->
  all_served_ok (request_of <$> os) -> exists D R Q U,
  pipe D R Q U w /\ D ++ R ++ Q ++ U = request_of <$> os.
Proof.
  intros H0w Hf4 Hr. induction Hr as [|os w th w' Hr IH Hs|os w o fd w' Hr IH Ho Hi
    |os w fd b w' Hr IH Hb]; intros Hok.
  - by exists [], [], [], [].
  - destruct (IH Hok) as (D & R & Q & U & Hp & Hh).
    destruct (step_safe D R Q U w th Hp Hf4) as [Hb|(w1 & D' & R' & Q' & U' & Hs' & Hp' & Hh')].
    { rewrite Hs in Hb. done. }
    rewrite Hs in Hs'. simplify_eq. exists D', R', Q', U'. by rewrite Hh'.
  - rewrite fmap_app in Hok |- *. simpl in Hok |- *.
    destruct (IH (all_served_prefix _ _ Hok)) as (D & R & Q & U & Hp & Hh).
    destruct (pipe_issue D R Q U w w' o fd Hp Ho) as [Hp' _]; [|done|].
    { by rewrite <- Hh, <- !app_assoc in Hok. }
    exists D, R, Q, (U ++ [request_of o]). by rewrite <- Hh, <- !app_assoc.
  - destruct (IH Hok) as (D & R & Q & U & Hp & Hh). exists D, R, Q, U.
    split; [|done]. destruct (futures w !! fd) as [d|] eqn:Hd.
    + rewrite (sem_trywait_ok fd d w Hd) in Hb. simplify_eq. by apply pipe_lock.
    + unfold ClientFuture.sem_trywait, ClientFuture.deref, bind, gets, id in Hb.
      by rewrite Hd in Hb.
Qed.

(** *** Properties *)

(** [try_wait] answers true on a future that has just been created, before
    any thread has moved: the lock of a new future is free and the poll takes
    it.  The next poll answers false. *)
Theorem first_poll_answers_true (o : op T) (c c' : TCPClient.t) fd :
  op_ok o -> TCPClient.reuse_lock c = false -> issue o c = (c', Ok fd) ->
  exists c'', ClientFuture.try_wait fd c' = (c'', Ok true) /\
    futures c'' !! fd = Some (set_sem true new_FutureData) /\
    ClientFuture.try_wait fd c'' = (c'', Ok false).
Proof.
  intros Ho Hl Hi. destruct (issue_eq o c Ho Hl) as [q Heq]. rewrite Heq in Hi.
  destruct (Z.lt_ge_cases (Z.of_nat (length (TCPClient.send_queue c)))
              TCPClient.SEND_QUEUE_SIZE) as [Hq|Hq].
  2: { pose proof (TCPClient.send_next_full (request_msg (request_of o))
         (TCPClient.set_reuse_queue q c) Hq) as Hb.
       rewrite Hi in Hb. done. }
  rewrite TCPClient.send_next_ok in Hi by done. injection Hi as <- <-.
  set (c1 := TCPClient.issued _ _). set (fd := length _).
  assert (Hfd : futures c1 !! fd = Some new_FutureData)
    by (unfold c1, fd; simpl; by rewrite list_lookup_middle).
  pose proof (lookup_lt_Some _ _ _ Hfd) as Hlt.
  exists (set_futures (<[fd := set_sem true new_FutureData]> (futures c1)) c1).
  assert (Hfd' : futures (set_futures (<[fd := set_sem true new_FutureData]> (futures c1)) c1)
    !! fd = Some (set_sem true new_FutureData))
    by (rewrite futures_set; by apply list_lookup_insert_eq).
  split_and!; [by apply try_wait_fresh|done|].
  unfold ClientFuture.try_wait. mstep (deref_ok fd _ _ Hfd').
  cbn [result_available set_sem new_FutureData negb].
  rewrite (sem_trywait_ok fd _ _ Hfd'), futures_set. simpl. by rewrite list_insert_insert_eq.
Qed.

(** C4: in every interleaving of the client's threads, the server, the network
    and the caller, no thread ever fails; each future is either still pending
    or holds exactly the reply that the abstract server gives to its request
    when it serves all requests one by one in the order they were made; and
    once all futures are complete the server holds the state that this
    sequential run reaches. *)
Theorem interleavings_are_sequential w0 os w :
  initial w0 -> (4 <= fuel)%nat -> reaches w0 os w ->
  all_served_ok (request_of <$> os) ->
  (forall th, (step fuel th w).2 = Blocked \/ (step fuel th w).2 = Ok tt) /\
  (forall i x, reply_of pool a0 (request_of <$> os) i = Some x -> exists l,
     futures w !! i = Some (set_sem l new_FutureData) \/
     futures w !! i = Some (reply_data x l)) /\
  (Forall (fun d => result_available d = true) (futures w) ->
     represents w.(server) (a_run pool a0 (request_of <$> os))).
Proof.
  intros Hw0 Hf4 Hr Hok.
  destruct (reaches_pipe w0 os w Hw0 Hf4 Hr Hok) as (D & R & Q & U & Hp & Hh).
  rewrite <- Hh. split_and!.
  - intros th. destruct (step_safe D R Q U w th Hp Hf4)
      as [Hb|(w' & _ & _ & _ & _ & Hs & _)]; [by left|right; by rewrite Hs].
  - intros i x Hx.
    assert (Hi : (i < length (D ++ R ++ Q ++ U))%nat).
    { unfold reply_of in Hx. apply fmap_Some in Hx as (r & Hri & _).
      by apply lookup_lt_Some in Hri. }
    destruct (decide (i < length D)%nat) as [Hlt|Hge].
    + rewrite reply_of_app in Hx by done.
      destruct (p_done _ _ _ _ _ Hp i x Hlt Hx) as [l Hd]. eauto.
    + destruct (p_wait _ _ _ _ _ Hp i ltac:(lia)) as [l Hd]. eauto.
  - intros Hall. destruct (R ++ Q ++ U) as [|r rs] eqn:Hrs.
    + apply app_eq_nil in Hrs as [-> _].
      pose proof (p_server _ _ _ _ _ Hp) as Hsrv. by rewrite app_nil_r in *.
    + exfalso. destruct (p_wait _ _ _ _ _ Hp (length D)) as [l Hd].
      { rewrite Hrs, length_app. simpl. lia. }
      rewrite Forall_lookup in Hall. by specialize (Hall _ _ Hd).
Qed.

(** The result of [ClientFuture::get] for a reply. *)
Definition get_outcome (x : ErrorCodes * Message) : outcome bool :=
  match ClientFuture.check_error (error_code_to_Z x.1) with
  | Ok _ => Ok (result (reply_data x false))
  | Throw e => Throw e
  | Undefined => Undefined | Exited => Exited
  | Blocked => Blocked | OutOfFuel => OutOfFuel
  end.

Lemma get_reply k fd x l (w : sys B) (env : M (sys B) unit) :
  futures w !! fd = Some (reply_data x l) ->
  ClientFuture.get env k fd w = (w, get_outcome x).
Proof.
  intros Hd. rewrite (get_available env k fd _ w Hd) by (by destruct x as [c []]).
  unfold get_outcome. by destruct x as [[] []].
Qed.

Lemma get_future D R Q U w fd x k :
  pipe D R Q U w -> reply_of pool a0 (D ++ R ++ Q ++ U) fd = Some x ->
  (S fd < k)%nat -> exists w' D' R' Q' U' l,
    ClientFuture.get (pump fuel) k fd w = (w', get_outcome x) /\
    pipe D' R' Q' U' w' /\ D' ++ R' ++ Q' ++ U' = D ++ R ++ Q ++ U /\
    (length D <= length D')%nat /\ futures w' !! fd = Some (reply_data x l).
Proof.
  intros Hp Hx Hk. destruct (future_get D R Q U w fd x k Hp Hx Hk)
    as (w' & D' & R' & Q' & U' & l & Hw & Hp' & Hh & Hlo & Hd).
  exists w', D', R', Q', U', l. split; [|done].
  pose proof (get_reply k fd x l w' (pump fuel) Hd) as Hg. unfold ClientFuture.get in *.
  mstep Hw. rewrite (bind_ok _ _ _ w' tt) in Hg; [done|].
  apply (wait_available (pump fuel) k fd _ w' Hd). by destruct x as [c []].
Qed.

(** C5: from every reachable state, waiting on any future returns: after at most
    as many scheduling rounds as there are older requests, [get] gives the
    reply of the sequential run (its result, or the exception of its error
    code), and the system has lost or reordered no request. *)
Theorem every_future_completes w0 os w i x k :
  initial w0 -> (4 <= fuel)%nat -> reaches w0 os w ->
  all_served_ok (request_of <$> os) ->
  reply_of pool a0 (request_of <$> os) i = Some x -> (S i < k)%nat ->
  exists w' l, ClientFuture.get (pump fuel) k i w = (w', get_outcome x) /\
    futures w' !! i = Some (reply_data x l) /\
    forall th, (step fuel th w').2 = Blocked \/ (step fuel th w').2 = Ok tt.
Proof.
  intros Hw0 Hf4 Hr Hok Hx Hk.
  destruct (reaches_pipe w0 os w Hw0 Hf4 Hr Hok) as (D & R & Q & U & Hp & Hh).
  rewrite <- Hh in Hx. destruct (get_future D R Q U w i x k Hp Hx Hk)
    as (w' & D' & R' & Q' & U' & l & Hg & Hp' & Hh' & _ & Hd).
  exists w', l. split_and!; [done|done|]. intros th.
  destruct (step_safe D' R' Q' U' w' th Hp' Hf4)
    as [Hb|(w'' & _ & _ & _ & _ & Hs & _)]; [by left|right; by rewrite Hs].
Qed.
End requests.
End pipeline.
Arguments initial {B _ _ _} fuel pool a0 w.
Arguments all_served_ok {_} fuel pool a0 rs.

(** ** Witnesses *)

(** A client connected to the server of TCPServer.v's witnesses. *)
Definition demo_client : TCPClient.t :=
  (TCPClient.connect (TCPClient.mk_connect 5 0 1 (Ok 12345) 0
     (mk_socket [] StreamOpen [] [] true)) TCPClient.ctor).1.
Definition demo_sys : sys MemoryBackend.t :=
  mk_sys demo_client TCPServer.demo (mk_socket [] StreamOpen [] [] true).

Lemma demo_initial : initial 200 10 demo_a demo_sys.
Proof.
  split; try done; try (simpl; intros; lia); split; constructor.
Qed.

(** Overwrite object 1, then read objects 1 and 2. *)
Definition demo_ops : list (op bytes) :=
  [OpWrite 1 [x78; x79]; OpRead 1; OpRead 2].

Lemma demo_served : all_served_ok 200 10 demo_a (request_of <$> demo_ops).
Proof.
  split; [simpl; lia|]. intros i r Hi.
  destruct i as [|[|[|i]]]; [injection Hi as <-..|done];
    (split; [simpl; unfold is_u64; lia|]; split; [simpl; unfold is_u64; lia|];
     split; [vm_compute; reflexivity|]; split; [vm_compute; reflexivity|];
     apply Nat.leb_le; vm_compute; reflexivity).
Qed.

(** The requests are made at once; then the sender and the network move. *)
Definition demo_states : list (sys MemoryBackend.t) :=
  let w1 := (on_client (issue (OpWrite 1 [x78; x79])) demo_sys).1 in
  let w2 := (on_client (issue (OpRead 1)) w1).1 in
  let w3 := (on_client (issue (OpRead 2)) w2).1 in
  let w4 := (step 200 Sender w3).1 in
  let w5 := (step 200 (Up 7) w4).1 in
  [w1; w2; w3; w4; w5].
Definition demo_state (i : nat) : sys MemoryBackend.t :=
  default demo_sys (demo_states !! i).

Lemma demo_reaches : reaches 200 demo_sys demo_ops (demo_state 4).
Proof.
  assert (Hr1 : reaches 200 demo_sys (take 1 demo_ops) (demo_state 0)).
  { apply (reach_request 200 _ [] demo_sys (OpWrite 1 [x78; x79]) 0%nat);
      [apply reach_start|simpl; lia|vm_compute; reflexivity]. }
  assert (Hr2 : reaches 200 demo_sys (take 2 demo_ops) (demo_state 1)).
  { apply (reach_request 200 _ (take 1 demo_ops) (demo_state 0) (OpRead 1) 1%nat);
      [done|done|vm_compute; reflexivity]. }
  assert (Hr3 : reaches 200 demo_sys demo_ops (demo_state 2)).
  { apply (reach_request 200 _ (take 2 demo_ops) (demo_state 1) (OpRead 2) 2%nat);
      [done|done|vm_compute; reflexivity]. }
  assert (Hr4 : reaches 200 demo_sys demo_ops (demo_state 3)).
  { apply (reach_thread 200 _ _ (demo_state 2) Sender); [done|vm_compute; reflexivity]. }
  apply (reach_thread 200 _ _ (demo_state 3) (Up 7)); [done|vm_compute; reflexivity].
Qed.

Lemma interleavings_are_sequential_witness :
  exists l, futures (demo_state 4) !! 1%nat = Some (set_sem l new_FutureData) \/
    futures (demo_state 4) !! 1%nat = Some (reply_data (kOk, ReadAck 1 true [x78; x79]) l).
Proof.
  refine (proj1 (proj2 (interleavings_are_sequential 200 10 demo_a demo_sys demo_ops
            (demo_state 4) demo_initial _ demo_reaches demo_served)) 1%nat _ _).
  - apply Nat.leb_le. reflexivity.
  - vm_compute. reflexivity.
Defined.

Lemma every_future_completes_witness :
  exists w' l, ClientFuture.get (pump 200) 9 2 (demo_state 4) =
      (w', Throw (NoSuchIDException
        "Call to get was made for id that did not exist on server.")) /\
    futures w' !! 2%nat = Some (reply_data (kNoSuchIDException, ReadAck 2 false []) l) /\
    forall th, (step 200 th w').2 = Blocked \/ (step 200 th w').2 = Ok tt.
Proof.
  apply (every_future_completes 200 10 demo_a demo_sys demo_ops (demo_state 4) 2
           (kNoSuchIDException, ReadAck 2 false []) 9 demo_initial).
  - apply Nat.leb_le. reflexivity.
  - exact demo_reaches.
  - exact demo_served.
  - vm_compute. reflexivity.
  - lia.
Defined.

Lemma first_poll_answers_true_witness :
  exists c'', ClientFuture.try_wait 0 (client (demo_state 0)) = (c'', Ok true) /\
    futures c'' !! 0%nat = Some (set_sem true new_FutureData) /\
    ClientFuture.try_wait 0 c'' = (c'', Ok false).
Proof.
  apply (first_poll_answers_true (OpWrite 1 [x78; x79]) demo_client
           (client (demo_state 0)) 0); [simpl; lia|reflexivity|vm_compute; reflexivity].
Defined.
End System.
