(* ===== verification/ObjectStore.v ===== *)
(** * The object store ([src/object_store])

    The futures of ObjectStore.h and the operations of FullBladeObjectStore.h,
    over a system that holds a client ([BladeClient]); and the interface that the cache manager
    needs of a store ([ObjectStore], [StoreSpec]). *)

From stdpp Require Import gmap list strings.
From S2P Require Import Prelude Common Wire Codec BladeClient.

(** ** Deserialisation *)

(** The user's [std::function<T(const void*, unsigned int)>]: [deserialize ptr
    size], [ptr] being the bytes from the pointer to the end of its block. *)
Class Deserializer (T : Type) := { deserialize : bytes -> Z -> outcome T }.

(** The objects of [ser_ok] come back from their bytes, whatever follows these
    in memory. *)
Class DeserializerSpec (T : Type) `{Serializer T, Deserializer T} := {
  ser_ok : T -> Prop;
  deserialize_serialize obj rest : ser_ok obj ->
    deserialize (ser_serialize obj ++ rest) (Z.of_nat (length (ser_serialize obj))) = Ok obj;
}.

Lemma deserialize_whole `{DeserializerSpec T} obj : ser_ok obj ->
  deserialize (ser_serialize obj) (Z.of_nat (length (ser_serialize obj))) = Ok obj.
Proof. intros Hok. by rewrite <- (app_nil_r (ser_serialize obj)) at 1; apply deserialize_serialize. Qed.

(** Objects that are their own bytes; reading past the block is undefined. *)
#[global] Instance raw_deserializer : Deserializer bytes :=
  { deserialize ptr size := read_at 0 (Z.to_nat size) ptr }.
#[global] Program Instance raw_deserializer_spec : DeserializerSpec bytes :=
  { ser_ok _ := True }.
Next Obligation.
  intros obj rest _. simpl. rewrite Nat2Z.id. exact (read_at_next [] obj rest).
Qed.

(** ** The interface *)

(** The part of ObjectStore.h that the cache manager calls; futures are
    addresses. *)
Class ObjectStore (W T : Type) := {
  os_get : ObjectID -> M W T;
  os_put : ObjectID -> T -> M W bool;
  os_remove : ObjectID -> M W bool;
  os_get_async : ObjectID -> M W nat;
  os_put_async : ObjectID -> T -> M W nat;
  os_get_future_get : nat -> M W T;
  os_put_future_wait : nat -> M W unit;
  os_put_future_try_wait : nat -> M W bool;
}.

Definition no_such_id : exn := NoSuchIDException
  "Call to get was made for id that did not exist on server.".

(** What the future of a request will give: the object found by a get (if any),
    or the completion of a put. *)
Inductive promise (T : Type) :=
| PGet (r : option T)
| PPut.
Arguments PGet {T} _.
Arguments PPut {T}.

(** What a store promises.  [st_rep n w m pf]: the store holds the map [m] once
    the requests made so far are served, [pf] gives what each future will
    return, and the store can serve [n] more requests on objects of [st_obj]
    before it meets one of its limits. *)
Class StoreSpec (W T : Type) `{ObjectStore W T} := {
  st_rep : nat -> W -> gmap Z T -> gmap nat (promise T) -> Prop;
  st_obj : T -> Prop;
  st_weaken n w m pf : st_rep (S n) w m pf -> st_rep n w m pf;
  st_get n w m pf oid : st_rep (S n) w m pf -> is_u64 oid -> exists w',
    os_get oid w =
      (w', match m !! oid with Some v => Ok v | None => Throw no_such_id end) /\
    st_rep n w' m pf;
  st_put n w m pf oid v : st_rep (S n) w m pf -> is_u64 oid -> st_obj v ->
    exists w', os_put oid v w = (w', Ok true) /\ st_rep n w' (<[oid := v]> m) pf;
  st_remove n w m pf oid : st_rep (S n) w m pf -> is_u64 oid -> exists w' b,
    os_remove oid w = (w', Ok b) /\ st_rep n w' (delete oid m) pf;
  st_get_async n w m pf oid : st_rep (S n) w m pf -> is_u64 oid -> exists w' f,
    os_get_async oid w = (w', Ok f) /\ pf !! f = None /\
    st_rep n w' m (<[f := PGet (m !! oid)]> pf);
  st_put_async n w m pf oid v : st_rep (S n) w m pf -> is_u64 oid -> st_obj v ->
    exists w' f, os_put_async oid v w = (w', Ok f) /\ pf !! f = None /\
    st_rep n w' (<[oid := v]> m) (<[f := PPut]> pf);
  st_get_future n w m pf f r : st_rep n w m pf -> pf !! f = Some (PGet r) ->
    exists w', os_get_future_get f w =
      (w', match r with Some v => Ok v | None => Throw no_such_id end) /\
    st_rep n w' m pf;
  st_put_wait n w m pf f : st_rep n w m pf -> pf !! f = Some PPut ->
    exists w', os_put_future_wait f w = (w', Ok tt) /\ st_rep n w' m pf;
}.

(** Polling.  [unpolled F w]: nobody has polled the futures [F].  The first poll
    of a future answers true, whether or not its reply has arrived (the lock of
    a new [FutureData] is free, and [try_wait] takes it). *)
Class PollSpec (W T : Type) `{ObjectStore W T} := {
  unpolled : gset nat -> W -> Prop;
  poll_unpolled F w f : unpolled F w -> f ∈ F -> exists w',
    os_put_future_try_wait f w = (w', Ok true) /\ unpolled (F ∖ {[f]}) w';
}.

(** ** A reference implementation

    A store without network: requests take effect at once, a future is the
    address of its promise.  [try_wait] answers as a client's future does the
    first time it is asked. *)
Module MapStore.
Section map_store.
Context {T : Type}.

Record t := mk { objects : gmap Z T; promises : list (promise T) }.

Definition get (oid : ObjectID) : M t T :=
  let* s := gets id in
  match s.(objects) !! oid with
  | Some v => ret v
  | None => throw no_such_id
  end.
Definition put (oid : ObjectID) (v : T) : M t bool :=
  modify (fun s => mk (<[oid := v]> s.(objects)) s.(promises)) ;;; ret true.
Definition remove (oid : ObjectID) : M t bool :=
  let* s := gets id in
  modify (fun s => mk (delete oid s.(objects)) s.(promises)) ;;;
  ret (bool_decide (is_Some (s.(objects) !! oid))).
Definition new_promise (p : promise T) : M t nat :=
  let* s := gets id in
  modify (fun s => mk s.(objects) (s.(promises) ++ [p])) ;;;
  ret (length s.(promises)).
Definition get_async (oid : ObjectID) : M t nat :=
  let* s := gets id in new_promise (PGet (s.(objects) !! oid)).
Definition put_async (oid : ObjectID) (v : T) : M t nat :=
  let* _ := put oid v in new_promise PPut.
Definition future_get (f : nat) : M t T :=
  let* s := gets id in
  match s.(promises) !! f with
  | Some (PGet (Some v)) => ret v
  | Some (PGet None) => throw no_such_id
  | Some PPut => throw (Exception "getData called on a non read future")
  | None => undefined
  end.

#[global] Instance ops : ObjectStore t T := {
  os_get := get; os_put := put; os_remove := remove;
  os_get_async := get_async; os_put_async := put_async;
  os_get_future_get := future_get;
  os_put_future_wait _ := ret tt;
  os_put_future_try_wait _ := ret true;
}.

Definition rep (n : nat) (w : t) (m : gmap Z T) (pf : gmap nat (promise T)) : Prop :=
  w.(objects) = m /\ forall f, pf !! f = w.(promises) !! f.

Lemma promise_fresh w (pf : gmap nat (promise T)) :
  (forall f, pf !! f = w.(promises) !! f) -> pf !! length w.(promises) = None.
Proof. intros ->. by apply lookup_ge_None. Qed.

Lemma promise_snoc w (pf : gmap nat (promise T)) p :
  (forall f, pf !! f = w.(promises) !! f) ->
  forall f, <[length w.(promises) := p]> pf !! f = (w.(promises) ++ [p]) !! f.
Proof.
  intros Hpf f. destruct (decide (f = length w.(promises))) as [->|Hne].
  - rewrite lookup_insert_eq. by rewrite list_lookup_middle.
  - rewrite lookup_insert_ne, Hpf by done.
    destruct (decide (f < length w.(promises))%nat).
    + by rewrite lookup_app_l.
    + rewrite !lookup_ge_None_2; [done|rewrite length_app; simpl; lia|lia].
Qed.

#[global] Program Instance spec : StoreSpec t T := {
  st_rep := rep; st_obj _ := True;
}.
Next Obligation. done. Qed.
Next Obligation.
  intros n w m pf oid [<- Hp] _. exists w. split; [|done]. simpl.
  unfold get, bind, gets, id. by destruct (objects w !! oid).
Qed.
Next Obligation. intros n w m pf oid v [<- Hp] _ _. eexists. by split. Qed.
Next Obligation. intros n w m pf oid [<- Hp] _. eexists _, _. by split. Qed.
Next Obligation.
  intros n w m pf oid [<- Hp] _. eexists _, _. split; [reflexivity|].
  split; [by apply promise_fresh|]. split; [done|]. by apply promise_snoc.
Qed.
Next Obligation.
  intros n w m pf oid v [<- Hp] _ _. eexists _, _. split; [reflexivity|].
  split; [by apply promise_fresh|]. split; [done|]. by apply (promise_snoc w).
Qed.
Next Obligation.
  intros n w m pf f r [<- Hp] Hf. exists w. split; [|done]. simpl.
  rewrite Hp in Hf. unfold future_get, bind, gets, id. rewrite Hf. by destruct r.
Qed.
Next Obligation. intros n w m pf f Hr _. by exists w. Qed.

#[global] Program Instance poll : PollSpec t T := { unpolled _ _ := True }.
Next Obligation. intros F w f _ _. by exists w. Qed.
End map_store.
Arguments t : clear implicits.
End MapStore.

(** ** FullBladeObjectStore *)

Module FullBladeObjectStore.
Section store.
Context {T : Type} `{Deserializer T} {W : Type} `{HasFutures W}.
Context (client : BladeClient W T) (env : M W unit) (fuel : nat).

(** The constructor connects the client. *)
Definition ctor (r : bc_connection) : M W unit := bc_connect r.

(** [ObjectStorePutFuture] *)
Definition put_future_wait (f : nat) : M W unit := ClientFuture.wait env fuel f.
Definition put_future_try_wait (f : nat) : M W bool := ClientFuture.try_wait f.
Definition put_future_get (f : nat) : M W bool := ClientFuture.get env fuel f.

(** [ObjectStoreGetFuture] *)
Definition get_future_wait (f : nat) : M W unit := ClientFuture.wait env fuel f.
Definition get_future_try_wait (f : nat) : M W bool := ClientFuture.try_wait f.
Definition get_future_get (f : nat) : M W T :=
  let* ' (ptr, length) := ClientFuture.getDataPair env fuel f in
  stop (deserialize ptr length).

Definition get (id : ObjectID) : M W T :=
  let* ' (ptr, length) := bc_read_sync id in
  stop (deserialize ptr length).

Definition get_async (id : ObjectID) : M W nat :=
  bc_read_async id.

Definition put (id : ObjectID) (obj : T) : M W bool :=
  bc_write_sync id obj.

Definition put_async (id : ObjectID) (obj : T) : M W nat :=
  bc_write_async id obj.

Definition remove (id : ObjectID) : M W bool :=
  bc_remove id.

(** [const int numObjects = last - start + 1;], and the [size_t] that the
    constructor of the vector of futures is given. *)
Definition num_objects (start last : ObjectID) : Z := i32 (u64 (last - start + 1)).
Definition futures_vector (numObjects : Z) : M W unit :=
  if numObjects <? 0 then
    throw (LengthError "cannot create std::vector larger than max_size()")
  else ret tt.

(** Ids [start + 0 .. start + (n - 1)]. *)
Definition id_range (start : ObjectID) (n : nat) : list ObjectID :=
  (fun i => u64 (start + Z.of_nat i)) <$> seq 0 n.

(** The objects are returned instead of stored to the caller's array. *)
Definition get_bulk (start last : ObjectID) : M W (list T) :=
  if last <? start then
    throw (Exception
      "Last objectID for getBulk must be greater than start objectID.")
  else
    let numObjects := num_objects start last in
    futures_vector numObjects ;;;
    let* fs := mmap (id_range start (Z.to_nat numObjects)) get_async in
    mmap fs (fun f => get_future_wait f ;;; get_future_get f).

(** The body of [get_bulk_fast]'s loop over the objects of the buffer. *)
Fixpoint parse_bulk (n : nat) (mem : bytes) : outcome (list T) :=
  match n with
  | O => Ok []
  | S n =>
      match read_at 0 4 mem with
      | Ok word =>
          let size := ntohl (le_val word) in
          outcome_bind (deserialize (drop 4 mem) size) (fun obj =>
          outcome_bind (parse_bulk n (drop (4 + Z.to_nat size) mem)) (fun objs =>
          Ok (obj :: objs)))
      | _ => Undefined
      end
  end.

Definition get_bulk_fast (oids : list ObjectID) : M W (list T) :=
  let* ' (ptr, _) := bc_read_sync_bulk oids in
  let* word := stop (read_at 0 4 ptr) in
  let num_oids := le_val word in
  if negb (num_oids =? Z.of_nat (length oids)) then stop Exited
  else stop (parse_bulk (Z.to_nat num_oids) (drop 4 ptr)).

(** One pass of [put_bulk]'s polling loop over futures and their [done] flags;
    the flags after the pass. *)
Fixpoint poll_pass (fs : list nat) (done : list bool) : M W (list bool) :=
  match fs, done with
  | f :: fs, d :: done =>
      let* d' :=
        (if d : bool then ret true else
         let* r := put_future_try_wait f in
         if r : bool then let* _ := put_future_get f in ret true
         else ret false) in
      let* rest := poll_pass fs done in
      ret (d' :: rest)
  | _, _ => ret []
  end.

(** [while (total_done != numObjects)]; the environment moves between passes. *)
Fixpoint poll_loop (n : nat) (fs : list nat) (done : list bool) : M W unit :=
  if forallb id done then ret tt else
  match n with
  | O => stop OutOfFuel
  | S n => let* done := poll_pass fs done in env ;;; poll_loop n fs done
  end.

(** [data[i]] *)
Definition array_at (data : list T) (i : nat) : M W T :=
  match data !! i with Some v => ret v | None => undefined end.

Definition put_bulk (start last : ObjectID) (data : list T) : M W unit :=
  if last <? start then
    throw (Exception
      "Last objectID for putBulk must be greater than start objectID.")
  else
    let numObjects := num_objects start last in
    futures_vector numObjects ;;;
    let* fs := mmap (seq 0 (Z.to_nat numObjects)) (fun i =>
      let* obj := array_at data i in
      put_async (u64 (start + Z.of_nat i)) obj) in
    poll_loop fuel fs (replicate (Z.to_nat numObjects) false).

Definition put_bulk_fast (oids : list ObjectID) (data : list T) : M W unit :=
  let* _ := bc_write_sync_bulk oids data in
  ret tt.

(** [for (ObjectID oid = first; oid <= last; oid++)]: with [last] the greatest
    id, the condition never fails. *)
Fixpoint remove_loop (n : nat) (oid last : ObjectID) : M W unit :=
  if last <? oid then ret tt else
  match n with
  | O => stop OutOfFuel
  | S n => let* _ := remove oid in remove_loop n (u64 (oid + 1)) last
  end.

Definition removeBulk (n : nat) (first last : ObjectID) : M W unit :=
  if last <? first then
    throw (Exception "First ObjectID to remove must be leq last.")
  else remove_loop n first last.

End store.
End FullBladeObjectStore.
