(* ===== verification/CacheManager.v ===== *)
(** * The cache manager ([src/cache_manager/CacheManager.h])

    The cache over any object store (ObjectStore.v) and any eviction policy
    (Eviction.v), with its prefetch policies, in both modes: writing through and
    deferring writes until eviction.  Entries have addresses, because [get] keeps
    a pointer to the entry it returns while it prefetches others. *)

From stdpp Require Import gmap list strings.
From S2P Require Import Prelude Eviction BladeClient ObjectStore.

(** PrefetchPolicy.h. *)
Class PrefetchPolicy (C T : Type) := {
  pp_get : ObjectID -> T -> M C (list ObjectID);
}.

(** [reserve(n)] on a [std::vector<ObjectID>], which has at most [max_size()]
    elements: the greatest [ptrdiff_t] over the 8 bytes of an element. *)
Definition vector_max_size : Z := (2 ^ 63 - 1) / 8.
Definition reserve (n : Z) : outcome unit :=
  if vector_max_size <? n then Throw (LengthError "vector::reserve") else Ok tt.

Lemma reserve_ok n : n < 2 ^ 60 -> reserve n = Ok tt.
Proof.
  intros Hn. unfold reserve. change vector_max_size with (2 ^ 60 - 1).
  destruct (Z.ltb_spec (2 ^ 60 - 1) n); [lia|done].
Qed.

(** [CacheManager::OrderedPolicy]. *)
Module OrderedPolicy.

Record t := mk { read_ahead : Z; first : ObjectID; last : ObjectID }.

Definition setRange (first_ last_ : ObjectID) (p : t) : t :=
  mk p.(read_ahead) first_ last_.
Definition setReadAhead (read_ahead_ : Z) (p : t) : t :=
  mk read_ahead_ p.(first) p.(last).

(** Iteration [i] of the loop, [n] of them left.  A division by zero, when the
    range has 2^64 ids, is undefined. *)
Fixpoint get_loop (p : t) (id : ObjectID) (n : nat) (i : Z) : outcome (list ObjectID) :=
  match n with
  | O => Ok []
  | S n =>
      let tentative_fetch := u64 (id + i) in
      let shifted := u64 (tentative_fetch - p.(first)) in
      let range := u64 (p.(last) - p.(first) + 1) in
      if range =? 0 then Undefined else
      let modded := shifted mod range in
      let to_prefetch := u64 (modded + p.(first)) in
      if to_prefetch =? id then Ok [] else
      match get_loop p id n (i + 1) with
      | Ok l => Ok (to_prefetch :: l)
      | o => o
      end
  end.

Definition get (id : ObjectID) (p : t) : outcome (list ObjectID) :=
  if ((id <? p.(first)) || (p.(last) <? id))%bool then
    Throw (Exception ("Attempting to get id outside of continuous range " ++
      "present at time of prefetch  mode specification."))
  else let? _ := reserve p.(read_ahead) in get_loop p id (Z.to_nat p.(read_ahead)) 1.

(** ** What it prefetches *)

(** A range of at most 2^63 ids, and an id of the range. *)
Definition range_ok (p : t) (id : ObjectID) : Prop :=
  0 <= p.(first) <= id /\ id <= p.(last) < 2 ^ 64 /\ p.(last) - p.(first) < 2 ^ 63.

(** The [j]-th id after [id], around the range. *)
Definition successor (p : t) (id : ObjectID) (j : Z) : ObjectID :=
  p.(first) + (id - p.(first) + j) mod (p.(last) - p.(first) + 1).

Lemma successor_eq p id j :
  range_ok p id -> 0 < j <= p.(last) - p.(first) + 1 ->
  u64 (u64 (u64 (id + j) - p.(first)) mod u64 (p.(last) - p.(first) + 1) + p.(first)) =
    successor p id j.
Proof.
  intros (Hf & Hl & Hr) Hj. unfold successor.
  assert (H1 : u64 (u64 (id + j) - first p) = id - first p + j).
  { unfold u64. rewrite Zminus_mod_idemp_l. rewrite Z.mod_small; lia. }
  rewrite H1, (u64_small (last p - first p + 1)) by (split; lia).
  pose proof (Z.mod_pos_bound (id - first p + j) (last p - first p + 1) ltac:(lia)).
  rewrite u64_small by (split; lia). lia.
Qed.

Lemma successor_self p id j :
  range_ok p id -> 0 < j <= p.(last) - p.(first) + 1 ->
  successor p id j = id <-> j = p.(last) - p.(first) + 1.
Proof.
  intros (Hf & Hl & Hr) Hj. unfold successor. set (N := last p - first p + 1) in *.
  split.
  - intros He. assert (Hm : (id - first p + j) mod N = id - first p) by lia.
    assert (Hd : j mod N = 0).
    { rewrite Z.add_mod in Hm by lia. rewrite (Z.mod_small (id - first p)) in Hm by lia.
      pose proof (Z.mod_pos_bound j N ltac:(lia)) as Hb.
      destruct (Z.lt_ge_cases (id - first p + j mod N) N).
      - rewrite Z.mod_small in Hm by lia. lia.
      - rewrite <- (Z_mod_plus_full _ (-1)), Z.mod_small in Hm by lia. lia. }
    destruct (Z.eq_dec j N); [done|]. rewrite Z.mod_small in Hd; lia.
  - intros ->. replace (id - first p + N) with (id - first p + 1 * N) by lia.
    rewrite Z_mod_plus_full, Z.mod_small; lia.
Qed.

(** Iterations [i ..] of the loop, up to the read-ahead or the full circle. *)
Lemma get_loop_spec p id n i :
  range_ok p id -> 0 < i <= p.(last) - p.(first) + 1 ->
  exists l, get_loop p id n i = Ok l /\
    length l = Nat.min n (Z.to_nat (p.(last) - p.(first) + 1 - i)) /\
    forall j x, l !! j = Some x -> x = successor p id (i + Z.of_nat j).
Proof.
  intros Hok. revert i. induction n as [|n IH]; intros i Hi.
  { exists []. simpl. split_and!; [done|lia|]. intros j x Hx. done. }
  cbn [get_loop]. rewrite successor_eq by done.
  destruct (Z.eqb_spec (u64 (last p - first p + 1)) 0) as [H0|_].
  { destruct Hok as (? & ? & ?). rewrite u64_small in H0 by (split; lia). lia. }
  destruct (Z.eqb_spec (successor p id i) id) as [He|Hne].
  - apply successor_self in He; [|done|done]. exists []. split_and!; [done|cbn [length]; lia|].
    intros j x Hx. done.
  - assert (Hi' : i <> last p - first p + 1) by (intros ->; apply Hne; by apply successor_self).
    destruct (IH (i + 1) ltac:(lia)) as (l & -> & Hlen & Hl).
    exists (successor p id i :: l). split_and!; [done|cbn [length]; lia|].
    intros [|j] x Hx; simpl in Hx.
    + injection Hx as <-. by rewrite Z.add_0_r.
    + rewrite (Hl j x Hx). f_equal. lia.
Qed.

(** C35: ordered prefetching with a read-ahead below 2^60 asks for exactly the
    next [read_ahead] ids after the one just read, wrapping around the range,
    and stops before coming back to that id; no 64-bit operation of the formula
    overflows.  From 2^60 on, [reserve] throws. *)
Theorem ordered_prefetches_next p id :
  range_ok p id -> 0 <= p.(read_ahead) ->
  (p.(read_ahead) < 2 ^ 60 -> exists l, get id p = Ok l /\
    Z.of_nat (length l) = Z.min p.(read_ahead) (p.(last) - p.(first)) /\
    forall j x, l !! j = Some x -> x = successor p id (Z.of_nat j + 1) /\ x <> id /\
      p.(first) <= x <= p.(last)) /\
  (2 ^ 60 <= p.(read_ahead) -> get id p = Throw (LengthError "vector::reserve")).
Proof.
  intros Hok Hra. pose proof Hok as (Hf & Hl & Hr). unfold get.
  destruct (Z.ltb_spec id (first p)), (Z.ltb_spec (last p) id); try lia. cbn [orb].
  split; intros Hmax.
  2: { unfold reserve. change vector_max_size with (2 ^ 60 - 1).
       destruct (Z.ltb_spec (2 ^ 60 - 1) (read_ahead p)); [done|lia]. }
  rewrite reserve_ok by done. cbn [outcome_bind].
  destruct (get_loop_spec p id (Z.to_nat (read_ahead p)) 1 Hok ltac:(lia))
    as (l & -> & Hlen & Hel).
  exists l. split_and!; [done|lia|]. intros j x Hx.
  pose proof (lookup_lt_Some _ _ _ Hx) as Hj. rewrite (Hel j x Hx), Z.add_comm.
  split; [done|]. split.
  - rewrite successor_self by (done || lia). lia.
  - unfold successor.
    pose proof (Z.mod_pos_bound (id - first p + (Z.of_nat j + 1))
                  (last p - first p + 1) ltac:(lia)). lia.
Qed.

Lemma ordered_prefetches_next_witness :
  exists l, get 9 (mk 3 5 10) = Ok l /\ Z.of_nat (length l) = 3 /\
    forall j x, l !! j = Some x -> x = successor (mk 3 5 10) 9 (Z.of_nat j + 1) /\
      x <> 9 /\ 5 <= x <= 10.
Proof.
  apply (ordered_prefetches_next (mk 3 5 10) 9); [split; simpl; lia|simpl; lia..].
Defined.

End OrderedPolicy.

Module CacheManager.

Definition HIGH_PEND : Z := 50.

Inductive PrefetchMode := kNone | kOrdered | kCustom.

(** Which policy [prefetch_policy] points to. *)
Inductive policy_ptr := POff | POrdered | PCustom.

Section cache.
Context {T W P C : Type} `{ObjectStore W T} `{EvictionPolicy P} `{PrefetchPolicy C T}.
(** The value of a default-constructed [T]. *)
Context (dflt : T).

(** [addr] is the address of the entry, [future] empty when it was default
    constructed. *)
Record cache_entry := mk_entry {
  addr : nat;
  cached : bool;
  dirty : bool;
  obj : T;
  future : option nat;
}.

(** [pending_writes] lists the nodes of the map in iteration order. *)
Record t := mk {
  cache : gmap Z cache_entry;
  next_addr : nat;
  pending_writes : list (ObjectID * nat);
  max_size : Z;
  eviction_policy : P;
  prefetch_policy : policy_ptr;
  ordered_policy : OrderedPolicy.t;
  custom_policy : option C;
  defer_writes : bool;
  store : W;
}.

Definition set_cache (c : gmap Z cache_entry) (s : t) : t :=
  mk c s.(next_addr) s.(pending_writes) s.(max_size) s.(eviction_policy)
     s.(prefetch_policy) s.(ordered_policy) s.(custom_policy) s.(defer_writes)
     s.(store).
Definition set_next_addr (n : nat) (s : t) : t :=
  mk s.(cache) n s.(pending_writes) s.(max_size) s.(eviction_policy)
     s.(prefetch_policy) s.(ordered_policy) s.(custom_policy) s.(defer_writes)
     s.(store).
Definition set_pending (l : list (ObjectID * nat)) (s : t) : t :=
  mk s.(cache) s.(next_addr) l s.(max_size) s.(eviction_policy)
     s.(prefetch_policy) s.(ordered_policy) s.(custom_policy) s.(defer_writes)
     s.(store).
Definition set_eviction (p : P) (s : t) : t :=
  mk s.(cache) s.(next_addr) s.(pending_writes) s.(max_size) p
     s.(prefetch_policy) s.(ordered_policy) s.(custom_policy) s.(defer_writes)
     s.(store).
Definition set_prefetch (p : policy_ptr) (s : t) : t :=
  mk s.(cache) s.(next_addr) s.(pending_writes) s.(max_size) s.(eviction_policy)
     p s.(ordered_policy) s.(custom_policy) s.(defer_writes) s.(store).
Definition set_ordered (p : OrderedPolicy.t) (s : t) : t :=
  mk s.(cache) s.(next_addr) s.(pending_writes) s.(max_size) s.(eviction_policy)
     s.(prefetch_policy) p s.(custom_policy) s.(defer_writes) s.(store).
Definition set_custom (c : option C) (s : t) : t :=
  mk s.(cache) s.(next_addr) s.(pending_writes) s.(max_size) s.(eviction_policy)
     s.(prefetch_policy) s.(ordered_policy) c s.(defer_writes) s.(store).
Definition set_store (w : W) (s : t) : t :=
  mk s.(cache) s.(next_addr) s.(pending_writes) s.(max_size) s.(eviction_policy)
     s.(prefetch_policy) s.(ordered_policy) s.(custom_policy) s.(defer_writes) w.

Definition on_store {A} (m : M W A) : M t A := zoom store set_store m.
Definition on_eviction {A} (m : M P A) : M t A := zoom eviction_policy set_eviction m.

(** The constructor; the range of [ordered_policy] is not initialised. *)
Definition ctor (w : W) (p : P) (cache_size : Z) (defer : bool)
    (uninit : OrderedPolicy.t) : outcome t :=
  if cache_size <? 1 then
    Throw (CacheCapacityException "Cache capacity must be at least one.")
  else Ok (mk ∅ 0 [] cache_size p POff (OrderedPolicy.setReadAhead 5 uninit) None
             defer w).

(** [cache[oid]] on an id that is absent: a new entry, default constructed. *)
Definition new_entry (oid : ObjectID) : M t cache_entry :=
  let* a := gets next_addr in
  let e := mk_entry a true false dflt None in
  modify (set_next_addr (S a)) ;;;
  modify (fun s => set_cache (<[oid := e]> s.(cache)) s) ;;;
  ret e.

(** A store through a pointer to the entry [e] of [oid]. *)
Definition write_entry (oid : ObjectID) (e : cache_entry) : M t unit :=
  modify (fun s => set_cache (<[oid := e]> s.(cache)) s).

(** A load through the pointer: undefined once the entry has been erased. *)
Definition read_entry (oid : ObjectID) (a : nat) : M t cache_entry :=
  let* s := gets id in
  match s.(cache) !! oid with
  | Some e => if decide (e.(addr) = a) then ret e else undefined
  | None => undefined
  end.

(** ** Eviction *)

(** The loop that cleans [pending_writes], [l] being the nodes from the iterator
    on and [kept] those before it.  After an [erase] the iterator is already at
    the next node, and [it++] skips it; on [end()] the increment is undefined. *)
Fixpoint clean_pending (kept l : list (ObjectID * nat)) : M t unit :=
  match l with
  | [] => modify (set_pending (rev kept))
  | (oid, f) :: l' =>
      let* done := on_store (os_put_future_try_wait f) in
      if done : bool then
        match l' with
        | [] => undefined
        | n :: l'' => clean_pending (n :: kept) l''
        end
      else clean_pending ((oid, f) :: kept) l'
  end.

(** [pending_writes[oid] = f] *)
Definition assign_pending (oid : ObjectID) (f : nat) (l : list (ObjectID * nat))
    : list (ObjectID * nat) :=
  if decide (oid ∈ l.*1)
  then (fun p => if decide (p.1 = oid) then (oid, f) else p) <$> l
  else (oid, f) :: l.

Definition evict (oid : ObjectID) : M t unit :=
  let* s := gets id in
  match s.(cache) !! oid with
  | None => throw (Exception "Attempted to remove item not in cache.")
  | Some entry =>
      (if s.(defer_writes) then
         (if entry.(dirty) then
            let* f := on_store (os_put_async oid entry.(obj)) in
            modify (fun s => set_pending (assign_pending oid f s.(pending_writes)) s)
          else ret tt) ;;;
         let* s := gets id in
         if HIGH_PEND <? Z.of_nat (length s.(pending_writes)) then
           clean_pending [] s.(pending_writes)
         else ret tt
       else ret tt) ;;;
      modify (fun s => set_cache (delete oid s.(cache)) s)
  end.

Definition evict_vector (to_remove : list ObjectID) : M t unit :=
  mfor to_remove evict.

(** ** Operations *)

Definition prefetch (oid : ObjectID) : M t unit :=
  let* to_remove := on_eviction (ep_prefetch oid) in
  evict_vector to_remove ;;;
  let* s := gets id in
  match s.(cache) !! oid with
  | Some _ => ret tt
  | None =>
      let* e := new_entry oid in
      write_entry oid (mk_entry e.(addr) false e.(dirty) e.(obj) e.(future)) ;;;
      let* f := on_store (os_get_async oid) in
      write_entry oid (mk_entry e.(addr) false e.(dirty) e.(obj) (Some f))
  end.

(** [prefetch_policy->get(oid, obj)] *)
Definition policy_get (oid : ObjectID) (v : T) : M t (list ObjectID) :=
  let* s := gets id in
  match s.(prefetch_policy) with
  | POff => ret []
  | POrdered => stop (OrderedPolicy.get oid s.(ordered_policy))
  | PCustom =>
      match s.(custom_policy) with
      | None => undefined
      | Some c =>
          match pp_get oid v c with
          | (c', r) => modify (set_custom (Some c')) ;;; stop r
          end
      end
  end.

(** The writes that a get in deferred mode waits for. *)
Definition wait_pending (oid : ObjectID) : M t unit :=
  let* s := gets id in
  match list_find (fun p => p.1 = oid) s.(pending_writes) with
  | None => ret tt
  | Some (i, (_, f)) =>
      on_store (os_put_future_wait f) ;;;
      modify (fun s => set_pending (delete i s.(pending_writes)) s)
  end.

(** The part of [get] that finds or fetches the entry. *)
Definition lookup_entry (oid : ObjectID) : M t cache_entry :=
  let* s := gets id in
  match s.(cache) !! oid with
  | Some entry =>
      if negb entry.(cached) then
        match entry.(future) with
        | None => undefined
        | Some f =>
            let* v := on_store (os_get_future_get f) in
            let e := mk_entry entry.(addr) true entry.(dirty) v (Some f) in
            write_entry oid e ;;; ret e
        end
      else ret entry
  | None =>
      if Z.of_nat (size s.(cache)) =? s.(max_size) then
        throw (CacheCapacityException "Get operation would put cache over capacity.")
      else
        let* e := new_entry oid in
        let* v := on_store (os_get oid) in
        let e := mk_entry e.(addr) e.(cached) e.(dirty) v e.(future) in
        write_entry oid e ;;; ret e
  end.

Definition get (oid : ObjectID) : M t T :=
  let* to_remove := on_eviction (ep_get oid) in
  evict_vector to_remove ;;;
  let* deferred := gets defer_writes in
  (if deferred : bool then wait_pending oid else ret tt) ;;;
  let* entry := lookup_entry oid in
  let* to_prefetch := policy_get oid entry.(obj) in
  mfor to_prefetch prefetch ;;;
  let* entry := read_entry oid entry.(addr) in
  ret entry.(obj).

Definition put (oid : ObjectID) (v : T) : M t unit :=
  let* to_remove := on_eviction (ep_put oid) in
  evict_vector to_remove ;;;
  let* s := gets id in
  match s.(cache) !! oid with
  | Some entry =>
      write_entry oid (mk_entry entry.(addr) entry.(cached) true v entry.(future))
  | None =>
      if Z.of_nat (size s.(cache)) =? s.(max_size) then
        throw (CacheCapacityException "Put operation would put cache over capacity.")
      else
        let* e := new_entry oid in
        write_entry oid (mk_entry e.(addr) e.(cached) true v e.(future))
  end ;;;
  let* deferred := gets defer_writes in
  if deferred : bool then ret tt
  else let* _ := on_store (os_put oid v) in ret tt.

Definition remove (oid : ObjectID) : M t unit :=
  let* _ := on_store (os_remove oid) in
  modify (fun s => set_cache (delete oid s.(cache)) s) ;;;
  on_eviction (ep_remove oid).

(** ** Ranges *)

Definition num_objects (start last : ObjectID) : Z := i32 (u64 (last - start + 1)).

(** The objects are returned instead of stored to the caller's array. *)
Definition get_bulk (start last : ObjectID) : M t (list T) :=
  if last <? start then
    throw (Exception
      "Last objectID for get_bulk must be greater than start objectID.")
  else mmap (FullBladeObjectStore.id_range start
               (Z.to_nat (num_objects start last))) get.

Definition put_bulk (start last : ObjectID) (data : list T) : M t unit :=
  if last <? start then
    throw (Exception
      "Last objectID for put_bulk must be greater than start objectID.")
  else mfor (seq 0 (Z.to_nat (num_objects start last))) (fun i =>
    match data !! i with
    | Some v => put (u64 (start + Z.of_nat i)) v
    | None => undefined
    end).

(** [for (unsigned int oid = first; oid <= last; oid++) f(oid);] *)
Fixpoint for_oid32 (n : nat) (f : ObjectID -> M t unit) (oid : Z) (last : ObjectID)
    : M t unit :=
  if last <? oid then ret tt else
  match n with
  | O => stop OutOfFuel
  | S n => f oid ;;; for_oid32 n f (u32 (oid + 1)) last
  end.

Definition prefetchBulk (n : nat) (first last : ObjectID) : M t unit :=
  if last <? first then
    throw (Exception "Last ObjectID to prefetch must be leq first.")
  else for_oid32 n prefetch (u32 first) last.

Definition removeBulk (n : nat) (first last : ObjectID) : M t unit :=
  if last <? first then
    throw (Exception "Last ObjectID to remove must be leq first.")
  else for_oid32 n remove (u32 first) last.

(** ** Modes *)

Definition setMode (mode : PrefetchMode) (policy : option C) : M t unit :=
  match mode with
  | kNone => modify (set_prefetch POff)
  | kOrdered => throw (Exception
      "Ordered prefetching specified without a range and read ahead.")
  | kCustom =>
      match policy with
      | None => throw (Exception "Custom mode specified without a policy.")
      | Some c => modify (fun s => set_prefetch PCustom (set_custom (Some c) s))
      end
  end.

Definition setMode_range (mode : PrefetchMode) (first last : ObjectID)
    (read_ahead : Z) : M t unit :=
  match mode with
  | kOrdered =>
      if last <? first then throw (Exception "Last oid must be >= first")
      else
        modify (fun s => set_ordered (OrderedPolicy.setReadAhead read_ahead
          (OrderedPolicy.setRange first last s.(ordered_policy))) s) ;;;
        modify (set_prefetch POrdered)
  | _ => throw (Exception
      "First/last/read_ahead arguments passed for nonordered policy.")
  end.

End cache.
Arguments t : clear implicits.
Arguments cache_entry : clear implicits.

(** ** Specification *)

Section proofs.
Context {T W P C : Type} `{StoreSpec W T} `{TrackingPolicy P} `{PrefetchPolicy C T}.
Context (dflt : T).
Abbreviation st := (t T W P C).
Implicit Types s : st.

(** What the user of the cache sees under each id. *)
Definition view s (m : gmap Z T) (pf : gmap nat (promise T)) (oid : ObjectID)
    : option T :=
  match s.(cache) !! oid with
  | None => m !! oid
  | Some e =>
      if e.(cached) then Some e.(obj)
      else match e.(future) with
           | Some f => match pf !! f with Some (PGet r) => r | _ => None end
           | None => None
           end
  end.

(** An entry agrees with the store, unless it holds a write that is deferred;
    an entry that was prefetched has the future of its get. *)
Definition entry_ok s (m : gmap Z T) (pf : gmap nat (promise T)) (oid : ObjectID)
    (e : cache_entry T) : Prop :=
  is_u64 oid /\
  if e.(cached) then
    st_obj e.(obj) /\
    (e.(dirty) && s.(defer_writes) = false -> m !! oid = Some e.(obj))%bool
  else e.(dirty) = false /\
    exists f, e.(future) = Some f /\ pf !! f = Some (PGet (m !! oid)).

(** The cache and the store are coherent, with [n] requests to spare. *)
Record coherent (n : nat) s (m : gmap Z T) (pf : gmap nat (promise T)) : Prop :=
  mk_coherent {
  c_store : st_rep n s.(store) m pf;
  c_objs : forall oid v, m !! oid = Some v -> st_obj v;
  c_entries : forall oid e, s.(cache) !! oid = Some e -> entry_ok s m pf oid e;
  c_pending : Forall (fun p => pf !! p.2 = Some PPut) s.(pending_writes);
}.

(** The policy tracks exactly the ids of the cache, which has room for them. *)
Definition tracked s : Prop :=
  ep_inv s.(eviction_policy) /\ dom s.(cache) = ep_tracked s.(eviction_policy) /\
  ep_capacity s.(eviction_policy) <= s.(max_size).

(** Everything but the cache, the store and the pending writes. *)
Definition config s := (s.(max_size), s.(eviction_policy), s.(prefetch_policy),
  s.(ordered_policy), s.(custom_policy), s.(defer_writes)).

(** Deferred writes never reach the number at which the map is cleaned. *)
Definition few_pending (k : nat) s : Prop :=
  s.(defer_writes) = true -> (length s.(pending_writes) + k <= 50)%nat.

Lemma on_store_ok {A} (f : M W A) s w r :
  f s.(store) = (w, r) -> on_store f s = (set_store w s, r).
Proof. intros Hf. unfold on_store, zoom. by rewrite Hf. Qed.

Lemma length_assign_pending oid f l :
  (length (assign_pending oid f l) <= S (length l))%nat.
Proof. unfold assign_pending. destruct (decide _); [rewrite length_fmap|simpl]; lia. Qed.

Lemma Forall_assign_pending (Q : ObjectID * nat -> Prop) oid f l :
  Forall Q l -> Q (oid, f) -> Forall Q (assign_pending oid f l).
Proof.
  intros Hl Hq. unfold assign_pending. destruct (decide _); [|by constructor].
  apply Forall_fmap. eapply Forall_impl; [done|]. intros p Hp. simpl.
  by destruct (decide (p.1 = oid)).
Qed.

(** A promise made before is still there after another one is made. *)
Lemma promise_kept (pf : gmap nat (promise T)) f g p q :
  pf !! g = None -> pf !! f = Some p -> <[g := q]> pf !! f = Some p.
Proof. intros Hg Hf. rewrite lookup_insert_ne; [done|]. intros ->. congruence. Qed.

(** What a purge of [oid] promises. *)
Definition evicted n s m pf oid : Prop :=
  exists s' m' pf', evict oid s = (s', Ok tt) /\ coherent n s' m' pf' /\
    cache s' = delete oid s.(cache) /\ config s' = config s /\
    (length s'.(pending_writes) <= S (length s.(pending_writes)))%nat /\
    forall o, view s' m' pf' o = view s m pf o.

(** The state after the write of a purged entry was handed to the store. *)
Lemma deferred_coherent n s m pf oid e w' f :
  coherent (S n) s m pf -> s.(cache) !! oid = Some e -> st_obj e.(obj) ->
  pf !! f = None -> st_rep n w' (<[oid := e.(obj)]> m) (<[f := PPut]> pf) ->
  coherent n (set_cache (delete oid s.(cache))
    (set_pending (assign_pending oid f s.(pending_writes)) (set_store w' s)))
    (<[oid := e.(obj)]> m) (<[f := PPut]> pf).
Proof.
  intros [Hst Hobjs Hent Hpend] He Hobj Hfresh Hst'. split; simpl; [done| | |].
  - intros o v Ho. destruct (decide (o = oid)) as [->|Hne].
    + rewrite lookup_insert_eq in Ho. by simplify_eq.
    + rewrite lookup_insert_ne in Ho by done. eauto.
  - intros o e' Ho. apply lookup_delete_Some in Ho as [Hne Ho].
    pose proof (Hent o e' Ho) as (Hu' & Hag'). split; [done|].
    simpl. rewrite !lookup_insert_ne by done. destruct (cached e'); [done|].
    destruct Hag' as (Hd' & f' & Hf' & Hpf'). split; [done|]. exists f'.
    split; [done|]. by apply promise_kept.
  - apply Forall_assign_pending; [|simpl; apply lookup_insert_eq].
    eapply Forall_impl; [done|]. intros p Hp. simpl in *. by apply promise_kept.
Qed.

(** A deferred write goes to the store when its entry is purged. *)
Lemma evict_deferred n s m pf oid e :
  coherent (S n) s m pf -> s.(cache) !! oid = Some e -> few_pending 1 s ->
  defer_writes s = true -> dirty e = true -> evicted n s m pf oid.
Proof.
  intros Hcoh He Hfew Hdef Hdirty.
  pose proof Hcoh as [Hst Hobjs Hent Hpend]. pose proof (Hent oid e He) as (Hu & Hagree).
  assert (Hc : cached e = true).
  { destruct (cached e); [done|]. destruct Hagree; congruence. }
  rewrite Hc in Hagree. destruct Hagree as [Hobj Hagree].
  destruct (st_put_async n (store s) m pf oid (obj e) Hst Hu Hobj)
    as (w' & f & Hput & Hfresh & Hst').
  unfold evicted, evict. rewrite (bind_ok (gets id) _ s s s eq_refl), He, Hdef, Hdirty.
  unfold bind at 1. unfold bind at 1. unfold bind at 1.
  rewrite (on_store_ok _ s _ _ Hput). unfold modify. unfold bind at 1, gets, id.
  specialize (Hfew Hdef). pose proof (length_assign_pending oid f (pending_writes s)) as Hlen.
  set (s1 := set_pending (assign_pending oid f (pending_writes (set_store w' s)))
               (set_store w' s)).
  assert (Hsmall : (HIGH_PEND <? Z.of_nat (length (pending_writes s1))) = false)
    by (apply Z.ltb_ge; unfold HIGH_PEND; simpl; lia).
  rewrite Hsmall. unfold ret. eexists _, (<[oid := obj e]> m), (<[f := PPut]> pf).
  split; [reflexivity|].
  split; [exact (deferred_coherent n s m pf oid e w' f Hcoh He Hobj Hfresh Hst')|].
  split; [done|]. split; [done|]. split; [done|].
  intros o. unfold view; simpl. destruct (decide (o = oid)) as [->|Hne].
  - by rewrite lookup_delete_eq, lookup_insert_eq, He, Hc.
  - rewrite lookup_delete_ne, lookup_insert_ne by done.
    destruct (cache s !! o) as [e'|] eqn:Ho; [|done]. destruct (cached e') eqn:Hc'; [done|].
    pose proof (Hent o e' Ho) as (_ & Hag'). rewrite Hc' in Hag'.
    destruct Hag' as (_ & f' & -> & Hpf'). rewrite Hpf'.
    by rewrite (promise_kept pf f' f _ PPut Hfresh Hpf').
Qed.

(** Any other entry is in the store already. *)
Lemma evict_clean n s m pf oid e :
  coherent (S n) s m pf -> s.(cache) !! oid = Some e -> few_pending 1 s ->
  (defer_writes s && dirty e)%bool = false -> evicted n s m pf oid.
Proof.
  intros [Hst Hobjs Hent Hpend] He Hfew Hdd. pose proof (Hent oid e He) as (Hu & Hagree).
  assert (Hrun : evict oid s = (set_cache (delete oid (cache s)) s, Ok tt)).
  { unfold evict. rewrite (bind_ok (gets id) _ s s s eq_refl), He.
    destruct (defer_writes s) eqn:Hdef; [|done]. simpl in Hdd. rewrite Hdd.
    unfold bind, gets, ret, id. specialize (Hfew Hdef).
    destruct (Z.ltb_spec HIGH_PEND (Z.of_nat (length (pending_writes s))));
      [unfold HIGH_PEND in *; lia|done]. }
  exists (set_cache (delete oid (cache s)) s), m, pf. split; [done|].
  split; [|split; [done|split; [done|split; [simpl; lia|]]]].
  - split; simpl; [by apply st_weaken|done| |done].
    intros o e' Ho. apply lookup_delete_Some in Ho as [_ Ho]. exact (Hent o e' Ho).
  - intros o. unfold view; simpl. destruct (decide (o = oid)) as [->|Hne].
    + rewrite lookup_delete_eq, He. destruct (cached e).
      * apply Hagree. destruct (dirty e), (defer_writes s); done.
      * destruct Hagree as (_ & f' & -> & Hpf'). by rewrite Hpf'.
    + by rewrite lookup_delete_ne.
Qed.

(** Purging an entry keeps what the user sees. *)
Lemma evict_ok n s m pf oid e :
  coherent (S n) s m pf -> s.(cache) !! oid = Some e -> few_pending 1 s ->
  evicted n s m pf oid.
Proof.
  intros Hcoh He Hfew. destruct (defer_writes s && dirty e)%bool eqn:Hdd.
  - apply andb_true_iff in Hdd as [Hdef Hdirty]. by apply (evict_deferred _ _ _ _ _ e).
  - by apply (evict_clean _ _ _ _ _ e).
Qed.

Lemma evict_vector_ok n s m pf evs :
  coherent (S n) s m pf -> (length evs <= 1)%nat ->
  (forall o, o ∈ evs -> o ∈ dom s.(cache)) -> few_pending 1 s ->
  exists s' m' pf', evict_vector evs s = (s', Ok tt) /\ coherent n s' m' pf' /\
    dom (cache s') = dom s.(cache) ∖ list_to_set evs /\ config s' = config s /\
    (length s'.(pending_writes) <= S (length s.(pending_writes)))%nat /\
    (forall o, view s' m' pf' o = view s m pf o) /\
    (forall o, o ∉ evs -> cache s' !! o = cache s !! o) /\ cache s' ⊆ cache s.
Proof.
  intros Hcoh Hlen Hin Hfew. destruct evs as [|e [|e' evs]]; [| |simpl in Hlen; lia].
  - exists s, m, pf. split_and!; try done; [|set_solver|lia].
    destruct Hcoh as [Hst Hobjs Hent Hp]. split; [by apply st_weaken|done..].
  - assert (Hd : e ∈ dom (cache s)) by set_solver. apply elem_of_dom in Hd as [en He].
    destruct (evict_ok n s m pf e en Hcoh He Hfew)
      as (s' & m' & pf' & Hrun & Hcoh' & Hc & Hcfg & Hl & Hv).
    exists s', m', pf'. unfold evict_vector; simpl. mstep Hrun.
    split_and!; try done.
    + rewrite Hc. set_solver.
    + intros o Ho. rewrite Hc, lookup_delete_ne; [done|]. set_solver.
    + rewrite Hc. apply delete_subseteq.
Qed.

(** The eviction policy has been told of an access to [oid] and its victims are
    purged: there is room for [oid]. *)
Record spaced (oid : ObjectID) (s s' : st) : Prop := mk_spaced {
  sp_inv : ep_inv s'.(eviction_policy);
  sp_dom : {[oid]} ∪ dom s'.(cache) = ep_tracked s'.(eviction_policy);
  sp_cap : ep_capacity s'.(eviction_policy) <= s'.(max_size);
  sp_same : s'.(cache) !! oid = s.(cache) !! oid;
  sp_sub : s'.(cache) ⊆ s.(cache);
  sp_conf : (max_size s', prefetch_policy s', ordered_policy s', custom_policy s',
             defer_writes s') =
            (max_size s, prefetch_policy s, ordered_policy s, custom_policy s,
             defer_writes s);
  sp_pend : (length s'.(pending_writes) <= S (length s.(pending_writes)))%nat;
}.

Lemma make_space_ok n s m pf oid (access : ObjectID -> M P (list ObjectID)) :
  admit_spec ep_inv ep_tracked ep_capacity access ->
  coherent (S n) s m pf -> tracked s -> few_pending 1 s ->
  exists s' m' pf',
    (let* to_remove := on_eviction (access oid) in evict_vector to_remove) s =
      (s', Ok tt) /\
    coherent n s' m' pf' /\ spaced oid s s' /\
    forall o, view s' m' pf' o = view s m pf o.
Proof.
  intros Hspec Hcoh (Hinv & Hdom & Hcap) Hfew.
  destruct (Hspec (eviction_policy s) oid Hinv)
    as (p' & evs & Hacc & Hinv' & Hcap' & (Hnd & Hsub & Hnot & Htr & Hlen)).
  assert (He : on_eviction (access oid) s = (set_eviction p' s, Ok evs))
    by (unfold on_eviction, zoom; by rewrite Hacc).
  mstep He. set (s0 := set_eviction p' s).
  assert (Hcoh0 : coherent (S n) s0 m pf) by (destruct Hcoh; by split).
  destruct (evict_vector_ok n s0 m pf evs Hcoh0 Hlen)
    as (s' & m' & pf' & Hrun & Hcoh' & Hd & Hcfg & Hl & Hv & Hother & Hsub');
    [intros o Ho; simpl; rewrite Hdom; auto|done|].
  exists s', m', pf'. split_and!; [done|done| |done].
  unfold config in Hcfg. simplify_eq Hcfg. clear Hcfg. intros.
  assert (Hp' : eviction_policy s' = p') by done.
  split.
  - by rewrite Hp'.
  - rewrite Hp', Htr, Hd. simpl. rewrite Hdom. set_solver.
  - rewrite Hp', Hcap'. simpl in *. lia.
  - rewrite Hother by done. done.
  - done.
  - simpl in *. congruence.
  - done.
Qed.

Lemma spaced_room oid s s' : spaced oid s s' -> s'.(cache) !! oid = None ->
  (Z.of_nat (size s'.(cache)) =? s'.(max_size)) = false.
Proof.
  intros Hsp Hno. apply Z.eqb_neq. pose proof (ep_bounded _ (sp_inv _ _ _ Hsp)) as Hb.
  rewrite <- (sp_dom _ _ _ Hsp), size_union in Hb
    by (rewrite disjoint_singleton_l; by apply not_elem_of_dom).
  rewrite size_singleton, size_dom in Hb. pose proof (sp_cap _ _ _ Hsp). lia.
Qed.

Lemma coherent_weaken n s m pf : coherent (S n) s m pf -> coherent n s m pf.
Proof. intros [Hst Hobjs Hent Hp]. split; [by apply st_weaken|done..]. Qed.

(** Replacing the entry of [oid] and the state of the store. *)
Lemma coherent_entry n n' s m pf oid e w a :
  coherent n s m pf -> st_rep n' w m pf -> entry_ok s m pf oid e ->
  coherent n' (set_cache (<[oid := e]> s.(cache)) (set_next_addr a (set_store w s))) m pf.
Proof.
  intros [Hst Hobjs Hent Hp] Hst' He. split; simpl; [done|done| |done].
  intros o e' Ho. destruct (decide (o = oid)) as [->|Hne].
  - rewrite lookup_insert_eq in Ho. by simplify_eq.
  - rewrite lookup_insert_ne in Ho by done. exact (Hent o e' Ho).
Qed.

(** What a lookup in the cache or in the store leaves: an entry with the object
    that the user sees, and nothing else changed. *)
Lemma lookup_entry_ok n s m pf oid v :
  coherent (S n) s m pf -> is_u64 oid ->
  (s.(cache) !! oid = None -> (Z.of_nat (size s.(cache)) =? s.(max_size)) = false) ->
  view s m pf oid = Some v ->
  exists s' e, lookup_entry dflt oid s = (s', Ok e) /\ coherent n s' m pf /\
    e.(obj) = v /\ s'.(cache) = <[oid := e]> s.(cache) /\ e.(cached) = true /\
    config s' = config s /\ s'.(pending_writes) = s.(pending_writes).
Proof.
  intros Hcoh Hu Hroom Hv. unfold lookup_entry, view in *.
  rewrite (bind_ok (gets id) _ s s s eq_refl).
  pose proof Hcoh as [Hst Hobjs Hent Hp].
  destruct (cache s !! oid) as [e|] eqn:He.
  - destruct (cached e) eqn:Hc.
    + simplify_eq. exists s, e. split_and!; try done; [by apply coherent_weaken|].
      by rewrite insert_id.
    + pose proof (Hent oid e He) as [_ Hok]. rewrite Hc in Hok.
      destruct Hok as (Hdirty & f & Hf & Hpf). rewrite Hf in Hv |- *.
      rewrite Hpf in Hv. cbn [negb].
      destruct (st_get_future n (store s) m pf f _ (st_weaken _ _ _ _ Hst) Hpf)
        as (w' & Hget & Hst').
      rewrite Hv in Hget. mstep (on_store_ok _ s _ _ Hget).
      eexists _, _. split; [reflexivity|]. split_and!; try done.
      pose proof (coherent_entry (S n) n s m pf oid
        (mk_entry (addr e) true (dirty e) v (Some f)) w' (next_addr s) Hcoh Hst') as Hc'.
      destruct s; apply Hc'. split; [done|]. simpl. split; [by apply (Hobjs oid)|done].
  - rewrite (Hroom eq_refl).
    destruct (st_get n (store s) m pf oid Hst Hu) as (w' & Hget & Hst').
    rewrite Hv in Hget. set (e0 := mk_entry (next_addr s) true false dflt None).
    set (s0 := set_cache (<[oid := e0]> (cache s)) (set_next_addr (S (next_addr s)) s)).
    rewrite (bind_ok (new_entry dflt oid) _ s s0 e0 eq_refl).
    mstep (on_store_ok _ s0 _ _ Hget).
    eexists _, _. split; [reflexivity|]. split_and!; try done; simpl.
    + pose proof (coherent_entry (S n) n s m pf oid
        (mk_entry (next_addr s) true false v None) w' (S (next_addr s)) Hcoh Hst') as Hc'.
      unfold write_entry, modify, s0. simpl. rewrite insert_insert_eq.
      destruct s; apply Hc'. split; [done|]. simpl. split; [by apply (Hobjs oid)|done].
    + unfold s0; simpl. by rewrite insert_insert_eq.
Qed.

Lemma wait_pending_ok n s m pf oid : coherent n s m pf -> exists s',
  wait_pending oid s = (s', Ok tt) /\ coherent n s' m pf /\
  cache s' = cache s /\ config s' = config s /\
  (length s'.(pending_writes) <= length s.(pending_writes))%nat.
Proof.
  intros Hcoh. pose proof Hcoh as [Hst Hobjs Hent Hp]. unfold wait_pending.
  rewrite (bind_ok (gets id) _ s s s eq_refl).
  destruct (list_find _ (pending_writes s)) as [[i [o f]]|] eqn:Hfind.
  - apply list_find_Some in Hfind as (Hi & _ & _).
    assert (Hf : pf !! f = Some PPut).
    { rewrite Forall_lookup in Hp. exact (Hp i (o, f) Hi). }
    destruct (st_put_wait n (store s) m pf f Hst Hf) as (w' & Hw & Hst').
    mstep (on_store_ok _ s _ _ Hw). eexists. split; [reflexivity|].
    split; [|split; [done|split; [done|]]].
    2: { simpl. rewrite length_delete by eauto. lia. }
    split; simpl; [done|done|done|].
    rewrite Forall_lookup in Hp |- *. intros j x Hx.
    apply list_elem_of_lookup_2 in Hx. rewrite delete_take_drop in Hx.
    apply elem_of_app in Hx as [Hx|Hx].
    + apply elem_of_take in Hx as (j' & Hj' & _). eauto.
    + apply list_elem_of_lookup_1 in Hx as [j' Hj']. rewrite lookup_drop in Hj'. eauto.
  - by exists s.
Qed.

(** Every entry holds its object (nothing is being prefetched). *)
Definition all_cached s : Prop :=
  forall oid e, s.(cache) !! oid = Some e -> e.(cached) = true.

(** What an operation on [oid] leaves unchanged, and that the policy still tracks
    the cache. *)
Record kept (s s' : st) : Prop := mk_kept {
  k_tracked : tracked s';
  k_prefetch : s'.(prefetch_policy) = s.(prefetch_policy);
  k_defer : s'.(defer_writes) = s.(defer_writes);
  k_pending : (length s'.(pending_writes) <= S (length s.(pending_writes)))%nat;
  k_cached : all_cached s -> all_cached s';
}.

(** After making space for [oid], its entry is set. *)
Lemma kept_entry oid e s s1 s' : spaced oid s s1 -> config s' = config s1 ->
  s'.(cache) = <[oid := e]> s1.(cache) -> e.(cached) = true ->
  (length s'.(pending_writes) <= length s1.(pending_writes))%nat -> kept s s'.
Proof.
  intros Hsp Hcfg Hc He Hl. injection Hcfg as Hmx Hep Hpr Hor Hcu Hd.
  pose proof (sp_conf _ _ _ Hsp) as Hconf. injection Hconf as Hmx1 Hpr1 _ _ Hd1. split.
  - unfold tracked. rewrite Hep, Hmx. split_and!; [apply Hsp| |apply Hsp].
    rewrite Hc, dom_insert_L. apply Hsp.
  - congruence.
  - congruence.
  - pose proof (sp_pend _ _ _ Hsp). lia.
  - intros Hall o e'. rewrite Hc. intros [[<- <-]|[Hne Ho]]%lookup_insert_Some; [done|].
    apply (Hall o). eapply lookup_weaken; [exact Ho|apply Hsp].
Qed.

(** The entry of [oid] holds its object. *)
Definition holds s (oid : ObjectID) : Prop :=
  exists e, s.(cache) !! oid = Some e /\ e.(cached) = true.

(** The part of [get] after the purges and the wait for a pending write. *)
Definition get_entry (oid : ObjectID) : M st T :=
  let* entry := lookup_entry dflt oid in
  let* to_prefetch := policy_get oid entry.(obj) in
  mfor to_prefetch (prefetch dflt) ;;;
  let* entry := read_entry oid entry.(addr) in
  ret entry.(obj).

(** The first part makes space for the entry and changes no object. *)
Lemma get_front_ok n s m pf oid :
  coherent (S (S n)) s m pf -> tracked s -> few_pending 1 s ->
  exists s1 s2 m1 pf1, get dflt oid s = get_entry oid s2 /\
    spaced oid s s1 /\ coherent (S n) s2 m1 pf1 /\ cache s2 = cache s1 /\
    config s2 = config s1 /\
    (length (pending_writes s2) <= length (pending_writes s1))%nat /\
    (forall o, view s2 m1 pf1 o = view s m pf o) /\
    (cache s2 !! oid = None -> (Z.of_nat (size (cache s2)) =? max_size s2) = false).
Proof.
  intros Hcoh Htr Hfew.
  destruct (make_space_ok (S n) s m pf oid ep_get ep_get_spec Hcoh Htr Hfew)
    as (s1 & m1 & pf1 & Hrun1 & Hcoh1 & Hsp & Hv1).
  assert (Hw : exists s2, (if defer_writes s1 then wait_pending oid else ret tt) s1 =
    (s2, Ok tt) /\ coherent (S n) s2 m1 pf1 /\ cache s2 = cache s1 /\
    config s2 = config s1 /\ (length (pending_writes s2) <= length (pending_writes s1))%nat).
  { destruct (defer_writes s1); [by apply wait_pending_ok|]. by exists s1. }
  destruct Hw as (s2 & Hrun2 & Hcoh2 & Hc2 & Hcfg2 & Hl2).
  exists s1, s2, m1, pf1. split; [|split_and!; try done].
  - unfold get. rewrite bind_assoc. mstep Hrun1.
    rewrite (bind_ok (gets defer_writes) _ s1 s1 (defer_writes s1) eq_refl). by mstep Hrun2.
  - intros o. rewrite <- Hv1. unfold view. by rewrite Hc2.
  - rewrite Hc2. intros Hno. injection Hcfg2 as Hmx _ _ _ _ _. rewrite Hmx.
    by apply (spaced_room oid s).
Qed.

(** A get of an object that exists returns it and changes no object. *)
Lemma cache_get_ok n s m pf oid v :
  coherent (S (S n)) s m pf -> tracked s -> is_u64 oid -> few_pending 1 s ->
  s.(prefetch_policy) = POff -> view s m pf oid = Some v ->
  exists s' m' pf', get dflt oid s = (s', Ok v) /\ coherent n s' m' pf' /\
    (forall o, view s' m' pf' o = view s m pf o) /\ kept s s' /\ holds s' oid.
Proof.
  intros Hcoh Htr Hu Hfew Hoff Hv.
  destruct (get_front_ok n s m pf oid Hcoh Htr Hfew)
    as (s1 & s2 & m1 & pf1 & Hrun & Hsp & Hcoh2 & Hc2 & Hcfg2 & Hl2 & Hv1 & Hroom).
  rewrite Hrun. unfold get_entry.
  assert (Hv2 : view s2 m1 pf1 oid = Some v) by (by rewrite Hv1).
  destruct (lookup_entry_ok n s2 m1 pf1 oid v Hcoh2 Hu Hroom Hv2) as
    (s3 & e & Hrun3 & Hcoh3 & Hobj & Hc3 & He & Hcfg3 & Hl3).
  mstep Hrun3.
  assert (Hcfg : config s3 = config s1) by congruence.
  assert (Hoff3 : prefetch_policy s3 = POff).
  { pose proof (sp_conf _ _ _ Hsp) as Hconf. unfold config in Hcfg. congruence. }
  assert (Hpol : policy_get oid (obj e) s3 = (s3, Ok [])).
  { unfold policy_get, bind, gets, id. by rewrite Hoff3. }
  mstep Hpol. rewrite (bind_ok (mfor [] _) _ s3 s3 tt eq_refl).
  assert (Hread : read_entry oid (addr e) s3 = (s3, Ok e)).
  { unfold read_entry, bind, gets, id. rewrite Hc3, lookup_insert_eq.
    by rewrite decide_True. }
  mstep Hread. exists s3, m1, pf1. split; [by rewrite <- Hobj|]. split; [done|]. split.
  - intros o. rewrite <- Hv1. unfold view. rewrite Hc3.
    destruct (decide (o = oid)) as [->|Hne].
    + rewrite lookup_insert_eq, He, Hobj. unfold view in Hv2. by rewrite Hv2.
    + by rewrite lookup_insert_ne.
  - split; [|exists e; by rewrite Hc3, lookup_insert_eq].
    apply (kept_entry oid e s s1); [done|done| |done|].
    + by rewrite Hc3, Hc2.
    + rewrite Hl3. done.
Qed.

(** A get of an id that the user does not see throws; it leaves an entry for it,
    within the capacity. *)
Lemma cache_get_missing n s m pf oid :
  coherent (S (S n)) s m pf -> tracked s -> is_u64 oid -> few_pending 1 s ->
  all_cached s -> view s m pf oid = None ->
  exists s', get dflt oid s = (s', Throw no_such_id) /\ kept s s'.
Proof.
  intros Hcoh Htr Hu Hfew Hall Hv.
  destruct (get_front_ok n s m pf oid Hcoh Htr Hfew)
    as (s1 & s2 & m1 & pf1 & Hrun & Hsp & Hcoh2 & Hc2 & Hcfg2 & Hl2 & Hv1 & Hroom).
  assert (cache s2 !! oid = None /\ m1 !! oid = None) as [Hno Hm].
  { specialize (Hv1 oid). rewrite Hv in Hv1. unfold view in Hv1.
    destruct (cache s2 !! oid) as [e|] eqn:He; [|done]. exfalso. rewrite Hc2 in He.
    rewrite (Hall oid e) in Hv1; [done|]. eapply lookup_weaken; [exact He|apply Hsp]. }
  destruct (st_get n (store s2) m1 pf1 oid (c_store _ _ _ _ Hcoh2) Hu) as (w' & Hget & _).
  rewrite Hm in Hget. rewrite Hrun. unfold get_entry, lookup_entry. rewrite <- bind_assoc.
  rewrite (bind_ok (gets id) _ s2 s2 s2 eq_refl), Hno, (Hroom Hno).
  set (e0 := mk_entry (next_addr s2) true false dflt None).
  set (s3 := set_cache (<[oid := e0]> (cache s2)) (set_next_addr (S (next_addr s2)) s2)).
  rewrite <- bind_assoc, (bind_ok (new_entry dflt oid) _ s2 s3 e0 eq_refl), <- bind_assoc.
  unfold bind at 1. rewrite (on_store_ok _ s3 _ _ Hget).
  exists (set_store w' s3). split; [done|].
  apply (kept_entry oid e0 s s1); try done. simpl. by rewrite Hc2.
Qed.

(** The value [r] under one id, and [f] elsewhere. *)
Definition upd (f : ObjectID -> option T) (oid : ObjectID) (r : option T)
    : ObjectID -> option T := fun o => if decide (o = oid) then r else f o.

(** The first half of [put]: the new object is in the cache, marked dirty. *)
Definition put_entry (oid : ObjectID) (v : T) : M st unit :=
  let* s := gets id in
  match s.(cache) !! oid with
  | Some entry =>
      write_entry oid (mk_entry entry.(addr) entry.(cached) true v entry.(future))
  | None =>
      if Z.of_nat (size s.(cache)) =? s.(max_size) then
        throw (CacheCapacityException "Put operation would put cache over capacity.")
      else
        let* e := new_entry dflt oid in
        write_entry oid (mk_entry e.(addr) e.(cached) true v e.(future))
  end.

Lemma put_entry_ok oid v s :
  (forall e, s.(cache) !! oid = Some e -> e.(cached) = true) ->
  (s.(cache) !! oid = None -> (Z.of_nat (size s.(cache)) =? s.(max_size)) = false) ->
  exists e a, put_entry oid v s =
    (set_cache (<[oid := e]> s.(cache)) (set_next_addr a s), Ok tt) /\
    e.(cached) = true /\ e.(dirty) = true /\ e.(obj) = v.
Proof.
  intros Hc Hroom. unfold put_entry. rewrite (bind_ok (gets id) _ s s s eq_refl).
  destruct (cache s !! oid) as [e|].
  - exists (mk_entry (addr e) (cached e) true v (future e)), (next_addr s).
    split; [by destruct s|]. simpl. split; [by apply Hc|done].
  - rewrite (Hroom eq_refl).
    exists (mk_entry (next_addr s) true true v None), (S (next_addr s)).
    split; [|done]. unfold new_entry, write_entry, bind, gets, modify, ret; simpl.
    by rewrite insert_insert_eq.
Qed.

(** The new object in the cache, and in the store unless writes are deferred. *)
Lemma coherent_put n s m pf oid v e a w m' :
  coherent (S n) s m pf -> is_u64 oid -> st_obj v ->
  e.(cached) = true -> e.(dirty) = true -> e.(obj) = v ->
  (if s.(defer_writes) then m' = m else m' = <[oid := v]> m) ->
  st_rep n w m' pf ->
  coherent n (set_store w (set_cache (<[oid := e]> s.(cache)) (set_next_addr a s))) m' pf.
Proof.
  intros [Hst Hobjs Hent Hp] Hu Hv Hc Hd Ho Hm' Hst'.
  assert (Hother : forall o, o <> oid -> m' !! o = m !! o).
  { intros o Hne. destruct (defer_writes s); subst m'; [done|].
    by rewrite lookup_insert_ne. }
  split; simpl; [done| | |done].
  - intros o x Hx. destruct (decide (o = oid)) as [->|Hne].
    + destruct (defer_writes s); subst m'; [by apply (Hobjs oid)|].
      rewrite lookup_insert_eq in Hx. by simplify_eq.
    + rewrite Hother in Hx by done. by apply (Hobjs o).
  - intros o e' He'. destruct (decide (o = oid)) as [->|Hne].
    + rewrite lookup_insert_eq in He'. simplify_eq. split; [done|]. simpl.
      rewrite Hc, Hd. split; [done|]. intros Hdef. simpl in Hdef. rewrite Hdef in Hm'.
      subst m'. apply lookup_insert_eq.
    + rewrite lookup_insert_ne in He' by done. unfold entry_ok. simpl.
      rewrite Hother by done. exact (Hent o e' He').
Qed.

Lemma cache_put_ok n s m pf oid v :
  coherent (S (S n)) s m pf -> tracked s -> is_u64 oid -> st_obj v ->
  few_pending 1 s -> (forall e, s.(cache) !! oid = Some e -> e.(cached) = true) ->
  exists s' m' pf', put dflt oid v s = (s', Ok tt) /\ coherent n s' m' pf' /\
    (forall o, view s' m' pf' o = upd (view s m pf) oid (Some v) o) /\ kept s s'.
Proof.
  intros Hcoh Htr Hu Hv Hfew Hcached.
  destruct (make_space_ok (S n) s m pf oid ep_put ep_put_spec Hcoh Htr Hfew)
    as (s1 & m1 & pf1 & Hrun1 & Hcoh1 & Hsp & Hv1).
  unfold put. rewrite bind_assoc. mstep Hrun1.
  rewrite (bind_assoc (gets id)). fold (put_entry oid v).
  destruct (put_entry_ok oid v s1) as (e & a & Hrun2 & He1 & He2 & He3).
  { intros e He. rewrite (sp_same _ _ _ Hsp) in He. eauto. }
  { by apply (spaced_room oid s). }
  mstep Hrun2. set (s2 := set_cache _ _).
  assert (Hview : forall w m', (forall o, o <> oid -> m' !! o = m1 !! o) -> forall o,
    view (set_store w s2) m' pf1 o = upd (view s m pf) oid (Some v) o).
  { intros w m' Hother o. unfold upd, view; simpl.
    destruct (decide (o = oid)) as [->|Hne].
    - by rewrite lookup_insert_eq, He1, He3.
    - rewrite lookup_insert_ne by done. fold (view s m pf o). rewrite <- Hv1. unfold view.
      destruct (cache s1 !! o); [done|auto]. }
  assert (Hkept : forall w, kept s (set_store w s2)).
  { intros w. by apply (kept_entry oid e s s1). }
  rewrite (bind_ok (gets defer_writes) _ s2 s2 (defer_writes s1) eq_refl).
  destruct (defer_writes s1) eqn:Hdef.
  - exists (set_store (store s1) s2), m1, pf1. split; [by destruct s1|].
    split; [|split; [by apply Hview|apply Hkept]].
    apply (coherent_put n s1 m1 pf1 oid v e a); try done; [by rewrite Hdef|].
    apply st_weaken, Hcoh1.
  - destruct (st_put n (store s1) m1 pf1 oid v (c_store _ _ _ _ Hcoh1) Hu Hv)
      as (w' & Hput & Hst').
    assert (Hput2 : on_store (os_put oid v) s2 = (set_store w' s2, Ok true))
      by (by apply on_store_ok).
    mstep Hput2. exists (set_store w' s2), (<[oid := v]> m1), pf1. split; [done|].
    split; [|split; [|apply Hkept]].
    + apply (coherent_put n s1 m1 pf1 oid v e a); try done. by rewrite Hdef.
    + apply Hview. intros o Hne. by rewrite lookup_insert_ne.
Qed.

Lemma remove_ok n s m pf oid :
  coherent (S n) s m pf -> tracked s -> is_u64 oid ->
  exists s' m', remove oid s = (s', Ok tt) /\ coherent n s' m' pf /\
    (forall o, view s' m' pf o = upd (view s m pf) oid None o) /\ kept s s'.
Proof.
  intros [Hst Hobjs Hent Hp] (Hinv & Hdom & Hcap) Hu.
  destruct (st_remove n (store s) m pf oid Hst Hu) as (w' & b & Hrm & Hst').
  unfold remove. mstep (on_store_ok _ s _ _ Hrm). unfold bind at 1, modify.
  destruct (ep_remove_spec (eviction_policy s) oid Hinv) as (p' & Hep & Hinv' & Hcap' & Htr').
  unfold on_eviction, zoom; simpl. rewrite Hep.
  eexists _, (delete oid m). split; [reflexivity|]. split_and!.
  - split; simpl; [done| | |done].
    + intros o x Hx. apply lookup_delete_Some in Hx as [_ Hx]. by apply (Hobjs o).
    + intros o e He. apply lookup_delete_Some in He as [Hne He]. unfold entry_ok; simpl.
      rewrite lookup_delete_ne by done. exact (Hent o e He).
  - intros o. unfold upd, view; simpl. destruct (decide (o = oid)) as [->|Hne].
    + by rewrite !lookup_delete_eq.
    + by rewrite !lookup_delete_ne.
  - split; simpl; [|done|done|lia|].
    + unfold tracked; simpl. split_and!; [done| |lia].
      rewrite dom_delete_L, Hdom. by rewrite Htr'.
    + intros Hall o e He. simpl in He. apply lookup_delete_Some in He as [_ He].
      by apply (Hall o).
Qed.

(** Prefetching is invisible: it only brings in the future of a get. *)
Lemma prefetch_ok n s m pf oid :
  coherent (S (S n)) s m pf -> tracked s -> is_u64 oid -> few_pending 1 s ->
  exists s' m' pf', prefetch dflt oid s = (s', Ok tt) /\ coherent n s' m' pf' /\
    (forall o, view s' m' pf' o = view s m pf o) /\ tracked s' /\
    s'.(prefetch_policy) = s.(prefetch_policy) /\ s'.(defer_writes) = s.(defer_writes).
Proof.
  intros Hcoh Htr Hu Hfew.
  destruct (make_space_ok (S n) s m pf oid ep_prefetch ep_prefetch_spec Hcoh Htr Hfew)
    as (s1 & m1 & pf1 & Hrun1 & Hcoh1 & Hsp & Hv1).
  pose proof (sp_conf _ _ _ Hsp) as Hconf. injection Hconf as _ Hpr _ _ Hdf.
  unfold prefetch. rewrite bind_assoc. mstep Hrun1.
  rewrite (bind_ok (gets id) _ s1 s1 s1 eq_refl).
  destruct (cache s1 !! oid) as [e|] eqn:He.
  - exists s1, m1, pf1. split; [done|]. split; [by apply coherent_weaken|].
    split; [done|]. split; [|done]. split_and!; [apply Hsp| |apply Hsp].
    rewrite <- (sp_dom _ _ _ Hsp). apply elem_of_dom_2 in He. set_solver.
  - pose proof Hcoh1 as [Hst Hobjs Hent Hp].
    destruct (st_get_async n (store s1) m1 pf1 oid Hst Hu) as (w' & f & Hget & Hfr & Hst').
    set (e0 := mk_entry (next_addr s1) true false dflt None).
    set (s2 := set_cache (<[oid := e0]> (cache s1)) (set_next_addr (S (next_addr s1)) s1)).
    rewrite (bind_ok (new_entry dflt oid) _ s1 s2 e0 eq_refl).
    unfold write_entry at 1. unfold bind at 1, modify.
    set (s3 := set_cache _ s2).
    assert (Hget3 : on_store (os_get_async oid) s3 = (set_store w' s3, Ok f))
      by (by apply on_store_ok).
    mstep Hget3. set (e1 := mk_entry (next_addr s1) false false dflt (Some f)).
    exists (set_store w' (set_cache (<[oid := e1]> (cache s1))
              (set_next_addr (S (next_addr s1)) s1))), m1, (<[f := PGet (m1 !! oid)]> pf1).
    split; [unfold s3, s2, write_entry, modify; simpl; by rewrite !insert_insert_eq|].
    split_and!.
    + split; simpl; [done|done| |].
      * intros o e He'. destruct (decide (o = oid)) as [->|Hne].
        -- rewrite lookup_insert_eq in He'. simplify_eq. split; [done|]. simpl.
           split; [done|]. exists f. by rewrite lookup_insert_eq.
        -- rewrite lookup_insert_ne in He' by done. destruct (Hent o e He') as [Hu' Hok].
           split; [done|]. simpl. destruct (cached e); [done|].
           destruct Hok as (Hd & g & Hg & Hpg). split; [done|]. exists g.
           split; [done|]. by apply promise_kept.
      * eapply Forall_impl; [done|]. intros p Hpp. by apply promise_kept.
    + intros o. rewrite <- Hv1. unfold view; simpl.
      destruct (decide (o = oid)) as [->|Hne].
      * by rewrite lookup_insert_eq, He; simpl; rewrite lookup_insert_eq.
      * rewrite lookup_insert_ne by done. destruct (cache s1 !! o) as [e|] eqn:Ho; [|done].
        destruct (cached e) eqn:Hc; [done|]. destruct (Hent o e Ho) as [_ Hok].
        rewrite Hc in Hok. destruct Hok as (_ & g & -> & Hpg).
        by rewrite (promise_kept pf1 g f _ _ Hfr Hpg), Hpg.
    + unfold tracked; simpl. rewrite dom_insert_L. split_and!; apply Hsp.
    + done.
    + done.
Qed.

(** *** Sequences of operations *)

Inductive cop := CGet (oid : ObjectID) | CPut (oid : ObjectID) (v : T)
  | CRemove (oid : ObjectID).

Definition run_cop (o : cop) : M st (option T) :=
  match o with
  | CGet oid => let* v := get dflt oid in ret (Some v)
  | CPut oid v => put dflt oid v ;;; ret None
  | CRemove oid => remove oid ;;; ret None
  end.

(** The same operations on a map: its new contents, and the answer; a get of an
    id that is not there throws. *)
Definition spec_cop (f : ObjectID -> option T) (o : cop) : ObjectID -> option T :=
  match o with
  | CGet oid => f
  | CPut oid v => upd f oid (Some v)
  | CRemove oid => upd f oid None
  end.
Definition spec_answer (f : ObjectID -> option T) (o : cop) : outcome (option T) :=
  match o with
  | CGet oid => match f oid with Some v => Ok (Some v) | None => Throw no_such_id end
  | _ => Ok None
  end.

(** A sequence of them: the contents at its end, and the answers up to the first
    exception. *)
Definition spec_map (f : ObjectID -> option T) (os : list cop) : ObjectID -> option T :=
  fold_left spec_cop os f.
Fixpoint spec_run (f : ObjectID -> option T) (os : list cop) : outcome (list (option T)) :=
  match os with
  | [] => Ok []
  | o :: os =>
      let? r := spec_answer f o in
      let? rs := spec_run (spec_cop f o) os in Ok (r :: rs)
  end.

(** Ids of 64 bits, puts of objects that the store takes. *)
Definition cop_ok (o : cop) : Prop :=
  match o with
  | CGet oid => is_u64 oid
  | CPut oid v => is_u64 oid /\ st_obj v
  | CRemove oid => is_u64 oid
  end.

(** Views are compared pointwise. *)
#[local] Instance upd_proper :
  Proper (pointwise_relation Z eq ==> eq ==> eq ==> pointwise_relation Z eq) upd.
Proof. intros f g Hfg o ? <- r ? <- x. unfold upd. by destruct (decide _). Qed.

#[local] Instance spec_cop_proper :
  Proper (pointwise_relation Z eq ==> eq ==> pointwise_relation Z eq) spec_cop.
Proof. intros f g Hfg o ? <-. destruct o; simpl; by rewrite ?Hfg. Qed.

#[local] Instance spec_answer_proper :
  Proper (pointwise_relation Z eq ==> eq ==> eq) spec_answer.
Proof. intros f g Hfg o ? <-. destruct o; simpl; by rewrite ?(Hfg oid). Qed.

Lemma spec_run_proper f g os : pointwise_relation Z eq f g ->
  pointwise_relation Z eq (spec_map f os) (spec_map g os) /\ spec_run f os = spec_run g os.
Proof.
  revert f g. induction os as [|o os IH]; intros f g Hfg; [done|].
  destruct (IH (spec_cop f o) (spec_cop g o)) as [IH1 IH2]; [by rewrite Hfg|].
  split; [done|]. cbn [spec_run]. by rewrite (spec_answer_proper _ _ Hfg o o eq_refl), IH2.
Qed.

(** One operation answers as the map does, and unless it throws it does to the
    view what it does to the map. *)
Lemma run_cop_ok n s m pf o :
  coherent (S (S n)) s m pf -> tracked s -> all_cached s -> few_pending 1 s ->
  s.(prefetch_policy) = POff -> cop_ok o ->
  exists s', run_cop o s = (s', spec_answer (view s m pf) o) /\ kept s s' /\
    forall r, spec_answer (view s m pf) o = Ok r -> exists m' pf', coherent n s' m' pf' /\
      pointwise_relation Z eq (view s' m' pf') (spec_cop (view s m pf) o).
Proof.
  intros Hcoh Htr Hall Hfew Hoff Hok. destruct o as [oid|oid v|oid]; simpl in *.
  - destruct (view s m pf oid) as [v|] eqn:Hv.
    + destruct (cache_get_ok n s m pf oid v Hcoh Htr Hok Hfew Hoff Hv)
        as (s' & m' & pf' & Hrun & Hcoh' & Hview & Hkept & _).
      exists s'. mstep Hrun. split_and!; [done|done|]. intros r _. by exists m', pf'.
    + destruct (cache_get_missing n s m pf oid Hcoh Htr Hok Hfew Hall Hv) as (s' & Hrun & Hkept).
      exists s'. unfold bind. by rewrite Hrun.
  - destruct Hok as [Hu Hobj].
    destruct (cache_put_ok n s m pf oid v Hcoh Htr Hu Hobj Hfew (Hall oid))
      as (s' & m' & pf' & Hrun & Hcoh' & Hview & Hkept).
    exists s'. mstep Hrun. split_and!; [done|done|]. intros r _. by exists m', pf'.
  - destruct (remove_ok (S n) s m pf oid Hcoh Htr Hok)
      as (s' & m' & Hrun & Hcoh' & Hview & Hkept).
    exists s'. mstep Hrun. split_and!; [done|done|]. intros r _. exists m', pf.
    split; [by apply coherent_weaken|done].
Qed.

Lemma run_cops_ok n os : forall s m pf,
  coherent (2 * length os + n) s m pf -> tracked s -> all_cached s ->
  few_pending (length os) s -> s.(prefetch_policy) = POff -> Forall cop_ok os ->
  exists s', mmap os run_cop s = (s', spec_run (view s m pf) os) /\ tracked s' /\
    forall rs, spec_run (view s m pf) os = Ok rs -> exists m' pf', coherent n s' m' pf' /\
      pointwise_relation Z eq (view s' m' pf') (spec_map (view s m pf) os).
Proof.
  induction os as [|o os IH]; intros s m pf Hcoh Htr Hall Hfew Hoff Hok.
  { exists s. split_and!; [done|done|]. intros rs _. by exists m, pf. }
  apply Forall_cons in Hok as [Hok Hoks]. cbn [length] in Hcoh, Hfew.
  replace (2 * S (length os) + n)%nat with (S (S (2 * length os + n))) in Hcoh by lia.
  destruct (run_cop_ok _ s m pf o Hcoh Htr Hall) as (s1 & Hrun & Hk & Hnext); [|done|done|].
  { intros Hd. specialize (Hfew Hd). lia. }
  cbn [spec_run mmap]. unfold bind at 1. rewrite Hrun.
  destruct (spec_answer (view s m pf) o) as [r| | | | |] eqn:Hr;
    try (exists s1; split_and!; [done|apply Hk|done]).
  destruct (Hnext r eq_refl) as (m1 & pf1 & Hcoh1 & Hv1).
  destruct (spec_run_proper _ _ os Hv1) as (He1 & He2).
  destruct (IH s1 m1 pf1 Hcoh1) as (s' & Hrun' & Htr' & Hend);
    [apply Hk|by apply (k_cached _ _ Hk)| |rewrite (k_prefetch _ _ Hk); done|done|].
  { intros Hd. rewrite (k_defer _ _ Hk) in Hd. specialize (Hfew Hd).
    pose proof (k_pending _ _ Hk). lia. }
  exists s'. cbn [outcome_bind]. unfold bind at 1. rewrite Hrun', <- He2. rewrite He2 in Hend |- *.
  destruct (spec_run (spec_cop (view s m pf) o) os) as [rs| | | | |] eqn:Hrs; split_and!; try done.
  intros ? _. destruct (Hend rs eq_refl) as (m' & pf' & Hcoh' & Hv'). exists m', pf'.
  split; [done|]. intros o'. by rewrite Hv', He1.
Qed.

(** The capacity: no more entries than [max_size]. *)
Lemma tracked_bounded s : tracked s -> Z.of_nat (size s.(cache)) <= s.(max_size).
Proof.
  intros (Hinv & Hdom & Hcap). pose proof (ep_bounded _ Hinv) as Hb.
  rewrite <- Hdom, size_dom in Hb. lia.
Qed.

(** A new cache, run on a sequence of operations. *)
Lemma fresh_cache_ok n w p size defer uninit m pf os s :
  ctor w p size defer uninit = Ok s ->
  ep_inv p -> ep_tracked p = ∅ -> ep_capacity p <= size ->
  st_rep (2 * length os + n) w m pf -> (forall oid v, m !! oid = Some v -> st_obj v) ->
  (defer = true -> (length os <= 50)%nat) -> Forall cop_ok os ->
  exists s', mmap os run_cop s = (s', spec_run (fun oid => m !! oid) os) /\
    Z.of_nat (base.size s'.(cache)) <= s'.(max_size) /\
    forall rs, spec_run (fun oid => m !! oid) os = Ok rs ->
      exists m' pf', coherent n s' m' pf' /\
        forall oid, view s' m' pf' oid = spec_map (fun oid => m !! oid) os oid.
Proof.
  intros Hctor Hinv Htr Hcap Hst Hobjs Hdef Hok. unfold ctor in Hctor.
  destruct (size <? 1); [done|]. injection Hctor as <-.
  set (s0 := mk ∅ _ _ _ _ _ _ _ _ _).
  assert (Hview : pointwise_relation Z eq (view s0 m pf) (fun oid => m !! oid)) by done.
  destruct (spec_run_proper _ _ os Hview) as (He1 & He2).
  destruct (run_cops_ok n os s0 m pf) as (s' & Hrun & Htr' & Hend).
  - split; [done|done|done|constructor].
  - split_and!; [done| |done]. simpl. rewrite Htr. set_solver.
  - intros oid e He. done.
  - intros Hd. simpl. auto.
  - done.
  - done.
  - exists s'. rewrite <- He2. split_and!; [done|by apply tracked_bounded|].
    intros rs Hrs. destruct (Hend rs Hrs) as (m' & pf' & Hcoh & Hv). exists m', pf'.
    split; [done|]. intros oid. rewrite Hv. apply He1.
Qed.

(** C9: the cache is transparent.  A new cache over any store and any policy
    that tracks it, in either write mode and without prefetching, answers every
    sequence of gets, puts and removes as the store's map does, up to and
    including the first get of an id that the map does not have: that get
    throws [NoSuchIDException], as on the map, and ends the sequence.  (What a
    program sees that catches the exception and asks for the same id again is
    [second_get_of_missing_id].)  The cache has at most [max_size] entries then, and
    without an exception it ends coherent with the store and shows the contents
    of the map.  With deferred writes the sequence has at most 50 operations, so
    that it cannot fill the map of pending writes. *)
Theorem cache_refines_map n w p size defer uninit m pf os s :
  ctor w p size defer uninit = Ok s ->
  ep_inv p -> ep_tracked p = ∅ -> ep_capacity p <= size ->
  st_rep (2 * length os + n) w m pf -> (forall oid v, m !! oid = Some v -> st_obj v) ->
  (defer = true -> (length os <= 50)%nat) -> Forall cop_ok os ->
  exists s', mmap os run_cop s = (s', spec_run (fun oid => m !! oid) os) /\
    Z.of_nat (base.size s'.(cache)) <= s'.(max_size) /\
    forall rs, spec_run (fun oid => m !! oid) os = Ok rs ->
      exists m' pf', coherent n s' m' pf' /\
        forall oid, view s' m' pf' oid = spec_map (fun oid => m !! oid) os oid.
Proof. apply fresh_cache_ok. Qed.
End proofs.

(** ** Behaviour at the limits *)

Section limits.
Context {T W P C : Type} `{PollSpec W T} `{EvictionPolicy P} `{PrefetchPolicy C T}.
Context (dflt : T).
Implicit Types s : t T W P C.

(** Cleaning an odd number of writes that were never polled: every other one is
    erased, the last one too, and the end iterator is incremented. *)
Lemma clean_pending_odd l F : NoDup l.*2 -> list_to_set l.*2 ⊆ F ->
  Nat.odd (length l) = true ->
  forall kept s, unpolled F s.(store) -> (clean_pending kept l s).2 = Undefined.
Proof.
  revert F. induction l as [l IH] using (induction_ltof1 _ (@length _)).
  intros F Hnd HF Hodd kept s Hs. destruct l as [|[o f] l]; [done|]. cbn [clean_pending].
  rewrite fmap_cons in Hnd, HF. cbn [snd list_to_set] in Hnd, HF.
  destruct (poll_unpolled F (store s) f Hs) as (w' & Hw & Hs'); [set_solver|].
  rewrite (bind_ok _ _ s (set_store w' s) true)
    by (unfold on_store, zoom; by rewrite Hw).
  destruct l as [|n l]; [done|].
  rewrite fmap_cons in Hnd, HF. apply NoDup_cons in Hnd as [Hf Hnd].
  apply NoDup_cons in Hnd as [_ Hnd].
  apply (IH l) with (F ∖ {[f]}); [unfold ltof; simpl; lia|done| |done|done].
  cbn [list_to_set] in HF. intros x Hx. apply elem_of_difference. split; [set_solver|].
  rewrite elem_of_singleton. intros ->. apply elem_of_list_to_set in Hx. set_solver.
Qed.

(** With deferred writes, the eviction that brings the number of pending
    writes over [HIGH_PEND], to 51, is undefined behaviour: the loop that
    cleans the map erases every other entry, the last one too, and then
    increments the end iterator. *)
Theorem pending_overflow_undefined s oid e w f :
  s.(defer_writes) = true -> s.(cache) !! oid = Some e ->
  e.(dirty) = true -> os_put_async oid e.(obj) s.(store) = (w, Ok f) ->
  oid ∉ s.(pending_writes).*1 -> length s.(pending_writes) = 50%nat ->
  NoDup (f :: s.(pending_writes).*2) ->
  unpolled (list_to_set (f :: s.(pending_writes).*2)) w ->
  (evict oid s).2 = Undefined.
Proof.
  intros Hdef He Hdirty Hput Hnew Hlen Hnd Hpoll. unfold evict.
  rewrite (bind_ok (gets id) _ s s s eq_refl), He, Hdef, Hdirty.
  set (l := assign_pending oid f (pending_writes s)).
  assert (Hcons : l = (oid, f) :: pending_writes s)
    by (unfold l, assign_pending; by rewrite decide_False).
  assert (Hl : length l = 51%nat) by (rewrite Hcons; simpl; by rewrite Hlen).
  set (s1 := set_pending l (set_store w s)).
  assert (Hrun : (let* f := on_store (os_put_async oid (obj e)) in
      modify (fun s => set_pending (assign_pending oid f s.(pending_writes)) s)) s =
      (s1, Ok tt)).
  { unfold bind, on_store, zoom. by rewrite Hput. }
  rewrite <- bind_assoc. rewrite (bind_ok _ _ _ _ _ Hrun).
  rewrite <- bind_assoc, (bind_ok (gets id) _ s1 s1 s1 eq_refl). cbn [pending_writes s1].
  change (pending_writes s1) with l. rewrite Hl.
  change (HIGH_PEND <? Z.of_nat 51) with true. cbv iota. unfold bind.
  pose proof (clean_pending_odd l (list_to_set l.*2)) as Hc.
  rewrite Hl, Hcons, fmap_cons in Hc. specialize (Hc Hnd (reflexivity _) eq_refl [] s1 Hpoll).
  rewrite <- Hcons in Hc.
  destruct (clean_pending [] l s1) as [s2 o]. simpl in Hc. by subst.
Qed.

(** [prefetchBulk] and [removeBulk] count with an [unsigned int]: with a
    last id of 2^32 - 1 or more the loop never ends normally, however many
    rounds it is given. *)
Theorem bulk_loop_never_ends n (f : ObjectID -> M (t T W P C) unit) oid last s s' :
  is_u32 oid -> 2 ^ 32 - 1 <= last -> for_oid32 n f oid last s <> (s', Ok tt).
Proof.
  revert oid s. induction n as [|n IH]; intros oid s Ho Hl; cbn [for_oid32];
    destruct (Z.ltb_spec last oid); try (unfold is_u32 in Ho; lia); [done|].
  unfold bind. destruct (f oid s) as [s1 [[]| | | | |]]; try done.
  apply IH; [apply u32_range|done].
Qed.

End limits.

(** C38: under [LRUEvictionPolicy], whose [put] neither tracks the object nor
    asks for a victim, a put of a new object into a full cache always throws. *)
Theorem lru_put_throws_when_full {T W C} `{ObjectStore W T} (dflt : T)
    (s : t T W LRU.state C) oid v :
  s.(cache) !! oid = None -> Z.of_nat (size s.(cache)) = s.(max_size) ->
  put dflt oid v s = (s, Throw (CacheCapacityException
    "Put operation would put cache over capacity.")).
Proof.
  intros Hno Hfull. unfold put. rewrite bind_assoc.
  assert (Hrun : (let* to_remove := on_eviction (ep_put oid) in
                  evict_vector to_remove) s = (s, Ok tt)) by (by destruct s).
  mstep Hrun. rewrite bind_assoc. unfold bind at 1 2, gets, id. rewrite Hno.
  by rewrite (proj2 (Z.eqb_eq _ _) Hfull).
Qed.

(** ** Witnesses and concrete runs *)

(** A custom policy that prefetches nothing. *)
#[local] Instance idle_custom {T} : PrefetchPolicy unit T := {| pp_get _ _ := ret [] |}.

Section runs.
Context {T : Type} (dflt old new : T).

(** A new write-through cache of [n] entries over a store that holds [old] under
    the ids 1, 2 and 3. *)
Definition demo {P} (p : P) (n : Z) (defer : bool) : t T (MapStore.t T) P unit :=
  mk ∅ 0 [] n p POff (OrderedPolicy.mk 5 0 0) None defer
    (MapStore.mk {[1 := old; 2 := old; 3 := old]} []).

(** A put on an id that is being prefetched is lost: it does not mark the
    entry as cached, and the next get overwrites it with the prefetched object,
    although the store holds the new one. *)
Theorem put_after_prefetch_is_lost :
  let run := prefetch dflt 1 ;;; put dflt 1 new ;;; get dflt 1 in
  (run (demo (LRAdded.init 4) 4 false)).2 = Ok old /\
  (MapStore.objects (store (run (demo (LRAdded.init 4) 4 false)).1) !! 1) = Some new.
Proof. split; reflexivity. Qed.

(** A get of an id that does not exist throws the first time, but leaves a
    default-constructed entry in the cache, which the next get returns. *)
Theorem second_get_of_missing_id :
  let '(s, r) := get dflt 7 (demo (LRAdded.init 4) 4 false) in
  r = Throw no_such_id /\ (get dflt 7 s).2 = Ok dflt.
Proof. split; reflexivity. Qed.

(** With ordered prefetching as deep as the cache, the prefetches of a get
    purge the entry it is about to return, and it reads a freed entry. *)
Theorem prefetch_purges_result :
  ((setMode_range kOrdered 1 3 2 ;;; get dflt 1) (demo (LRAdded.init 2) 2 false)).2 =
    Undefined.
Proof. reflexivity. Qed.
End runs.

Definition demo_map : gmap Z Z := {[1 := 5; 2 := 5; 3 := 5]}.
Definition demo_cops : list (cop (T := Z)) :=
  [CGet 1; CPut 1 7; CPut 4 8; CGet 1; CRemove 2; CGet 4].

(** The operations, and the same followed by a get of the id that was removed. *)
Lemma cache_refines_map_witness :
  spec_run (fun oid => demo_map !! oid) demo_cops =
    Ok [Some 5; None; None; Some 7; None; Some 8] /\
  spec_run (fun oid => demo_map !! oid) (demo_cops ++ [CGet 2; CGet 1]) = Throw no_such_id /\
  Forall (fun os => exists s', mmap os (run_cop 0) (demo (T := Z) 5 (LRAdded.init 2) 2 true) =
      (s', spec_run (fun oid => demo_map !! oid) os) /\
    Z.of_nat (base.size s'.(cache)) <= s'.(max_size) /\
    forall rs, spec_run (fun oid => demo_map !! oid) os = Ok rs ->
      exists m' pf', coherent 0 s' m' pf' /\
        forall oid, view s' m' pf' oid = spec_map (fun oid => demo_map !! oid) os oid)
    [demo_cops; demo_cops ++ [CGet 2; CGet 1]].
Proof.
  split; [reflexivity|]. split; [reflexivity|].
  repeat constructor; apply (cache_refines_map 0 0 (MapStore.mk demo_map []) (LRAdded.init 2) 2 true
           (OrderedPolicy.mk 0 0 0) demo_map ∅).
  all: try reflexivity; try done.
  all: try (apply LRAdded.lradded_init_wf; lia).
  all: try (split; [done|]; intros f; by rewrite lookup_empty).
  all: try (intros _; simpl; lia).
  all: repeat constructor; vm_compute; congruence.
Defined.

Lemma pending_overflow_undefined_witness :
  let s := mk {[1 := mk_entry 0 true true 9 None]} 1
             ((fun i => (Z.of_nat i + 10, i)) <$> seq 0 50) 4 (LRAdded.init 4) POff
             (OrderedPolicy.mk 5 0 0) (@None unit) true
             (MapStore.mk {[1 := 5]} (replicate 50 PPut)) in
  (evict 1 s).2 = Undefined.
Proof.
  apply (pending_overflow_undefined _ 1 (mk_entry 0 true true 9 None)
           (MapStore.mk {[1 := 9]} (replicate 51 PPut)) 50).
  all: try reflexivity.
  - simpl. rewrite !not_elem_of_cons. split_and!; try lia. apply not_elem_of_nil.
  - apply (bool_decide_unpack _). vm_compute. exact I.
Defined.

Lemma bulk_loop_never_ends_witness :
  for_oid32 1000 (fun _ => ret tt) 5 (2 ^ 32) (demo (T := Z) 5 (LRAdded.init 4) 4 false) <>
    (demo (T := Z) 5 (LRAdded.init 4) 4 false, Ok tt).
Proof. apply bulk_loop_never_ends; [split; lia|lia]. Defined.

Lemma lru_put_throws_when_full_witness :
  let s : t Z (MapStore.t Z) LRU.state unit :=
    mk {[1 := mk_entry 0 true true 9 None]} 1 [] 1 (LRU.init 1) POff
       (OrderedPolicy.mk 5 0 0) None false (MapStore.mk ∅ []) in
  put 0 2 8 s = (s, Throw (CacheCapacityException
    "Put operation would put cache over capacity.")).
Proof. apply lru_put_throws_when_full; reflexivity. Defined.
End CacheManager.
