(* ===== verification/Iterator.v ===== *)
(** * Iteration over a range of objects ([src/iterator])

    [IteratorPolicy] and its two implementations, the iterators of
    [CirrusIterable] over a cache manager, and the traversals they make. *)

From stdpp Require Import gmap list strings.
From S2P Require Import Prelude Eviction ObjectStore CacheManager.

Inductive Position := kBegin | kEnd.

(** IteratorPolicy.h; [clone] is the copy of the value. *)
Class IteratorPolicy (I : Type) := {
  ip_setState : ObjectID -> ObjectID -> Z -> Position -> M I unit;
  ip_getPrefetchList : I -> outcome (list ObjectID);
  ip_dereference : I -> outcome ObjectID;
  ip_increment : I -> I;
  ip_getState : I -> Z;
}.

(** ** [CirrusIterable::OrderedPolicy] *)

Module Ordered.

Record t := mk { first : ObjectID; last : ObjectID; read_ahead : Z; current_id : ObjectID }.

Definition ctor : t := mk 0 0 0 0.

Definition setState (first_ last_ : ObjectID) (read_ahead_ : Z) (position_ : Position)
    : M t unit :=
  modify (fun _ => mk first_ last_ read_ahead_
    (match position_ with kBegin => first_ | kEnd => u64 (last_ + 1) end)).

(** The loop is the one of the cache manager's policy, with an [unsigned int]
    for a counter; [read_ahead] comes from an [unsigned int] too, and when the
    counter wraps to 0, past the greatest one, the loop is at [current_id] and
    breaks. *)
Definition getPrefetchList (p : t) : outcome (list ObjectID) :=
  let? _ := reserve p.(read_ahead) in
  OrderedPolicy.get_loop (OrderedPolicy.mk p.(read_ahead) p.(first) p.(last))
    p.(current_id) (Z.to_nat p.(read_ahead)) 1.

Definition dereference (p : t) : outcome ObjectID := Ok p.(current_id).

Definition increment (p : t) : t :=
  mk p.(first) p.(last) p.(read_ahead) (u64 (p.(current_id) + 1)).

Definition getState (p : t) : Z := p.(current_id).

#[global] Instance policy : IteratorPolicy t := {
  ip_setState := setState; ip_getPrefetchList := getPrefetchList;
  ip_dereference := dereference; ip_increment := increment; ip_getState := getState;
}.
End Ordered.

(** ** [CirrusIterable::UnorderedPolicy] *)

(** [std::shuffle], with the generator seeded from the clock. *)
Class Shuffle := { shuffle : list ObjectID -> list ObjectID }.
Class ShuffleSpec `{Shuffle} := { shuffle_perm l : shuffle l ≡ₚ l }.

Module Unordered.
Section unordered.
Context `{Shuffle}.

Record t := mk { read_ahead : Z; current_index : Z; id_vector : list ObjectID }.

Definition ctor : t := mk 0 0 [].

(** [for (ObjectID i = first_; i <= last_; i++) id_vector.push_back(i);] for
    [n] rounds: with [last_] the greatest id, the loop does not end. *)
Fixpoint push_range (n : nat) (i last_ : ObjectID) (l : list ObjectID)
    : outcome (list ObjectID) :=
  if last_ <? i then Ok l else
  match n with
  | O => OutOfFuel
  | S n => push_range n (u64 (i + 1)) last_ (l ++ [i])
  end.

Definition setState (first_ last_ : ObjectID) (read_ahead_ : Z) (position_ : Position)
    : M t unit :=
  let* p := gets id in
  let* ids := stop (push_range (Z.to_nat (last_ - first_ + 1)) first_ last_
                      p.(id_vector)) in
  modify (fun _ => mk read_ahead_
    (match position_ with kBegin => 0 | kEnd => u64 (last_ - first_ + 1) end)
    (shuffle ids)).

(** [for (unsigned int i = 1; i <= read_ahead; i++)] from [i] on, for [n] rounds:
    with [read_ahead] the greatest [unsigned int], the counter wraps and the loop
    does not end. *)
Fixpoint prefetch_loop (p : t) (n : nat) (i : Z) : outcome (list ObjectID) :=
  if p.(read_ahead) <? i then Ok [] else
  match n with
  | O => OutOfFuel
  | S n =>
      let j := u64 (p.(current_index) + i) in
      let? rest := prefetch_loop p n (u32 (i + 1)) in
      Ok ((if j <? Z.of_nat (length p.(id_vector)) then
             match p.(id_vector) !! Z.to_nat j with Some x => [x] | None => [] end
           else []) ++ rest)
  end.

Definition getPrefetchList (p : t) : outcome (list ObjectID) :=
  let? _ := reserve p.(read_ahead) in
  prefetch_loop p (Z.to_nat p.(read_ahead)) 1.

(** [id_vector[current_index]]: undefined out of range. *)
Definition dereference (p : t) : outcome ObjectID :=
  match p.(id_vector) !! Z.to_nat p.(current_index) with
  | Some x => Ok x
  | None => Undefined
  end.

Definition increment (p : t) : t :=
  mk p.(read_ahead) (u64 (p.(current_index) + 1)) p.(id_vector).

Definition getState (p : t) : Z := p.(current_index).

#[global] Instance policy : IteratorPolicy t := {
  ip_setState := setState; ip_getPrefetchList := getPrefetchList;
  ip_dereference := dereference; ip_increment := increment; ip_getState := getState;
}.
End unordered.
End Unordered.

(** ** [CirrusIterable] *)

Module CirrusIterable.

Inductive PrefetchMode := kOrdered | kUnordered | kCustom.

Section iterable.
Context {U : Type} `{Shuffle} `{IteratorPolicy U}.

(** The policy that an iterator has cloned. *)
Inductive any_policy :=
| AnOrdered (p : Ordered.t)
| AnUnordered (p : Unordered.t)
| ACustom (p : U).

(** A virtual call. *)
Definition dispatch {A} (f : forall I, IteratorPolicy I -> I -> A) (p : any_policy) : A :=
  match p with
  | AnOrdered p => f _ Ordered.policy p
  | AnUnordered p => f _ Unordered.policy p
  | ACustom p => f _ _ p
  end.

Definition set_state (f l : ObjectID) (r : Z) (pos : Position) (p : any_policy)
    : outcome any_policy :=
  let wrap {I} (c : I -> any_policy) (x : I * outcome unit) :=
    match x with
    | (p, Ok _) => Ok (c p)
    | (_, Throw e) => Throw e
    | (_, Undefined) => Undefined
    | (_, Exited) => Exited
    | (_, Blocked) => Blocked
    | (_, OutOfFuel) => OutOfFuel
    end in
  match p with
  | AnOrdered p => wrap AnOrdered (ip_setState f l r pos p)
  | AnUnordered p => wrap AnUnordered (ip_setState f l r pos p)
  | ACustom p => wrap ACustom (ip_setState f l r pos p)
  end.

(** What the member [policy] points to: one of the iterable's own policies, a
    policy of the user, or one that has been destroyed. *)
Inductive policy_ptr := ToOrdered | ToUnordered | ToCustom (p : U) | Dangling.

Record t := mk {
  readAhead : Z;
  first : ObjectID;
  last : ObjectID;
  ordered : Ordered.t;
  unordered : Unordered.t;
  policy : policy_ptr;
}.

(** The constructor takes an [unsigned int]; [policy = &ordered]. *)
Definition ctor (readAhead : Z) (first last : ObjectID) : t :=
  mk (u32 readAhead) first last Ordered.ctor Unordered.ctor ToOrdered.

Definition set_policy (p : policy_ptr) (c : t) : t :=
  mk c.(readAhead) c.(first) c.(last) c.(ordered) c.(unordered) p.

Definition setMode (mode_ : PrefetchMode) (policy_ : option U) (c : t) : outcome t :=
  match mode_, policy_ with
  | kOrdered, _ => Ok (set_policy ToOrdered c)
  | kUnordered, _ => Ok (set_policy ToUnordered c)
  | kCustom, Some p => Ok (set_policy (ToCustom p) c)
  | kCustom, None => Throw (Exception
      "Custom prefetching specified without  a pointer to a custom policy.")
  end.

(** The value of [iter] after [iter = tmp] for a temporary [tmp]: the implicit
    assignment copies every member, [policy] too, which still points into the
    temporary when that has been destroyed. *)
Definition assign_temporary (tmp : t) : t :=
  match tmp.(policy) with
  | ToOrdered | ToUnordered => set_policy Dangling tmp
  | _ => tmp
  end.

(** [*policy] *)
Definition target (c : t) : outcome any_policy :=
  match c.(policy) with
  | ToOrdered => Ok (AnOrdered c.(ordered))
  | ToUnordered => Ok (AnUnordered c.(unordered))
  | ToCustom p => Ok (ACustom p)
  | Dangling => Undefined
  end.

(** [Iterator::Iterator], with the policy that [policy_ptr->clone()] copies. *)
Definition Iterator (read_ahead : Z) (first last : ObjectID) (is_begin is_end : bool)
    (policy_ptr : any_policy) : outcome any_policy :=
  if is_begin then set_state first last read_ahead kBegin policy_ptr
  else if is_end then set_state first last read_ahead kEnd policy_ptr
  else Throw (Exception "Iterator constructor called with begin and end false.").

Definition begin (c : t) : outcome any_policy :=
  let? p := target c in Iterator c.(readAhead) c.(first) c.(last) true false p.
Definition end_ (c : t) : outcome any_policy :=
  let? p := target c in Iterator c.(readAhead) c.(first) c.(last) false true p.

(** [operator++], [operator==] and [operator!=] *)
Definition preincrement (it : any_policy) : any_policy :=
  match it with
  | AnOrdered p => AnOrdered (ip_increment p)
  | AnUnordered p => AnUnordered (ip_increment p)
  | ACustom p => ACustom (ip_increment p)
  end.
Definition postincrement (it : any_policy) : any_policy * any_policy :=
  (preincrement it, it).
Definition state_of (it : any_policy) : Z := dispatch (fun I _ p => ip_getState p) it.
Definition eqb (it it' : any_policy) : bool := state_of it =? state_of it'.

(** ** Over a cache *)

Context {T W P C : Type} `{ObjectStore W T} `{EvictionPolicy P} `{PrefetchPolicy C T}.
Context (dflt : T).

(** [operator*] *)
Definition deref (it : any_policy) : M (CacheManager.t T W P C) T :=
  let* to_prefetch := stop (dispatch (fun I _ p => ip_getPrefetchList p) it) in
  mfor to_prefetch (CacheManager.prefetch dflt) ;;;
  let* oid := stop (dispatch (fun I _ p => ip_dereference p) it) in
  CacheManager.get dflt oid.

(** The range-based [for] loop that collects the objects. *)
Fixpoint for_each (fuel : nat) (it end_it : any_policy)
    : M (CacheManager.t T W P C) (list T) :=
  if eqb it end_it then ret [] else
  match fuel with
  | O => stop OutOfFuel
  | S fuel =>
      let* v := deref it in
      let* vs := for_each fuel (preincrement it) end_it in
      ret (v :: vs)
  end.

Definition collect (fuel : nat) (c : t) : M (CacheManager.t T W P C) (list T) :=
  let* b := stop (begin c) in
  let* e := stop (end_ c) in
  for_each fuel b e.
End iterable.
Arguments any_policy : clear implicits.
Arguments t : clear implicits.

(** ** Traversals *)

Section traversal.
Context {U : Type} `{ShuffleSpec} `{IteratorPolicy U}.

(** From [it], a loop up to [end_it] dereferences the ids [ids] in this order,
    prefetching at most [ra] valid ids each time. *)
Inductive visits (ra : nat) (end_it : any_policy U) : any_policy U -> list ObjectID -> Prop :=
| visits_end it : eqb it end_it = true -> visits ra end_it it []
| visits_next it oid ids l :
    eqb it end_it = false ->
    dispatch (fun I _ p => ip_getPrefetchList p) it = Ok l ->
    (length l <= ra)%nat -> Forall is_u64 l ->
    dispatch (fun I _ p => ip_dereference p) it = Ok oid ->
    visits ra end_it (preincrement it) ids ->
    visits ra end_it it (oid :: ids).

(** The ids of a range, in order. *)
Definition id_seq (first last : ObjectID) : list ObjectID := seqZ first (last - first + 1).

(** A range of at most 2^63 ids whose end can be represented. *)
Definition valid_range (first last : ObjectID) : Prop :=
  0 <= first <= last /\ last < 2 ^ 64 - 1 /\ last - first < 2 ^ 63.

Lemma ordered_visits ra first last cur k :
  valid_range first last -> is_u32 ra -> first <= cur ->
  cur + Z.of_nat k = last + 1 ->
  visits (Z.to_nat ra) (AnOrdered (Ordered.mk first last ra (u64 (last + 1))))
    (AnOrdered (Ordered.mk first last ra cur)) (seqZ cur (Z.of_nat k)).
Proof.
  intros (Hf & Hl & Hr) Hra. revert cur. induction k as [|k IH]; intros cur Hc Hk.
  - apply visits_end. unfold eqb, state_of; simpl. unfold Ordered.getState; simpl.
    rewrite u64_small by (split; lia). apply Z.eqb_eq. lia.
  - rewrite seqZ_cons by lia.
    destruct (OrderedPolicy.get_loop_spec (OrderedPolicy.mk ra first last) cur
                (Z.to_nat ra) 1) as (l & Hget & Hlen & Hel);
      [split_and!; simpl; lia|simpl; lia|].
    apply (visits_next _ _ _ _ _ l); [| | | |done|].
    + unfold eqb, state_of; simpl. unfold Ordered.getState; simpl.
      rewrite u64_small by (split; lia). apply Z.eqb_neq. lia.
    + cbn. unfold Ordered.getPrefetchList. cbn. rewrite reserve_ok; [exact Hget|].
      destruct Hra. lia.
    + lia.
    + apply Forall_lookup. intros j x Hx. rewrite (Hel j x Hx).
      unfold OrderedPolicy.successor; simpl.
      pose proof (Z.mod_pos_bound (cur - first + (1 + Z.of_nat j)) (last - first + 1)
                    ltac:(lia)). split; lia.
    + unfold preincrement; simpl. unfold Ordered.increment; simpl.
      rewrite (u64_small (cur + 1)) by (split; lia).
      replace (Z.pred (Z.of_nat (S k))) with (Z.of_nat k) by lia.
      apply (IH (cur + 1)); lia.
Qed.

Lemma push_range_spec n i last l : 0 <= i -> last < 2 ^ 64 - 1 ->
  last - i + 1 = Z.of_nat n ->
  Unordered.push_range n i last l = Ok (l ++ seqZ i (Z.of_nat n)).
Proof.
  revert i l. induction n as [|n IH]; intros i l Hi Hl Hn; cbn [Unordered.push_range].
  - destruct (Z.ltb_spec last i); [|lia]. by rewrite app_nil_r.
  - destruct (Z.ltb_spec last i); [lia|]. rewrite u64_small by (split; lia).
    rewrite IH by lia. rewrite <- app_assoc, (seqZ_cons i) by lia.
    do 3 f_equal. simpl. do 2 f_equal; lia.
Qed.

Lemma prefetch_loop_spec p n i : Forall is_u64 (Unordered.id_vector p) ->
  0 <= Unordered.read_ahead p < 2 ^ 32 - 1 -> 1 <= i ->
  i + Z.of_nat n = Unordered.read_ahead p + 1 ->
  exists l, Unordered.prefetch_loop p n i = Ok l /\ (length l <= n)%nat /\ Forall is_u64 l.
Proof.
  intros Hids Hra. revert i. induction n as [|n IH]; intros i Hi Hn; cbn [Unordered.prefetch_loop];
    destruct (Z.ltb_spec (Unordered.read_ahead p) i); try lia.
  { by exists []. }
  rewrite (u32_small (i + 1)) by (split; lia). destruct (IH (i + 1)) as (l & -> & Hl & Hu); [lia|lia|].
  cbn [outcome_bind]. eexists. split; [done|]. rewrite length_app, Forall_app.
  destruct (_ <? _); [|split; [simpl; lia|by split]].
  destruct (Unordered.id_vector p !! _) as [y|] eqn:Hy.
  - split; [simpl; lia|]. split; [|done]. constructor; [|constructor].
    exact (Forall_lookup_1 _ _ _ _ Hids Hy).
  - split; [simpl; lia|by split].
Qed.

(** With the greatest read-ahead the loop goes round for ever. *)
Lemma prefetch_loop_never_ends p n i : Unordered.read_ahead p = 2 ^ 32 - 1 -> is_u32 i ->
  Unordered.prefetch_loop p n i = OutOfFuel.
Proof.
  intros Hra. revert i. induction n as [|n IH]; intros i Hi; cbn [Unordered.prefetch_loop];
    rewrite Hra; (destruct (Z.ltb_spec (2 ^ 32 - 1) i); [destruct Hi; lia|]); [done|].
  by rewrite IH by apply u32_range.
Qed.

Lemma unordered_visits ra ids k :
  Forall is_u64 ids -> 0 <= ra < 2 ^ 32 - 1 -> Z.of_nat (length ids) < 2 ^ 64 ->
  (k <= length ids)%nat ->
  visits (Z.to_nat ra) (AnUnordered (Unordered.mk ra (Z.of_nat (length ids)) ids))
    (AnUnordered (Unordered.mk ra (Z.of_nat k) ids)) (drop k ids).
Proof.
  intros Hids Hra Hlen. remember (length ids - k)%nat as d eqn:Hd.
  revert k Hd. induction d as [|d IH]; intros k Hd Hk.
  - rewrite drop_ge by lia. apply visits_end. unfold eqb, state_of; simpl.
    unfold Unordered.getState; simpl. apply Z.eqb_eq. lia.
  - destruct (lookup_lt_is_Some_2 ids k ltac:(lia)) as [x Hx].
    rewrite (drop_S ids x k Hx).
    destruct (prefetch_loop_spec (Unordered.mk ra (Z.of_nat k) ids) (Z.to_nat ra) 1)
      as (l & Hl & Hlen' & Hul); [done|done|lia|simpl; lia|].
    apply (visits_next _ _ _ _ _ l); [| | done | done | |].
    + unfold eqb, state_of; simpl. unfold Unordered.getState; simpl. apply Z.eqb_neq. lia.
    + cbn. unfold Unordered.getPrefetchList. rewrite reserve_ok by (simpl; lia). exact Hl.
    + simpl. unfold Unordered.dereference; simpl. by rewrite Nat2Z.id, Hx.
    + unfold preincrement; simpl. unfold Unordered.increment; simpl.
      rewrite u64_small by (split; lia).
      replace (Z.of_nat k + 1) with (Z.of_nat (S k)) by lia. apply IH; lia.
Qed.

(** *** Over a coherent cache *)

Context {T W P C : Type} `{StoreSpec W T} `{TrackingPolicy P} `{PrefetchPolicy C T}.
Context (dflt : T).
Import CacheManager.

(** A write-through cache without prefetching of its own, with [n] requests to
    spare, that shows the objects [f]. *)
Record shows (n : nat) (f : ObjectID -> option T) (s : t T W P C) : Prop := mk_shows {
  sh_coherent : exists m pf, coherent n s m pf /\ forall o, view s m pf o = f o;
  sh_tracked : tracked s;
  sh_off : prefetch_policy s = POff;
  sh_through : defer_writes s = false;
}.

Lemma shows_few n f k s : shows n f s -> few_pending k s.
Proof. intros Hs Hd. rewrite (sh_through _ _ _ Hs) in Hd. done. Qed.

Lemma shows_le n n' f s : (n' <= n)%nat -> shows n f s -> shows n' f s.
Proof.
  intros Hle [(m & pf & Hc & Hv) Ht Ho Hd]. split; [|done..]. exists m, pf. split; [|done].
  revert Hc. induction Hle as [|k Hle IH]; [done|]. intros Hc. by apply IH, coherent_weaken.
Qed.

Lemma prefetch_all_ok n f l s : Forall is_u64 l -> shows (2 * length l + n) f s ->
  exists s', mfor l (prefetch dflt) s = (s', Ok tt) /\ shows n f s'.
Proof.
  intros Hl. revert s. induction Hl as [|oid l Hu Hl IH]; intros s Hs; [by exists s|].
  cbn [length] in Hs. replace (2 * S (length l) + n)%nat
    with (S (S (2 * length l + n))) in Hs by lia.
  destruct Hs as [(m & pf & Hc & Hv) Ht Ho Hd].
  destruct (prefetch_ok dflt (2 * length l + n) s m pf oid Hc Ht Hu)
    as (s1 & m1 & pf1 & Hrun & Hc1 & Hv1 & Ht1 & Ho1 & Hd1).
  { intros Hd'. congruence. }
  destruct (IH s1) as (s' & Hrun' & Hs').
  { split; [|done|congruence|congruence]. exists m1, pf1. split; [done|].
    intros o. by rewrite Hv1. }
  exists s'. cbn [mfor]. by mstep Hrun.
Qed.

Lemma iterator_deref_ok n f it l oid v s :
  dispatch (fun I _ p => ip_getPrefetchList p) it = Ok l -> Forall is_u64 l ->
  dispatch (fun I _ p => ip_dereference p) it = Ok oid -> is_u64 oid ->
  f oid = Some v -> shows (2 * length l + 2 + n) f s ->
  exists s', deref dflt it s = (s', Ok v) /\ shows n f s' /\ holds s' oid.
Proof.
  intros Hl Hul Ho Hu Hv Hs. unfold deref.
  unfold stop at 1. unfold bind at 1. rewrite Hl.
  replace (2 * length l + 2 + n)%nat with (2 * length l + (S (S n)))%nat in Hs by lia.
  destruct (prefetch_all_ok (S (S n)) f l s Hul Hs) as (s1 & Hrun1 & Hs1).
  mstep Hrun1. unfold stop, bind. rewrite Ho.
  pose proof Hs1 as [(m & pf & Hc & Hview) Ht Hoff Hd].
  destruct (cache_get_ok dflt n s1 m pf oid v Hc Ht Hu) as (s' & m' & pf' & Hrun & Hc' & Hv' & Hk & Hh);
    [by apply (shows_few _ _ _ _ Hs1)|done|by rewrite Hview|].
  exists s'. split; [done|]. split; [|done]. split.
  - exists m', pf'. split; [done|]. intros o. by rewrite Hv'.
  - apply Hk.
  - by rewrite (k_prefetch _ _ Hk).
  - by rewrite (k_defer _ _ Hk).
Qed.

(** The loop returns the object of every id it visits. *)
Lemma for_each_ok ra end_it n f ids it : visits ra end_it it ids ->
  forall s vs, Forall is_u64 ids -> mapM f ids = Some vs ->
  shows (length ids * (2 * ra + 2) + n) f s ->
  exists s', for_each dflt (length ids) it end_it s = (s', Ok vs) /\ shows n f s'.
Proof.
  induction 1 as [it Heq|it oid ids l Heq Hl Hlen Hul Ho Hvis IH]; intros s vs Hu Hm Hs.
  - simpl in Hm. injection Hm as <-. exists s. simpl. by rewrite Heq.
  - apply Forall_cons in Hu as [Hu Hus]. simpl in Hm.
    destruct (f oid) as [v|] eqn:Hv; [|done]. simpl in Hm.
    destruct (mapM f ids) as [vs'|]; [|done]. simpl in Hm. injection Hm as <-.
    cbn [length for_each]. rewrite Heq. cbn [length] in Hs.
    destruct (iterator_deref_ok (length ids * (2 * ra + 2) + n) f it l oid v s)
      as (s1 & Hrun1 & Hs1 & _); try done.
    { eapply shows_le; [|exact Hs]. nia. }
    mstep Hrun1. destruct (IH s1 vs' Hus eq_refl Hs1) as (s' & Hrun & Hs').
    exists s'. by mstep Hrun.
Qed.

Lemma id_seq_u64 first last : valid_range first last -> Forall is_u64 (id_seq first last).
Proof.
  intros (Hf & Hl & _). apply Forall_forall. intros x. unfold id_seq.
  rewrite elem_of_seqZ. intros Hx. split; lia.
Qed.


End traversal.

(** ** Witnesses *)

#[local] Instance reverse_shuffle : Shuffle := { shuffle l := rev l }.
#[local] Instance reverse_shuffle_spec : ShuffleSpec.
Proof. split. intros l. simpl. symmetry. apply Permutation_rev. Qed.
#[local] Instance no_custom_policy : PrefetchPolicy unit Z := {| pp_get _ _ := ret [] |}.

Definition demo_objects : gmap Z Z := {[4 := 40; 5 := 50; 6 := 60]}.
Definition demo_cache : CacheManager.t Z (MapStore.t Z) LRAdded.state unit :=
  CacheManager.mk ∅ 0 [] 2 (LRAdded.init 2) CacheManager.POff (OrderedPolicy.mk 5 0 0)
    None false (MapStore.mk demo_objects []).

Lemma demo_shows n : shows n (fun oid => demo_objects !! oid) demo_cache.
Proof.
  split; [|split_and!|done|done].
  - exists demo_objects, ∅. split; [|done]. split; [|done|done|constructor].
    split; [done|]. intros f. by rewrite lookup_empty.
  - apply LRAdded.lradded_init_wf. lia.
  - done.
  - simpl. lia.
Qed.


End CirrusIterable.
