(* ===== verification/RemoteStore.v ===== *)
(** * The object store over the network

    FullBladeObjectStore (ObjectStore.v) run on the whole system (System.v): the
    synchronous operations end to end, and the proof that the system implements
    the interface [StoreSpec] that the cache manager is verified against. *)

From stdpp Require Import gmap list strings.
From S2P Require Import Prelude Common Storage Wire Codec.
From S2P Require Import BladeClient TCPClient TCPServer System ObjectStore.

Module RemoteStore.
Import TCPServer System.
Import FullBladeObjectStore.

Section remote.
Context {B : Type} `{StorageSpec B} `{FlatbuffersSpec}.
Context {T : Type} `{Serializer T, Deserializer T}.
Context `{!SerializerSpec T, !DeserializerSpec T}.
Context (fuel : nat) (pool : Z) (a0 : astate).

(** The operations of the store on the system; a caller that spins lets the
    scheduler run. *)
Definition tcp_blade (k : nat) : BladeClient (sys B) T :=
  TCPClient.blade_client (fun A (m : M TCPClient.t A) => on_client (B := B) m) (pump fuel) k.
Definition remote_get (k : nat) := get (tcp_blade k).
Definition remote_put (k : nat) := put (tcp_blade k).
Definition remote_remove (k : nat) := remove (tcp_blade k).
Definition remote_get_bulk_fast (k : nat) :=
  get_bulk_fast (tcp_blade k).
Definition remote_put_bulk_fast (k : nat) :=
  put_bulk_fast (tcp_blade k).
Definition remote_get_bulk (k : nat) := get_bulk (tcp_blade k) (pump fuel) k.
Definition remote_put_bulk (k : nat) := put_bulk (tcp_blade k) (pump fuel) k.
Definition remote_removeBulk (k : nat) := removeBulk (tcp_blade k).

(** All requests so far are complete. *)
Definition idle (hist : list request) (w : sys B) : Prop :=
  pipe fuel pool a0 hist [] [] [] w.

Lemma idle_of D R Q U w : pipe fuel pool a0 D R Q U w ->
  length D = length (D ++ R ++ Q ++ U) -> idle (D ++ R ++ Q ++ U) w.
Proof.
  intros Hp Hl. rewrite !length_app in Hl.
  destruct R; [|simpl in Hl; lia]. destruct Q; [|simpl in Hl; lia].
  destruct U; [|simpl in Hl; lia]. simpl. by rewrite app_nil_r.
Qed.

(** A request followed by a wait for its future: the reply is the one of the
    abstract server, and everything before it is complete too. *)
Lemma sync_wait D R Q U w (o : op T) k :
  let hist := D ++ R ++ Q ++ U in
  let x := (a_step pool (request_of o) (a_run pool a0 hist)).2 in
  pipe fuel pool a0 D R Q U w -> op_ok o ->
  all_served_ok fuel pool a0 (hist ++ [request_of o]) ->
  Z.of_nat (length U) < TCPClient.SEND_QUEUE_SIZE ->
  (S (length hist) < k)%nat -> exists w1 w' l,
    on_client (issue o) w = (w1, Ok (length hist)) /\
    ClientFuture.get (pump fuel) k (length hist) w1 = (w', get_outcome x) /\
    futures w' !! length hist = Some (reply_data x l) /\
    idle (hist ++ [request_of o]) w'.
Proof.
  intros hist x Hp Ho Hs Hq Hk.
  assert (Hreuse := proj1 (p_flags _ _ _ _ _ _ _ _ Hp)).
  destruct (issue_eq o (client w) Ho Hreuse) as [q Heq].
  set (c := TCPClient.set_reuse_queue q (client w)) in *.
  assert (Hfree : Z.of_nat (length (TCPClient.send_queue c)) < TCPClient.SEND_QUEUE_SIZE).
  { unfold c; simpl. rewrite (p_queue _ _ _ _ _ _ _ _ Hp), length_imap. done. }
  rewrite (TCPClient.send_next_ok _ _ Hfree) in Heq.
  assert (Hlen : length (TCPClient.heap c) = length hist)
    by apply (p_len _ _ _ _ _ _ _ _ Hp).
  rewrite Hlen in Heq. pose proof (on_client_ok _ w _ _ Heq) as Hi.
  set (w1 := mk_sys _ _ _) in Hi. exists w1.
  destruct (pipe_issue fuel pool a0 D R Q U w w1 o (length hist) Hp Ho) as [Hp1 _];
    [unfold hist in Hs; by rewrite <- !app_assoc in Hs|done|].
  assert (Hall : D ++ R ++ Q ++ U ++ [request_of o] = hist ++ [request_of o])
    by (unfold hist; by rewrite <- !app_assoc).
  assert (Hx : reply_of pool a0 (D ++ R ++ Q ++ U ++ [request_of o]) (length hist) = Some x).
  { rewrite Hall. unfold reply_of. rewrite list_lookup_middle by done. simpl.
    by rewrite take_app_length. }
  destruct (get_future fuel pool a0 D R Q (U ++ [request_of o]) w1 (length hist) x k
              Hp1 Hx Hk) as (w' & D' & R' & Q' & U' & l & Hg & Hp' & Hh & _ & Hd).
  exists w', l. split_and!; [done|done|done|].
  rewrite <- Hall, <- Hh. apply idle_of; [done|]. rewrite Hh, Hall.
  destruct (decide (length hist < length D')%nat) as [Hlt|Hge].
  - pose proof (f_equal length Hh) as Hl. rewrite Hall, !length_app in Hl.
    rewrite length_app. simpl in *. lia.
  - exfalso. destruct (p_wait _ _ _ _ _ _ _ _ Hp' (length hist)) as [l' Hd'].
    { rewrite Hh, Hall, length_app. simpl. lia. }
    simpl in Hd. rewrite Hd in Hd'. destruct x as [c' []]; by simplify_eq.
Qed.

(** A read that found its data. *)
Lemma data_pair k fd (w1 w' : sys B) x l v b :
  ClientFuture.get (pump fuel) k fd w1 = (w', Ok b) ->
  futures w' !! fd = Some (reply_data x l) -> data_ptr (reply_data x l) = Some v ->
  data_size (reply_data x l) = Z.of_nat (length v) ->
  ClientFuture.getDataPair (pump fuel) k fd w1 = (w', Ok (v, u32 (Z.of_nat (length v)))).
Proof.
  intros Hg Hd Hv Hn. unfold ClientFuture.getDataPair. mstep Hg.
  mstep (deref_ok fd _ w' Hd). by rewrite Hv, Hn.
Qed.

Lemma data_pair_throw k fd (w1 w' : sys B) e :
  ClientFuture.get (pump fuel) k fd w1 = (w', Throw e) ->
  ClientFuture.getDataPair (pump fuel) k fd w1 = (w', Throw e).
Proof. intros Hg. unfold ClientFuture.getDataPair. by rewrite (bind_throw _ _ _ _ _ Hg). Qed.

(** The limits of one more request: its transaction id and its messages. *)
Definition can_request (hist : list request) (o : op T) : Prop :=
  op_ok o /\ all_served_ok fuel pool a0 (hist ++ [request_of o]).

(** [put]: the outcome and the new state are those of the abstract server. *)
Lemma put_spec D R Q U w oid obj k :
  let hist := D ++ R ++ Q ++ U in
  pipe fuel pool a0 D R Q U w -> can_request hist (OpWrite oid obj) ->
  Z.of_nat (length U) < TCPClient.SEND_QUEUE_SIZE -> (S (length hist) < k)%nat ->
  exists w', remote_put k oid obj w =
    (w', if (a_write pool oid (ser_serialize obj) (a_run pool a0 hist)).2 then Ok true
         else Throw (ServerMemoryErrorException
                       "Server memory exhausted during call to put.")) /\
    idle (hist ++ [RWrite oid (ser_serialize obj)]) w'.
Proof.
  intros hist Hp [Ho Hs] Hq Hk.
  destruct (sync_wait D R Q U w (OpWrite oid obj) k Hp Ho Hs Hq Hk)
    as (w1 & w' & l & Hi & Hg & Hd & Hidle).
  exists w'. split; [|done]. unfold remote_put, put, bc_write_sync, tcp_blade, TCPClient.blade_client, TCPClient.write_sync.
  simpl in Hi. mstep Hi. rewrite Hg. cbn [request_of a_step]. fold hist.
  by destruct (a_write pool oid (ser_serialize obj) (a_run pool a0 hist)) as [a' []].
Qed.

(** [get]: the stored object, or [NoSuchIDException]. *)
Lemma get_spec D R Q U w oid k :
  let hist := D ++ R ++ Q ++ U in
  let found := a_map (a_run pool a0 hist) !! oid in
  pipe fuel pool a0 D R Q U w -> can_request hist (OpRead oid) ->
  Z.of_nat (length U) < TCPClient.SEND_QUEUE_SIZE -> (S (length hist) < k)%nat ->
  (forall v, found = Some v -> Z.of_nat (length v) < 2 ^ 32) ->
  exists w', remote_get k oid w =
    (w', match found with
         | Some v => deserialize v (Z.of_nat (length v))
         | None => Throw no_such_id
         end) /\
    idle (hist ++ [RRead oid]) w'.
Proof.
  intros hist found Hp [Ho Hs] Hq Hk Hv.
  destruct (sync_wait D R Q U w (OpRead oid) k Hp Ho Hs Hq Hk)
    as (w1 & w' & l & Hi & Hg & Hd & Hidle).
  exists w'. split; [|done]. unfold remote_get, get, bc_read_sync, tcp_blade, TCPClient.blade_client, TCPClient.read_sync.
  simpl in Hi. unfold bind at 1. unfold bind at 1. rewrite Hi.
  cbn [request_of a_step] in Hg, Hd. fold hist in Hg, Hd. fold found in Hg, Hd.
  destruct found as [v|] eqn:Hf; cbn [snd] in Hg, Hd.
  - erewrite data_pair; [|exact Hg|exact Hd|done|done].
    by rewrite u32_small by (split; [lia|by apply Hv]).
  - rewrite (data_pair_throw k _ w1 w' no_such_id) by done. done.
Qed.

(** What the server lays out for a bulk read is what the client parses. *)
Lemma parse_bulk_payload (objs : list T) :
  Forall (fun obj => ser_ok obj /\ Z.of_nat (length (ser_serialize obj)) < 2 ^ 32) objs ->
  parse_bulk (length objs) (read_payload (ser_serialize <$> objs)) = Ok objs.
Proof.
  induction 1 as [|obj objs [Hok Ho] Hobjs IH]; [done|].
  rewrite fmap_cons. cbn [length parse_bulk].
  set (v := ser_serialize obj) in *. set (rest := read_payload (ser_serialize <$> objs)) in *.
  assert (Hpl : read_payload (v :: (ser_serialize <$> objs)) =
                size_header (Z.of_nat (length v)) ++ v ++ rest).
  { unfold read_payload. rewrite fmap_cons. cbn [concat]. by rewrite <- app_assoc. }
  rewrite Hpl. set (h := size_header (Z.of_nat (length v))).
  assert (Hh : length h = 4%nat) by apply length_size_header.
  pose proof (read_at_next [] h (v ++ rest)) as Hr. rewrite Hh, app_nil_l in Hr.
  change (length []) with 0%nat in Hr. rewrite Hr. fold (header_size h).
  assert (Hn : header_size h = Z.of_nat (length v)).
  { unfold h. rewrite header_size_header. apply u32_small. split; lia. }
  rewrite Hn, Nat2Z.id, <- drop_drop, (drop_app_length' h), drop_app_length, IH by done.
  unfold v. by rewrite deserialize_serialize.
Qed.

Lemma put_bulk_fast_spec D R Q U w (objs : list (ObjectID * T)) k :
  let hist := D ++ R ++ Q ++ U in
  pipe fuel pool a0 D R Q U w -> can_request hist (OpWriteBulk objs) ->
  Z.of_nat (length U) < TCPClient.SEND_QUEUE_SIZE -> (S (length hist) < k)%nat ->
  exists w', remote_put_bulk_fast k objs.*1 objs.*2 w =
    (w', if (a_write_bulk pool ((fun p => (p.1, ser_serialize p.2)) <$> objs)
               (a_run pool a0 hist)).2 then Ok tt
         else Throw (ServerMemoryErrorException
                       "Server memory exhausted during call to put.")) /\
    idle (hist ++ [request_of (OpWriteBulk objs)]) w'.
Proof.
  intros hist Hp [Ho Hs] Hq Hk.
  destruct (sync_wait D R Q U w (OpWriteBulk objs) k Hp Ho Hs Hq Hk)
    as (w1 & w' & l & Hi & Hg & Hd & Hidle).
  exists w'. split; [|done].
  unfold remote_put_bulk_fast, put_bulk_fast, bc_write_sync_bulk, tcp_blade,
    TCPClient.blade_client, TCPClient.write_sync_bulk.
  simpl in Hi. unfold bind at 1. unfold bind at 1. rewrite Hi, Hg.
  cbn [request_of a_step]. fold hist. by destruct (a_write_bulk _ _ _) as [a' []].
Qed.

Lemma get_bulk_fast_spec D R Q U w oids (objs : list T) k :
  let hist := D ++ R ++ Q ++ U in
  pipe fuel pool a0 D R Q U w -> can_request hist (OpReadBulk oids) ->
  Z.of_nat (length U) < TCPClient.SEND_QUEUE_SIZE -> (S (length hist) < k)%nat ->
  mapM (fun oid => a_map (a_run pool a0 hist) !! oid) oids = Some (ser_serialize <$> objs) ->
  Forall (fun obj => ser_ok obj /\ Z.of_nat (length (ser_serialize obj)) < 2 ^ 32) objs ->
  exists w', remote_get_bulk_fast k oids w = (w', Ok objs) /\
    idle (hist ++ [RReadBulk oids]) w'.
Proof.
  intros hist Hp [Ho Hs] Hq Hk Hm Hobjs.
  destruct (sync_wait D R Q U w (OpReadBulk oids) k Hp Ho Hs Hq Hk)
    as (w1 & w' & l & Hi & Hg & Hd & Hidle).
  exists w'. split; [|done].
  unfold remote_get_bulk_fast, get_bulk_fast, bc_read_sync_bulk, tcp_blade,
    TCPClient.blade_client, TCPClient.read_sync_bulk.
  simpl in Hi. unfold bind at 1. unfold bind at 1. rewrite Hi.
  cbn [request_of a_step] in Hg, Hd. fold hist in Hg, Hd. rewrite Hm in Hg, Hd.
  cbn [snd] in Hg, Hd.
  erewrite data_pair; [|exact Hg|exact Hd|done|done].
  assert (Hlen : length oids = length objs).
  { apply mapM_Some, Forall2_length in Hm. by rewrite length_fmap in Hm. }
  assert (Hn : Z.of_nat (length oids) < 2 ^ 32).
  { apply served_at in Hs as [((_ & Hn & _) & _) _]. exact Hn. }
  unfold read_reply. rewrite length_fmap.
  set (h := le_bytes 4 (Z.of_nat (length objs))).
  assert (Hh : length h = 4%nat) by apply length_le_bytes.
  pose proof (read_at_next [] h (read_payload (ser_serialize <$> objs))) as Hr.
  rewrite Hh in Hr. simpl length in Hr. rewrite app_nil_l in Hr.
  unfold stop, bind. rewrite Hr. unfold h. rewrite le_val_le_bytes.
  change (256 ^ Z.of_nat 4) with (2 ^ 32). rewrite Z.mod_small by lia.
  rewrite Hlen, Z.eqb_refl. cbn [negb]. rewrite Nat2Z.id, drop_app_length' by done.
  by rewrite parse_bulk_payload.
Qed.

(** ** Properties *)

(** C21: an object put through the store is the object that get returns, end to
    end: serialisation, framing, the client's threads, the network, the server
    and its backend, and back; [k] bounds the caller's spinning. *)
Theorem put_then_get hist w oid obj k :
  idle hist w -> can_request hist (OpWrite oid obj) ->
  can_request (hist ++ [RWrite oid (ser_serialize obj)]) (OpRead oid) ->
  (a_write pool oid (ser_serialize obj) (a_run pool a0 hist)).2 = true ->
  ser_ok obj -> Z.of_nat (length (ser_serialize obj)) < 2 ^ 32 ->
  (length hist + 2 < k)%nat ->
  exists w1 w2, remote_put k oid obj w = (w1, Ok true) /\
    remote_get k oid w1 = (w2, Ok obj) /\
    idle (hist ++ [RWrite oid (ser_serialize obj); RRead oid]) w2.
Proof.
  intros Hidle Hc1 Hc2 Hfits Hok Hlen Hk.
  destruct (put_spec hist [] [] [] w oid obj k) as (w1 & Hput & Hi1);
    rewrite ?app_nil_r in *; [done|done|done|lia|].
  set (hist1 := hist ++ [RWrite oid (ser_serialize obj)]) in *.
  rewrite Hfits in Hput.
  assert (Hm : a_map (a_run pool a0 hist1) !! oid = Some (ser_serialize obj)).
  { unfold hist1. rewrite a_run_snoc. cbn [a_step].
    destruct (a_write _ _ _ _) as [a' b] eqn:Hw. simpl in Hfits. subst b. simpl.
    unfold a_write in Hw. destruct (pool <? _); [done|]. simplify_eq. simpl.
    apply lookup_insert_eq. }
  destruct (get_spec hist1 [] [] [] w1 oid k) as (w2 & Hget & Hi2);
    rewrite ?app_nil_r in *; [done|done|done| | |].
  { unfold hist1. rewrite length_app. simpl. lia. }
  { intros v Hv. rewrite Hm in Hv. by simplify_eq. }
  rewrite Hm, deserialize_whole in Hget by done. exists w1, w2. split_and!; [done|done|].
  unfold hist1 in Hi2. by rewrite <- app_assoc in Hi2.
Qed.

(** C22: objects put with one bulk request come back, in order, from one bulk
    request for their ids. *)
Theorem bulk_put_then_bulk_get hist w (objs : list (ObjectID * T)) k :
  idle hist w -> NoDup objs.*1 -> Forall ser_ok objs.*2 ->
  can_request hist (OpWriteBulk objs) ->
  can_request (hist ++ [request_of (OpWriteBulk objs)]) (OpReadBulk objs.*1) ->
  (a_write_bulk pool ((fun p => (p.1, ser_serialize p.2)) <$> objs)
     (a_run pool a0 hist)).2 = true ->
  (length hist + 2 < k)%nat ->
  exists w1 w2, remote_put_bulk_fast k objs.*1 objs.*2 w = (w1, Ok tt) /\
    remote_get_bulk_fast k objs.*1 w1 = (w2, Ok objs.*2).
Proof.
  intros Hidle Hnd Hser Hc1 Hc2 Hfits Hk.
  destruct (put_bulk_fast_spec hist [] [] [] w objs k) as (w1 & Hput & Hi1);
    rewrite ?app_nil_r in *; [done|done|done|lia|].
  rewrite Hfits in Hput. set (hist1 := hist ++ [request_of (OpWriteBulk objs)]) in *.
  set (sobjs := (fun p => (p.1, ser_serialize p.2)) <$> objs) in *.
  assert (Hfst : sobjs.*1 = objs.*1) by (unfold sobjs; by rewrite <- list_fmap_compose).
  assert (Hsnd : sobjs.*2 = ser_serialize <$> objs.*2)
    by (unfold sobjs; by rewrite <- !list_fmap_compose).
  assert (Hm : mapM (fun oid => a_map (a_run pool a0 hist1) !! oid) objs.*1 =
               Some (ser_serialize <$> objs.*2)).
  { unfold hist1. rewrite a_run_snoc. cbn [request_of a_step]. fold sobjs.
    destruct (a_write_bulk pool sobjs (a_run pool a0 hist)) as [a' b] eqn:Hw.
    simpl in Hfits. subst b. simpl. rewrite <- Hfst, <- Hsnd.
    eapply a_write_bulk_stores; [done|by rewrite Hfst]. }
  destruct (get_bulk_fast_spec hist1 [] [] [] w1 objs.*1 objs.*2 k)
    as (w2 & Hget & _); rewrite ?app_nil_r in *; [done|done|done| |done| |by exists w1, w2].
  { unfold hist1. rewrite length_app. simpl. lia. }
  destruct Hc1 as [[Hsmall _] _]. unfold WriteUnits.small in Hsmall.
  rewrite Forall_lookup in Hser, Hsmall |- *. intros i obj Hi.
  destruct (Hsmall i obj Hi) as [_ Hlt]. rewrite ser_size_spec in Hlt. eauto.
Qed.
(** Up to the greatest id, [removeBulk] never returns normally: the
    condition [oid <= last] of its loop holds for every 64-bit value. *)
Theorem removeBulk_never_ends k r first w w' : is_u64 first ->
  remote_removeBulk k r first (2 ^ 64 - 1) w <> (w', Ok tt).
Proof.
  intros Hf. unfold remote_removeBulk, removeBulk, is_u64 in *.
  destruct (Z.ltb_spec (2 ^ 64 - 1) first) as [|_]; [lia|].
  revert first w Hf. induction r as [|r IH]; intros oid w Hf; cbn [remove_loop];
    destruct (Z.ltb_spec (2 ^ 64 - 1) oid) as [|_]; try lia; [done|].
  unfold bind. destruct (remove _ oid w) as [w1 [b| | | | |]]; try done.
  apply IH. apply u64_range.
Qed.

End remote.

(** ** The system implements the interface of the cache manager *)

Section instance.
Context {B : Type} `{StorageSpec B} `{FlatbuffersSpec} `{!FlatbuffersSize}.
Context {T : Type} `{Serializer T, Deserializer T}.
Context `{!SerializerSpec T, !DeserializerSpec T}.
Context (fuel k : nat) (pool : Z) (a0 : astate).

(** The largest object of the application. *)
Context (max_object : nat).
Context (Hpool : pool_ok pool).
Context (Hfuel : (4 + 2 * (fb_overhead + max_object) <= fuel)%nat).
Context (Hsize : Z.of_nat (fb_overhead + max_object) < 2 ^ 31).

Definition store_ops : ObjectStore (sys B) T := {|
  os_get := remote_get fuel k;
  os_put := remote_put fuel k;
  os_remove := remote_remove fuel k;
  os_get_async oid := on_client (TCPClient.read_async oid);
  os_put_async oid v := on_client (TCPClient.write_async oid v);
  os_get_future_get := get_future_get (pump fuel) k;
  os_put_future_wait := put_future_wait (pump fuel) k;
  os_put_future_try_wait := put_future_try_wait;
|}.

(** The objects that the store keeps: they survive serialisation, and have an
    admissible size. *)
Definition storable (v : T) : Prop :=
  ser_ok v /\ (length (ser_serialize v) <= max_object)%nat.

(** The requests that the interface makes, with objects of admissible size. *)
Definition single (r : request) : Prop :=
  match r with
  | RWrite oid v => is_u64 oid /\ (length v <= max_object)%nat
  | RRead oid | RRemove oid => is_u64 oid
  | _ => False
  end.

(** The reply to request [f] is what was promised. *)
Definition fulfils (x : ErrorCodes * Message) (p : promise T) : Prop :=
  match p with
  | PGet (Some obj) => exists oid, x = (kOk, ReadAck oid true (ser_serialize obj)) /\
      storable obj
  | PGet None => exists oid, x = (kNoSuchIDException, ReadAck oid false [])
  | PPut => exists oid, x = (kOk, WriteAck oid true)
  end.

(** The state of the server after the requests [hist], with room for [n] more
    objects of the largest size. *)
Record roomy (n : nat) (hist : list request) : Prop := mk_roomy {
  ro_count : Z.of_nat (length hist + n) < 2 ^ 31;
  ro_spin : (S (length hist + n) < k)%nat;
  ro_accounted : accounted pool (a_run pool a0 hist);
  ro_pool : total (a_map (a_run pool a0 hist)) + Z.of_nat (n * max_object) <= pool;
  ro_objects : forall oid v, a_map (a_run pool a0 hist) !! oid = Some v ->
    (length v <= max_object)%nat;
}.

(** The map after a request. *)
Definition map_step (o : op T) (m : gmap Z T) : gmap Z T :=
  match o with
  | OpWrite oid v => <[oid := v]> m
  | OpRemove oid => delete oid m
  | _ => m
  end.
Definition writes_ok (o : op T) : Prop :=
  match o with OpWrite _ v => ser_ok v | _ => True end.

Lemma reply_size r a : single r ->
  (forall oid v, a_map a !! oid = Some v -> (length v <= max_object)%nat) ->
  exists q, payload (a_step pool r a).2.2 = Some q /\ (q <= max_object)%nat.
Proof.
  intros Hs Ha. destruct r as [oid v|objs|oid|oids|oid]; try done; cbn [a_step].
  - destruct (a_write pool oid v a) as [a' []]; exists 0%nat; simpl; split; (done || lia).
  - destruct (a_map a !! oid) as [v|] eqn:Hv; [exists (length v)|exists 0%nat];
      simpl; split; try done; [by apply (Ha oid)|lia].
  - destruct (a_map a !! oid) as [v|]; exists 0%nat; simpl; split; (done || lia).
Qed.

Lemma next_served n hist r : all_served_ok fuel pool a0 hist -> roomy (S n) hist ->
  single r -> all_served_ok fuel pool a0 (hist ++ [r]).
Proof.
  intros [Hn Hok] Hro Hs. pose proof (ro_count _ _ Hro) as Hc.
  split; [rewrite length_app; simpl; lia|]. intros i r' Hi.
  destruct (decide (i < length hist)%nat) as [Hlt|Hge].
  { rewrite lookup_app_l in Hi by done. rewrite take_app_le by lia. by apply Hok. }
  apply lookup_lt_Some in Hi as Hi'. rewrite length_app in Hi'. simpl in Hi'.
  assert (i = length hist) as -> by lia.
  rewrite list_lookup_middle in Hi by done. injection Hi as <-. rewrite take_app_length.
  set (a := a_run pool a0 hist).
  destruct (reply_size r a Hs (ro_objects _ _ Hro)) as (q & Hq & Hqm).
  assert (Hreq : exists q', payload (request_msg r) = Some q' /\ (q' <= max_object)%nat).
  { destruct r; try done; simpl in *; eexists; split; try done; lia. }
  destruct Hreq as (q' & Hq' & Hqm').
  pose proof (fb_encode_size (Z.of_nat (length hist)) 0 (request_msg r) q' Hq') as Hl1.
  pose proof (fb_encode_size (Z.of_nat (length hist))
    (error_code_to_Z (a_step pool r a).2.1) (a_step pool r a).2.2 q Hq) as Hl2.
  unfold served_ok, req_bytes, rep_bytes, reply_msg, ack.
  split; [|split; [|split; [lia|split; [lia|lia]]]].
  - destruct r; try done; simpl in *; tauto.
  - destruct r; try done; simpl in *; tauto.
Qed.

(** A request keeps the server within its limits, one object less. *)
Lemma roomy_next n hist r : roomy (S n) hist -> single r ->
  roomy n (hist ++ [r]) /\
  (forall oid v, r = RWrite oid v ->
     (a_write pool oid v (a_run pool a0 hist)).2 = true).
Proof.
  intros [Hc Hk Hacc Hp Ho] Hs. set (a := a_run pool a0 hist) in *.
  pose proof (total_nonneg (a_map a)) as Hnn.
  assert (Hw : forall oid v, r = RWrite oid v ->
    a_write pool oid v a = (mk_a (total (delete oid (a_map a)) + Z.of_nat (length v))
                              (<[oid := v]> (a_map a)), true)).
  { intros oid v ->. destruct Hs as [_ Hv]. unfold a_write.
    rewrite (a_uncount_ok pool oid a Hpool Hacc).
    pose proof (total_nonneg (delete oid (a_map a))).
    pose proof (total_delete_le (a_map a) oid). unfold pool_ok in Hpool.
    rewrite u64_small by (unfold is_u64; nia).
    destruct (Z.ltb_spec pool (total (delete oid (a_map a)) + Z.of_nat (length v)));
      [nia|done]. }
  split; [|intros oid v Hr; by rewrite (Hw oid v Hr)].
  assert (Hacc' : accounted pool (a_step pool r a).1).
  { apply a_step_accounted; [done| |done|].
    - destruct r; try done. destruct Hs as [_ Hv]. simpl. lia.
    - destruct r as [oid v|objs|oid|oids|oid]; try done; cbn [a_step].
      + by rewrite (Hw oid v eq_refl).
      + by destruct (a_map a !! oid).
      + by destruct (a_map a !! oid). }
  split; rewrite ?length_app, ?a_run_snoc; simpl; fold a; [lia|lia|done| |].
  - destruct r as [oid v|objs|oid|oids|oid]; try done; cbn [a_step].
    + rewrite (Hw oid v eq_refl). simpl. rewrite total_overwrite.
      pose proof (total_delete_le (a_map a) oid). destruct Hs as [_ Hv]. nia.
    + destruct (a_map a !! oid); simpl; nia.
    + destruct (a_map a !! oid); simpl; [|nia].
      pose proof (total_delete_le (a_map a) oid). nia.
  - destruct r as [oid v|objs|oid|oids|oid]; try done; cbn [a_step].
    + rewrite (Hw oid v eq_refl). simpl. intros o x.
      intros [[<- <-]|[_ Hx]]%lookup_insert_Some; [apply Hs|eauto].
    + by destruct (a_map a !! oid).
    + destruct (a_map a !! oid); simpl; [|done].
      intros o x [_ Hx]%lookup_delete_Some. eauto.
Qed.

(** The history [hist] represents the map [m] and the promises [pf], with room
    for [n] more requests. *)
Record hist_rep (n : nat) (hist : list request) (m : gmap Z T)
    (pf : gmap nat (promise T)) : Prop := mk_hist_rep {
  hr_roomy : roomy n hist;
  hr_map : forall oid, is_u64 oid ->
    a_map (a_run pool a0 hist) !! oid = ser_serialize <$> m !! oid;
  hr_objects : forall oid v, m !! oid = Some v -> ser_ok v;
  hr_promises : forall f p, pf !! f = Some p -> exists x,
    reply_of pool a0 hist f = Some x /\ fulfils x p;
}.

Definition rep (n : nat) (w : sys B) (m : gmap Z T) (pf : gmap nat (promise T)) : Prop :=
  exists D R Q U, pipe fuel pool a0 D R Q U w /\
    hist_rep n (D ++ R ++ Q ++ U) m pf /\
    Z.of_nat (length (R ++ Q ++ U) + n) <= TCPClient.SEND_QUEUE_SIZE.

Lemma roomy_weaken n hist : roomy (S n) hist -> roomy n hist.
Proof. intros [Hc Hk Hacc Hp Ho]. split; [lia|lia|done|nia|done]. Qed.

Lemma hist_rep_weaken n hist m pf : hist_rep (S n) hist m pf -> hist_rep n hist m pf.
Proof. intros [Hro Hm Ho Hpf]. split; [by apply roomy_weaken|done..]. Qed.

Lemma reply_of_bound hist f x : reply_of pool a0 hist f = Some x -> (f < length hist)%nat.
Proof.
  unfold reply_of. intros (r & Hr & _)%fmap_Some. by apply lookup_lt_Some in Hr.
Qed.

Lemma hist_rep_fresh n hist m pf : hist_rep n hist m pf -> pf !! length hist = None.
Proof.
  intros [_ _ _ Hpf]. destruct (pf !! length hist) as [p|] eqn:Hp; [|done].
  destruct (Hpf _ _ Hp) as (x & Hx & _). apply reply_of_bound in Hx. lia.
Qed.

Lemma hist_rep_next n hist m pf o : hist_rep (S n) hist m pf ->
  single (request_of o) -> writes_ok o ->
  hist_rep n (hist ++ [request_of o]) (map_step o m) pf.
Proof.
  intros [Hro Hm Hok Hpf] Hs Hser.
  destruct (roomy_next n hist (request_of o) Hro Hs) as [Hro' Hw].
  split; [done| | |].
  - intros oid Hoid. rewrite a_run_snoc. destruct o as [o v|objs|o|oids|o]; try done;
      cbn [a_step map_step request_of].
    + specialize (Hw o _ eq_refl). unfold a_write in *.
      destruct (pool <? _); [done|]. simpl.
      destruct (decide (oid = o)) as [->|Hne];
        [by rewrite !lookup_insert_eq|by rewrite !lookup_insert_ne by done; apply Hm].
    + destruct (a_map (a_run pool a0 hist) !! o); by apply Hm.
    + destruct (a_map (a_run pool a0 hist) !! o) eqn:Ho; simpl;
        (destruct (decide (oid = o)) as [->|Hne];
         [rewrite lookup_delete_eq|rewrite lookup_delete_ne by done]);
        rewrite ?lookup_delete_eq, ?Ho, ?lookup_delete_ne by done; auto.
  - intros oid x. destruct o as [o v|objs|o|oids|o]; simpl; try apply Hok.
    + intros [[<- <-]|[_ Hx]]%lookup_insert_Some; [done|eauto].
    + intros [_ Hx]%lookup_delete_Some. eauto.
  - intros f p Hp. destruct (Hpf f p Hp) as (x & Hx & Hf). exists x. split; [|done].
    rewrite reply_of_app; [done|by apply reply_of_bound in Hx].
Qed.

Lemma hist_rep_promise n hist m pf r p : hist_rep n (hist ++ [r]) m pf ->
  fulfils (a_step pool r (a_run pool a0 hist)).2 p ->
  hist_rep n (hist ++ [r]) m (<[length hist := p]> pf).
Proof.
  intros [Hro Hm Hok Hpf] Hp. split; [done..|]. intros f q.
  intros [[<- <-]|[_ Hq]]%lookup_insert_Some; [|by apply Hpf].
  eexists. split; [|exact Hp]. unfold reply_of.
  rewrite list_lookup_middle by done. simpl. by rewrite take_app_length.
Qed.

Lemma write_fulfils n hist m pf oid v : hist_rep (S n) hist m pf -> is_u64 oid ->
  (length (ser_serialize v) <= max_object)%nat ->
  fulfils (a_step pool (RWrite oid (ser_serialize v)) (a_run pool a0 hist)).2 PPut.
Proof.
  intros Hh Hoid Hv.
  destruct (roomy_next n hist (RWrite oid (ser_serialize v)) (hr_roomy _ _ _ _ Hh)
              (conj Hoid Hv)) as [_ Hw].
  specialize (Hw oid _ eq_refl). cbn [a_step].
  destruct (a_write _ _ _ _) as [a' b]. simpl in Hw. subst b. by exists oid.
Qed.

(** What the interface's requests need of a pipeline with room. *)
Lemma rep_requests n D R Q U w m pf (o : op T) :
  pipe fuel pool a0 D R Q U w -> hist_rep (S n) (D ++ R ++ Q ++ U) m pf ->
  single (request_of o) -> can_request fuel pool a0 (D ++ R ++ Q ++ U) o.
Proof.
  intros Hp Hr Hs. split.
  - destruct o; try done. destruct Hs as [_ Hl]. simpl. rewrite ser_size_spec. lia.
  - eapply next_served; [apply Hp|apply Hr|done].
Qed.

(** The synchronous operations leave the system idle. *)
Lemma rep_idle n hist w m pf :
  Z.of_nat n <= TCPClient.SEND_QUEUE_SIZE ->
  idle fuel pool a0 hist w -> hist_rep n hist m pf -> rep n w m pf.
Proof.
  intros Hn Hi Hr. exists hist, [], [], []. rewrite app_nil_r. split_and!; done.
Qed.

Lemma undone_bound (D R Q U : list request) n :
  Z.of_nat (length (R ++ Q ++ U) + S n) <= TCPClient.SEND_QUEUE_SIZE ->
  Z.of_nat (length U) < TCPClient.SEND_QUEUE_SIZE /\ Z.of_nat n <= TCPClient.SEND_QUEUE_SIZE /\
  (length U <= length (D ++ R ++ Q ++ U))%nat.
Proof. rewrite !length_app. lia. Qed.

Lemma rep_get n w m pf oid : rep (S n) w m pf -> is_u64 oid -> exists w',
  remote_get fuel k oid w =
    (w', match m !! oid with Some v => Ok v | None => Throw no_such_id end) /\
  rep n w' m pf.
Proof.
  intros (D & R & Q & U & Hp & Hr & Hq) Hoid.
  destruct (undone_bound D R Q U n Hq) as (Hq1 & Hq2 & _).
  pose proof (rep_requests n D R Q U w m pf (OpRead oid) Hp Hr Hoid) as Hc.
  pose proof (hr_roomy _ _ _ _ Hr) as Hro. pose proof (ro_spin _ _ Hro) as Hk.
  destruct (get_spec fuel pool a0 D R Q U w oid k Hp Hc Hq1) as (w' & Hg & Hi); [lia| |].
  { intros v Hv. apply (ro_objects _ _ Hro) in Hv. lia. }
  exists w'. split.
  - rewrite Hg, (hr_map _ _ _ _ Hr oid Hoid).
    destruct (m !! oid) as [v|] eqn:Hv; simpl; [|done].
    by rewrite deserialize_whole by (by apply (hr_objects _ _ _ _ Hr oid)).
  - apply (rep_idle _ _ _ _ _ Hq2 Hi). by apply (hist_rep_next _ _ _ _ (OpRead oid) Hr).
Qed.

(** A put of an object [v] that is serialised as the object [v']. *)
Lemma rep_put_as n w m pf oid v v' : rep (S n) w m pf -> is_u64 oid ->
  storable v' -> ser_serialize v = ser_serialize v' -> exists w',
  remote_put fuel k oid v w = (w', Ok true) /\ rep n w' (<[oid := v']> m) pf.
Proof.
  intros (D & R & Q & U & Hp & Hr & Hq) Hoid [Hok Hv] Heq. rewrite <- Heq in Hv.
  destruct (undone_bound D R Q U n Hq) as (Hq1 & Hq2 & _).
  pose proof (rep_requests n D R Q U w m pf (OpWrite oid v) Hp Hr (conj Hoid Hv)) as Hc.
  pose proof (ro_spin _ _ (hr_roomy _ _ _ _ Hr)) as Hk.
  destruct (put_spec fuel pool a0 D R Q U w oid v k Hp Hc Hq1) as (w' & Hg & Hi); [lia|].
  destruct (roomy_next n _ (RWrite oid (ser_serialize v)) (hr_roomy _ _ _ _ Hr)
              (conj Hoid Hv)) as [_ Hw].
  rewrite (Hw oid _ eq_refl) in Hg. exists w'. split; [done|].
  apply (rep_idle _ _ _ _ _ Hq2 Hi). rewrite Heq in Hv |- *.
  by apply (hist_rep_next _ _ _ _ (OpWrite oid v') Hr).
Qed.

Lemma rep_put n w m pf oid v : rep (S n) w m pf -> is_u64 oid -> storable v ->
  exists w', remote_put fuel k oid v w = (w', Ok true) /\ rep n w' (<[oid := v]> m) pf.
Proof. intros Hr Hoid Hv. by apply rep_put_as. Qed.

Lemma rep_remove n w m pf oid : rep (S n) w m pf -> is_u64 oid -> exists w' b,
  remote_remove fuel k oid w = (w', Ok b) /\ rep n w' (delete oid m) pf.
Proof.
  intros (D & R & Q & U & Hp & Hr & Hq) Hoid.
  destruct (undone_bound D R Q U n Hq) as (Hq1 & Hq2 & _).
  pose proof (rep_requests n D R Q U w m pf (OpRemove oid) Hp Hr Hoid) as [Ho Hs].
  pose proof (ro_spin _ _ (hr_roomy _ _ _ _ Hr)) as Hk.
  destruct (sync_wait fuel pool a0 D R Q U w (OpRemove oid : op T) k Hp Ho Hs Hq1)
    as (w1 & w' & l & Hi & Hg & _ & Hidle); [lia|].
  cbn [request_of a_step] in Hg.
  exists w', (bool_decide (is_Some (a_map (a_run pool a0 (D ++ R ++ Q ++ U)) !! oid))).
  split; [|apply (rep_idle _ _ _ _ _ Hq2 Hidle);
           by apply (hist_rep_next _ _ _ _ (OpRemove oid) Hr)].
  unfold remote_remove, remove, bc_remove, tcp_blade, TCPClient.blade_client, TCPClient.remove. cbn [issue] in Hi. mstep Hi.
  rewrite Hg. by destruct (a_map _ !! oid).
Qed.

(** A request without waiting for its reply. *)
Lemma rep_issue n w m pf (o : op T) p : rep (S n) w m pf -> single (request_of o) ->
  writes_ok o ->
  (forall hist, hist_rep (S n) hist m pf ->
     fulfils (a_step pool (request_of o) (a_run pool a0 hist)).2 p) ->
  exists w' f, on_client (issue o) w = (w', Ok f) /\ pf !! f = None /\
    rep n w' (map_step o m) (<[f := p]> pf).
Proof.
  intros (D & R & Q & U & Hp & Hr & Hq) Hs Hser Hf.
  destruct (undone_bound D R Q U n Hq) as (Hq1 & _ & _).
  pose proof (rep_requests n D R Q U w m pf o Hp Hr Hs) as [Ho Hok].
  pose proof (ro_spin _ _ (hr_roomy _ _ _ _ Hr)) as Hk.
  destruct (sync_wait fuel pool a0 D R Q U w o k Hp Ho Hok Hq1)
    as (w1 & _ & _ & Hi & _); [lia|].
  rewrite <- !app_assoc in Hok.
  destruct (pipe_issue fuel pool a0 D R Q U w w1 o _ Hp Ho Hok Hi) as [Hp1 _].
  exists w1, (length (D ++ R ++ Q ++ U)). split; [done|].
  split; [by apply (hist_rep_fresh _ _ _ _ Hr)|].
  exists D, R, Q, (U ++ [request_of o]). split; [done|].
  replace (D ++ R ++ Q ++ U ++ [request_of o])
    with ((D ++ R ++ Q ++ U) ++ [request_of o]) by (by rewrite <- !app_assoc).
  split; [apply hist_rep_promise; [by apply hist_rep_next|by apply Hf]|].
  rewrite !length_app in *. simpl. lia.
Qed.

(** The representation, with the numbers of complete and of all requests. *)
Definition rep_at (d h n : nat) (w : sys B) (m : gmap Z T) (pf : gmap nat (promise T))
    : Prop :=
  exists D R Q U, pipe fuel pool a0 D R Q U w /\
    hist_rep n (D ++ R ++ Q ++ U) m pf /\
    Z.of_nat (length (R ++ Q ++ U) + n) <= TCPClient.SEND_QUEUE_SIZE /\
    length D = d /\ length (D ++ R ++ Q ++ U) = h.

Lemma rep_rep_at n w m pf : rep n w m pf <-> exists d h, rep_at d h n w m pf.
Proof.
  split.
  - intros (D & R & Q & U & Hp & Hr & Hq).
    exists (length D), (length (D ++ R ++ Q ++ U)), D, R, Q, U. done.
  - intros (d & h & D & R & Q & U & Hp & Hr & Hq & _). by exists D, R, Q, U.
Qed.

Lemma rep_at_bound d h n w m pf f p : rep_at d h n w m pf -> pf !! f = Some p -> (f < h)%nat.
Proof.
  intros (D & R & Q & U & Hp & Hr & Hq & _ & <-) Hf.
  destruct (hr_promises _ _ _ _ Hr f p Hf) as (x & Hx & _). by apply reply_of_bound in Hx.
Qed.

Lemma rep_at_spin d h n w m pf : rep_at d h n w m pf -> (d <= h)%nat /\ (S (h + n) < k)%nat.
Proof.
  intros (D & R & Q & U & Hp & Hr & Hq & <- & <-).
  pose proof (ro_spin _ _ (hr_roomy _ _ _ _ Hr)). rewrite !length_app in *. lia.
Qed.

Lemma rep_at_pump d h n w m pf : rep_at d h n w m pf -> exists w',
  pump fuel w = (w', Ok tt) /\ rep_at (Nat.min (S d) h) h n w' m pf.
Proof.
  intros (D & R & Q & U & Hp & Hr & Hq & <- & <-).
  destruct (pump_progress fuel pool a0 D R Q U w Hp)
    as (w' & D' & R' & Q' & U' & Hrun & Hp' & Hh & Hd).
  exists w'. split; [done|]. exists D', R', Q', U'. rewrite Hh, Hd. split_and!; try done.
  apply (f_equal length) in Hh. rewrite !length_app in *. lia.
Qed.

(** Polling keeps the representation, and sees a reply that has arrived. *)
Lemma rep_at_try_wait d h n w m pf f p : rep_at d h n w m pf -> pf !! f = Some p ->
  exists w' b, put_future_try_wait f w = (w', Ok b) /\ rep_at d h n w' m pf /\
    ((f < d)%nat -> b = true).
Proof.
  intros Hrep Hf. pose proof (rep_at_bound _ _ _ _ _ _ _ _ Hrep Hf) as Hb.
  destruct Hrep as (D & R & Q & U & Hp & Hr & Hq & <- & <-).
  unfold put_future_try_wait, ClientFuture.try_wait.
  destruct (decide (f < length D)%nat) as [Hlt|Hge].
  - destruct (lookup_all pool a0 D f Hlt) as [x Hx].
    destruct (p_done _ _ _ _ _ _ _ _ Hp f x Hlt Hx) as [l Hd].
    exists w, true. split_and!; [|by exists D, R, Q, U|done].
    mstep (deref_ok f _ w Hd). by destruct x as [c []].
  - destruct (p_wait _ _ _ _ _ _ _ _ Hp f) as [l Hd]; [lia|].
    eexists _, _. split_and!.
    + mstep (deref_ok f _ w Hd). cbn [result_available set_sem new_FutureData negb].
      by apply sem_trywait_ok.
    + exists D, R, Q, U. split_and!; try done. by apply pipe_lock.
    + lia.
Qed.

Lemma rep_at_wait d h n w m pf f p : rep_at d h n w m pf -> pf !! f = Some p ->
  exists w' d' x l, ClientFuture.wait (pump fuel) k f w = (w', Ok tt) /\
    ClientFuture.get (pump fuel) k f w = (w', get_outcome x) /\
    futures w' !! f = Some (reply_data x l) /\ fulfils x p /\
    rep_at d' h n w' m pf /\ (d <= d')%nat.
Proof.
  intros (D & R & Q & U & Hp & Hr & Hq & <- & <-) Hf.
  destruct (hr_promises _ _ _ _ Hr f p Hf) as (x & Hx & Hful).
  pose proof (ro_spin _ _ (hr_roomy _ _ _ _ Hr)) as Hk.
  pose proof (reply_of_bound _ _ _ Hx) as Hb.
  destruct (future_get fuel pool a0 D R Q U w f x k Hp Hx ltac:(lia))
    as (w' & D' & R' & Q' & U' & l & Hw & Hp' & Hh & Hlo & Hd).
  exists w', (length D'), x, l. split_and!; [done| |done|done| |done].
  - unfold ClientFuture.get. mstep Hw. rewrite <- (get_reply k f x l w' (pump fuel) Hd).
    unfold ClientFuture.get. rewrite (bind_ok _ _ w' w' tt); [done|].
    apply (wait_available (pump fuel) k f _ w' Hd). by destruct x as [c []].
  - exists D', R', Q', U'. rewrite Hh. split_and!; [done|done| |done|done].
    apply (f_equal length) in Hh. rewrite !length_app in *. lia.
Qed.

(** Waiting for a future leaves the history as it is. *)
Lemma rep_wait n w m pf f p : rep n w m pf -> pf !! f = Some p -> exists w' x l,
  ClientFuture.wait (pump fuel) k f w = (w', Ok tt) /\
  ClientFuture.get (pump fuel) k f w = (w', get_outcome x) /\
  futures w' !! f = Some (reply_data x l) /\ fulfils x p /\ rep n w' m pf.
Proof.
  rewrite rep_rep_at. intros (d & h & Hr) Hf.
  destruct (rep_at_wait d h n w m pf f p Hr Hf)
    as (w' & d' & x & l & Hw & Hg & Hd & Hx & Hr' & _).
  exists w', x, l. rewrite rep_rep_at. eauto 10.
Qed.

Lemma rep_get_future n w m pf f r : rep n w m pf -> pf !! f = Some (PGet r) ->
  exists w', get_future_get (pump fuel) k f w =
    (w', match r with Some v => Ok v | None => Throw no_such_id end) /\ rep n w' m pf.
Proof.
  intros Hr Hf. destruct (rep_wait n w m pf f _ Hr Hf) as (w' & x & l & _ & Hg & Hd & Hx & Hr').
  exists w'. split; [|done]. unfold get_future_get, bind at 1. destruct r as [v|].
  - destruct Hx as (oid & -> & Hok & Hlen).
    erewrite data_pair; [|exact Hg|exact Hd|done|done].
    rewrite u32_small by (unfold is_u32; lia). unfold stop. by rewrite deserialize_whole.
  - destruct Hx as (oid & ->). by rewrite (data_pair_throw fuel k f w w' no_such_id).
Qed.

(** *** Bulk operations *)

(** One pass of the polling loop over futures of puts: no exception, and a
    future whose reply had arrived is done. *)
Lemma poll_pass_ok fs done d h n w m pf :
  rep_at d h n w m pf -> Forall (fun f => pf !! f = Some PPut) fs ->
  length done = length fs -> exists w' done' d',
    poll_pass (pump fuel) k fs done w = (w', Ok done') /\
    rep_at d' h n w' m pf /\ (d <= d')%nat /\ length done' = length fs /\
    (Forall (fun f => (f < d)%nat) fs -> forallb id done' = true).
Proof.
  revert done d w. induction fs as [|f fs IH]; intros done d w Hr Hfs Hl;
    destruct done as [|b done]; try (simpl in Hl; discriminate).
  { exists w, [], d. split_and!; try done. }
  apply Forall_cons in Hfs as [Hf Hfs]. injection Hl as Hl. cbn [poll_pass].
  assert (Hone : exists w1 b1 d1,
    (if b then ret true else
     let* r := put_future_try_wait f in
     if r : bool then let* _ := put_future_get (pump fuel) k f in ret true
     else ret false) w = (w1, Ok b1) /\
    rep_at d1 h n w1 m pf /\ (d <= d1)%nat /\ ((f < d)%nat -> b1 = true)).
  { destruct b; [by exists w, true, d|].
    destruct (rep_at_try_wait d h n w m pf f _ Hr Hf) as (w1 & b1 & Ht & Hr1 & Hb).
    mstep Ht. destruct b1; [|exists w1, false, d; split_and!; try done;
                             intros Hlt; by specialize (Hb Hlt)].
    destruct (rep_at_wait d h n w1 m pf f _ Hr1 Hf)
      as (w2 & d2 & x & l & _ & Hg & _ & [oid ->] & Hr2 & Hd).
    exists w2, true, d2. unfold put_future_get. by mstep Hg. }
  destruct Hone as (w1 & b1 & d1 & Hrun & Hr1 & Hd1 & Hb1). mstep Hrun.
  destruct (IH done d1 w1 Hr1 Hfs Hl) as (w2 & done' & d2 & Hrun2 & Hr2 & Hd2 & Hl2 & Hall).
  mstep Hrun2. exists w2, (b1 :: done'), d2. split_and!; [done|done|lia|simpl; lia|].
  intros [Hlt Hlts]%Forall_cons. simpl. rewrite (Hb1 Hlt). apply Hall.
  eapply Forall_impl; [exact Hlts|]. simpl. lia.
Qed.

(** Every round completes a request that is not complete: the loop ends. *)
Lemma poll_loop_ok fs r done d h n w m pf :
  rep_at d h n w m pf -> Forall (fun f => pf !! f = Some PPut) fs ->
  length done = length fs -> (h - d < r)%nat -> exists w',
    poll_loop (pump fuel) k r fs done w = (w', Ok tt) /\ rep n w' m pf.
Proof.
  revert done d w. induction r as [|r IH]; intros done d w Hr Hfs Hl Hf; [lia|].
  cbn [poll_loop]. destruct (forallb id done).
  { exists w. split; [done|]. rewrite rep_rep_at. eauto. }
  destruct (poll_pass_ok fs done d h n w m pf Hr Hfs Hl)
    as (w1 & done' & d1 & Hrun & Hr1 & Hd1 & Hl1 & Hall).
  mstep Hrun. destruct (rep_at_pump d1 h n w1 m pf Hr1) as (w2 & Hp & Hr2). mstep Hp.
  destruct (decide (d = h)) as [->|Hne].
  - exists w2. rewrite rep_rep_at. split; [|eauto]. destruct r; cbn [poll_loop];
      rewrite Hall; try done; (eapply Forall_impl; [exact Hfs|]; intros f Hff;
      by apply (rep_at_bound _ _ _ _ _ _ _ _ Hr1 Hff)).
  - destruct (rep_at_spin _ _ _ _ _ _ Hr) as [Hdh _].
    by apply (IH done' (Nat.min (S d1) h) w2 Hr2 Hfs Hl1); lia.
Qed.

(** The map with the objects [data] under the ids from [oid] on. *)
Definition put_range (oid : ObjectID) (data : list T) (m : gmap Z T) (o : Z) : option T :=
  if decide (oid <= o < oid + Z.of_nat (length data))
  then data !! Z.to_nat (o - oid) else m !! o.

Lemma put_range_cons oid v data m o :
  put_range (oid + 1) data (<[oid := v]> m) o = put_range oid (v :: data) m o.
Proof.
  unfold put_range. destruct (decide (o = oid)) as [->|Hne].
  - rewrite decide_False, lookup_insert_eq, decide_True by (simpl; lia).
    by rewrite Z.sub_diag.
  - rewrite lookup_insert_ne by done.
    destruct (decide (oid + 1 <= o < oid + 1 + Z.of_nat (length data))).
    + rewrite decide_True by (simpl; lia).
      by replace (Z.to_nat (o - oid)) with (S (Z.to_nat (o - (oid + 1)))) by lia.
    + by rewrite decide_False by (simpl; lia).
Qed.

(** The requests of [put_bulk]. *)
Lemma put_requests data start pre n w m pf :
  rep (length data + n) w m pf -> is_u64 start ->
  is_u64 (start + Z.of_nat (length pre + length data)) -> Forall storable data ->
  exists w' fs m' pf',
    mmap (seq (length pre) (length data)) (fun i =>
      let* obj := array_at (pre ++ data) i in
      put_async (tcp_blade fuel k)
        (u64 (start + Z.of_nat i)) obj) w = (w', Ok fs) /\
    rep n w' m' pf' /\ Forall (fun f => pf' !! f = Some PPut) fs /\
    length fs = length data /\ pf ⊆ pf' /\
    forall o, m' !! o = put_range (start + Z.of_nat (length pre)) data m o.
Proof.
  revert pre w m pf. induction data as [|v data IH]; intros pre w m pf Hr Hs Hl Hd.
  { exists w, [], m, pf. split_and!; try done. intros o. unfold put_range.
    by rewrite decide_False by (simpl; lia). }
  apply Forall_cons in Hd as [[Hok Hv] Hd]. cbn [length seq mmap]. unfold is_u64 in *.
  cbn [length] in Hl. set (oid := start + Z.of_nat (length pre)).
  assert (Ho : is_u64 oid) by (unfold is_u64, oid; lia).
  destruct (rep_issue (length data + n) w m pf (OpWrite oid v) PPut Hr (conj Ho Hv) Hok)
    as (w1 & f & Hi & Hfresh & Hr1).
  { intros hist Hh. by apply (write_fulfils _ _ _ _ _ _ Hh). }
  destruct (IH (pre ++ [v]) w1 _ _ Hr1 Hs) as (w' & fs & m' & pf' & Hrun & Hr' & Hfs & Hlen & Hsub & Hm');
    [rewrite length_app; simpl; lia|done|].
  exists w', (f :: fs), m', pf'.
  assert (Hobj : (let* obj := array_at (pre ++ v :: data) (length pre) in
    put_async (tcp_blade fuel k)
      (u64 (start + Z.of_nat (length pre))) obj) w = (w1, Ok f)).
  { unfold array_at. rewrite list_lookup_middle by done.
    rewrite (bind_ok (ret v) _ w w v eq_refl). fold oid. rewrite u64_small by done. exact Hi. }
  split_and!; [|done| |simpl; lia| |].
  - mstep Hobj. rewrite length_app, Nat.add_1_r, <- app_assoc in Hrun. by mstep Hrun.
  - constructor; [|done]. eapply lookup_weaken; [|exact Hsub]. apply lookup_insert_eq.
  - etrans; [by apply insert_subseteq|done].
  - intros o. rewrite Hm'. cbn [map_step].
    unfold oid. rewrite length_app, <- put_range_cons. simpl. f_equal; lia.
Qed.

(** [last - start + 1] objects, as the code computes it. *)
Lemma num_objects_ok start last (n : nat) : is_u64 start -> is_u64 last ->
  last - start + 1 = Z.of_nat n -> Z.of_nat n < 2 ^ 31 ->
  num_objects start last = Z.of_nat n.
Proof.
  intros Hs Hl Hn Hlt. unfold num_objects, is_u64 in *. rewrite Hn.
  by rewrite u64_small, i32_small by (unfold is_u64; lia).
Qed.

Lemma rep_count j n w m pf : rep (j + n) w m pf -> Z.of_nat j < 2 ^ 31.
Proof. intros (D & R & Q & U & _ & _ & Hq). unfold TCPClient.SEND_QUEUE_SIZE in Hq. lia. Qed.

Lemma put_bulk_ok start last data n w m pf :
  rep (length data + n) w m pf -> is_u64 start -> is_u64 (last + 1) -> data <> [] ->
  last - start + 1 = Z.of_nat (length data) -> Forall storable data ->
  exists w' m' pf', remote_put_bulk fuel k start last data w = (w', Ok tt) /\
    rep n w' m' pf' /\ pf ⊆ pf' /\ forall o, m' !! o = put_range start data m o.
Proof.
  intros Hr Hs Hl Hne Hn Hd. unfold remote_put_bulk, put_bulk, is_u64 in *.
  assert (Hpos : (0 < length data)%nat) by (destruct data; simpl; [done|lia]).
  destruct (Z.ltb_spec last start) as [|_]; [lia|].
  rewrite (num_objects_ok start last (length data)) by
    (unfold is_u64; try lia; by apply (rep_count _ _ _ _ _ Hr)).
  rewrite Nat2Z.id. unfold futures_vector.
  destruct (Z.ltb_spec (Z.of_nat (length data)) 0) as [|_]; [lia|].
  rewrite (bind_ok (ret tt) _ w w tt eq_refl).
  destruct (put_requests data start [] n w m pf Hr Hs)
    as (w1 & fs & m' & pf' & Hrun & Hr1 & Hfs & Hlen & Hsub & Hm');
    [unfold is_u64; simpl; lia|done|].
  cbn [length app] in Hrun. mstep Hrun. apply rep_rep_at in Hr1 as (d & h & Hr1).
  destruct (rep_at_spin _ _ _ _ _ _ Hr1) as [_ Hk].
  destruct (poll_loop_ok fs k (replicate (length data) false) d h n w1 m' pf' Hr1 Hfs)
    as (w' & Hrun' & Hr'); [rewrite length_replicate; lia|lia|].
  exists w', m', pf'. split_and!; [done|done|done|]. intros o. rewrite Hm'. simpl.
  by rewrite Z.add_0_r.
Qed.

Lemma rep_get_async n w m pf oid : rep (S n) w m pf -> is_u64 oid -> exists w' f,
  on_client (TCPClient.read_async oid) w = (w', Ok f) /\ pf !! f = None /\
  rep n w' m (<[f := PGet (m !! oid)]> pf).
Proof.
  intros Hr Hoid.
  apply (rep_issue n w m pf (OpRead oid) (PGet (m !! oid)) Hr Hoid I).
  intros hist Hh. cbn [request_of a_step]. pose proof (hr_map _ _ _ _ Hh oid Hoid) as Hm.
  rewrite Hm. destruct (m !! oid) as [v|] eqn:Hv; simpl in *; [|by exists oid].
  exists oid. split; [done|]. split; [by apply (hr_objects _ _ _ _ Hh oid)|].
  by apply (ro_objects _ _ (hr_roomy _ _ _ _ Hh) oid).
Qed.

(** The requests of [get_bulk]. *)
Lemma get_requests vs start j n w m pf :
  rep (length vs + n) w m pf -> is_u64 start ->
  is_u64 (start + Z.of_nat (j + length vs)) ->
  (forall i v, vs !! i = Some v -> m !! (start + Z.of_nat (j + i)) = Some v) ->
  exists w' fs pf',
    mmap ((fun i => u64 (start + Z.of_nat i)) <$> seq j (length vs))
      (get_async (tcp_blade fuel k)) w = (w', Ok fs) /\
    rep n w' m pf' /\ Forall2 (fun f v => pf' !! f = Some (PGet (Some v))) fs vs /\ pf ⊆ pf'.
Proof.
  revert j w pf. induction vs as [|v vs IH]; intros j w pf Hr Hs Hl Hv.
  { exists w, [], pf. by split_and!. }
  cbn [length seq] in *. rewrite fmap_cons. cbn [mmap]. unfold is_u64 in *.
  set (oid := start + Z.of_nat j).
  assert (Ho : is_u64 oid) by (unfold is_u64, oid; lia).
  assert (Hm : m !! oid = Some v).
  { unfold oid. rewrite <- (Nat.add_0_r j). apply Hv. done. }
  destruct (rep_get_async (length vs + n) w m pf oid Hr Ho) as (w1 & f & Hi & Hfresh & Hr1).
  rewrite Hm in Hr1. rewrite u64_small by done.
  destruct (IH (S j) w1 _ Hr1 Hs) as (w' & fs & pf' & Hrun & Hr' & Hfs & Hsub);
    [lia|intros i x Hx; rewrite Nat.add_succ_comm; by apply Hv|].
  exists w', (f :: fs), pf'. unfold get_async at 1. mstep Hi. mstep Hrun.
  split_and!; [done|done| |etrans; [by apply insert_subseteq|done]].
  constructor; [|done]. eapply lookup_weaken; [|exact Hsub]. apply lookup_insert_eq.
Qed.

(** Waiting for all of them. *)
Lemma get_replies fs vs n w m pf : rep n w m pf ->
  Forall2 (fun f v => pf !! f = Some (PGet (Some v))) fs vs -> exists w',
    mmap fs (fun f => get_future_wait (pump fuel) k f ;;; get_future_get (pump fuel) k f) w =
      (w', Ok vs) /\ rep n w' m pf.
Proof.
  intros Hr Hfs. revert w Hr. induction Hfs as [|f v fs vs Hf Hfs IH]; intros w Hr;
    [by exists w|]. cbn [mmap]. unfold get_future_wait at 1.
  destruct (rep_wait n w m pf f _ Hr Hf) as (w1 & _ & _ & Hw & _ & _ & _ & Hr1).
  destruct (rep_get_future n w1 m pf f _ Hr1 Hf) as (w2 & Hg & Hr2).
  destruct (IH w2 Hr2) as (w' & Hrun & Hr'). exists w'. split; [|done].
  cbv beta. rewrite <- bind_assoc. mstep Hw. mstep Hg. by mstep Hrun.
Qed.

Lemma get_bulk_ok start last vs n w m pf :
  rep (length vs + n) w m pf -> is_u64 start -> is_u64 (last + 1) -> vs <> [] ->
  last - start + 1 = Z.of_nat (length vs) ->
  (forall i v, vs !! i = Some v -> m !! (start + Z.of_nat i) = Some v) ->
  exists w' pf', remote_get_bulk fuel k start last w = (w', Ok vs) /\
    rep n w' m pf' /\ pf ⊆ pf'.
Proof.
  intros Hr Hs Hl Hne Hn Hv. unfold remote_get_bulk, get_bulk, is_u64 in *.
  assert (Hpos : (0 < length vs)%nat) by (destruct vs; simpl; [done|lia]).
  destruct (Z.ltb_spec last start) as [|_]; [lia|].
  rewrite (num_objects_ok start last (length vs)) by
    (unfold is_u64; try lia; by apply (rep_count _ _ _ _ _ Hr)).
  rewrite Nat2Z.id. unfold futures_vector.
  destruct (Z.ltb_spec (Z.of_nat (length vs)) 0) as [|_]; [lia|].
  rewrite (bind_ok (ret tt) _ w w tt eq_refl).
  destruct (get_requests vs start 0 n w m pf Hr Hs)
    as (w1 & fs & pf' & Hrun & Hr1 & Hfs & Hsub); [unfold is_u64; simpl; lia|done|].
  unfold id_range. mstep Hrun.
  destruct (get_replies fs vs n w1 m pf' Hr1 Hfs) as (w' & Hrun' & Hr'). by exists w', pf'.
Qed.

(** [removeBulk] below the greatest id. *)
Lemma remove_loop_ok j r oid last n w m pf :
  rep (j + n) w m pf -> is_u64 oid -> is_u64 (last + 1) ->
  last - oid + 1 = Z.of_nat j -> (j <= r)%nat -> exists w' m',
    remove_loop (tcp_blade fuel k) r oid last w =
      (w', Ok tt) /\ rep n w' m' pf /\
    forall o, m' !! o = if decide (oid <= o <= last) then None else m !! o.
Proof.
  revert r oid w m. induction j as [|j IH]; intros r oid w m Hr Ho Hl Hj Hf.
  { exists w, m. split; [|split; [done|]].
    - destruct r; cbn [remove_loop]; by rewrite (proj2 (Z.ltb_lt _ _)) by lia.
    - intros o. by rewrite decide_False by lia. }
  destruct r as [|r]; [lia|]. cbn [remove_loop].
  destruct (Z.ltb_spec last oid) as [|_]; [lia|].
  destruct (rep_remove (j + n) w m pf oid Hr Ho) as (w1 & b & Hrun & Hr1).
  unfold remote_remove in Hrun. mstep Hrun. unfold is_u64 in *.
  rewrite u64_small by (unfold is_u64; lia).
  destruct (IH r (oid + 1) w1 _ Hr1) as (w' & m' & Hrun' & Hr' & Hm'); [lia..|].
  exists w', m'. split_and!; [done|done|]. intros o. rewrite Hm'.
  destruct (decide (o = oid)) as [->|Hne].
  - by rewrite decide_False, lookup_delete_eq, decide_True by lia.
  - rewrite lookup_delete_ne by done.
    destruct (decide (oid + 1 <= o <= last)); [by rewrite decide_True by lia|].
    by rewrite decide_False by lia.
Qed.

(** ** Properties of the bulk operations *)

(** C23: [put_bulk] on a range of ids returns although it polls futures that
    answer before their replies, stores each object under its id and nothing
    else, and [get_bulk] on the range gives the objects back in order. *)
Theorem put_bulk_then_get_bulk start last data n w m pf :
  rep (length data + (length data + n)) w m pf -> is_u64 start -> is_u64 (last + 1) ->
  data <> [] -> last - start + 1 = Z.of_nat (length data) -> Forall storable data ->
  exists w1 w2 m' pf', remote_put_bulk fuel k start last data w = (w1, Ok tt) /\
    remote_get_bulk fuel k start last w1 = (w2, Ok data) /\ rep n w2 m' pf' /\
    forall o, m' !! o = put_range start data m o.
Proof.
  intros Hr Hs Hl Hne Hn Hd.
  destruct (put_bulk_ok start last data _ w m pf Hr Hs Hl Hne Hn Hd)
    as (w1 & m' & pf1 & Hput & Hr1 & _ & Hm').
  destruct (get_bulk_ok start last data n w1 m' pf1 Hr1 Hs Hl Hne Hn)
    as (w2 & pf2 & Hget & Hr2 & _); [|by exists w1, w2, m', pf2].
  intros i v Hv. rewrite Hm'. unfold put_range. apply lookup_lt_Some in Hv as Hi.
  rewrite decide_True by lia. by replace (Z.to_nat _) with i by lia.
Qed.

(** C24: [removeBulk] on a range of ids below the greatest id removes exactly
    the ids of the range, present or not. *)
Theorem removeBulk_removes first last n r w m pf :
  rep (Z.to_nat (last - first + 1) + n) w m pf -> is_u64 first -> is_u64 (last + 1) ->
  first <= last -> (Z.to_nat (last - first + 1) <= r)%nat ->
  exists w' m', remote_removeBulk fuel k r first last w = (w', Ok tt) /\
    rep n w' m' pf /\
    forall o, m' !! o = if decide (first <= o <= last) then None else m !! o.
Proof.
  intros Hr Hf Hl Hle Hk. unfold remote_removeBulk, removeBulk.
  destruct (Z.ltb_spec last first) as [|_]; [lia|].
  by apply (remove_loop_ok (Z.to_nat (last - first + 1))); try done; lia.
Qed.

(** The system is a store in the sense of the cache manager. *)
Program Definition store_spec : @StoreSpec (sys B) T store_ops := {|
  st_rep := rep;
  st_obj := storable;
  st_get := rep_get;
  st_put := rep_put;
  st_remove := rep_remove;
  st_get_async := rep_get_async;
  st_get_future := rep_get_future;
|}.
Next Obligation.
  intros n w m pf (D & R & Q & U & Hp & Hr & Hq).
  exists D, R, Q, U. split_and!; [done|by apply hist_rep_weaken|lia].
Qed.
Next Obligation.
  intros n w m pf oid v Hr Hoid [Hok Hv].
  apply (rep_issue n w m pf (OpWrite oid v) PPut Hr (conj Hoid Hv) Hok).
  intros hist Hh. by apply (write_fulfils n _ _ _ _ _ Hh).
Qed.
Next Obligation.
  intros n w m pf f Hr Hf.
  destruct (rep_wait n w m pf f _ Hr Hf) as (w' & _ & _ & Hw & _ & _ & _ & Hr'). eauto.
Qed.

(** The client's futures are polled as the interface says: the lock of a future
    that nobody has polled is free, or its reply is there. *)
#[program] Definition store_poll : @PollSpec (sys B) T store_ops := {|
  unpolled F w := forall f, f ∈ F -> exists d, futures w !! f = Some d /\
    (result_available d = true \/ sem d = false);
|}.
Next Obligation.
  intros F w f HF Hf. destruct (HF f Hf) as (d & Hd & Hpoll). simpl.
  destruct (result_available d) eqn:Ha.
  - exists w. split; [|set_solver]. unfold put_future_try_wait, ClientFuture.try_wait.
    mstep (deref_ok f d w Hd). by rewrite Ha.
  - destruct Hpoll as [?|Hs]; [done|].
    eexists. split; [by apply (try_wait_fresh f d)|].
    intros g [Hg Hne]%elem_of_difference. rewrite elem_of_singleton in Hne.
    destruct (HF g Hg) as (d' & Hd' & Hp'). exists d'. split; [|done].
    simpl. by rewrite list_lookup_insert_ne.
Qed.
End instance.

(** ** Witnesses *)

(** Closed goals on the sizes of requests. *)
Ltac sizes :=
  repeat match goal with
  | |- _ /\ _ => split
  | |- Forall _ [] => constructor
  | |- Forall _ (_ :: _) => apply Forall_cons
  | |- NoDup _ => apply (bool_decide_unpack _); vm_compute; exact I
  | |- True => exact I
  | |- storable _ _ => split
  | |- ser_ok _ => exact I
  | |- _ <> _ => discriminate
  | |- forall _, _ => let vs := fresh in let Hvs := fresh in intros vs Hvs;
      vm_compute in Hvs; injection Hvs as <-; vm_compute; congruence
  | _ => progress (unfold is_u64, is_u32, WriteUnits.small; simpl)
  end; try lia.

(** One more request of the client of System.v's witnesses. *)
Ltac demo_can_request :=
  split; [sizes|]; split; [simpl; lia|]; intros i r Hi;
  repeat (destruct i as [|i];
    [injection Hi as <-;
     split; [sizes|]; split; [sizes|]; split; [vm_compute; reflexivity|];
     split; [vm_compute; reflexivity|]; apply Nat.leb_le; vm_compute; reflexivity|]); done.

Lemma put_then_get_witness :
  exists w1 w2, remote_put (T := bytes) 200 9 1 [x78; x79] demo_sys = (w1, Ok true) /\
    remote_get (T := bytes) 200 9 1 w1 = (w2, Ok [x78; x79]) /\
    idle 200 10 demo_a [RWrite 1 [x78; x79]; RRead 1] w2.
Proof.
  refine (put_then_get (T := bytes) 200 10 demo_a [] demo_sys 1 [x78; x79] 9 _ _ _ _ _ _ _).
  - exact demo_initial.
  - demo_can_request.
  - demo_can_request.
  - vm_compute. reflexivity.
  - exact I.
  - simpl. lia.
  - simpl. lia.
Defined.

Lemma bulk_put_then_bulk_get_witness :
  exists w1 w2,
    remote_put_bulk_fast (T := bytes) 200 9 [3; 1] [[x78]; [x79; x7a]] demo_sys = (w1, Ok tt) /\
    remote_get_bulk_fast (T := bytes) 200 9 [3; 1] w1 = (w2, Ok [[x78]; [x79; x7a]]).
Proof.
  refine (bulk_put_then_bulk_get (T := bytes) 200 10 demo_a [] demo_sys
            [(3, [x78]); (1, [x79; x7a])] 9 _ _ _ _ _ _ _).
  - exact demo_initial.
  - apply (bool_decide_unpack _). vm_compute. exact I.
  - sizes.
  - demo_can_request.
  - demo_can_request.
  - vm_compute. reflexivity.
  - simpl. lia.
Defined.
(** A server with a pool of 1000 bytes that holds one object. *)
Definition demo_objects : gmap Z bytes := {[1 := [x61; x62; x63; x64]]}.
Definition demo_server : TCPServer.t MemoryBackend.t :=
  TCPServer.mk 12345 3 1000 4 2 1 [mk_pollfd 3 1 0; mk_pollfd (-1) 1 0]
    (MemoryBackend.mk demo_objects 0 1000).
Definition demo_system : sys MemoryBackend.t :=
  mk_sys demo_client demo_server (mk_socket [] StreamOpen [] [] true).

Lemma demo_system_initial : initial 200 1000 (mk_a 4 demo_objects) demo_system.
Proof. split; try done; try (simpl; intros; lia); split; constructor. Qed.

Lemma demo_pool_ok : pool_ok 1000.
Proof. split; lia. Qed.
Lemma demo_fuel : (4 + 2 * (fb_overhead + 8) <= 200)%nat.
Proof. apply Nat.leb_le. reflexivity. Qed.
Lemma demo_size : Z.of_nat (fb_overhead + 8) < 2 ^ 31.
Proof. reflexivity. Qed.

Abbreviation demo_rep := (rep (T := bytes) 200 50 1000 (mk_a 4 demo_objects) 8).

(** Room for 20 requests on objects of 8 bytes. *)
Lemma demo_system_rep n : (n <= 20)%nat -> demo_rep n demo_system demo_objects ∅.
Proof.
  intros Hn. exists [], [], [], []. split; [exact demo_system_initial|].
  split; [|unfold TCPClient.SEND_QUEUE_SIZE; simpl; lia]. split; [| |done|done].
  - split; [simpl; lia|simpl; lia|split; [reflexivity|vm_compute; congruence]| |].
    + simpl. change (total demo_objects) with 4. lia.
    + intros oid v. simpl. unfold demo_objects. intros [<- <-]%lookup_singleton_Some.
      simpl. lia.
  - intros oid _. simpl. by destruct (demo_objects !! oid).
Qed.

Lemma put_bulk_then_get_bulk_witness :
  exists w1 w2 m' pf',
    remote_put_bulk (T := bytes) 200 50 1 3 [[x78]; [x79]; [x7a; x7a]] demo_system =
      (w1, Ok tt) /\
    remote_get_bulk (T := bytes) 200 50 1 3 w1 = (w2, Ok [[x78]; [x79]; [x7a; x7a]]) /\
    demo_rep 0 w2 m' pf' /\
    forall o, m' !! o = put_range 1 [[x78]; [x79]; [x7a; x7a]] demo_objects o.
Proof.
  apply (put_bulk_then_get_bulk (T := bytes) 200 50 1000 (mk_a 4 demo_objects) 8
           demo_pool_ok demo_fuel demo_size 1 3 [[x78]; [x79]; [x7a; x7a]] 0
           demo_system demo_objects ∅).
  - apply demo_system_rep. simpl. lia.
  - split; lia.
  - split; lia.
  - discriminate.
  - reflexivity.
  - sizes.
Defined.

Lemma removeBulk_removes_witness :
  exists w' m', remote_removeBulk 200 50 10 1 4 demo_system = (w', Ok tt) /\
    demo_rep 2 w' m' ∅ /\
    forall o, m' !! o = if decide (1 <= o <= 4) then None else demo_objects !! o.
Proof.
  apply (removeBulk_removes (T := bytes) 200 50 1000 (mk_a 4 demo_objects) 8
           demo_pool_ok demo_fuel demo_size 1 4 2 10 demo_system demo_objects ∅).
  - apply demo_system_rep. apply Nat.leb_le. reflexivity.
  - split; lia.
  - split; lia.
  - lia.
  - apply Nat.leb_le. reflexivity.
Defined.

Lemma removeBulk_never_ends_witness :
  remote_removeBulk 200 50 10 1 (2 ^ 64 - 1) demo_system <> (demo_system, Ok tt).
Proof. apply (removeBulk_never_ends 200 50 10 1 demo_system demo_system). split; lia. Defined.
End RemoteStore.
