(* ===== verification/EndToEnd.v ===== *)
(** * The whole program

    The cache manager (CacheManager.v) over FullBladeObjectStore on the network
    (RemoteStore.v): the theorem about the cache, proved against the interface
    [StoreSpec], applied to the implementation of the interface. *)

From stdpp Require Import gmap list strings.
From S2P Require Import Prelude Common Eviction Storage Wire Codec BladeClient.
From S2P Require Import TCPClient TCPServer System ObjectStore CacheManager RemoteStore.

Module EndToEnd.
Import TCPServer System CacheManager RemoteStore.

Section end_to_end.
Context {B : Type} `{StorageSpec B} `{FlatbuffersSpec} `{!FlatbuffersSize}.
Context {T : Type} `{Serializer T, Deserializer T}.
Context `{!SerializerSpec T, !DeserializerSpec T}.
Context {P C : Type} `{TrackingPolicy P} `{PrefetchPolicy C T}.
Context (fuel k : nat) (max_object : nat) (dflt : T).

(** The program's parts as one state: the cache, over the system of client,
    network and server. *)
Abbreviation program := (CacheManager.t T (sys B) P C).

#[local] Instance program_store : ObjectStore (sys B) T :=
  RemoteStore.store_ops (T := T) fuel k.

Definition run_program (os : list (cop (T := T))) : M program (list (option T)) :=
  mmap os (run_cop dflt).

(** The limits of a run of [n] requests on objects of [max_object] bytes: the
    sizes of messages, the pool, the send queue, the caller's patience. *)
Record within_limits (pool : Z) (a : astate) (n : nat) : Prop := {
  wl_pool_ok : pool_ok pool;
  wl_fuel : (4 + 2 * (fb_overhead + max_object) <= fuel)%nat;
  wl_size : Z.of_nat (fb_overhead + max_object) < 2 ^ 31;
  wl_queue : Z.of_nat n <= TCPClient.SEND_QUEUE_SIZE;
  wl_spin : (S n < k)%nat;
  wl_accounted : accounted pool a;
  wl_pool : total (a_map a) + Z.of_nat (n * max_object) <= pool;
}.

(** The admissible operations: ids of 64 bits, objects of admissible size. *)
Definition cop_fits (o : cop (T := T)) : Prop :=
  match o with
  | CGet oid => is_u64 oid
  | CPut oid v => is_u64 oid /\ storable max_object v
  | CRemove oid => is_u64 oid
  end.

(** A client that has just connected to a server with the objects of [m]. *)
Lemma initial_rep pool a0 w m n : initial fuel pool a0 w ->
  a_map a0 = ser_serialize <$> m -> map_Forall (fun _ v => storable max_object v) m ->
  within_limits pool a0 n ->
  RemoteStore.rep (T := T) fuel k pool a0 max_object n w m ∅.
Proof.
  intros Hw Ha Hm [Hpok Hfuel Hsize Hqueue Hspin Hacc Hpool].
  exists [], [], [], []. split; [done|]. split; [|simpl; lia].
  split; [|intros oid _|intros oid v Hv; by apply (Hm oid v)|done].
  - unfold TCPClient.SEND_QUEUE_SIZE in Hqueue.
    split; [simpl; lia|simpl; lia|done|exact Hpool|]. simpl. rewrite Ha. intros oid v.
    rewrite lookup_fmap. intros (obj & Hobj & ->)%fmap_Some. by apply (Hm oid obj).
  - simpl. by rewrite Ha, lookup_fmap.
Qed.

End end_to_end.

(** ** Witness *)

(** A custom policy that prefetches nothing. *)
#[local] Instance no_prefetch : PrefetchPolicy unit bytes := {| pp_get _ _ := ret [] |}.

(** A cache of two entries with deferred writes. *)
Definition demo_cache : CacheManager.t bytes (sys MemoryBackend.t) LRAdded.state unit :=
  CacheManager.mk ∅ 0 [] 2 (LRAdded.init 2) POff (OrderedPolicy.mk 5 0 0) None true
    demo_system.

Definition demo_cops : list (cop (T := bytes)) :=
  [CGet 1; CPut 2 [x78]; CPut 3 [x79]; CPut 1 [x7a]; CGet 2; CRemove 3; CGet 1].

End EndToEnd.
