(* ===== verification/Double.v ===== *)
(** * [double]

    An IEEE 754 binary64 number as the 64 bits that the machine keeps, with the
    arithmetic of the Standard Library's specification of floating-point
    numbers (SpecFloat: round to nearest, ties to even, each operation rounded on its
    own).  [decode] and [encode] go between the bits and the specification. *)

From stdpp Require Import base numbers.
From Stdlib Require Import ZArith Lia SpecFloat.
From S2P Require Import Prelude.

Module Double.

(** The bits of a number: sign, 11 bits of exponent, 52 bits of mantissa. *)
Abbreviation double := Z (only parsing).
Definition prec : Z := 53.
Definition emax : Z := 1024.

Definition sign_bit (d : double) : bool := 1 <=? Z.shiftr d 63.
Definition exponent_bits (d : double) : Z := Z.shiftr d 52 mod 2048.
Definition mantissa_bits (d : double) : Z := d mod 2 ^ 52.

Definition decode (d : double) : spec_float :=
  let s := sign_bit d in
  let e := exponent_bits d in
  let m := mantissa_bits d in
  if e =? 2047 then (if m =? 0 then S754_infinity s else S754_nan)
  else if e =? 0 then
    match m with Zpos p => S754_finite s p (-1074) | _ => S754_zero s end
  else
    match m + 2 ^ 52 with
    | Zpos p => S754_finite s p (e - 1075)
    | _ => S754_zero s
    end.

Definition bits (s : bool) (e m : Z) : double :=
  u64 ((if s then 2 ^ 63 else 0) + e * 2 ^ 52 + m).

(** A NaN is the quiet one that the operations of the machine produce. *)
Definition encode (x : spec_float) : double :=
  match x with
  | S754_zero s => bits s 0 0
  | S754_infinity s => bits s 2047 0
  | S754_nan => bits false 2047 (2 ^ 51)
  | S754_finite s m e =>
      if Zpos m <? 2 ^ 52 then bits s 0 (Zpos m) else bits s (e + 1075) (Zpos m - 2 ^ 52)
  end.

Definition add (x y : double) : double := encode (SFadd prec emax (decode x) (decode y)).
Definition sub (x y : double) : double := encode (SFsub prec emax (decode x) (decode y)).
Definition mul (x y : double) : double := encode (SFmul prec emax (decode x) (decode y)).
Definition div (x y : double) : double := encode (SFdiv prec emax (decode x) (decode y)).
Definition abs (x : double) : double := encode (SFabs (decode x)).
Definition ltb (x y : double) : bool := SFltb (decode x) (decode y).

(** [==], [-x], [std::sqrt]. *)
Definition eqb (x y : double) : bool := SFeqb (decode x) (decode y).
Definition opp (x : double) : double := encode (SFopp (decode x)).
Definition sqrt (x : double) : double := encode (SFsqrt prec emax (decode x)).

(** [std::isnan], [std::isinf], and [floor(x) == x]. *)
Definition isnan (x : double) : bool :=
  match decode x with S754_nan => true | _ => false end.
Definition isinf (x : double) : bool :=
  match decode x with S754_infinity _ => true | _ => false end.
Definition is_integer (x : double) : bool :=
  match decode x with
  | S754_nan => false
  | S754_finite _ m e => (0 <=? e) || (Zpos m mod 2 ^ (- e) =? 0)
  | _ => true
  end.

(** The conversion to a signed integer type of 64 bits: towards zero, and
    undefined for what does not fit. *)
Definition to_i64 (x : double) : option Z :=
  match decode x with
  | S754_zero _ => Some 0
  | S754_finite s m e =>
      let v := if s then - Z.shiftl (Zpos m) e else Z.shiftl (Zpos m) e in
      if (- 2 ^ 63 <=? v) && (v <? 2 ^ 63) then Some v else None
  | _ => None
  end.

(** The number nearest to [+-n * 10^e]. *)
Definition of_decimal (s : bool) (n : positive) (e : Z) : double :=
  encode (if 0 <=? e then
    binary_normalize prec emax ((if s then -1 else 1) * Zpos n * 10 ^ e) 0 s
  else
    SFdiv prec emax (S754_finite s n 0) (S754_finite false (Z.to_pos (10 ^ (- e))) 0)).

(** [static_cast<double>(n)] of an unsigned integer. *)
Definition of_uint (n : Z) : double :=
  match n with
  | Zpos p => encode (binary_normalize prec emax n 0 false)
  | _ => 0
  end.

(** The literals of the programs: 0.0, 1.0, 0.85 and 1e-05. *)
Definition zero : double := 0x0.
Definition one : double := 0x3ff0000000000000.
Definition c_0_85 : double := 0x3feb333333333333.
Definition c_1e_5 : double := 0x3ee4f8b588e368f1.

(** ** Bits and numbers *)

Lemma bits_fields s e m : 0 <= e < 2048 -> 0 <= m < 2 ^ 52 ->
  sign_bit (bits s e m) = s /\ exponent_bits (bits s e m) = e /\
  mantissa_bits (bits s e m) = m.
Proof.
  intros He Hm. unfold bits. rewrite u64_small by (unfold is_u64; destruct s; lia).
  unfold sign_bit, exponent_bits, mantissa_bits.
  set (h := if s then 2 ^ 63 else 0).
  assert (Hh : h = (if s then 1 else 0) * 2 ^ 11 * 2 ^ 52) by (by destruct s).
  assert (Hq : (h + e * 2 ^ 52 + m) / 2 ^ 52 = (if s then 1 else 0) * 2 ^ 11 + e).
  { rewrite Hh. replace (_ + _ + m) with (m + ((if s then 1 else 0) * 2 ^ 11 + e) * 2 ^ 52) by ring.
    rewrite Z.div_add, Z.div_small by lia. lia. }
  rewrite !Z.shiftr_div_pow2 by lia. split_and!.
  - change 63 with (52 + 11). rewrite Z.pow_add_r, <- Z.div_div, Hq by lia.
    rewrite Z.div_add_l, Z.div_small by lia. by destruct s.
  - rewrite Hq, Z.add_comm, Z_mod_plus_full. apply Z.mod_small. lia.
  - rewrite Hh. replace (_ + _ + m) with (m + ((if s then 1 else 0) * 2 ^ 11 + e) * 2 ^ 52) by ring.
    rewrite Z_mod_plus_full. by apply Z.mod_small.
Qed.

Lemma encode_range x : is_u64 (encode x).
Proof. destruct x; cbn [encode]; try case_match; apply u64_range. Qed.

Lemma digits_bounds p : 2 ^ (Zpos (digits2_pos p) - 1) <= Zpos p < 2 ^ Zpos (digits2_pos p).
Proof.
  induction p as [p IH|p IH|]; cbn [digits2_pos]; [| |lia];
    rewrite Pos2Z.inj_succ; set (d := Zpos (digits2_pos p)) in *; unfold Z.succ;
    rewrite Z.add_simpl_r, Z.pow_add_r by lia;
    assert (2 ^ d = 2 * 2 ^ (d - 1)) by (rewrite <- Z.pow_succ_r by lia; f_equal; lia); lia.
Qed.

(** A number that binary64 can hold keeps its value. *)
Lemma decode_encode x : valid_binary prec emax x = true -> decode (encode x) = x.
Proof.
  destruct x as [s|s| |s m e]; cbn [encode valid_binary]; intros Hv.
  1,2: edestruct (bits_fields s) as (Hs & He & Hm);
    [| |unfold decode; rewrite Hs, He, Hm; done]; lia.
  - reflexivity.
  - unfold bounded, canonical_mantissa, fexp, SpecFloat.emin, prec, emax in Hv.
    apply andb_true_iff in Hv as [Hc Hle]. apply Z.eqb_eq in Hc. apply Z.leb_le in Hle.
    pose proof (digits_bounds m) as [Hlo Hhi]. set (d := Zpos (digits2_pos m)) in *.
    assert (Hd : 1 <= d) by lia.
    assert (Hd53 : d <= 53) by lia.
    assert (Hm53 : Zpos m < 2 ^ 53).
    { eapply Z.lt_le_trans; [exact Hhi|]. apply Z.pow_le_mono_r; lia. }
    destruct (Z.ltb_spec (Zpos m) (2 ^ 52)) as [Hsub|Hnorm].
    + assert (e = -1074) as ->.
      { destruct (Z.eq_dec d 53) as [Hd'|]; [|lia]. rewrite Hd' in Hlo. simpl in Hlo. lia. }
      destruct (bits_fields s 0 (Zpos m)) as (Hs & He & Hm); [lia|lia|].
      unfold decode. by rewrite Hs, He, Hm.
    + assert (d = 53) as Hd'.
      { destruct (Z.eq_dec d 53); [done|]. exfalso.
        assert (Zpos m < 2 ^ 52); [|lia]. eapply Z.lt_le_trans; [exact Hhi|].
        apply Z.pow_le_mono_r; lia. }
      destruct (bits_fields s (e + 1075) (Zpos m - 2 ^ 52)) as (Hs & He & Hm); [lia|lia|].
      unfold decode. rewrite Hs, He, Hm.
      destruct (Z.eqb_spec (e + 1075) 2047), (Z.eqb_spec (e + 1075) 0); try lia.
      replace (Zpos m - 2 ^ 52 + 2 ^ 52) with (Zpos m) by lia. f_equal. lia.
Qed.

(** The arithmetic on the literals. *)
Example literals_ok :
  of_uint 1 = one /\ sub one one = zero /\ div one (of_uint 2) = 0x3fe0000000000000 /\
  div (of_uint 17) (of_uint 20) = c_0_85 /\ div one (of_uint 100000) = c_1e_5 /\
  ltb zero c_1e_5 = true /\ abs (sub zero one) = one /\
  of_decimal false 85 (-2) = c_0_85 /\ of_decimal false 1 (-5) = c_1e_5 /\
  of_decimal true 25 (-1) = opp (add one (div (of_uint 3) (of_uint 2))) /\
  isinf (of_decimal true 1 400) = true /\ isnan (div zero zero) = true /\
  is_integer (of_decimal false 3000 (-3)) = true /\ is_integer c_0_85 = false /\
  to_i64 (of_decimal true 37 (-1)) = Some (-3) /\ to_i64 (of_uint (2 ^ 63)) = None /\
  eqb zero (opp zero) = true /\ sqrt (of_uint 9) = of_uint 3.
Proof. vm_compute. done. Qed.
End Double.
