(* ===== verification/GraphVertex.v ===== *)
(** * Vertices of the graph programs ([examples/graphs])

    The two classes [Vertex] with their serialisers (wcc/Vertex.h and .cpp,
    page_rank/Vertex.h and .cpp), and [readGraph] (Input.cpp of both).  A
    [std::set<int>] is the list of its elements in increasing order; an [int] is
    an integer that the code converts where it is stored.  A file is what
    [operator>>] finds in it: numerals and other text. *)

From stdpp Require Import gmap list strings pretty sorting.
From S2P Require Import Prelude Common BladeClient ObjectStore.

(** ** [std::set<int>] *)

Module IntSet.

Fixpoint insert (x : Z) (l : list Z) : list Z :=
  match l with
  | [] => [x]
  | y :: l =>
      if x <? y then x :: y :: l
      else if x =? y then y :: l
      else y :: insert x l
  end.

Definition mem (x : Z) (l : list Z) : bool := bool_decide (x ∈ l).

(** Increasing [int]s. *)
Definition is_i32 (z : Z) : Prop := - 2 ^ 31 <= z < 2 ^ 31.
#[global] Instance is_i32_dec z : Decision (is_i32 z).
Proof. unfold is_i32. apply _. Defined.
Definition wf (l : list Z) : Prop := StronglySorted Z.lt l /\ Forall is_i32 l.

Lemma elem_of_insert x y l : y ∈ insert x l <-> y = x \/ y ∈ l.
Proof.
  induction l as [|z l IH]; simpl; [set_solver|].
  destruct (Z.ltb_spec x z); [set_solver|].
  destruct (Z.eqb_spec x z) as [->|]; set_solver.
Qed.

Lemma insert_sorted x l : StronglySorted Z.lt l -> StronglySorted Z.lt (insert x l).
Proof.
  induction 1 as [|z l Hl IH Hz]; simpl; [repeat constructor|].
  destruct (Z.ltb_spec x z).
  - constructor; [by constructor|]. constructor; [done|].
    eapply Forall_impl; [exact Hz|]. simpl. lia.
  - destruct (Z.eqb_spec x z) as [->|Hne]; [by constructor|]. constructor; [done|].
    apply Forall_forall. intros y [->|Hy]%elem_of_insert; [lia|].
    rewrite Forall_forall in Hz. auto.
Qed.

Lemma insert_wf x l : is_i32 x -> wf l -> wf (insert x l).
Proof.
  intros Hx [Hs Hl]. split; [by apply insert_sorted|]. apply Forall_forall.
  intros y [->|Hy]%elem_of_insert; [done|]. rewrite Forall_forall in Hl. auto.
Qed.

(** An element greater than all others goes to the end. *)
Lemma insert_greatest x l : Forall (fun y => y < x) l -> insert x l = l ++ [x].
Proof.
  induction 1 as [|y l Hy Hl IH]; [done|]. simpl.
  destruct (Z.ltb_spec x y); [lia|]. destruct (Z.eqb_spec x y); [lia|]. by rewrite IH.
Qed.

(** Inserting elements in increasing order gives back their list. *)
Lemma insert_all l pre : StronglySorted Z.lt (pre ++ l) ->
  fold_left (fun s x => insert x s) l pre = pre ++ l.
Proof.
  revert pre. induction l as [|x l IH]; intros pre Hs; simpl; [by rewrite app_nil_r|].
  rewrite insert_greatest.
  - rewrite IH; rewrite <- app_assoc; [done|exact Hs].
  - apply Forall_forall. intros y Hy.
    eapply StronglySorted_app_1_elem_of; [exact Hs|done|left].
Qed.
End IntSet.

(** ** Words in network order *)

(** [*ptr++ = htonl(z);] on a [uint32_t*]. *)
Definition put_word (z : Z) : bytes := le_bytes 4 (htonl z).

(** [ntohl( *ptr++ )] *)
Definition get_word (ptr : bytes) : outcome (Z * bytes) :=
  outcome_bind (read_at 0 4 ptr) (fun w => Ok (ntohl (le_val w), drop 4 ptr)).

(** [for (uint32_t i = 0; i < n; ++i) v.addNeighbor(ntohl( *ptr++ ));] *)
Fixpoint get_neighbors (n : nat) (ptr : bytes) (neighbors : list Z) : outcome (list Z) :=
  match n with
  | O => Ok neighbors
  | S n =>
      outcome_bind (get_word ptr) (fun '(x, ptr) =>
      get_neighbors n ptr (IntSet.insert (i32 x) neighbors))
  end.

Lemma length_put_word z : length (put_word z) = 4%nat.
Proof. apply length_le_bytes. Qed.

Lemma get_put_word z rest : get_word (put_word z ++ rest) = Ok (u32 z, rest).
Proof.
  unfold get_word, put_word. pose proof (read_at_next [] (le_bytes 4 (htonl z)) rest) as Hr.
  rewrite length_le_bytes, app_nil_l in Hr. change (length []) with 0%nat in Hr.
  rewrite Hr. cbn [outcome_bind].
  rewrite le_val_le_bytes. change (256 ^ Z.of_nat 4) with (2 ^ 32).
  rewrite Z.mod_small by apply htonl_range.
  by rewrite ntohl_htonl.
Qed.

(** The conversions of an [int] to a word and back. *)
Lemma i32_u32 z : IntSet.is_i32 z -> i32 (u32 z) = z.
Proof.
  intros Hz. unfold i32, u32, IntSet.is_i32 in *. rewrite Zplus_mod_idemp_l.
  rewrite Z.mod_small; lia.
Qed.

Lemma get_put_neighbors l rest acc : Forall IntSet.is_i32 l ->
  get_neighbors (length l) (concat (put_word <$> l) ++ rest) acc =
    Ok (fold_left (fun s x => IntSet.insert x s) l acc).
Proof.
  intros Hl. revert acc. induction Hl as [|x l Hx Hl IH]; intros acc; [done|].
  cbn [length get_neighbors]. rewrite fmap_cons. cbn [concat]. rewrite <- app_assoc.
  rewrite get_put_word. cbn [outcome_bind fold_left]. rewrite i32_u32 by done. apply IH.
Qed.

Lemma length_put_words l : length (concat (put_word <$> l)) = (4 * length l)%nat.
Proof.
  induction l as [|x l IH]; [done|]. rewrite fmap_cons. cbn [concat length].
  rewrite length_app, length_put_word, IH. lia.
Qed.

(** ** wcc/Vertex.h *)

Module WccVertex.

Record t := mk { seen : bool; cc : Z; neighbors : list Z; id : Z }.

Definition ctor (id : Z) : t := mk false (-1) [] id.

Definition setId (i : Z) (v : t) : t := mk v.(seen) v.(cc) v.(neighbors) i.
Definition addNeighbor (x : Z) (v : t) : t :=
  mk v.(seen) v.(cc) (IntSet.insert x v.(neighbors)) v.(id).
Definition setNeighbors (l : list Z) (v : t) : t :=
  fold_left (fun v i => addNeighbor i v) l v.
Definition ctor_neighbors (id : Z) (l : list Z) : t := setNeighbors l (ctor id).
Definition getNeighborsSize (v : t) : Z := Z.of_nat (length v.(neighbors)).
Definition hasNeighbor (x : Z) (v : t) : bool := IntSet.mem x v.(neighbors).

(** The public fields. *)
Definition set_seen (b : bool) (v : t) : t := mk b v.(cc) v.(neighbors) v.(id).
Definition set_cc (c : Z) (v : t) : t := mk v.(seen) c v.(neighbors) v.(id).

(** [VertexSerializer::size] and [serialize]; the number of distinct [int]s is
    at most 2^32, and the sum of 64 bits does not wrap around. *)
Definition size (v : t) : Z := 4 * 2 + 4 * getNeighborsSize v.
Definition serialize (v : t) : bytes :=
  put_word v.(id) ++ put_word (getNeighborsSize v) ++ concat (put_word <$> v.(neighbors)).

(** [Vertex::deserializer]; [sizeof(uint32_t) * (2 + n)] has 64 bits, [2 + n] and
    [expected_size] have 32. *)
Definition deserializer (data : bytes) (size : Z) : outcome t :=
  outcome_bind (get_word data) (fun '(id, ptr) =>
  outcome_bind (get_word ptr) (fun '(n, ptr) =>
  let expected_size := u32 (4 * u32 (2 + n)) in
  if negb (size =? expected_size) then
    Throw (RuntimeError ("Incorrect size: " +:+ pretty size))
  else
    outcome_bind (get_neighbors (Z.to_nat n) ptr []) (fun neighbors =>
    Ok (mk false (-1) neighbors (i32 id))))).

#[global] Instance serializer : Serializer t :=
  { ser_size := size; ser_serialize := serialize }.
#[global] Instance des : Deserializer t := { deserialize := deserializer }.

Lemma length_serialize v : length (serialize v) = (8 + 4 * length (neighbors v))%nat.
Proof. unfold serialize. rewrite !length_app, !length_put_word, length_put_words. lia. Qed.

#[global] Instance serializer_spec : SerializerSpec t.
Proof.
  split. intros v. cbn. rewrite length_serialize. unfold size, getNeighborsSize. lia.
Qed.

(** The values that a vertex can have, with a size that [unsigned int] holds. *)
Definition wf (v : t) : Prop :=
  IntSet.wf v.(neighbors) /\ IntSet.is_i32 v.(id) /\
  8 + 4 * Z.of_nat (length v.(neighbors)) < 2 ^ 32.

(** What is left of a vertex after serialisation. *)
Definition clean (v : t) : t := mk false (-1) v.(neighbors) v.(id).

Lemma deserialize_clean v rest : wf v ->
  deserializer (serialize v ++ rest) (Z.of_nat (length (serialize v))) = Ok (clean v).
Proof.
  intros ((Hs & Hl) & Hid & Hsz). rewrite length_serialize. unfold deserializer, serialize.
  rewrite <- !app_assoc, get_put_word. cbn [outcome_bind].
  rewrite get_put_word. cbn [outcome_bind]. unfold getNeighborsSize.
  rewrite (u32_small (Z.of_nat _)), (u32_small (2 + _)), u32_small by (split; lia).
  replace (_ =? _) with true by (symmetry; apply Z.eqb_eq; lia). cbn [negb].
  rewrite Nat2Z.id, get_put_neighbors by done. cbn [outcome_bind].
  rewrite i32_u32 by done. by rewrite IntSet.insert_all.
Qed.

#[global] Program Instance des_spec : DeserializerSpec t :=
  { ser_ok v := wf v /\ clean v = v }.
Next Obligation.
  intros v rest [Hwf Hc]. cbn. rewrite <- Hc at 3. by apply deserialize_clean.
Qed.

Lemma serialize_clean v : serialize (clean v) = serialize v.
Proof. done. Qed.
End WccVertex.

(** ** Input.cpp *)

(** What [operator>>] finds next: a numeral, or text that is none. *)
Inductive token := Num (z : Z) | Text.

Module Ifstream.

Record t := mk { tokens : list token; failed : bool }.

Definition int_max : Z := 2 ^ 31 - 1.
Definition int_min : Z := - 2 ^ 31.

(** [infile >> x], [x] being [None] as long as it is not initialised.  A stream
    that has failed, or is at its end, leaves [x] as it is; text sets it to 0, a
    numeral that is no [int] to the closest one. *)
Definition extract (x : option Z) : M t (option Z) := fun s =>
  if s.(failed) then (s, Ok x) else
  match s.(tokens) with
  | [] => (mk [] true, Ok x)
  | Text :: ts => (mk (Text :: ts) true, Ok (Some 0))
  | Num z :: ts =>
      if z <? int_min then (mk ts true, Ok (Some int_min))
      else if int_max <? z then (mk ts true, Ok (Some int_max))
      else (mk ts false, Ok (Some z))
  end.

(** Using a value that was not initialised is undefined. *)
Definition use (x : option Z) : M t Z :=
  match x with Some z => ret z | None => undefined end.

Definition extract_int (x : option Z) : M t Z := let* y := extract x in use y.

Lemma extract_num x z ts : IntSet.is_i32 z ->
  extract_int x (mk (Num z :: ts) false) = (mk ts false, Ok z).
Proof.
  intros [H1 H2]. unfold extract_int, bind, extract. simpl.
  destruct (Z.ltb_spec z int_min) as [|_]; [unfold int_min in *; lia|].
  by destruct (Z.ltb_spec int_max z) as [|_]; [unfold int_max in *; lia|].
Qed.
End Ifstream.

Module Input.
Import Ifstream.
Section input.
(** [Vertex v(j)] and [v.addNeighbor(x)] of either program. *)
Context {V : Type} (ctor : Z -> V) (addNeighbor : Z -> V -> V).

(** The inner loop: [for (int i = 0; i < num_edges_per_vertex; ++i)]. *)
Fixpoint read_neighbors (n : nat) (v : V) : M Ifstream.t V :=
  match n with
  | O => ret v
  | S n =>
      let* neigh_id := extract_int None in
      read_neighbors n (addNeighbor neigh_id v)
  end.

(** The outer loop, from vertex [j] on. *)
Fixpoint read_vertices (n : nat) (j : Z) (vertices : list V) : M Ifstream.t (list V) :=
  match n with
  | O => ret vertices
  | S n =>
      let* num_edges_per_vertex := extract_int (Some (-1)) in
      let* v := read_neighbors (Z.to_nat num_edges_per_vertex) (ctor j) in
      read_vertices n (j + 1) (vertices ++ [v])
  end.
End input.

(** wcc/Input.cpp, on a file that is there or not. *)
Definition wcc_readGraph (fname : string) (file : option (list token))
    : outcome (list WccVertex.t) :=
  match file with
  | None => Throw (RuntimeError ("Error opening file: " +:+ fname))
  | Some ts =>
      ((let* num_vertices := extract_int (Some (-1)) in
        let* num_edges := extract_int (Some (-1)) in
        if ((num_vertices <? 0) || (num_edges <? 0))%bool then
          throw (RuntimeError "Wrong input values")
        else
          read_vertices WccVertex.ctor WccVertex.addNeighbor (Z.to_nat num_vertices) 0 [])
       (Ifstream.mk ts false)).2
  end.

(** The file of a graph: the format that the comment of [readGraph] gives. *)
Definition graph_file (num_edges : Z) (adj : list (list Z)) : list token :=
  Num (Z.of_nat (length adj)) :: Num num_edges ::
  concat ((fun l => Num (Z.of_nat (length l)) :: (Num <$> l)) <$> adj).

(** The adjacency lists that a file can hold. *)
Definition file_ok (num_edges : Z) (adj : list (list Z)) : Prop :=
  0 <= num_edges < 2 ^ 31 /\ Z.of_nat (length adj) < 2 ^ 31 /\
  Forall (fun l => IntSet.wf l /\ Z.of_nat (length l) < 2 ^ 31) adj.

(** The vertices of adjacency lists, from vertex [j] on. *)
Definition wcc_vertices (j : Z) (adj : list (list Z)) : list WccVertex.t :=
  imap (fun i l => WccVertex.mk false (-1) l (j + Z.of_nat i)) adj.

Section reading.
Context {V : Type} (ctor : Z -> V) (addNeighbor : Z -> V -> V).
(** A vertex with the neighbours of a list. *)
Let vertex (j : Z) (l : list Z) : V := fold_left (fun v x => addNeighbor x v) l (ctor j).

Lemma read_neighbors_ok l ts v : Forall IntSet.is_i32 l ->
  read_neighbors addNeighbor (length l) v (Ifstream.mk ((Num <$> l) ++ ts) false) =
    (Ifstream.mk ts false, Ok (fold_left (fun v x => addNeighbor x v) l v)).
Proof.
  intros Hl. revert v. induction Hl as [|x l Hx Hl IH]; intros v; [done|].
  cbn [length read_neighbors]. rewrite fmap_cons. cbn [app].
  mstep (extract_num None x ((Num <$> l) ++ ts) Hx). apply IH.
Qed.

Lemma read_vertices_ok adj j acc : Forall (fun l => IntSet.wf l /\ Z.of_nat (length l) < 2 ^ 31) adj ->
  (read_vertices ctor addNeighbor (length adj) j acc
     (Ifstream.mk (concat ((fun l => Num (Z.of_nat (length l)) :: (Num <$> l)) <$> adj)) false)).2 =
    Ok (acc ++ imap (fun i l => vertex (j + Z.of_nat i) l) adj).
Proof.
  intros Hadj. revert j acc. induction Hadj as [|l adj [[_ Hl] Hlen] Hadj IH]; intros j acc.
  { simpl. by rewrite app_nil_r. }
  cbn [length read_vertices]. rewrite fmap_cons. cbn [concat app].
  mstep (extract_num (Some (-1)) (Z.of_nat (length l))
    ((Num <$> l) ++ concat ((fun l => Num (Z.of_nat (length l)) :: (Num <$> l)) <$> adj))
    ltac:(unfold IntSet.is_i32; lia)).
  rewrite Nat2Z.id. mstep (read_neighbors_ok l
    (concat ((fun l => Num (Z.of_nat (length l)) :: (Num <$> l)) <$> adj)) (ctor j) Hl).
  rewrite IH, <- app_assoc. cbn [imap app]. rewrite Z.add_0_r. do 3 f_equal.
  apply imap_ext. intros i x _. simpl. f_equal. lia.
Qed.
End reading.

(** Adding neighbours one by one. *)
Lemma wcc_vertex_of j l : StronglySorted Z.lt l ->
  fold_left (fun v x => WccVertex.addNeighbor x v) l (WccVertex.ctor j) =
    WccVertex.mk false (-1) l j.
Proof.
  intros Hs. assert (Hgen : forall nb, fold_left (fun v x => WccVertex.addNeighbor x v) l
    (WccVertex.mk false (-1) nb j) =
    WccVertex.mk false (-1) (fold_left (fun s x => IntSet.insert x s) l nb) j).
  { clear Hs. induction l as [|x l IH]; intros nb; [done|]. simpl. apply IH. }
  unfold WccVertex.ctor. by rewrite Hgen, IntSet.insert_all.
Qed.

Lemma wcc_readGraph_ok fname num_edges adj : file_ok num_edges adj ->
  wcc_readGraph fname (Some (graph_file num_edges adj)) = Ok (wcc_vertices 0 adj).
Proof.
  intros ((He1 & He2) & Hn & Hadj). unfold wcc_readGraph, graph_file.
  erewrite (bind_ok _ _ _ _ _ (extract_num (Some (-1)) (Z.of_nat (length adj)) _
    ltac:(unfold IntSet.is_i32; lia))).
  erewrite (bind_ok _ _ _ _ _ (extract_num (Some (-1)) num_edges _
    ltac:(unfold IntSet.is_i32; lia))).
  destruct (Z.ltb_spec (Z.of_nat (length adj)) 0), (Z.ltb_spec num_edges 0); try lia.
  cbn [orb]. rewrite Nat2Z.id, (read_vertices_ok _ _ adj 0 [] Hadj), app_nil_l.
  unfold wcc_vertices. f_equal. apply imap_ext. intros i l Hl.
  apply wcc_vertex_of. apply (Forall_lookup_1 _ _ _ _ Hadj Hl).
Qed.
End Input.
