(* ===== verification/Resident.v ===== *)
(** * A cache that never evicts

    The cache manager with room for all objects of an application: no entry is
    purged, so the cache returns exactly the objects that were put, also those
    that would not survive a trip through the store (serialisation may drop
    fields).  The store only has to accept the puts ([AcceptsPuts]), the policy
    not to purge while there is room ([FrugalPolicy]). *)

From stdpp Require Import gmap list strings.
From S2P Require Import Prelude Eviction BladeClient ObjectStore CacheManager.

(** A policy that purges nothing as long as there is room. *)
Class FrugalPolicy (P : Type) `{TrackingPolicy P} := {
  frugal_get p oid p' evs : ep_inv p ->
    Z.of_nat (size ({[oid]} ∪ ep_tracked p)) <= ep_capacity p ->
    ep_get oid p = (p', Ok evs) -> evs = [];
  frugal_put p oid p' evs : ep_inv p ->
    Z.of_nat (size ({[oid]} ∪ ep_tracked p)) <= ep_capacity p ->
    ep_put oid p = (p', Ok evs) -> evs = [];
}.

Lemma lradded_frugal p oid p' evs : LRAdded.wf p ->
  Z.of_nat (size ({[oid]} ∪ LRAdded.object_set p)) <= LRAdded.max_size p ->
  LRAdded.process_oid oid p = (p', Ok evs) -> evs = [].
Proof.
  intros (Hnd & Hset & _ & _) Hroom. unfold LRAdded.process_oid, bind, gets, modify, ret, id.
  simpl. destruct (decide (oid ∈ LRAdded.object_set p)) as [|Hno]; [by intros [= _ <-]|].
  rewrite size_union, size_singleton, Hset, size_list_to_set in Hroom by
    (done || (rewrite disjoint_singleton_l; by rewrite <- ?Hset)).
  destruct (Z.ltb_spec (LRAdded.max_size p) (Z.of_nat (length (LRAdded.object_deque p ++ [oid]))))
    as [Hlt|_]; simpl; [|by intros [= _ <-]].
  rewrite length_app in Hlt. simpl in Hlt. lia.
Qed.

#[global] Instance lradded_frugal_policy : FrugalPolicy LRAdded.state.
Proof. split; apply lradded_frugal. Qed.

(** A store that accepts [n] more puts of objects of [ap_obj]. *)
Class AcceptsPuts (W T : Type) `{ObjectStore W T} := {
  ap_inv : nat -> W -> Prop;
  ap_obj : T -> Prop;
  ap_weaken n w : ap_inv (S n) w -> ap_inv n w;
  ap_put n w oid v : ap_inv (S n) w -> is_u64 oid -> ap_obj v -> exists w' b,
    os_put oid v w = (w', Ok b) /\ ap_inv n w';
}.

(** Every store of the cache manager does. *)
#[program] Definition accepts_of_store {W T} `{StoreSpec W T} : AcceptsPuts W T := {|
  ap_inv n w := exists m pf, st_rep n w m pf;
  ap_obj := st_obj;
|}.
Next Obligation. intros W T ? ? n w (m & pf & Hr). exists m, pf. by apply st_weaken. Qed.
Next Obligation.
  intros W T ? ? n w oid v (m & pf & Hr) Hu Hv.
  destruct (st_put n w m pf oid v Hr Hu Hv) as (w' & Hp & Hr'). eauto 10.
Qed.

Module Resident.
Import CacheManager.

Section resident.
Context {T W P C : Type} `{AcceptsPuts W T} `{FrugalPolicy P} `{PrefetchPolicy C T}.
Context (dflt : T) (capacity : Z).
Implicit Types s : t T W P C.

(** The cache holds exactly the objects [f], with [n] puts to spare; writing
    through, without prefetching. *)
Record resident (n : nat) (f : gmap Z T) s : Prop := mk_resident {
  r_objects : obj <$> s.(cache) = f;
  r_cached : all_cached s;
  r_tracked : tracked s;
  r_capacity : ep_capacity s.(eviction_policy) = capacity;
  r_off : s.(prefetch_policy) = POff;
  r_through : s.(defer_writes) = false;
  r_store : ap_inv n s.(store);
}.

Lemma resident_dom n f s : resident n f s -> dom s.(cache) = dom f.
Proof. intros Hr. rewrite <- (r_objects _ _ _ Hr). by rewrite dom_fmap_L. Qed.

Lemma resident_le n n' f s : (n' <= n)%nat -> resident n f s -> resident n' f s.
Proof.
  intros Hle [H1' H2' H3' H4' H5' H6' Hst]. split; try done. clear -Hle Hst.
  induction Hle as [|k Hle IH]; [done|]. by apply IH, ap_weaken.
Qed.

(** An access to [oid] when there is room for it purges nothing. *)
Lemma no_eviction n f s oid (access : ObjectID -> M P (list ObjectID)) :
  admit_spec ep_inv ep_tracked ep_capacity access ->
  (forall p p' evs, ep_inv p ->
     Z.of_nat (size ({[oid]} ∪ ep_tracked p)) <= ep_capacity p ->
     access oid p = (p', Ok evs) -> evs = []) ->
  resident n f s -> Z.of_nat (size ({[oid]} ∪ dom f)) <= capacity ->
  exists p', (let* to_remove := on_eviction (access oid) in evict_vector to_remove) s =
      (set_eviction p' s, Ok tt) /\
    ep_inv p' /\ ep_capacity p' = capacity /\ ep_tracked p' = {[oid]} ∪ dom f.
Proof.
  intros Hspec Hfrugal Hr Hroom. pose proof (r_tracked _ _ _ Hr) as (Hinv & Hdom & Hcap).
  pose proof (resident_dom _ _ _ Hr) as Hd. pose proof (r_capacity _ _ _ Hr) as Hc.
  assert (Htr : ep_tracked (eviction_policy s) = dom f) by congruence.
  destruct (Hspec (eviction_policy s) oid Hinv)
    as (p' & evs & Hacc & Hinv' & Hcap' & (_ & _ & _ & Htr' & _)).
  assert (evs = []) as -> by (apply (Hfrugal (eviction_policy s) p'); [done|by rewrite Htr, Hc|done]).
  exists p'. split_and!; [|done|congruence|].
  - unfold on_eviction, zoom, bind. by rewrite Hacc.
  - rewrite Htr', Htr. set_solver.
Qed.

(** A get returns the object that was put last, and asks nobody. *)
Lemma resident_get n f s oid v : resident n f s -> Z.of_nat (size f) <= capacity ->
  f !! oid = Some v -> exists s', get dflt oid s = (s', Ok v) /\ resident n f s'.
Proof.
  intros Hr Hroom Hv.
  assert (Hin : {[oid]} ∪ dom f = dom f)
    by (apply elem_of_dom_2 in Hv; set_solver).
  destruct (no_eviction n f s oid ep_get ep_get_spec (fun p p' evs => frugal_get p oid p' evs) Hr)
    as (p' & Hrun & Hinv & Hcap & Htr); [by rewrite Hin, size_dom|].
  pose proof Hr as [Hobj Hall (_ & Hdom & Hmax) Hc Hoff Hdef Hst].
  assert (He : exists e, cache s !! oid = Some e /\ obj e = v).
  { rewrite <- Hobj, lookup_fmap in Hv. apply fmap_Some in Hv as (e & He & ->). eauto. }
  destruct He as (e & He & Hev). exists (set_eviction p' s). split.
  - unfold get. rewrite bind_assoc. mstep Hrun. unfold bind, gets, ret, id. simpl.
    rewrite Hdef. unfold lookup_entry, bind, gets, id. simpl. rewrite He.
    rewrite (Hall _ _ He). cbn [negb]. unfold policy_get, read_entry, bind, gets, id. simpl.
    rewrite Hoff. simpl. rewrite He, decide_True by done. unfold ret. by rewrite Hev.
  - split; try done. split_and!; simpl; [done| |lia].
    rewrite Htr, Hin. by rewrite (resident_dom _ _ _ Hr).
Qed.

(** A put replaces the object. *)
Lemma resident_put n f s oid v : resident (S n) f s ->
  Z.of_nat (size ({[oid]} ∪ dom f)) <= capacity -> is_u64 oid -> ap_obj v ->
  exists s', put dflt oid v s = (s', Ok tt) /\ resident n (<[oid := v]> f) s'.
Proof.
  intros Hr Hroom Hu Hv.
  destruct (no_eviction _ f s oid ep_put ep_put_spec (fun p p' evs => frugal_put p oid p' evs) Hr Hroom)
    as (p' & Hrun & Hinv & Hcap & Htr).
  pose proof Hr as [Hobj Hall (_ & Hdom & Hmax) Hc Hoff Hdef Hst].
  pose proof (resident_dom _ _ _ Hr) as Hdf.
  destruct (ap_put n (store s) oid v Hst Hu Hv) as (w' & b & Hput & Hst').
  destruct (put_entry_ok dflt oid v (set_eviction p' s) (Hall oid)) as (e & a & Hset & Hec & _ & Heo).
  { intros Hno. simpl in *. apply Z.eqb_neq.
    rewrite size_union, size_singleton, <- Hdf, size_dom in Hroom
      by (rewrite disjoint_singleton_l; rewrite <- Hdf; by apply not_elem_of_dom). lia. }
  set (s1 := set_cache _ _) in Hset. exists (set_store w' s1). split.
  - unfold put. rewrite bind_assoc. mstep Hrun.
    rewrite (bind_assoc (gets id)). fold (put_entry (W := W) (P := P) (C := C) dflt oid v). mstep Hset.
    unfold bind, gets. simpl. rewrite Hdef. unfold on_store, zoom. simpl. by rewrite Hput.
  - split; try done; simpl.
    + by rewrite fmap_insert, Heo, Hobj.
    + intros o e'. simpl. intros [[<- <-]|[_ Ho]]%lookup_insert_Some; [done|]. by apply (Hall o).
    + split_and!; simpl; [done| |lia]. rewrite dom_insert_L, Htr. by rewrite Hdf.
Qed.
End resident.
End Resident.
