(* ===== verification/Wcc.v ===== *)
(** * Connected components ([examples/graphs/wcc])

    The program that stores a graph through the cache and labels its connected
    components: [make_undirected], [bfs] and [weakly_cc] of Wcc.cpp and [main].
    A cache with room for all vertices makes the labels those of the components;
    with a smaller one the flag [seen], which is not serialised, is lost and the
    traversal need not end. *)

From stdpp Require Import gmap list strings relations.
From S2P Require Import Prelude Common Eviction BladeClient ObjectStore CacheManager.
From S2P Require Import GraphVertex Resident.

Module Wcc.
Import WccVertex.

(** ** Wcc.cpp *)

Section wcc.
Context {W P C : Type} `{ObjectStore W t} `{EvictionPolicy P} `{PrefetchPolicy C t}.
Abbreviation cm := (CacheManager.t t W P C).

(** [Vertex()], the value of a new entry of the cache. *)
Definition dflt : t := ctor 0.
Abbreviation cm_get := (CacheManager.get dflt).
Abbreviation cm_put := (CacheManager.put dflt).

(** [ccs[ID] = cc] on the array [ccs]. *)
Definition set_label (ID cc : Z) (ccs : list Z) : outcome (list Z) :=
  if ((0 <=? ID) && (ID <? Z.of_nat (length ccs)))%bool
  then Ok (<[Z.to_nat ID := cc]> ccs) else Undefined.

(** The loop over the neighbours: those that were not seen join the fringe. *)
Fixpoint push_unseen (vs : list Z) (fringe : list Z) : M cm (list Z) :=
  match vs with
  | [] => ret fringe
  | v :: vs =>
      let* nei := cm_get (u64 v) in
      push_unseen vs (if nei.(seen) then fringe else fringe ++ [v])
  end.

(** [bfs]; an [int] becomes an id by conversion to 64 bits. *)
Fixpoint bfs (fuel : nat) (cc : Z) (fringe ccs : list Z) : M cm (list Z) :=
  match fringe with
  | [] => ret ccs
  | ID :: fringe =>
      match fuel with
      | O => stop OutOfFuel
      | S fuel =>
          let* curr := cm_get (u64 ID) in
          let curr := set_seen true curr in
          cm_put (u64 ID) curr ;;;
          let curr := set_cc cc curr in
          let* ccs := stop (set_label ID cc ccs) in
          let* fringe := push_unseen curr.(neighbors) fringe in
          bfs fuel cc fringe ccs
      end
  end.

(** The loop of [weakly_cc] from vertex [i] on, [n] vertices to go; [cc++] on
    the greatest [int] is undefined. *)
Fixpoint weakly_cc_loop (fuel n : nat) (i cc : Z) (ccs : list Z) : M cm (list Z) :=
  match n with
  | O => ret ccs
  | S n =>
      let* curr := cm_get i in
      if negb curr.(seen) then
        let* ccs := bfs fuel cc [i32 i] ccs in
        if cc =? Ifstream.int_max then undefined
        else weakly_cc_loop fuel n (i + 1) (cc + 1) ccs
      else weakly_cc_loop fuel n (i + 1) cc ccs
  end.

Definition weakly_cc (fuel : nat) (num_vertices : nat) : M cm (list Z) :=
  weakly_cc_loop fuel num_vertices 0 1 (replicate num_vertices (-1)).

(** The body of [make_undirected]'s inner loop: [Vertex n = vertices[v]] is a
    copy, which gets the edge back to [curr] and is dropped. *)
Definition undirect_edge (curr : t) (v : Z) : M (list t) unit :=
  let* vertices := gets Datatypes.id in
  match vertices !! Z.to_nat (u64 v) with
  | None => undefined
  | Some n =>
      let n := if hasNeighbor curr.(WccVertex.id) n then n
               else addNeighbor curr.(WccVertex.id) n in
      ret tt
  end.

Definition make_undirected : M (list t) unit :=
  let* vertices := gets Datatypes.id in
  mfor vertices (fun curr => mfor curr.(neighbors) (undirect_edge curr)).

(** ** main.cpp *)

Definition cache_size : Z := 200.

(** The vertices go to the cache, then the components are computed. *)
Definition run (fuel : nat) (vertices : list t) : M cm (list Z) :=
  mfor vertices (fun v => cm_put (u64 v.(WccVertex.id)) v) ;;;
  weakly_cc fuel (length vertices).
End wcc.

(** [main], on a store [w] that is connected; [uninit] is the range of the ordered
    policy, which the constructor of the cache does not set. *)
Definition main {W C} `{ObjectStore W t} `{PrefetchPolicy C t} (fuel : nat)
    (fname : string) (file : option (list token)) (uninit : OrderedPolicy.t) (w : W)
    : outcome (list Z) :=
  outcome_bind (Input.wcc_readGraph fname file) (fun vertices =>
  let '(vertices, r) := make_undirected vertices in
  outcome_bind r (fun _ =>
  outcome_bind (CacheManager.ctor (C := C) w (LRAdded.init cache_size) cache_size false uninit)
    (fun s => (run fuel vertices s).2))).

(** ** The traversal as a graph algorithm *)

Section graph.
Context (vs : list t).

(** The vertices, their edges, and what is true of a graph in a file. *)
Definition nb (i : Z) : list Z :=
  match znth vs i with Some v => v.(neighbors) | None => [] end.
Definition edge (i j : Z) : Prop := j ∈ nb i.
Definition verts : gset Z := list_to_set (seqZ 0 (Z.of_nat (length vs))).

Record graph_ok : Prop := mk_graph_ok {
  go_ids : forall i v, vs !! i = Some v -> v.(WccVertex.id) = Z.of_nat i;
  go_unseen : forall i v, vs !! i = Some v -> v.(seen) = false;
  go_closed : forall i j, edge i j -> j ∈ verts;
}.

Lemma elem_of_verts i : i ∈ verts <-> 0 <= i < Z.of_nat (length vs).
Proof. unfold verts. rewrite elem_of_list_to_set, elem_of_seqZ. lia. Qed.

Lemma vertex_at_Some i : is_Some (znth vs i) <-> i ∈ verts.
Proof. rewrite elem_of_verts. apply znth_is_Some. Qed.

Lemma size_verts : base.size verts = length vs.
Proof. unfold verts. rewrite size_list_to_set, length_seqZ by apply NoDup_seqZ. lia. Qed.

(** *** The number of vertices visited *)

(** A vertex in the fringe costs one visit, and those of the vertices that it
    pushes, of which there are at most [D], with [u] vertices not seen. *)
Fixpoint weight (D u : nat) : nat :=
  match u with O => 1 | S u => 1 + D * weight D u end.

Definition unseen (S : gset Z) : nat := base.size (verts ∖ S).
Definition cost (D : nat) (S : gset Z) (x : Z) : nat :=
  weight D (if decide (x ∈ S) then unseen S else pred (unseen S)).
Definition potential (D : nat) (S : gset Z) (fringe : list Z) : nat :=
  sum_list_with (cost D S) fringe.

Lemma weight_mono D u u' : (u <= u')%nat -> (0 < D \/ u = u')%nat ->
  (weight D u <= weight D u')%nat.
Proof.
  intros Hle HD. destruct HD as [HD| ->]; [|done].
  induction Hle as [|u' Hle IH]; [done|]. simpl. nia.
Qed.

Lemma weight_pos D u : (0 < weight D u)%nat.
Proof. destruct u; simpl; lia. Qed.

Lemma weight_zero u : weight 0 u = 1%nat.
Proof. by destruct u. Qed.

Lemma weight_le D u u' : (u <= u')%nat -> (weight D u <= weight D u')%nat.
Proof.
  intros Hle. destruct D as [|D]; [by rewrite !weight_zero|]. apply weight_mono; [done|lia].
Qed.

Lemma unseen_visit S x : x ∈ verts -> x ∉ S -> unseen S = Datatypes.S (unseen ({[x]} ∪ S)).
Proof.
  intros Hx HxS. unfold unseen.
  rewrite (union_difference_singleton_L x (verts ∖ S)) at 1 by set_solver.
  rewrite size_union, size_singleton by set_solver.
  by replace (verts ∖ S ∖ {[x]}) with (verts ∖ ({[x]} ∪ S)) by set_solver.
Qed.

Lemma potential_app D S l l' : potential D S (l ++ l') = (potential D S l + potential D S l')%nat.
Proof. apply sum_list_with_app. Qed.

Lemma potential_cons D S x l : potential D S (x :: l) = (cost D S x + potential D S l)%nat.
Proof. done. Qed.

Lemma potential_le D S S' l : (forall x, (cost D S' x <= cost D S x)%nat) ->
  (potential D S' l <= potential D S l)%nat.
Proof.
  intros Hc. induction l as [|x l IH]; [done|]. rewrite !potential_cons.
  specialize (Hc x). lia.
Qed.

(** Vertices that were not seen. *)
Lemma potential_pushed D S l : (forall x, x ∈ l -> x ∉ S) ->
  potential D S l = (length l * weight D (pred (unseen S)))%nat.
Proof.
  induction l as [|x l IH]; intros Hl; [done|].
  rewrite potential_cons, IH by set_solver. unfold cost at 1. rewrite decide_False by set_solver. simpl. lia.
Qed.

(** A visit costs one. *)
Lemma potential_visit D S x fringe l : x ∈ verts -> (length l <= D)%nat ->
  (forall y, y ∈ l -> y ∈ verts /\ y ∉ {[x]} ∪ S) ->
  (Datatypes.S (potential D ({[x]} ∪ S) (fringe ++ l)) <= potential D S (x :: fringe))%nat.
Proof.
  intros Hx Hlen Hl. rewrite potential_app.
  assert (Hpushed : (Datatypes.S (potential D ({[x]} ∪ S) l) <=
    weight D (unseen ({[x]} ∪ S)))%nat).
  { rewrite potential_pushed by (intros y Hy; by apply Hl).
    destruct l as [|y l]; [pose proof (weight_pos D (unseen ({[x]} ∪ S))); simpl; lia|].
    destruct (Hl y) as [Hy HyS]; [left|]. pose proof (unseen_visit _ y Hy HyS) as Hu.
    rewrite Hu. cbn [pred weight]. nia. }
  destruct (decide (x ∈ S)) as [HxS|HxS].
  - assert ({[x]} ∪ S = S) as He by set_solver. rewrite He in *.
    rewrite potential_cons. unfold cost. rewrite decide_True by done. lia.
  - pose proof (unseen_visit S x Hx HxS) as Hu.
    assert (Hle : (potential D ({[x]} ∪ S) fringe <= potential D S fringe)%nat).
    { apply potential_le. intros y. unfold cost. rewrite Hu. cbn [pred].
      repeat destruct (decide _); apply weight_le; set_solver || lia. }
    rewrite potential_cons. unfold cost. rewrite decide_False by done.
    rewrite Hu. cbn [pred]. lia.
Qed.

(** *** What has been labelled *)

(** The label of vertex [x]. *)
Definition label (ccs : list Z) (x : Z) : option Z := ccs !! Z.to_nat x.

(** A traversal from [r] that began with the vertices [S0] seen and the labels
    [ccs0]: the vertices [S] are seen, [fringe] is to be visited. *)
Record traversal (r cc : Z) (S0 : gset Z) (ccs0 : list Z)
    (S : gset Z) (fringe ccs : list Z) : Prop := mk_traversal {
  tr_sub : S0 ⊆ S;
  tr_verts : S ⊆ verts;
  tr_reach : forall x, x ∈ S -> x ∉ S0 -> rtc edge r x;
  tr_fringe : forall x, x ∈ fringe -> rtc edge r x /\ x ∉ S0 /\ x ∈ verts;
  tr_closed : forall x y, x ∈ S -> x ∉ S0 -> edge x y -> y ∈ S \/ y ∈ fringe;
  tr_root : r ∈ S \/ r ∈ fringe;
  tr_length : length ccs = length vs;
  tr_labels : forall x, x ∈ verts ->
    label ccs x = if decide (x ∈ S /\ x ∉ S0) then Some cc else label ccs0 x;
}.

Lemma traversal_start r cc S0 ccs0 : S0 ⊆ verts -> r ∈ verts -> r ∉ S0 ->
  length ccs0 = length vs -> traversal r cc S0 ccs0 S0 [r] ccs0.
Proof.
  intros HS Hr HrS Hl. split; try done.
  - intros x ->%list_elem_of_singleton. by split.
  - right. left.
  - intros x _. by rewrite decide_False by tauto.
Qed.

(** The vertices that a visit of [x] adds to the fringe. *)
Definition pushed (S : gset Z) (x : Z) : list Z := filter (fun y => y ∉ {[x]} ∪ S) (nb x).

(** The visits that a traversal makes, as an algorithm on the graph alone: the
    vertices seen at its end and the number of visits.  A vertex that two seen
    ones had pushed is visited twice. *)
Fixpoint walk (steps : nat) (S : gset Z) (fringe : list Z) : option (gset Z * nat) :=
  match fringe, steps with
  | [], _ => Some (S, O)
  | x :: fringe, O => None
  | x :: fringe, Datatypes.S steps =>
      '(S', n) ← walk steps ({[x]} ∪ S) (fringe ++ pushed S x); Some (S', Datatypes.S n)
  end.

(** Those of the traversals from vertex [i] on, [n] vertices to go, and of all. *)
Fixpoint walks (steps n : nat) (i : Z) (S : gset Z) : option nat :=
  match n with
  | O => Some O
  | Datatypes.S n =>
      if decide (i ∈ S) then walks steps n (i + 1) S
      else '(S', k) ← walk steps S [i]; m ← walks steps n (i + 1) S'; Some (k + m)%nat
  end.
Definition visits (steps : nat) : option nat := walks steps (length vs) 0 ∅.

Lemma pushed_unseen S x y : graph_ok -> y ∈ pushed S x -> y ∈ verts /\ y ∉ {[x]} ∪ S.
Proof. intros Hg [Hy He]%list_elem_of_filter. split; [by apply (go_closed Hg x)|done]. Qed.

(** A traversal ends within its potential. *)
Lemma walk_total D : graph_ok -> (forall i, (length (nb i) <= D)%nat) ->
  forall steps S fringe, (forall x, x ∈ fringe -> x ∈ verts) ->
  (potential D S fringe <= steps)%nat ->
  exists S' n, walk steps S fringe = Some (S', n) /\ (n <= potential D S fringe)%nat.
Proof.
  intros Hg HD. induction steps as [|steps IH]; intros S [|x fringe] Hfr Hle;
    [by exists S, O| |exists S, O; split; [done|lia]|].
  { rewrite potential_cons in Hle. unfold cost in Hle.
    pose proof (weight_pos D (if decide (x ∈ S) then unseen S else pred (unseen S))). lia. }
  pose proof (potential_visit D S x fringe (pushed S x) (Hfr x ltac:(left))
    (Nat.le_trans _ _ _ (length_filter _ _) (HD x)) (fun y => pushed_unseen S x y Hg)) as Hpot.
  destruct (IH ({[x]} ∪ S) (fringe ++ pushed S x)) as (S' & n & Hw & Hn); [|lia|].
  { intros y [Hy|Hy%pushed_unseen]%elem_of_app; [apply Hfr; by right|apply Hy|done]. }
  exists S', (Datatypes.S n). cbn [walk]. rewrite Hw. split; [done|lia].
Qed.

Lemma potential_root D S i : (potential D S [i] <= weight D (length vs))%nat.
Proof.
  rewrite potential_cons. unfold potential at 1. simpl. rewrite Nat.add_0_r.
  assert ((unseen S <= length vs)%nat).
  { unfold unseen. rewrite <- size_verts. apply subseteq_size. set_solver. }
  apply weight_le. destruct (decide (i ∈ S)); lia.
Qed.

(** So the visits of every graph can be counted, with enough steps. *)
Lemma walks_total D steps : graph_ok -> (forall i, (length (nb i) <= D)%nat) ->
  (weight D (length vs) <= steps)%nat -> forall n i S,
  0 <= i -> i + Z.of_nat n = Z.of_nat (length vs) ->
  exists k, walks steps n i S = Some k /\ (k <= n * weight D (length vs))%nat.
Proof.
  intros Hg HD Hst. induction n as [|n IH]; intros i S Hi Hn; [by exists O|]. cbn [walks].
  destruct (decide (i ∈ S)).
  { destruct (IH (i + 1) S) as (k & Hk & Hle); [lia|lia|]. exists k. split; [done|lia]. }
  pose proof (potential_root D S i) as Hp.
  destruct (walk_total D Hg HD steps S [i]) as (S' & k & Hk & Hle);
    [intros x ->%list_elem_of_singleton; apply elem_of_verts; lia|lia|].
  destruct (IH (i + 1) S') as (m & Hm & Hle'); [lia|lia|].
  exists (k + m)%nat. rewrite Hk. cbn. rewrite Hm. split; [done|simpl; lia].
Qed.

Lemma visits_total D steps : graph_ok -> (forall i, (length (nb i) <= D)%nat) ->
  (weight D (length vs) <= steps)%nat ->
  exists k, visits steps = Some k /\ (k <= length vs * weight D (length vs))%nat.
Proof. intros Hg HD Hst. by apply (walks_total D). Qed.

Lemma traversal_visit r cc S0 ccs0 S x fringe ccs : graph_ok ->
  traversal r cc S0 ccs0 S (x :: fringe) ccs ->
  traversal r cc S0 ccs0 ({[x]} ∪ S) (fringe ++ pushed S x) (<[Z.to_nat x := cc]> ccs).
Proof.
  intros Hg [Hsub Hv Hre Hfr Hcl Hroot Hlen Hlab].
  destruct (Hfr x) as (Hrx & HxS0 & Hxv); [left|].
  assert (Hp : forall y, y ∈ pushed S x <-> (edge x y /\ y ∉ {[x]} ∪ S)).
  { intros y. unfold pushed, edge. rewrite list_elem_of_filter. tauto. }
  split.
  - set_solver.
  - set_solver.
  - intros y [->%elem_of_singleton|Hy]%elem_of_union; [done|]. by apply Hre.
  - intros y [Hy|[He Hy]%Hp]%elem_of_app; [apply Hfr; by right|].
    split; [by eapply rtc_r|]. split; [set_solver|]. by apply (go_closed Hg x).
  - intros y z Hy HyS0 He. rewrite elem_of_app, Hp.
    destruct (decide (z ∈ {[x]} ∪ S)) as [|Hz]; [by left|].
    apply elem_of_union in Hy as [->%elem_of_singleton|Hy]; [tauto|].
    destruct (Hcl y z Hy HyS0 He) as [|[->|]%elem_of_cons]; set_solver.
  - rewrite elem_of_app. destruct Hroot as [|[->|]%elem_of_cons]; set_solver.
  - by rewrite length_insert.
  - intros y Hy. unfold label in *. apply elem_of_verts in Hxv as Hxb.
    destruct (decide (y = x)) as [->|Hne].
    + rewrite list_lookup_insert_eq by lia. by rewrite decide_True by set_solver.
    + apply elem_of_verts in Hy as Hyb. rewrite list_lookup_insert_ne by lia.
      rewrite Hlab by done. do 2 destruct (decide _); set_solver.
Qed.

(** Reachability never leaves a set that is closed under edges. *)
Definition closed (S : gset Z) : Prop := forall x y, x ∈ S -> edge x y -> y ∈ S.

Lemma closed_reach S x y : closed S -> x ∈ S -> rtc edge x y -> y ∈ S.
Proof. intros Hc Hx Hr. induction Hr; eauto. Qed.

(** At the end, the vertices seen are those reachable from the root, and those
    seen before. *)
Lemma traversal_end r cc S0 ccs0 S ccs : closed S0 ->
  traversal r cc S0 ccs0 S [] ccs ->
  closed S /\ forall x, x ∈ S <-> x ∈ S0 \/ rtc edge r x.
Proof.
  intros Hc [Hsub _ Hre _ Hcl Hroot _ _].
  assert (HcS : closed S).
  { intros x y Hx He. destruct (decide (x ∈ S0)); [set_solver|].
    destruct (Hcl x y Hx) as [|Hy]; [done|done|done|by apply not_elem_of_nil in Hy]. }
  split; [done|]. intros x. split.
  - intros Hx. destruct (decide (x ∈ S0)); [by left|right; by apply Hre].
  - intros [Hx|Hx]; [set_solver|]. apply (closed_reach S r x); [done| |done].
    destruct Hroot as [|Hy]; [done|by apply not_elem_of_nil in Hy].
Qed.

(** ** The components *)

(** Before vertex [i], with the next label [c]: the vertices seen have labels
    below [c], equal exactly for those in one component. *)
Record labelled (i c : Z) (S : gset Z) (ccs : list Z) : Prop := mk_labelled {
  la_closed : closed S;
  la_verts : S ⊆ verts;
  la_done : forall x, x ∈ verts -> x < i -> x ∈ S;
  la_length : length ccs = length vs;
  la_bound : forall x, x ∈ S -> exists l, label ccs x = Some l /\ 1 <= l < c;
  la_same : forall x y, x ∈ S -> y ∈ S -> label ccs x = label ccs y <-> rtc edge x y;
}.

Lemma labelled_skip i c S ccs : labelled i c S ccs -> i ∈ S -> labelled (i + 1) c S ccs.
Proof.
  intros [Hc Hv Hd Hl Hb Hs] Hi. split; try done. intros x Hx Hlt.
  destruct (decide (x = i)) as [->|]; [done|]. apply Hd; [done|lia].
Qed.

Context (Hsym : symmetric Z edge).

Lemma reach_sym x y : rtc edge x y -> rtc edge y x.
Proof using Hsym. induction 1 as [|x y z He _ IH]; [done|]. eapply rtc_r; [done|by apply Hsym]. Qed.

Lemma labelled_component i c S0 ccs0 S ccs : labelled i c S0 ccs0 -> i ∉ S0 -> 1 <= c ->
  traversal i c S0 ccs0 S [] ccs -> labelled (i + 1) (c + 1) S ccs.
Proof using Hsym.
  intros [Hc Hv Hd Hl Hb Hs] Hi H1 Htr.
  destruct (traversal_end i c S0 ccs0 S ccs Hc Htr) as [HcS HS].
  assert (Hnew : forall x, x ∈ S -> x ∉ S0 -> label ccs x = Some c).
  { intros x Hx Hx0. rewrite (tr_labels _ _ _ _ _ _ _ Htr) by (by apply (tr_verts _ _ _ _ _ _ _ Htr)).
    by rewrite decide_True. }
  assert (Hold : forall x, x ∈ S0 -> label ccs x = label ccs0 x).
  { intros x Hx. rewrite (tr_labels _ _ _ _ _ _ _ Htr) by auto. by rewrite decide_False by tauto. }
  assert (Hmixed : forall x y, x ∈ S -> x ∉ S0 -> y ∈ S0 ->
    label ccs x <> label ccs y /\ ~ rtc edge x y).
  { intros x y Hx Hx0 Hy. split.
    - rewrite (Hnew x), (Hold y) by done. destruct (Hb y Hy) as (l & -> & ?).
      intros [= ->]. lia.
    - intros Hr. apply Hx0. by apply (closed_reach S0 y), reach_sym. }
  split; [done|apply Htr| |apply Htr| |].
  - intros x Hx Hlt. apply HS. destruct (decide (x = i)) as [->|]; [by right|].
    left. apply Hd; [done|lia].
  - intros x Hx. destruct (decide (x ∈ S0)) as [Hx0|Hx0].
    + rewrite Hold by done. destruct (Hb x Hx0) as (l & ? & ?). exists l. split; [done|lia].
    + exists c. split; [by apply Hnew|lia].
  - intros x y Hx Hy. destruct (decide (x ∈ S0)) as [Hx0|Hx0], (decide (y ∈ S0)) as [Hy0|Hy0].
    + rewrite !Hold by done. by apply Hs.
    + destruct (Hmixed y x Hy Hy0 Hx0) as [Hne Hnr].
      split; [intros He; by symmetry in He|intros Hr; by apply reach_sym in Hr].
    + destruct (Hmixed x y Hx Hx0 Hy0). tauto.
    + rewrite !Hnew by done. split; [intros _|done].
      trans i; [apply reach_sym|]; by apply (tr_reach _ _ _ _ _ _ _ Htr).
Qed.
End graph.

(** ** Over a cache with room for the graph *)

(** The cache shows the graph with the vertices [S] seen. *)
Definition marked (vs : list t) (S : gset Z) (f : gmap Z t) : Prop :=
  forall i, f !! i = set_seen (bool_decide (i ∈ S)) <$> znth vs i.

Lemma marked_size vs S f : marked vs S f -> base.size f = length vs.
Proof.
  intros Hm. rewrite <- size_dom, <- (size_verts vs). f_equal. apply set_eq. intros i.
  rewrite elem_of_dom, Hm, fmap_is_Some. apply vertex_at_Some.
Qed.

(** A vertex that is visited is marked as seen. *)
Lemma marked_visit vs S f i v : marked vs S f -> znth vs i = Some v ->
  marked vs ({[i]} ∪ S) (<[i := set_seen true v]> f).
Proof.
  intros Hm Hv j. destruct (decide (j = i)) as [->|Hne].
  - rewrite lookup_insert_eq, Hv. simpl. by rewrite bool_decide_true by set_solver.
  - rewrite lookup_insert_ne, Hm by done. do 2 f_equal. apply bool_decide_ext. set_solver.
Qed.

(** One more vertex. *)
Lemma load_vertex pre v (f : gmap Z t) : (forall i, f !! i = znth pre i) ->
  forall i, <[Z.of_nat (length pre) := v]> f !! i = znth (pre ++ [v]) i.
Proof.
  intros Hf i. rewrite znth_snoc. destruct (decide _) as [->|Hne];
    [apply lookup_insert_eq|by rewrite lookup_insert_ne].
Qed.

Section over_cache.
Context {W P C : Type} `{AcceptsPuts W t} `{FrugalPolicy P} `{PrefetchPolicy C t}.
Context (vs : list t) (capacity : Z).
Context (Hg : graph_ok vs).
Context (Hcap : Z.of_nat (length vs) <= capacity) (Hmax : capacity < 2 ^ 31 - 1).
Context (Hobj : forall i v b, vs !! i = Some v -> ap_obj (set_seen b v)).
Abbreviation resident := (Resident.resident (W := W) (P := P) (C := C) capacity).

Lemma vertex_u64 i : i ∈ verts vs -> u64 i = i.
Proof. rewrite elem_of_verts. intros Hi. apply u64_small. split; lia. Qed.

Lemma get_vertex n S f s i v : resident n f s -> marked vs S f -> znth vs i = Some v ->
  exists s', CacheManager.get dflt (u64 i) s = (s', Ok (set_seen (bool_decide (i ∈ S)) v)) /\
    resident n f s'.
Proof.
  intros Hr Hm Hv. rewrite vertex_u64 by (apply vertex_at_Some; eauto).
  apply Resident.resident_get; [done|rewrite (marked_size vs S f Hm); done|].
  by rewrite Hm, Hv.
Qed.

Lemma push_unseen_ok n S f l : marked vs S f -> (forall y, y ∈ l -> y ∈ verts vs) ->
  forall fringe s, resident n f s -> exists s',
    push_unseen l fringe s = (s', Ok (fringe ++ filter (fun y => y ∉ S) l)) /\
    resident n f s'.
Proof.
  intros Hm. induction l as [|y l IH]; intros Hl fringe s Hr.
  { exists s. by rewrite app_nil_r. }
  destruct (proj2 (vertex_at_Some vs y)) as [v Hv]; [apply Hl; left|].
  destruct (get_vertex n S f s y v Hr Hm Hv) as (s1 & Hget & Hr1).
  cbn [push_unseen]. mstep Hget. rewrite filter_cons.
  destruct (IH ltac:(set_solver) (if seen (set_seen (bool_decide (y ∈ S)) v) then fringe
    else fringe ++ [y]) s1 Hr1) as (s' & Hrun & Hr').
  exists s'. split; [|done]. rewrite Hrun. cbn [seen set_seen].
  destruct (bool_decide_reflect (y ∈ S)); [rewrite decide_False by tauto|rewrite decide_True by done];
    by rewrite <- ?app_assoc.
Qed.

(** A traversal of the cache makes the visits of the traversal of the graph. *)
Lemma bfs_ok fuel r cc S0 ccs0 : forall k n S S' f fringe ccs s,
  traversal vs r cc S0 ccs0 S fringe ccs -> marked vs S f ->
  walk vs fuel S fringe = Some (S', k) -> resident (k + n) f s ->
  exists s' f' ccs', bfs fuel cc fringe ccs s = (s', Ok ccs') /\
    traversal vs r cc S0 ccs0 S' [] ccs' /\ marked vs S' f' /\ resident n f' s'.
Proof.
  induction fuel as [|fuel IH]; intros k n S S' f [|x fringe] ccs s Htr Hm Hw Hr; try done;
    [injection Hw as <- <-; by exists s, f, ccs|injection Hw as <- <-; by exists s, f, ccs|].
  apply bind_Some in Hw as ([S1 k1] & Hw & [= <- <-]).
  pose proof (tr_fringe _ _ _ _ _ _ _ _ Htr x ltac:(left)) as (_ & _ & Hxv).
  destruct (proj2 (vertex_at_Some vs x) Hxv) as [v Hv].
  cbn [bfs]. destruct (get_vertex _ S f s x v Hr Hm Hv) as (s1 & Hget & Hr1). mstep Hget.
  set (n1 := (k1 + n)%nat). change (Datatypes.S k1 + n)%nat with (Datatypes.S n1) in Hr1.
  apply elem_of_verts in Hxv as Hxb. rewrite (vertex_u64 x Hxv).
  destruct (Resident.resident_put dflt capacity n1 f s1 x (set_seen true v) Hr1)
    as (s2 & Hput & Hr2).
  { rewrite (subseteq_union_1_L {[x]} (dom f)).
    - rewrite size_dom, (marked_size vs S f Hm). done.
    - apply singleton_subseteq_l, elem_of_dom. rewrite Hm, Hv. eauto. }
  { split; lia. }
  { by eapply Hobj, znth_Some. }
  mstep Hput. unfold set_label at 1. rewrite (tr_length _ _ _ _ _ _ _ _ Htr).
  destruct (Z.leb_spec 0 x), (Z.ltb_spec x (Z.of_nat (length vs))); try lia. cbn [andb].
  unfold stop at 1. unfold bind at 1.
  pose proof (marked_visit vs S f x v Hm Hv) as Hm'.
  assert (Hnb : neighbors (set_cc cc (set_seen true (set_seen (bool_decide (x ∈ S)) v))) = nb vs x)
    by (unfold nb; by rewrite Hv).
  rewrite Hnb. destruct (push_unseen_ok n1 _ _ (nb vs x) Hm' (fun y => go_closed _ Hg x y) fringe s2 Hr2)
    as (s3 & Hpush & Hr3). mstep Hpush.
  destruct (IH k1 n ({[x]} ∪ S) S1 _ (fringe ++ pushed vs S x) _ s3
    (traversal_visit _ _ _ _ _ _ _ _ _ Hg Htr) Hm' Hw Hr3) as (s' & f' & ccs' & Hrun & Hres).
  by exists s', f', ccs'.
Qed.

Context (Hsym : symmetric Z (edge vs)).

Lemma weakly_cc_loop_ok fuel n : forall v k i cc ccs S f s,
  i + Z.of_nat n = Z.of_nat (length vs) -> 0 <= i -> 1 <= cc <= i + 1 ->
  labelled vs i cc S ccs -> marked vs S f ->
  walks vs fuel n i S = Some v -> resident (v + k) f s ->
  exists s' S' cc' ccs' f', weakly_cc_loop fuel n i cc ccs s = (s', Ok ccs') /\
    labelled vs (Z.of_nat (length vs)) cc' S' ccs' /\ resident k f' s'.
Proof.
  induction n as [|n IH]; intros v k i cc ccs S f s Hn Hi Hcc Hlab Hm Hw Hr.
  { injection Hw as <-. exists s, S, cc, ccs, f. split_and!; [done| |done].
    by replace i with (Z.of_nat (length vs)) in * by lia. }
  assert (Hiv : i ∈ verts vs) by (apply elem_of_verts; lia).
  destruct (proj2 (vertex_at_Some vs i) Hiv) as [x Hx].
  destruct (get_vertex _ S f s i x Hr Hm Hx) as (s1 & Hget & Hr1).
  rewrite (vertex_u64 i Hiv) in Hget. cbn [weakly_cc_loop]. mstep Hget. cbn [seen set_seen].
  cbn [walks] in Hw. destruct (bool_decide_reflect (i ∈ S)) as [HiS|HiS]; cbn [negb].
  - rewrite decide_True in Hw by done.
    apply (IH v k (i + 1) cc ccs S f s1); try done; try lia. by apply labelled_skip.
  - rewrite decide_False in Hw by done.
    apply bind_Some in Hw as ([S2 a] & Hw1 & (b & Hw2 & [= <-])%bind_Some).
    rewrite i32_small by lia. rewrite <- Nat.add_assoc in Hr1.
    pose proof (traversal_start vs i cc S ccs (la_verts _ _ _ _ _ Hlab) Hiv HiS (la_length _ _ _ _ _ Hlab)) as Htr.
    destruct (bfs_ok fuel i cc S ccs a (b + k) S S2 f [i] ccs s1 Htr Hm Hw1 Hr1)
      as (s2 & f2 & ccs2 & Hbfs & Htr2 & Hm2 & Hr2).
    mstep Hbfs. destruct (Z.eqb_spec cc Ifstream.int_max) as [He|_];
      [unfold Ifstream.int_max in He; lia|].
    apply (IH b k (i + 1) (cc + 1) ccs2 S2 f2 s2); try done; try lia.
    apply (labelled_component vs Hsym i cc S ccs); done || lia.
Qed.

Lemma labelled_start : labelled vs 0 1 ∅ (replicate (length vs) (-1)).
Proof.
  split; try done; try set_solver.
  - intros x Hx%elem_of_verts. lia.
  - apply length_replicate.
Qed.

(** The labels of a graph: equal exactly for the vertices of one component. *)
Definition component_labels (ccs : list Z) : Prop :=
  length ccs = length vs /\
  forall i j, (i < length vs)%nat -> (j < length vs)%nat ->
    ccs !! i = ccs !! j <-> rtc (edge vs) (Z.of_nat i) (Z.of_nat j).

Lemma weakly_cc_ok fuel v k f s : marked vs ∅ f -> visits vs fuel = Some v ->
  resident (v + k) f s ->
  exists s' ccs f', weakly_cc fuel (length vs) s = (s', Ok ccs) /\
    component_labels ccs /\ resident k f' s'.
Proof.
  intros Hm Hv Hr.
  destruct (weakly_cc_loop_ok fuel (length vs) v k 0 1 (replicate (length vs) (-1)) ∅ f s)
    as (s' & S' & cc' & ccs & f' & Hrun & [_ _ Hd Hl _ Hs] & Hr'); try done; try lia.
  { apply labelled_start. }
  exists s', ccs, f'. split_and!; [done| |done]. split; [done|]. intros i j Hi Hj.
  specialize (Hs (Z.of_nat i) (Z.of_nat j)). unfold label in Hs. rewrite !Nat2Z.id in Hs.
  refine (Hs _ _); (apply Hd; [apply elem_of_verts; lia|lia]).
Qed.

(** Loading the graph into an empty cache. *)
Lemma load_ok k l : forall pre f s, vs = pre ++ l ->
  (forall i, f !! i = znth pre i) ->
  resident (length l + k) f s -> exists s' f',
    mfor l (fun v => CacheManager.put dflt (u64 v.(WccVertex.id)) v) s = (s', Ok tt) /\
    (forall i, f' !! i = znth vs i) /\ resident k f' s'.
Proof.
  induction l as [|v l IH]; intros pre f s Hvs Hf Hr.
  { exists s, f. rewrite app_nil_r in Hvs. by subst pre. }
  assert (Hv : vs !! length pre = Some v) by (rewrite Hvs; by apply list_lookup_middle).
  pose proof (go_ids _ Hg _ _ Hv) as Hid. pose proof (go_unseen _ Hg _ _ Hv) as Hun.
  apply (f_equal length) in Hvs as Hlen. rewrite length_app in Hlen. cbn [length] in *.
  assert (Hsz : base.size ({[Z.of_nat (length pre)]} ∪ dom f) = Datatypes.S (length pre)).
  { assert (Hdom : dom f = verts pre).
    { apply set_eq. intros i. rewrite elem_of_dom, Hf. apply vertex_at_Some. }
    rewrite Hdom, size_union, size_singleton, size_verts; [done|].
    apply disjoint_singleton_l. rewrite elem_of_verts. lia. }
  destruct (Resident.resident_put dflt capacity (length l + k) f s (Z.of_nat (length pre)) v Hr)
    as (s1 & Hput & Hr1); [lia|split; lia| |].
  { pose proof (Hobj _ _ false Hv) as Ho. destruct v; simpl in *. by subst. }
  destruct (IH (pre ++ [v]) _ s1 ltac:(by rewrite <- app_assoc) (load_vertex pre v f Hf) Hr1)
    as (s' & f' & Hrun & Hf' & Hr').
  exists s', f'. split_and!; [|done|done]. cbn [mfor].
  rewrite Hid, u64_small by (split; lia). by mstep Hput.
Qed.

Lemma marked_start f : (forall i, f !! i = znth vs i) -> marked vs ∅ f.
Proof.
  intros Hf i. rewrite Hf. destruct (znth vs i) as [v|] eqn:Hv; [|done]. simpl. f_equal.
  rewrite bool_decide_false by set_solver. apply znth_Some in Hv.
  pose proof (go_unseen _ Hg _ _ Hv). by destruct v; simpl in *; subst.
Qed.

Lemma run_ok fuel v k s : visits vs fuel = Some v ->
  resident (length vs + (v + k)) ∅ s ->
  exists s' ccs, run fuel vs s = (s', Ok ccs) /\ component_labels ccs.
Proof.
  intros Hv Hr.
  destruct (load_ok (v + k) vs [] ∅ s eq_refl) as (s1 & f1 & Hload & Hf1 & Hr1);
    [|done|].
  { intros i. rewrite lookup_empty. unfold znth. by destruct (0 <=? i). }
  destruct (weakly_cc_ok fuel v k f1 s1 (marked_start f1 Hf1) Hv Hr1) as (s' & ccs & f' & Hrun & Hc & _).
  exists s', ccs. split; [|done]. unfold run. by mstep Hload.
Qed.
End over_cache.

(** [make_undirected] works on copies: it leaves every graph as it is. *)
Lemma make_undirected_id vs : graph_ok vs -> make_undirected vs = (vs, Ok tt).
Proof.
  intros Hg. unfold make_undirected. rewrite (bind_ok (gets Datatypes.id) _ vs vs vs eq_refl).
  apply mfor_id. intros v [i Hi]%list_elem_of_lookup. apply mfor_id. intros j Hj.
  assert (Hjv : j ∈ verts vs).
  { apply (go_closed _ Hg (Z.of_nat i)). unfold edge, nb, znth.
    by rewrite (proj2 (Z.leb_le 0 (Z.of_nat i))), Nat2Z.id, Hi by lia. }
  apply elem_of_verts in Hjv. destruct (lookup_lt_is_Some_2 vs (Z.to_nat (u64 j))) as [n Hn].
  { unfold u64. pose proof (Z.mod_le j (2 ^ 64)). lia. }
  unfold undirect_edge, bind, gets, Datatypes.id. by rewrite Hn.
Qed.

(** *** The whole program *)

(** An undirected graph with vertices 0, 1, ... *)
Record undirected (adj : list (list Z)) : Prop := mk_undirected {
  un_closed : Forall (Forall (fun j => 0 <= j < Z.of_nat (length adj))) adj;
  un_symmetric : symmetric Z (edge (Input.wcc_vertices 0 adj));
}.

Lemma wcc_vertices_lookup adj i :
  Input.wcc_vertices 0 adj !! i = (fun l => mk false (-1) l (Z.of_nat i)) <$> adj !! i.
Proof. unfold Input.wcc_vertices. by rewrite list_lookup_imap. Qed.

Lemma length_wcc_vertices adj : length (Input.wcc_vertices 0 adj) = length adj.
Proof. apply length_imap. Qed.

Lemma nb_adj adj i j : j ∈ nb (Input.wcc_vertices 0 adj) i ->
  exists l, adj !! Z.to_nat i = Some l /\ nb (Input.wcc_vertices 0 adj) i = l.
Proof.
  unfold nb, znth. destruct (0 <=? i); [|by intros ?%not_elem_of_nil].
  rewrite wcc_vertices_lookup. destruct (adj !! Z.to_nat i) as [l|]; simpl; [eauto|].
  by intros ?%not_elem_of_nil.
Qed.

Lemma undirected_graph_ok adj : undirected adj -> graph_ok (Input.wcc_vertices 0 adj).
Proof.
  intros [Hc _]. split.
  - intros i v. rewrite wcc_vertices_lookup. by intros (l & _ & ->)%fmap_Some.
  - intros i v. rewrite wcc_vertices_lookup. by intros (l & _ & ->)%fmap_Some.
  - intros i j He. destruct (nb_adj adj i j He) as (l & Hl & Hnb). unfold edge in He.
    rewrite Hnb in He. rewrite elem_of_verts, length_wcc_vertices.
    exact (proj1 (Forall_forall _ _) (Forall_lookup_1 _ _ _ _ Hc Hl) j He).
Qed.

Section program.
Context {W C : Type} `{AcceptsPuts W t} `{PrefetchPolicy C t}.

Lemma main_ok fuel fname num_edges adj v uninit (w : W) :
  Input.file_ok num_edges adj -> undirected adj -> Z.of_nat (length adj) <= cache_size ->
  (forall i l b, adj !! i = Some l -> ap_obj (mk b (-1) l (Z.of_nat i))) ->
  visits (Input.wcc_vertices 0 adj) fuel = Some v -> ap_inv (length adj + v) w ->
  exists ccs, main (C := C) fuel fname (Some (Input.graph_file num_edges adj)) uninit w = Ok ccs /\
    component_labels (Input.wcc_vertices 0 adj) ccs.
Proof.
  intros Hfile Hu Hn Hobj Hv Hw. unfold main. rewrite Input.wcc_readGraph_ok by done.
  cbn [outcome_bind]. pose proof (undirected_graph_ok adj Hu) as Hg.
  rewrite make_undirected_id by done. cbn [outcome_bind]. unfold CacheManager.ctor.
  change (cache_size <? 1) with false. cbv iota. cbn [outcome_bind].
  set (s := CacheManager.mk _ _ _ _ _ _ _ _ _ _).
  pose proof (length_wcc_vertices adj) as Hlen.
  destruct (run_ok (Input.wcc_vertices 0 adj) cache_size Hg) with (fuel := fuel) (v := v) (k := 0%nat) (s := s)
    as (s' & ccs & Hrun & Hc); try (rewrite Hlen; done); try apply Hu; try done.
  - intros i x b. rewrite wcc_vertices_lookup. intros (l & Hl & ->)%fmap_Some. by apply Hobj.
  - split; try done.
    + split_and!; [by apply LRAdded.lradded_init_wf|done|simpl; lia].
    + simpl. rewrite Hlen, Nat.add_0_r. exact Hw.
  - exists ccs. by rewrite Hrun.
Qed.
End program.

(** ** Beyond the limits *)

(** A store without network that keeps the objects as their bytes. *)
Module BytesStore.
Section bytes_store.
Context {T : Type} `{Serializer T, Deserializer T}.

Record store := mk { objects : gmap Z bytes; reads : list (option bytes) }.

Definition load (found : option bytes) : M store T :=
  match found with
  | Some bs => stop (deserialize bs (Z.of_nat (length bs)))
  | None => throw no_such_id
  end.
Definition get (oid : ObjectID) : M store T :=
  let* w := gets Datatypes.id in load (w.(objects) !! oid).
Definition put (oid : ObjectID) (v : T) : M store bool :=
  modify (fun w => mk (<[oid := ser_serialize v]> w.(objects)) w.(reads)) ;;; ret true.
Definition remove (oid : ObjectID) : M store bool :=
  let* w := gets Datatypes.id in
  modify (fun w => mk (delete oid w.(objects)) w.(reads)) ;;;
  ret (bool_decide (is_Some (w.(objects) !! oid))).
Definition get_async (oid : ObjectID) : M store nat :=
  let* w := gets Datatypes.id in
  modify (fun w => mk w.(objects) (w.(reads) ++ [w.(objects) !! oid])) ;;;
  ret (length w.(reads)).
Definition future_get (f : nat) : M store T :=
  let* w := gets Datatypes.id in
  match w.(reads) !! f with Some found => load found | None => undefined end.

#[global] Instance ops : ObjectStore store T := {
  os_get := get; os_put := put; os_remove := remove; os_get_async := get_async;
  os_put_async oid v := let* _ := put oid v in gets (fun w => length w.(reads));
  os_get_future_get := future_get;
  os_put_future_wait _ := ret tt;
  os_put_future_try_wait _ := ret true;
}.
End bytes_store.
End BytesStore.

#[local] Instance no_prefetch : PrefetchPolicy unit t := {| pp_get _ _ := ret [] |}.

(** Two vertices with an edge between them, and caches with one entry. *)
Definition v0 : t := mk false (-1) [1] 0.
Definition v1 : t := mk false (-1) [0] 1.
Definition one_entry (x : Z) (c : gmap Z (CacheManager.cache_entry t)) (a : nat) (w : BytesStore.store)
    : CacheManager.t t BytesStore.store LRAdded.state unit :=
  CacheManager.mk c a [] 1 (LRAdded.mk 1 [x] {[x]}) CacheManager.POff (OrderedPolicy.mk 5 0 0)
    None false w.
Definition entry (a : nat) (v : t) : CacheManager.cache_entry t :=
  CacheManager.mk_entry a true false v None.
Definition both : BytesStore.store :=
  BytesStore.mk {[0 := serialize v0; 1 := serialize v1]} [].

(** A get that purges nothing else than its policy asks for. *)
Lemma get_run {W P} `{ObjectStore W t} `{EvictionPolicy P}
    (s s1 s2 : CacheManager.t t W P unit) oid e :
  (let* to_remove := CacheManager.on_eviction (ep_get oid) in
   CacheManager.evict_vector to_remove) s = (s1, Ok tt) ->
  CacheManager.defer_writes s1 = false ->
  CacheManager.lookup_entry dflt oid s1 = (s2, Ok e) ->
  CacheManager.prefetch_policy s2 = CacheManager.POff ->
  CacheManager.cache s2 !! oid = Some e ->
  CacheManager.get dflt oid s = (s2, Ok (CacheManager.obj e)).
Proof.
  intros H1 H2 H3 H4 H5. unfold CacheManager.get. rewrite bind_assoc. mstep H1.
  unfold bind at 1, gets. rewrite H2. rewrite (bind_ok (ret tt) _ s1 s1 tt eq_refl). mstep H3.
  unfold bind, CacheManager.policy_get, CacheManager.read_entry, gets, Datatypes.id, bind.
  rewrite H4. simpl. unfold Datatypes.id. rewrite H5, decide_True by done. done.
Qed.

(** The vertex in the cache; and the other one, which replaces it and comes back
    from its bytes as not seen. *)
Lemma hit_0 a v n : CacheManager.get dflt 0 (one_entry 0 {[0 := entry a v]} n both) =
  (one_entry 0 {[0 := entry a v]} n both, Ok v).
Proof.
  by apply (get_run _ (one_entry 0 {[0 := entry a v]} n both) _ 0 (entry a v)).
Qed.
Lemma hit_1 a v n : CacheManager.get dflt 1 (one_entry 1 {[1 := entry a v]} n both) =
  (one_entry 1 {[1 := entry a v]} n both, Ok v).
Proof.
  by apply (get_run _ (one_entry 1 {[1 := entry a v]} n both) _ 1 (entry a v)).
Qed.
Lemma swap_01 n e : CacheManager.get dflt 1 (one_entry 0 {[0 := e]} n both) =
  (one_entry 1 {[1 := entry n v1]} (S n) both, Ok v1).
Proof.
  by apply (get_run _ (CacheManager.set_cache ∅ (one_entry 1 {[0 := e]} n both)) _ 1 (entry n v1)).
Qed.
Lemma swap_10 n e : CacheManager.get dflt 0 (one_entry 1 {[1 := e]} n both) =
  (one_entry 0 {[0 := entry n v0]} (S n) both, Ok v0).
Proof.
  by apply (get_run _ (CacheManager.set_cache ∅ (one_entry 0 {[1 := e]} n both)) _ 0 (entry n v0)).
Qed.

(** The entry of a vertex that was visited. *)
Definition visited (a : nat) (v : t) : CacheManager.cache_entry t :=
  CacheManager.mk_entry a true true (set_seen true v) None.

(** A visit of one vertex brings the other one to the fringe. *)
Lemma visit_0 fuel a n ccs : length ccs = 2%nat ->
  bfs (S fuel) 1 [0] ccs (one_entry 0 {[0 := entry a v0]} n both) =
    bfs fuel 1 [1] (<[0%nat := 1]> ccs) (one_entry 1 {[1 := entry n v1]} (S n) both).
Proof.
  intros Hl. cbn [bfs]. change (u64 0) with 0. mstep (hit_0 a v0 n).
  rewrite (bind_ok _ _ _ (one_entry 0 {[0 := visited a v0]} n both) tt) by reflexivity.
  rewrite (bind_ok _ _ _ (one_entry 0 {[0 := visited a v0]} n both) (<[0%nat := 1]> ccs))
    by (unfold set_label; by rewrite Hl).
  rewrite (bind_ok _ _ _ (one_entry 1 {[1 := entry n v1]} (S n) both) [1]); [done|].
  cbn [neighbors set_cc set_seen v0 push_unseen]. change (u64 1) with 1.
  by mstep (swap_01 n (visited a v0)).
Qed.
Lemma visit_1 fuel a n ccs : length ccs = 2%nat ->
  bfs (S fuel) 1 [1] ccs (one_entry 1 {[1 := entry a v1]} n both) =
    bfs fuel 1 [0] (<[1%nat := 1]> ccs) (one_entry 0 {[0 := entry n v0]} (S n) both).
Proof.
  intros Hl. cbn [bfs]. change (u64 1) with 1. mstep (hit_1 a v1 n).
  rewrite (bind_ok _ _ _ (one_entry 1 {[1 := visited a v1]} n both) tt) by reflexivity.
  rewrite (bind_ok _ _ _ (one_entry 1 {[1 := visited a v1]} n both) (<[1%nat := 1]> ccs))
    by (unfold set_label; by rewrite Hl).
  rewrite (bind_ok _ _ _ (one_entry 0 {[0 := entry n v0]} (S n) both) [0]); [done|].
  cbn [neighbors set_cc set_seen v1 push_unseen]. change (u64 0) with 0.
  by mstep (swap_10 n (visited a v1)).
Qed.

Lemma bfs_forever fuel : forall a n ccs, length ccs = 2%nat ->
  (bfs fuel 1 [0] ccs (one_entry 0 {[0 := entry a v0]} n both)).2 = OutOfFuel /\
  (bfs fuel 1 [1] ccs (one_entry 1 {[1 := entry a v1]} n both)).2 = OutOfFuel.
Proof.
  induction fuel as [|fuel IH]; intros a n ccs Hl; [done|].
  rewrite visit_0, visit_1 by done. split; apply IH; by rewrite length_insert.
Qed.

(** An empty cache of one entry. *)
Definition empty_cache : CacheManager.t t BytesStore.store LRAdded.state unit :=
  CacheManager.mk ∅ 0 [] 1 (LRAdded.init 1) CacheManager.POff (OrderedPolicy.mk 5 0 0) None
    false (BytesStore.mk ∅ []).

(** C40: with a cache that is smaller than the graph, the traversal need not
    end: on two vertices that are neighbours and a cache of one entry it visits
    them in turn for ever, because the flag [seen] is not serialised. *)
Theorem small_cache_never_ends fuel : (run fuel [v0; v1] empty_cache).2 = OutOfFuel.
Proof.
  unfold run. rewrite (bind_ok _ _ _ (one_entry 1 {[1 := CacheManager.mk_entry 1 true true v1 None]}
    2 both) tt) by (vm_compute; reflexivity).
  unfold weakly_cc. cbn [length weakly_cc_loop]. mstep (swap_10 2 (CacheManager.mk_entry 1 true true v1 None)).
  cbn [seen v0 negb]. change (i32 0) with 0. unfold bind.
  destruct (bfs_forever fuel 2 3 (replicate 2 (-1)) eq_refl) as [Hb _].
  destruct (bfs fuel 1 [0] (replicate 2 (-1)) _) as [s o]. simpl in Hb. by subst.
Qed.

(** [make_undirected] changes no graph, and directed edges are followed in
    one direction only: two vertices of one weakly connected component get
    different labels. *)
Theorem directed_graphs_split :
  (forall vs, graph_ok vs -> make_undirected vs = (vs, Ok tt)) /\
  let adj := [[]; [0]] in
  rtsc (edge (Input.wcc_vertices 0 adj)) 0 1 /\
  main (C := unit) 10 "graph" (Some (Input.graph_file 1 adj)) (OrderedPolicy.mk 5 0 0)
    (BytesStore.mk ∅ []) = Ok [1; 2].
Proof.
  split; [exact make_undirected_id|]. split; [|vm_compute; reflexivity].
  apply rtc_once. right. unfold edge. left.
Qed.

End Wcc.
