(* ===== verification/PageRank.v ===== *)
(** * PageRank ([examples/graphs/page_rank])

    The class [Vertex] of this program with its serialiser, [pageRank] over a
    cache manager and its iterators, and [main].  The ranks are [double]s
    (Double.v).  The reference is the textbook form of a round, in which a vertex
    collects from those that point to it; the code distributes instead, through a
    cache that prefetches and evicts.  The two loops of a round compute the
    reference over an iterable that is alive; [pageRank] runs the second one over
    an iterable whose policy is a destroyed object, so that the program as it is
    written has no defined result. *)

From stdpp Require Import gmap list strings pretty sorting.
From S2P Require Import Prelude Common Eviction BladeClient ObjectStore CacheManager.
From S2P Require Import Iterator Double GraphVertex.

(** ** Vertex.h and Vertex.cpp *)

Module PRVertex.

Record t := mk { neighbors : list Z; id : Z; p_curr : Z; p_next : Z }.

Definition ctor (id : Z) : t := mk [] id Double.one Double.zero.
Definition addNeighbor (x : Z) (v : t) : t :=
  mk (IntSet.insert x v.(neighbors)) v.(id) v.(p_curr) v.(p_next).
Definition setNeighbors (l : list Z) (v : t) : t :=
  fold_left (fun v i => addNeighbor i v) l v.
Definition ctor_neighbors (id : Z) (l : list Z) : t := setNeighbors l (ctor id).
Definition getNeighborsSize (v : t) : Z := Z.of_nat (length v.(neighbors)).
Definition hasNeighbor (x : Z) (v : t) : bool := IntSet.mem x v.(neighbors).
Definition setId (i : Z) (v : t) : t := mk v.(neighbors) i v.(p_curr) v.(p_next).
Definition setCurrProb (prob : Z) (v : t) : t := mk v.(neighbors) v.(id) prob v.(p_next).
Definition setNextProb (prob : Z) (v : t) : t := mk v.(neighbors) v.(id) v.(p_curr) prob.

(** [VertexSerializer]: the two [double]s in the order of the host, then the
    words. *)
Definition size (v : t) : Z := 4 * 2 + 8 * 2 + 4 * getNeighborsSize v.
Definition serialize (v : t) : bytes :=
  le_bytes 8 v.(p_curr) ++ le_bytes 8 v.(p_next) ++
  put_word v.(id) ++ put_word (getNeighborsSize v) ++ concat (put_word <$> v.(neighbors)).

(** [*double_ptr++] *)
Definition get_double (ptr : bytes) : outcome (Z * bytes) :=
  outcome_bind (read_at 0 8 ptr) (fun w => Ok (le_val w, drop 8 ptr)).

Definition deserializer (data : bytes) (size : Z) : outcome t :=
  outcome_bind (get_double data) (fun '(curr, ptr) =>
  outcome_bind (get_double ptr) (fun '(next, ptr) =>
  outcome_bind (get_word ptr) (fun '(id, ptr) =>
  outcome_bind (get_word ptr) (fun '(n, ptr) =>
  let expected_size := u32 (2 * 8 + 4 * u32 (2 + n)) in
  if negb (size =? expected_size) then
    Throw (RuntimeError ("Incorrect size: " +:+ pretty size +:+
                         " expected: " +:+ pretty expected_size))
  else
    outcome_bind (get_neighbors (Z.to_nat n) ptr []) (fun neighbors =>
    Ok (mk neighbors (i32 id) curr next)))))).

#[global] Instance serializer : Serializer t :=
  { ser_size := size; ser_serialize := serialize }.
#[global] Instance des : Deserializer t := { deserialize := deserializer }.

Lemma length_pr_serialize v : length (serialize v) = (24 + 4 * length (neighbors v))%nat.
Proof.
  unfold serialize. rewrite !length_app, !length_le_bytes, !length_put_word, length_put_words. lia.
Qed.

#[global] Instance serializer_spec : SerializerSpec t.
Proof.
  split. intros v. cbn. rewrite length_pr_serialize. unfold size, getNeighborsSize. lia.
Qed.

(** The values that a vertex can have, with a size that [unsigned int] holds. *)
Definition wf (v : t) : Prop :=
  IntSet.wf v.(neighbors) /\ IntSet.is_i32 v.(id) /\ is_u64 v.(p_curr) /\ is_u64 v.(p_next) /\
  24 + 4 * Z.of_nat (length v.(neighbors)) < 2 ^ 32.

Lemma get_put_double d rest : is_u64 d -> get_double (le_bytes 8 d ++ rest) = Ok (d, rest).
Proof.
  intros Hd. unfold get_double. pose proof (read_at_next [] (le_bytes 8 d) rest) as Hr.
  rewrite length_le_bytes, app_nil_l in Hr. change (length []) with 0%nat in Hr. rewrite Hr.
  cbn [outcome_bind]. rewrite le_val_le_bytes. change (256 ^ Z.of_nat 8) with (2 ^ 64).
  by rewrite Z.mod_small by done.
Qed.

#[global] Program Instance des_spec : DeserializerSpec t := { ser_ok := wf }.
Next Obligation.
  intros v rest ((Hs & Hl) & Hid & Hc & Hn & Hsz). cbn [deserialize ser_serialize des serializer].
  rewrite length_pr_serialize. unfold deserializer, serialize. rewrite <- !app_assoc.
  rewrite get_put_double by done. cbn [outcome_bind]. rewrite get_put_double by done.
  cbn [outcome_bind]. rewrite get_put_word. cbn [outcome_bind]. rewrite get_put_word.
  cbn [outcome_bind]. unfold getNeighborsSize.
  rewrite (u32_small (Z.of_nat _)), (u32_small (2 + _)), u32_small by (split; lia).
  replace (_ =? _) with true by (symmetry; apply Z.eqb_eq; lia). cbn [negb].
  rewrite Nat2Z.id, get_put_neighbors by done. cbn [outcome_bind].
  rewrite i32_u32, IntSet.insert_all by done. by destruct v.
Qed.
End PRVertex.

Module PageRank.
Import PRVertex.

(** ** PageRank.cpp *)

(** [EQUAL(a, b)] *)
Definition EQUAL (a b : Z) : bool := Double.ltb (Double.abs (Double.sub a b)) Double.c_1e_5.

(** The share of its rank that a vertex gives to each neighbour. *)
Definition share_of (curr : t) : Z :=
  Double.div curr.(p_curr) (Double.of_uint (getNeighborsSize curr)).
Definition receive (share : Z) (n : t) : t := setNextProb (Double.add n.(p_next) share) n.

(** The update at the end of a round: the vertex, and what it adds to [error]. *)
Definition new_prob (num_vertices : nat) (gamma : Z) (curr : t) : Z :=
  Double.add (Double.mul curr.(p_next) gamma)
    (Double.div (Double.sub Double.one gamma) (Double.of_uint (Z.of_nat num_vertices))).
Definition settle (num_vertices : nat) (gamma : Z) (curr : t) : t :=
  setNextProb Double.zero (setCurrProb (new_prob num_vertices gamma curr) curr).
Definition change (num_vertices : nat) (gamma : Z) (curr : t) : Z :=
  Double.abs (Double.sub (new_prob num_vertices gamma curr) curr.(p_next)).

Section page_rank.
Context {U : Type} `{Shuffle} `{IteratorPolicy U}.
Context {W P C : Type} `{ObjectStore W t} `{EvictionPolicy P} `{PrefetchPolicy C t}.
Abbreviation cm := (CacheManager.t t W P C).

Definition dflt : t := ctor 0.
Abbreviation cm_get := (CacheManager.get dflt).
Abbreviation cm_put := (CacheManager.put dflt).

(** [for (auto curr : iter) body], with the variables of the body in [a]. *)
Fixpoint for_range {A} (fuel : nat) (it end_it : CirrusIterable.any_policy U)
    (body : A -> t -> M cm A) (a : A) : M cm A :=
  if CirrusIterable.eqb it end_it then ret a else
  match fuel with
  | O => stop OutOfFuel
  | S fuel =>
      let* curr := CirrusIterable.deref dflt it in
      let* a := body a curr in
      for_range fuel (CirrusIterable.preincrement it) end_it body a
  end.
Definition for_iterable {A} (fuel : nat) (c : CirrusIterable.t U) (body : A -> t -> M cm A)
    (a : A) : M cm A :=
  let* b := stop (CirrusIterable.begin c) in
  let* e := stop (CirrusIterable.end_ c) in
  for_range fuel b e body a.

(** The body of the first loop: every neighbour gets its share. *)
Definition distribute (curr : t) : M cm unit :=
  mfor curr.(neighbors) (fun x =>
    let* n := cm_get (u64 x) in
    cm_put (u64 x) (receive (share_of curr) n)).

(** The variables of the second loop. *)
Record vars := mk_vars { error : Z; prev_error : Z; index : Z }.

Definition settle_vertex (num_vertices : nat) (gamma : Z) (a : vars) (curr : t) : M cm vars :=
  cm_put a.(index) (settle num_vertices gamma curr) ;;;
  ret (mk_vars (Double.add a.(error) (change num_vertices gamma curr)) a.(error)
         (u64 (a.(index) + 1))).

(** The two loops of a round. *)
Definition distribute_all (fuel : nat) (iter : CirrusIterable.t U) : M cm unit :=
  for_iterable fuel iter (fun _ => distribute) tt.
Definition settle_all (fuel : nat) (num_vertices : nat) (gamma : Z) (iter : CirrusIterable.t U)
    (err : Z) : M cm vars :=
  for_iterable fuel iter (settle_vertex num_vertices gamma) (mk_vars err err 0).

(** [for (uint64_t it = 0; it < num_iterations; ++it)]; [num_vertices] is an
    [unsigned int], and [fuel] bounds the iterations over the vertices.  The
    iterable of the first loop is declared, that of the second is the same one
    after [iter = CirrusIterable<Vertex>(...)]. *)
Fixpoint pageRank_loop (fuel : nat) (num_vertices : nat) (gamma : Z) (num_iterations : nat)
    (err : Z) : M cm unit :=
  match num_iterations with
  | O => ret tt
  | S num_iterations =>
      let iter := CirrusIterable.ctor 40 0 (u32 (Z.of_nat num_vertices - 1)) in
      distribute_all fuel iter ;;;
      let iter := CirrusIterable.assign_temporary
        (CirrusIterable.ctor 40 0 (u32 (Z.of_nat num_vertices - 1))) in
      let* a := settle_all fuel num_vertices gamma iter err in
      if EQUAL a.(error) a.(prev_error) then ret tt
      else pageRank_loop fuel num_vertices gamma num_iterations a.(error)
  end.

Definition pageRank (fuel num_vertices : nat) (gamma : Z) (num_iterations : nat) : M cm unit :=
  pageRank_loop fuel num_vertices gamma num_iterations Double.zero.

(** ** pr.cpp *)

Definition cache_size : Z := 200.

(** The vertices go to the cache, and their ranks are read at the end. *)
Definition run (fuel : nat) (vertices : list t) : M cm (list t) :=
  mfor vertices (fun v => cm_put (u64 v.(PRVertex.id)) v) ;;;
  pageRank fuel (length vertices) Double.c_0_85 100 ;;;
  mmap (Z.of_nat <$> seq 0 (length vertices)) cm_get.
End page_rank.

(** page_rank/Input.cpp: the number of vertices is not checked, and a negative
    one is too large for [reserve]. *)
Definition readGraph (fname : string) (file : option (list token)) : outcome (list t) :=
  match file with
  | None => Throw (RuntimeError ("Error opening file: " +:+ fname))
  | Some ts =>
      ((let* num_vertices := Ifstream.extract_int (Some (-1)) in
        let* num_edges := Ifstream.extract_int (Some (-1)) in
        if num_vertices <? 0 then throw (LengthError "vector::reserve")
        else Input.read_vertices ctor addNeighbor (Z.to_nat num_vertices) 0 [])
       (Ifstream.mk ts false)).2
  end.

(** [main], on a store [w] that is connected. *)
Definition main {U W C} `{Shuffle} `{IteratorPolicy U} `{ObjectStore W t} `{PrefetchPolicy C t}
    (fuel : nat) (fname : string) (file : option (list token)) (uninit : OrderedPolicy.t) (w : W)
    : outcome (list t) :=
  outcome_bind (readGraph fname file) (fun vertices =>
  outcome_bind (CacheManager.ctor (C := C) w (LRAdded.init cache_size) cache_size false uninit)
    (fun s => (run (U := U) fuel vertices s).2)).

(** ** The reference *)

(** What vertex [j] collects in a round, from all vertices in order. *)
Definition collected (vs : list t) (j : Z) (p : Z) : Z :=
  fold_left (fun p v => if IntSet.mem j v.(neighbors) then Double.add p (share_of v) else p) vs p.
Definition gather (vs : list t) : list t :=
  imap (fun j v => setNextProb (collected vs (Z.of_nat j) v.(p_next)) v) vs.

(** The error, and the error before the last vertex. *)
Definition errors (gamma : Z) (n : nat) (vs : list t) (err : Z) : Z * Z :=
  fold_left (fun '(e, _) v => (Double.add e (change n gamma v), e)) vs (err, err).

(** ** Distributing is collecting *)

(** Giving a share to the vertices of a list, and all shares of a list of
    vertices. *)
Definition give (share : Z) (l : list Z) (cs : list t) : list t :=
  fold_left (fun cs x => alter (receive share) (Z.to_nat x) cs) l cs.
Definition scatter (vs cs : list t) : list t :=
  fold_left (fun cs v => give (share_of v) v.(neighbors) cs) vs cs.

(** The vertices of a program: neighbours are in range, each once. *)
Definition graph_ok (vs : list t) : Prop :=
  Forall (fun v => NoDup v.(neighbors) /\
    Forall (fun x => 0 <= x < Z.of_nat (length vs)) v.(neighbors)) vs.

Lemma length_give share l cs : length (give share l cs) = length cs.
Proof.
  unfold give. revert cs. induction l as [|x l IH]; intros cs; [done|]. simpl.
  by rewrite IH, length_alter.
Qed.

Lemma give_lookup share l cs j : NoDup l -> Forall (fun x => 0 <= x) l ->
  give share l cs !! j =
    (fun v => if IntSet.mem (Z.of_nat j) l then receive share v else v) <$> cs !! j.
Proof.
  intros Hnd Hl. revert cs. induction Hl as [|x l Hx Hl IH]; intros cs.
  { unfold IntSet.mem. rewrite bool_decide_false by set_solver. simpl. by destruct (cs !! j). }
  apply NoDup_cons in Hnd as [Hx' Hnd]. unfold give in *. simpl. rewrite IH by done.
  destruct (decide (x = Z.of_nat j)) as [->|Hne].
  - rewrite Nat2Z.id, list_lookup_alter_eq. destruct (cs !! j) as [v|]; [|done]. simpl.
    unfold IntSet.mem. by rewrite bool_decide_false, bool_decide_true by set_solver.
  - rewrite list_lookup_alter_ne by lia. destruct (cs !! j) as [v|]; [|done]. simpl.
    unfold IntSet.mem. by rewrite (bool_decide_ext (Z.of_nat j ∈ x :: l) (Z.of_nat j ∈ l))
      by set_solver.
Qed.

Lemma scatter_lookup vs cs j :
  Forall (fun v => NoDup v.(neighbors) /\ Forall (fun x => 0 <= x) v.(neighbors)) vs ->
  scatter vs cs !! j =
    (fun v => setNextProb (collected vs (Z.of_nat j) v.(p_next)) v) <$> cs !! j.
Proof.
  intros Hvs. revert cs. induction Hvs as [|v vs [Hnd Hr] Hvs IH]; intros cs.
  { simpl. destruct (cs !! j) as [w|]; [|done]. simpl. by destruct w. }
  unfold scatter in *. simpl. rewrite IH, give_lookup by done.
  destruct (cs !! j) as [w|]; [|done]. simpl. unfold collected. simpl.
  by destruct (IntSet.mem (Z.of_nat j) (neighbors v)).
Qed.

Lemma graph_ok_nonneg vs : graph_ok vs ->
  Forall (fun v => NoDup v.(neighbors) /\ Forall (fun x => 0 <= x) v.(neighbors)) vs.
Proof.
  intros Hg. eapply Forall_impl; [exact Hg|]. intros v [Hnd Hr]. split; [done|].
  eapply Forall_impl; [exact Hr|]. simpl. lia.
Qed.

Lemma scatter_gather vs : graph_ok vs -> scatter vs vs = gather vs.
Proof.
  intros Hg. apply list_eq. intros j. rewrite scatter_lookup by (by apply graph_ok_nonneg).
  unfold gather. by rewrite list_lookup_imap.
Qed.

(** ** Over a cache *)

Section over_cache.
Context {U : Type} `{ShuffleSpec} `{IteratorPolicy U}.
Context {W P C : Type} `{StoreSpec W PRVertex.t} `{TrackingPolicy P} `{PrefetchPolicy C PRVertex.t}.
Import CacheManager CirrusIterable.
Implicit Types s : CacheManager.t PRVertex.t W P C.

Lemma shows_ext n f g s : (forall o, f o = g o) -> shows n f s -> shows n g s.
Proof.
  intros He [(m & pf & Hc & Hv) Ht Ho Hd]. split; [|done..]. exists m, pf. split; [done|].
  intros o. by rewrite Hv.
Qed.

Lemma shows_get n f s oid v : shows (2 + n) f s -> is_u64 oid -> f oid = Some v ->
  exists s', get dflt oid s = (s', Ok v) /\ shows n f s' /\ holds s' oid.
Proof.
  intros Hs Hu Hf. pose proof Hs as [(m & pf & Hc & Hv) Ht Ho Hd].
  destruct (cache_get_ok dflt n s m pf oid v Hc Ht Hu) as (s' & m' & pf' & Hrun & Hc' & Hv' & Hk & Hh);
    [by apply (shows_few _ _ _ _ Hs)|done|by rewrite Hv|].
  exists s'. split_and!; [done| |done]. split; [|apply Hk| |].
  - exists m', pf'. split; [done|]. intros o. by rewrite Hv'.
  - by rewrite (k_prefetch _ _ Hk).
  - by rewrite (k_defer _ _ Hk).
Qed.

(** A put on an entry that is not being prefetched. *)
Lemma shows_put n f s oid v : shows (2 + n) f s -> is_u64 oid -> st_obj v ->
  (forall e, cache s !! oid = Some e -> cached e = true) ->
  exists s', put dflt oid v s = (s', Ok tt) /\ shows n (upd f oid (Some v)) s' /\
    (all_cached s -> all_cached s').
Proof.
  intros Hs Hu Hobj Hh. pose proof Hs as [(m & pf & Hc & Hv) Ht Ho Hd].
  destruct (cache_put_ok dflt n s m pf oid v Hc Ht Hu Hobj) as (s' & m' & pf' & Hrun & Hc' & Hv' & Hk);
    [by apply (shows_few _ _ _ _ Hs)|done|].
  exists s'. split_and!; [done| |apply Hk]. split; [|apply Hk| |].
  - exists m', pf'. split; [done|]. intros o. rewrite Hv'. unfold upd. by destruct (decide _).
  - by rewrite (k_prefetch _ _ Hk).
  - by rewrite (k_defer _ _ Hk).
Qed.

Lemma holds_cached s oid : holds s oid -> forall e, cache s !! oid = Some e -> cached e = true.
Proof. intros (e & He & Hc) e' He'. by simplify_eq. Qed.

(** A loop over the objects of a range: [J] relates the ids to come, the
    variables of the body and the vertices. *)
Lemma for_range_ok {A} ra end_it c n (body : A -> PRVertex.t -> M (CacheManager.t PRVertex.t W P C) A)
    (J : list ObjectID -> A -> list PRVertex.t -> Prop) ids it :
  visits ra end_it it ids -> Forall is_u64 ids ->
  (forall oid ids a cs, J (oid :: ids) a cs -> exists v, znth cs oid = Some v /\
     forall n s, shows (c + n) (znth cs) s -> holds s oid -> exists s' a' cs',
       body a v s = (s', Ok a') /\ shows n (znth cs') s' /\ J ids a' cs') ->
  forall fuel a cs s, (length ids <= fuel)%nat ->
  J ids a cs -> shows (length ids * (2 * ra + 2 + c) + n) (znth cs) s ->
  exists s' a' cs', for_range fuel it end_it body a s = (s', Ok a') /\
    shows n (znth cs') s' /\ J [] a' cs'.
Proof.
  intros Hvis Hu Hbody. induction Hvis as [it Heq|it oid ids l Heq Hl Hlen Hul Ho Hvis IH];
    intros fuel a cs s Hf HJ Hs.
  { exists s, a, cs. split_and!; [|done|done]. destruct fuel; cbn; by rewrite Heq. }
  apply Forall_cons in Hu as [Hu Hus]. destruct fuel as [|fuel]; [simpl in Hf; lia|].
  cbn [length for_range] in *. rewrite Heq.
  destruct (Hbody oid ids a cs HJ) as (v & Hv & Hb).
  set (n1 := (length ids * (2 * ra + 2 + c) + n)%nat).
  destruct (iterator_deref_ok dflt (c + n1) (znth cs) it l oid v s) as (s1 & Hrun1 & Hs1 & Hh);
    try done.
  { eapply shows_le; [|exact Hs]. unfold n1. lia. }
  mstep Hrun1. destruct (Hb n1 s1 Hs1 Hh) as (s2 & a2 & cs2 & Hrun2 & Hs2 & HJ2). mstep Hrun2.
  apply (IH Hus fuel a2 cs2 s2); [lia|done|done].
Qed.

(** *** The two loops *)

(** A vertex that the store can keep, whatever its ranks. *)
Definition sound (v : PRVertex.t) : Prop :=
  (forall p q, is_u64 p -> is_u64 q -> st_obj (PRVertex.mk v.(neighbors) v.(PRVertex.id) p q)) /\
  is_u64 v.(p_curr) /\ is_u64 v.(p_next).

Lemma sound_receive share v : sound v -> sound (receive share v).
Proof. intros (Hobj & Hc & Hn). split; [done|]. split; [done|]. apply Double.encode_range. Qed.

Lemma sound_settle n gamma v : sound v -> sound (settle n gamma v).
Proof. intros (Hobj & Hc & Hn). split; [done|]. split; [apply Double.encode_range|done]. Qed.

Lemma sound_obj v : sound v -> st_obj v.
Proof. intros (Hobj & Hc & Hn). destruct v. by apply Hobj. Qed.


Lemma Forall_give share l cs : Forall sound cs -> Forall sound (give share l cs).
Proof.
  unfold give. revert cs. induction l as [|x l IH]; intros cs Hcs; [done|]. simpl. apply IH.
  apply Forall_alter; [done|]. intros v _. apply sound_receive.
Qed.

(** An element of a list is replaced. *)
Lemma upd_alter g (cs : list PRVertex.t) x v o : 0 <= x -> znth cs x = Some v ->
  upd (znth cs) x (Some (g v)) o = znth (alter g (Z.to_nat x) cs) o.
Proof.
  intros Hx Hv. unfold upd. destruct (decide (o = x)) as [->|Hne].
  - unfold znth in *. rewrite (proj2 (Z.leb_le 0 x)) in * by done.
    by rewrite list_lookup_alter_eq, Hv.
  - unfold znth. destruct (Z.leb_spec 0 o); [|done]. by rewrite list_lookup_alter_ne by lia.
Qed.

Context (vs : list PRVertex.t) (D : nat).
Context (Hcount : Z.of_nat (length vs) < 2 ^ 31).

Definition in_range (x : Z) : Prop := 0 <= x < Z.of_nat (length vs).

Lemma distribute_ok n l share : Forall in_range l -> forall cs s, length cs = length vs ->
  Forall sound cs -> shows (4 * length l + n) (znth cs) s -> exists s',
    mfor l (fun x => let* v := get dflt (u64 x) in put dflt (u64 x) (receive share v)) s =
      (s', Ok tt) /\ shows n (znth (give share l cs)) s'.
Proof.
  induction 1 as [|x l Hx Hl IH]; intros cs s Hlen Hsound Hs; [by exists s|].
  unfold in_range in Hx. cbn [length mfor] in *.
  assert (Hu : u64 x = x) by (apply u64_small; split; lia). rewrite Hu.
  destruct (proj2 (znth_is_Some cs x)) as [v Hv]; [by rewrite Hlen|].
  apply znth_Some in Hv as Hv'.
  pose proof (Forall_lookup_1 _ _ _ _ Hsound Hv') as Hsv.
  destruct (shows_get (2 + (4 * length l + n)) (znth cs) s x v) as (s1 & Hget & Hs1 & Hh);
    [eapply shows_le; [|exact Hs]; lia|split; lia|done|].
  destruct (shows_put _ (znth cs) s1 x (receive share v) Hs1) as (s2 & Hput & Hs2 & _);
    [split; lia|by apply sound_obj, sound_receive|by apply holds_cached|].
  destruct (IH (alter (receive share) (Z.to_nat x) cs) s2) as (s' & Hrun & Hs').
  - by rewrite length_alter.
  - apply Forall_alter; [done|]. intros w _. apply sound_receive.
  - eapply shows_ext; [|exact Hs2]. intros o. apply upd_alter; [lia|done].
  - exists s'. split; [|done].
    rewrite (bind_ok _ _ s s2 tt) by (by mstep Hget). exact Hrun.
Qed.

(** The iterations over all vertices. *)
Lemma all_vertices n ra {A} (body : A -> PRVertex.t -> M (CacheManager.t PRVertex.t W P C) A)
    c (J : list ObjectID -> A -> list PRVertex.t -> Prop) fuel a cs s :
  (0 < length vs)%nat -> is_u32 ra -> (length vs <= fuel)%nat ->
  (forall oid ids a cs, J (oid :: ids) a cs -> exists v, znth cs oid = Some v /\
     forall n s, shows (c + n) (znth cs) s -> holds s oid -> exists s' a' cs',
       body a v s = (s', Ok a') /\ shows n (znth cs') s' /\ J ids a' cs') ->
  J (seqZ 0 (Z.of_nat (length vs))) a cs ->
  shows (length vs * (2 * Z.to_nat ra + 2 + c) + n) (znth cs) s ->
  exists s' a' cs',
    for_iterable (U := U) fuel
      (CirrusIterable.ctor ra 0 (u32 (Z.of_nat (length vs) - 1))) body a s = (s', Ok a') /\
    shows n (znth cs') s' /\ J [] a' cs'.
Proof.
  intros Hpos Hra Hf Hbody HJ Hs. rewrite u32_small by (split; lia).
  set (last := Z.of_nat (length vs) - 1).
  assert (Hr : valid_range 0 last) by (unfold valid_range, last; lia).
  pose proof (ordered_visits (U := U) ra 0 last 0 (length vs) Hr Hra ltac:(lia)
    ltac:(unfold last; lia)) as Hvis.
  assert (Hids : Forall is_u64 (seqZ 0 (Z.of_nat (length vs)))).
  { apply Forall_forall. intros x Hx%elem_of_seqZ. split; lia. }
  destruct (for_range_ok _ _ c n body J _ _ Hvis Hids Hbody fuel a cs s)
    as (s' & a' & cs' & Hrun & Hres); rewrite ?length_seqZ, ?Nat2Z.id in *; [done|done|done|].
  exists s', a', cs'. split; [|done]. unfold for_iterable, ctor, begin, end_.
  rewrite u32_small by done. exact Hrun.
Qed.

Lemma length_scatter l cs : length (scatter l cs) = length cs.
Proof.
  unfold scatter. revert cs. induction l as [|v l IH]; intros cs; [done|]. simpl.
  by rewrite IH, length_give.
Qed.

Lemma Forall_scatter l cs : Forall sound cs -> Forall sound (scatter l cs).
Proof.
  unfold scatter. revert cs. induction l as [|v l IH]; intros cs Hcs; [done|]. simpl.
  by apply IH, Forall_give.
Qed.

Context (Hpos : (0 < length vs)%nat) (Hg : graph_ok vs).
Context (HD : Forall (fun v => (length v.(neighbors) <= D)%nat) vs).

(** The ids to come after [k] vertices. *)
Definition ids_from (k : nat) : list ObjectID :=
  seqZ (Z.of_nat k) (Z.of_nat (length vs) - Z.of_nat k).

Lemma ids_from_cons k oid ids : ids_from k = oid :: ids ->
  (k < length vs)%nat /\ oid = Z.of_nat k /\ ids = ids_from (S k).
Proof.
  unfold ids_from. intros He. destruct (decide (k < length vs)%nat) as [Hlt|Hge].
  - rewrite seqZ_cons in He by lia. injection He as <- <-. split_and!; [done|done|].
    f_equal; lia.
  - by rewrite seqZ_nil in He by lia.
Qed.

Lemma ids_from_nil k : (k <= length vs)%nat -> ids_from k = [] -> k = length vs.
Proof.
  unfold ids_from. intros Hk He. apply (f_equal length) in He. rewrite length_seqZ in He.
  simpl in He. lia.
Qed.

Lemma first_loop_ok n fuel s : (length vs <= fuel)%nat -> Forall sound vs ->
  shows (length vs * (82 + 4 * D) + n) (znth vs) s -> exists s',
    distribute_all (U := U) fuel (CirrusIterable.ctor 40 0 (u32 (Z.of_nat (length vs) - 1))) s =
      (s', Ok tt) /\ shows n (znth (gather vs)) s'.
Proof.
  intros Hf Hsound Hs.
  destruct (all_vertices n 40 (fun _ => distribute) (4 * D) (fun ids _ cs => exists k,
    ids = ids_from k /\ (k <= length vs)%nat /\ cs = scatter (take k vs) vs) fuel tt vs s)
    as (s' & [] & cs' & Hrun & Hs' & k & Hk & Hle & ->).
  - done.
  - split; lia.
  - done.
  - intros oid ids [] cs (k & Hids & Hle & ->). symmetry in Hids.
    apply ids_from_cons in Hids as (Hlt & -> & ->).
    destruct (lookup_lt_is_Some_2 vs k Hlt) as [v Hv].
    pose proof (Forall_take _ k _ (graph_ok_nonneg vs Hg)) as Hnn.
    pose proof (scatter_lookup (take k vs) vs k Hnn) as Hw. rewrite Hv in Hw. cbn in Hw.
    eexists. split; [by rewrite znth_nat|]. intros m s1 Hs1 _.
    destruct (Forall_lookup_1 _ _ _ _ Hg Hv) as [_ Hr].
    pose proof (Forall_lookup_1 _ _ _ _ HD Hv) as Hd. cbn in Hd.
    destruct (distribute_ok m (neighbors v) (share_of v) Hr (scatter (take k vs) vs) s1)
      as (s2 & Hrun2 & Hs2); [apply length_scatter|by apply Forall_scatter|
        eapply shows_le; [|exact Hs1]; lia|].
    exists s2, tt, (scatter (take (S k) vs) vs). split_and!; [exact Hrun2| |by exists (S k)].
    rewrite (take_S_r vs k v Hv). unfold scatter. rewrite fold_left_app. exact Hs2.
  - exists 0%nat. split_and!; [unfold ids_from; f_equal; lia|lia|done].
  - eapply shows_le; [|exact Hs]. simpl. lia.
  - symmetry in Hk. apply ids_from_nil in Hk as ->; [|done]. exists s'. split; [done|].
    rewrite firstn_all in Hs'. by rewrite scatter_gather in Hs'.
Qed.

Lemma errors_snoc gamma m l v err :
  errors gamma m (l ++ [v]) err =
    (Double.add (errors gamma m l err).1 (change m gamma v), (errors gamma m l err).1).
Proof.
  unfold errors. rewrite fold_left_app. simpl. by destruct (fold_left _ l (err, err)) as [e p].
Qed.

(** The vertices after [k] of them were settled. *)
Definition settled (gamma : Z) (k : nat) (cs : list PRVertex.t) : list PRVertex.t :=
  (settle (length vs) gamma <$> take k cs) ++ drop k cs.

Lemma settled_next gamma k cs v : cs !! k = Some v ->
  <[k := settle (length vs) gamma v]> (settled gamma k cs) = settled gamma (S k) cs.
Proof.
  intros Hv. apply lookup_lt_Some in Hv as Hk. unfold settled.
  rewrite (drop_S cs v k Hv), (take_S_r cs k v Hv), fmap_app, <- app_assoc.
  rewrite insert_app_r_alt by (rewrite length_fmap, length_take; lia).
  by rewrite length_fmap, length_take, Nat.min_l, Nat.sub_diag by lia.
Qed.

Lemma settled_lookup gamma k cs : settled gamma k cs !! k = cs !! k.
Proof.
  unfold settled. destruct (decide (k <= length cs)%nat).
  - rewrite lookup_app_r by (rewrite length_fmap, length_take; lia).
    rewrite length_fmap, length_take, Nat.min_l, Nat.sub_diag, lookup_drop by lia. f_equal. lia.
  - rewrite !lookup_ge_None_2; [done|lia|].
    rewrite length_app, length_fmap, length_take, length_drop. lia.
Qed.

Lemma second_loop_ok n fuel s gamma cs err : (length vs <= fuel)%nat -> length cs = length vs -> Forall sound cs ->
  shows (length vs * 84 + n) (znth cs) s -> exists s',
    settle_all (U := U) fuel (length vs) gamma
      (CirrusIterable.ctor 40 0 (u32 (Z.of_nat (length vs) - 1))) err s =
      (s', Ok (mk_vars (errors gamma (length vs) cs err).1 (errors gamma (length vs) cs err).2
                 (Z.of_nat (length vs)))) /\
    shows n (znth (settle (length vs) gamma <$> cs)) s'.
Proof.
  intros Hf Hlen Hsound Hs.
  destruct (all_vertices n 40 (settle_vertex (length vs) gamma) 2 (fun ids a cs' => exists k,
    ids = ids_from k /\ (k <= length vs)%nat /\ cs' = settled gamma k cs /\
    a = mk_vars (errors gamma (length vs) (take k cs) err).1
          (errors gamma (length vs) (take k cs) err).2 (Z.of_nat k)) fuel (mk_vars err err 0) cs s)
    as (s' & a' & cs' & Hrun & Hs' & k & Hk & Hle & -> & ->).
  - done.
  - split; lia.
  - done.
  - intros oid ids a cs' (k & Hids & Hle & -> & ->). symmetry in Hids.
    apply ids_from_cons in Hids as (Hlt & -> & ->).
    destruct (lookup_lt_is_Some_2 cs k) as [v Hv]; [lia|].
    exists v. split; [by rewrite znth_nat, settled_lookup|]. intros m s1 Hs1 Hh.
    pose proof (Forall_lookup_1 _ _ _ _ Hsound Hv) as Hsv.
    destruct (shows_put m _ s1 (Z.of_nat k) (settle (length vs) gamma v) Hs1)
      as (s2 & Hput & Hs2 & _); [split; lia|by apply sound_obj, sound_settle|by apply holds_cached|].
    exists s2, (mk_vars (errors gamma (length vs) (take (S k) cs) err).1
      (errors gamma (length vs) (take (S k) cs) err).2 (Z.of_nat (S k))), (settled gamma (S k) cs).
    split_and!; [| |by exists (S k)].
    + unfold settle_vertex. cbn [index]. mstep Hput. unfold ret. cbn [error].
      rewrite u64_small by (split; lia). rewrite (take_S_r cs k v Hv), errors_snoc. cbn [fst snd].
      do 3 f_equal. lia.
    + eapply shows_ext; [|exact Hs2]. intros o. rewrite <- (settled_next gamma k cs v Hv).
      rewrite znth_insert; [done|].
      unfold settled. rewrite length_app, length_fmap, length_take, length_drop. lia.
  - exists 0%nat. split_and!; [unfold ids_from; f_equal; lia|lia|done|done].
  - eapply shows_le; [|exact Hs]. simpl. lia.
  - symmetry in Hk. apply ids_from_nil in Hk as ->; [|done]. exists s'.
    unfold settled in Hs'. rewrite <- Hlen, firstn_all, skipn_all, app_nil_r, Hlen in *. done.
Qed.
End over_cache.

(** ** The program *)

(** The vertices of adjacency lists. *)
Definition vertices (adj : list (list Z)) : list t :=
  imap (fun i l => mk l (Z.of_nat i) Double.one Double.zero) adj.

(** Neighbours in range, at most [D] of them. *)
Definition adj_ok (D : nat) (adj : list (list Z)) : Prop :=
  Forall (fun l => (length l <= D)%nat /\
    Forall (fun x => 0 <= x < Z.of_nat (length adj)) l) adj.

Lemma pr_vertex_of j l : StronglySorted Z.lt l ->
  fold_left (fun v x => addNeighbor x v) l (ctor j) = mk l j Double.one Double.zero.
Proof.
  intros Hs. assert (Hgen : forall nb, fold_left (fun v x => addNeighbor x v) l
    (mk nb j Double.one Double.zero) =
    mk (fold_left (fun s x => IntSet.insert x s) l nb) j Double.one Double.zero).
  { clear Hs. induction l as [|x l IH]; intros nb; [done|]. simpl. apply IH. }
  unfold ctor. by rewrite Hgen, IntSet.insert_all.
Qed.

Lemma pr_readGraph_ok fname num_edges adj : Input.file_ok num_edges adj ->
  readGraph fname (Some (Input.graph_file num_edges adj)) = Ok (vertices adj).
Proof.
  intros ((He1 & He2) & Hn & Hadj). unfold readGraph, Input.graph_file.
  erewrite (bind_ok _ _ _ _ _ (Ifstream.extract_num (Some (-1)) (Z.of_nat (length adj)) _
    ltac:(unfold IntSet.is_i32; lia))).
  erewrite (bind_ok _ _ _ _ _ (Ifstream.extract_num (Some (-1)) num_edges _
    ltac:(unfold IntSet.is_i32; lia))).
  destruct (Z.ltb_spec (Z.of_nat (length adj)) 0); [lia|].
  rewrite Nat2Z.id, (Input.read_vertices_ok _ _ adj 0 [] Hadj), app_nil_l.
  unfold vertices. f_equal. apply imap_ext. intros i l Hl. simpl.
  apply pr_vertex_of. apply (Forall_lookup_1 _ _ _ _ Hadj Hl).
Qed.

Lemma StronglySorted_NoDup l : StronglySorted Z.lt l -> NoDup l.
Proof.
  induction 1 as [|x l Hl IH Hx]; constructor; [|done]. intros Hin.
  rewrite Forall_forall in Hx. specialize (Hx x Hin). lia.
Qed.

Lemma vertices_ok num_edges D adj : Input.file_ok num_edges adj -> adj_ok D adj ->
  graph_ok (vertices adj) /\ Forall (fun v => (length v.(neighbors) <= D)%nat) (vertices adj).
Proof.
  intros (_ & _ & Hfile) Hadj. unfold graph_ok, vertices. rewrite length_imap.
  split; apply Forall_lookup; intros i v; rewrite list_lookup_imap;
    intros (l & Hl & ->)%fmap_Some; simpl;
    destruct (Forall_lookup_1 _ _ _ _ Hadj Hl) as [Hd Hr]; [|done].
  split; [|done]. apply StronglySorted_NoDup.
  apply (Forall_lookup_1 _ _ _ _ Hfile Hl).
Qed.

(** *** Rounds *)

Section rounds.
Context {U : Type} `{ShuffleSpec} `{IteratorPolicy U}.
Context {W P C : Type} `{StoreSpec W t} `{TrackingPolicy P} `{PrefetchPolicy C t}.
Abbreviation shows := (CirrusIterable.shows (W := W) (P := P) (C := C)).

Lemma sound_gather (vs : list t) : graph_ok vs -> Forall sound vs -> Forall sound (gather vs).
Proof. intros Hg Hs. rewrite <- scatter_gather by done. by apply Forall_scatter. Qed.

(** The requests of the two loops, with at most [D] neighbours per vertex. *)
Definition round_requests (D n : nat) : nat := n * (82 + 4 * D) + n * 84.

(** C14: the two loops of a round of PageRank, over any store and any cache that
    shows the vertices, with prefetching iterators and evictions.  The first one,
    in which every vertex distributes its rank over its neighbours, leaves in the
    cache the numbers, to the bit, that vertices get which collect from those
    that point to them.  The second one, over an iterable that is alive, leaves
    every vertex with its new rank, and its variables are the sum of the changes
    with and without the last vertex.  (As [pageRank] is written, the second
    iterable is not alive: [page_rank_undefined].) *)
Theorem page_rank_round (vs : list t) D n fuel gamma err s :
  (0 < length vs)%nat -> Z.of_nat (length vs) < 2 ^ 31 -> (length vs <= fuel)%nat ->
  graph_ok vs -> Forall (fun v => (length v.(neighbors) <= D)%nat) vs -> Forall sound vs ->
  shows (round_requests D (length vs) + n) (znth vs) s ->
  let iter := CirrusIterable.ctor (U := U) 40 0 (u32 (Z.of_nat (length vs) - 1)) in
  exists s1 s2,
    distribute_all fuel iter s = (s1, Ok tt) /\
    shows (length vs * 84 + n) (znth (gather vs)) s1 /\
    settle_all fuel (length vs) gamma iter err s1 =
      (s2, Ok (mk_vars (errors gamma (length vs) (gather vs) err).1
                 (errors gamma (length vs) (gather vs) err).2 (Z.of_nat (length vs)))) /\
    shows n (znth (settle (length vs) gamma <$> gather vs)) s2.
Proof.
  intros Hpos Hcount Hf Hg HD Hsound Hs iter.
  destruct (first_loop_ok (U := U) vs D Hcount Hpos Hg HD (length vs * 84 + n) fuel s Hf Hsound)
    as (s1 & Hrun1 & Hs1).
  { eapply CirrusIterable.shows_le; [|exact Hs]. unfold round_requests. lia. }
  destruct (second_loop_ok (U := U) vs Hcount Hpos n fuel s1 gamma (gather vs) err Hf)
    as (s2 & Hrun2 & Hs2); [unfold gather; by rewrite length_imap|by apply sound_gather|done|].
  by exists s1, s2.
Qed.

(** An iterator of an assigned iterable is cloned from a destroyed policy. *)
Lemma settle_all_undefined fuel n gamma ra first last err (s : CacheManager.t t W P C) :
  settle_all (U := U) fuel n gamma
    (CirrusIterable.assign_temporary (CirrusIterable.ctor ra first last)) err s = (s, Undefined).
Proof. done. Qed.
End rounds.

Section program.
Context {U : Type} `{ShuffleSpec} `{IteratorPolicy U}.
Context {W C : Type} `{StoreSpec W t} `{PrefetchPolicy C t}.
Abbreviation state := (CacheManager.t t W LRAdded.state C).
Abbreviation shows := (CirrusIterable.shows (W := W) (P := LRAdded.state) (C := C)).

Lemma pr_load_ok n (vs l : list t) : Forall sound vs -> Z.of_nat (length vs) < 2 ^ 31 ->
  (forall i v, vs !! i = Some v -> v.(PRVertex.id) = Z.of_nat i) ->
  forall pre (s : state), vs = pre ++ l ->
  shows (2 * length l + n) (znth pre) s -> CacheManager.all_cached s -> exists s',
    mfor l (fun v => CacheManager.put dflt (u64 v.(PRVertex.id)) v) s = (s', Ok tt) /\
    shows n (znth vs) s'.
Proof.
  intros Hsound Hcount Hids. induction l as [|v l IH]; intros pre s Hvs Hs Hall.
  { exists s. rewrite app_nil_r in Hvs. by subst pre. }
  assert (Hv : vs !! length pre = Some v) by (rewrite Hvs; by apply list_lookup_middle).
  pose proof (lookup_lt_Some _ _ _ Hv) as Hlt. cbn [length mfor] in *.
  rewrite (Hids _ _ Hv), u64_small by (split; lia).
  destruct (shows_put (2 * length l + n) (znth pre) s (Z.of_nat (length pre)) v)
    as (s1 & Hput & Hs1 & Hall1).
  - eapply CirrusIterable.shows_le; [|exact Hs]. lia.
  - split; lia.
  - apply sound_obj. exact (Forall_lookup_1 _ _ _ _ Hsound Hv).
  - apply Hall.
  - mstep Hput. apply (IH (pre ++ [v]) s1); [by rewrite <- app_assoc| |by apply Hall1].
    eapply shows_ext; [|exact Hs1]. intros o. by rewrite znth_snoc.
Qed.

(** C29: PageRank has no defined result.  On the file of any graph with a
    vertex, over any store that is empty, [main] reaches the second loop of the
    first round, whose [begin()] clones the policy that the assignment of line 46
    left dangling. *)
Theorem page_rank_undefined fuel fname num_edges adj D uninit (w : W) :
  Input.file_ok num_edges adj -> adj_ok D adj -> adj <> [] -> (length adj <= fuel)%nat ->
  (forall i l p q, adj !! i = Some l -> is_u64 p -> is_u64 q ->
     st_obj (mk l (Z.of_nat i) p q)) ->
  st_rep (2 * length adj + length adj * (82 + 4 * D)) w ∅ ∅ ->
  main (U := U) (C := C) fuel fname (Some (Input.graph_file num_edges adj)) uninit w = Undefined.
Proof.
  intros Hfile Hadj Hne Hf Hobj Hw. unfold main. rewrite pr_readGraph_ok by done.
  cbn [outcome_bind]. unfold CacheManager.ctor. change (cache_size <? 1) with false. cbv iota.
  cbn [outcome_bind]. set (s := CacheManager.mk _ _ _ _ _ _ _ _ _ _).
  set (vs := vertices adj). assert (Hlen : length vs = length adj) by apply length_imap.
  assert (Hpos : (0 < length vs)%nat) by (rewrite Hlen; destruct adj; simpl; [done|lia]).
  assert (Hcount : Z.of_nat (length vs) < 2 ^ 31) by (rewrite Hlen; apply Hfile).
  destruct (vertices_ok num_edges D adj Hfile Hadj) as [Hg HD].
  assert (Hlook : forall i v, vs !! i = Some v -> exists l, adj !! i = Some l /\
    v = mk l (Z.of_nat i) Double.one Double.zero).
  { intros i v. unfold vs, vertices. rewrite list_lookup_imap. intros (l & ? & ->)%fmap_Some. eauto. }
  assert (Hsound : Forall sound vs).
  { apply Forall_lookup. intros i v Hv. destruct (Hlook i v Hv) as (l & Hl & ->).
    split; [intros p q; by apply Hobj|]. split; split; (done || lia). }
  assert (Hs : shows (2 * length vs + (length vs * (82 + 4 * D) + 0)) (znth []) s).
  { split; [|split_and!|done|done].
    - exists ∅, ∅. rewrite Hlen, Nat.add_0_r. split; [split; [done|done|done|constructor]|].
      intros o. unfold znth. by destruct (0 <=? o).
    - by apply LRAdded.lradded_init_wf.
    - done.
    - simpl. lia. }
  destruct (pr_load_ok (length vs * (82 + 4 * D) + 0) vs vs Hsound Hcount) with (pre := @nil t) (s := s)
    as (s1 & Hload & Hs1); [|done|exact Hs|done|].
  { intros i v Hv. by destruct (Hlook i v Hv) as (l & _ & ->). }
  destruct (first_loop_ok (U := U) vs D Hcount Hpos Hg HD 0 fuel s1)
    as (s2 & Hrun & _); [by rewrite Hlen|done|done|].
  unfold run. mstep Hload. unfold pageRank. change 100%nat with (S 99). cbn [pageRank_loop].
  rewrite <- bind_assoc. mstep Hrun. unfold bind. by rewrite settle_all_undefined.
Qed.
End program.

(** ** Witnesses and limits *)

#[local] Instance no_prefetch : PrefetchPolicy unit t := {| pp_get _ _ := ret [] |}.
#[local] Instance no_shuffle : Shuffle := { shuffle l := l }.
#[local] Instance no_shuffle_spec : ShuffleSpec.
Proof. split. intros l. done. Qed.

(** Vertex 0 points to itself and to 1, which points back. *)
Definition demo_adj : list (list Z) := [[0; 1]; [0]].

(** A cache of one entry over a store with the vertices. *)
Definition demo_cache : CacheManager.t t (MapStore.t t) LRAdded.state unit :=
  CacheManager.mk ∅ 0 [] 1 (LRAdded.init 1) CacheManager.POff (OrderedPolicy.mk 5 0 0)
    None false (MapStore.mk (list_to_map (imap (fun i v => (Z.of_nat i, v)) (vertices demo_adj))) []).

Lemma demo_cache_shows n : CirrusIterable.shows n (znth (vertices demo_adj)) demo_cache.
Proof.
  split; [|split_and!|done|done].
  - eexists _, ∅. split; [split; [split; [reflexivity|]|done|done|constructor]|].
    + intros f. by rewrite lookup_empty.
    + intros o. unfold CacheManager.view, demo_cache. cbn [CacheManager.cache].
      rewrite lookup_empty. cbn. rewrite !lookup_insert, lookup_empty. unfold znth.
      repeat (destruct (decide (_ = o)) as [<-|]; [done|]).
      destruct (Z.leb_spec 0 o); [|done]. by rewrite lookup_ge_None_2 by (simpl; lia).
  - apply LRAdded.lradded_init_wf. lia.
  - done.
  - simpl. lia.
Qed.

Lemma page_rank_round_witness :
  let vs := vertices demo_adj in
  let iter := CirrusIterable.ctor (U := Ordered.t) 40 0 1 in
  exists s1 s2,
    distribute_all 2 iter demo_cache = (s1, Ok tt) /\
    CirrusIterable.shows 168 (znth (gather vs)) s1 /\
    settle_all 2 2 Double.c_0_85 iter Double.zero s1 =
      (s2, Ok (mk_vars (errors Double.c_0_85 2 (gather vs) Double.zero).1
                 (errors Double.c_0_85 2 (gather vs) Double.zero).2 2)) /\
    CirrusIterable.shows 0 (znth (settle 2 Double.c_0_85 <$> gather vs)) s2.
Proof.
  apply (page_rank_round (U := Ordered.t) (vertices demo_adj) 2 0 2 Double.c_0_85 Double.zero demo_cache).
  - simpl. lia.
  - simpl. lia.
  - simpl. lia.
  - repeat constructor; simpl; try lia; set_solver.
  - repeat constructor; simpl; lia.
  - apply Forall_cons; split; [|apply Forall_singleton];
      (split; [done|split; split; vm_compute; congruence]).
  - apply demo_cache_shows.
Defined.

Lemma page_rank_undefined_witness :
  main (U := Ordered.t) (C := unit) 2 "graph" (Some (Input.graph_file 3 demo_adj))
    (OrderedPolicy.mk 5 0 0) (MapStore.mk ∅ []) = Undefined.
Proof.
  apply (page_rank_undefined (U := Ordered.t) (C := unit) 2 "graph" 3 demo_adj 2
           (OrderedPolicy.mk 5 0 0) (MapStore.mk ∅ [])).
  - split; [lia|]. split; [simpl; lia|].
    repeat constructor; simpl; unfold IntSet.is_i32; lia.
  - repeat constructor; simpl; lia.
  - discriminate.
  - simpl. lia.
  - done.
  - split; [done|]. intros f. by rewrite lookup_empty.
Defined.

(** The test for convergence compares the error with the error before the
    last vertex: on a graph whose last vertex does not change it holds after one
    round, although the next round would change both ranks. *)
Theorem pageRank_stops_early :
  let vs := vertices demo_adj in
  let '(error, prev_error) := errors Double.c_0_85 2 (gather vs) Double.zero in
  let one := settle 2 Double.c_0_85 <$> gather vs in
  let two := settle 2 Double.c_0_85 <$> gather one in
  EQUAL error prev_error = true /\
  zip_with EQUAL (p_curr <$> one) (p_curr <$> two) = [false; false].
Proof. vm_compute. split; reflexivity. Qed.
End PageRank.
