(* ===== verification/GraphPrograms.v ===== *)
(** * The graph programs over the network

    The programs of [examples/graphs] run on the whole system: the cache, the
    object store, the TCP client, the network and the server. *)

From stdpp Require Import gmap list strings relations.
From S2P Require Import Prelude Common Eviction Storage Wire Codec BladeClient.
From S2P Require Import TCPClient TCPServer System ObjectStore CacheManager.
From S2P Require Import RemoteStore EndToEnd GraphVertex Resident Wcc.

Module GraphPrograms.
Import TCPServer System EndToEnd.

Section wcc.
Context {B : Type} `{StorageSpec B} `{FlatbuffersSpec} `{!FlatbuffersSize}.
Context {C : Type} `{PrefetchPolicy C WccVertex.t}.
Context (fuel k max_object : nat).

#[local] Instance network : ObjectStore (sys B) WccVertex.t :=
  RemoteStore.store_ops (T := WccVertex.t) fuel k.

(** The server stores a vertex without its fields [seen] and [cc]. *)
#[program] Definition network_accepts pool a0 (Hpool : pool_ok pool)
    (Hfuel : (4 + 2 * (fb_overhead + max_object) <= fuel)%nat)
    (Hsize : Z.of_nat (fb_overhead + max_object) < 2 ^ 31) :
    AcceptsPuts (sys B) WccVertex.t := {|
  ap_inv n w := exists m pf, RemoteStore.rep (T := WccVertex.t) fuel k pool a0 max_object n w m pf;
  ap_obj v := RemoteStore.storable max_object (WccVertex.clean v);
|}.
Next Obligation.
  intros pool a0 Hpool Hfuel Hsize n w (m & pf & Hr). exists m, pf.
  by apply (@st_weaken _ _ _ (RemoteStore.store_spec fuel k pool a0 max_object Hpool Hfuel Hsize)).
Qed.
Next Obligation.
  intros pool a0 Hpool Hfuel Hsize n w oid v (m & pf & Hr) Hu Hv.
  destruct (RemoteStore.rep_put_as fuel k pool a0 max_object Hpool Hfuel Hsize n w m pf oid v
    (WccVertex.clean v) Hr Hu Hv eq_refl) as (w' & Hrun & Hr').
  exists w', true. split; [done|eauto].
Qed.

(** C8: the program for connected components, from the file to the labels, run
    over the network against an empty server.  The graph is undirected and has
    at most [cache_size] vertices, and its traversals make [v] visits
    ([Wcc.visits], which is defined for every graph by [Wcc.visits_total]; a
    vertex that several visited ones had pushed is visited again).  The
    program makes a request per vertex, to load it, and one per visit, and all
    of them are within the limits of the system: the 10000 places of the send
    queue, the server's pool and the size of a message.  Then [main] ends and
    gives two vertices the same label exactly when they are connected. *)
Theorem wcc_over_network pool a0 (w : sys B) steps fname num_edges adj v uninit :
  initial fuel pool a0 w -> a_map a0 = ∅ ->
  Input.file_ok num_edges adj -> Wcc.undirected adj ->
  Z.of_nat (length adj) <= Wcc.cache_size ->
  Forall (fun l => (8 + 4 * length l <= max_object)%nat) adj ->
  Wcc.visits (Input.wcc_vertices 0 adj) steps = Some v ->
  within_limits fuel k max_object pool a0 (length adj + v) ->
  exists ccs,
    Wcc.main (C := C) steps fname (Some (Input.graph_file num_edges adj)) uninit w = Ok ccs /\
    length ccs = length adj /\
    forall i j, (i < length adj)%nat -> (j < length adj)%nat ->
      ccs !! i = ccs !! j <->
      rtc (Wcc.edge (Input.wcc_vertices 0 adj)) (Z.of_nat i) (Z.of_nat j).
Proof.
  intros Hw Ha Hfile Hu Hn Hmax Hv Hlim. pose proof Hlim as [Hpok Hfuel Hsize _ _ _ _].
  pose (Hacc := network_accepts pool a0 Hpok Hfuel Hsize).
  destruct (Wcc.main_ok (C := C) steps fname num_edges adj v uninit w) as (ccs & Hrun & Hl & Hc);
    try done.
  - intros i l b Hl. pose proof (Forall_lookup_1 _ _ _ _ Hmax Hl) as Hd. cbn in Hd.
    cbn. split; [split; [|done]|].
    + destruct Hfile as (_ & Hlen & Hadj).
      destruct (Forall_lookup_1 _ _ _ _ Hadj Hl) as [Hwf _].
      apply lookup_lt_Some in Hl. unfold WccVertex.wf, IntSet.is_i32. cbn.
      split_and!; [done|lia|lia|lia].
    + rewrite WccVertex.length_serialize. cbn. lia.
  - exists ∅, ∅. apply initial_rep; [done|by rewrite Ha, fmap_empty|apply map_Forall_empty|done].
  - exists ccs. rewrite Wcc.length_wcc_vertices in Hl, Hc. done.
Qed.
End wcc.

(** ** Witness *)

#[local] Instance no_prefetch : PrefetchPolicy unit WccVertex.t := {| pp_get _ _ := ret [] |}.

(** A server without objects. *)
Definition demo_server : TCPServer.t MemoryBackend.t :=
  TCPServer.mk 12345 3 8000 0 2 1 [mk_pollfd 3 1 0; mk_pollfd (-1) 1 0]
    (MemoryBackend.mk ∅ 0 8000).
Definition demo_system : sys MemoryBackend.t :=
  mk_sys demo_client demo_server (mk_socket [] StreamOpen [] [] true).

Lemma demo_system_empty : initial 200 8000 (mk_a 0 ∅) demo_system.
Proof. split; try done; try (simpl; intros; lia); split; constructor. Qed.

(** A path of 199 vertices, and one that is alone. *)
Definition demo_adj : list (list Z) :=
  imap (fun i _ => let i := Z.of_nat i in
    (if 0 <? i then [i - 1] else []) ++ (if i <? 198 then [i + 1] else []))
    (replicate 199 ()) ++ [[]].

(** A check that every edge has its converse. *)
Lemma edges_symmetric adj :
  Forall (fun e : Z * list Z => Forall (fun j =>
    0 <= j < Z.of_nat (length adj) /\ e.1 ∈ default [] (adj !! Z.to_nat j)) e.2)
    (imap (fun i l => (Z.of_nat i, l)) adj) -> Wcc.undirected adj.
Proof.
  rewrite Forall_lookup. intros Hall.
  assert (Hedge : forall i l j, adj !! i = Some l -> j ∈ l -> 0 <= j < Z.of_nat (length adj) /\
    Z.of_nat i ∈ default [] (adj !! Z.to_nat j)).
  { intros i l j Hi Hj. apply (proj1 (Forall_forall _ _) (Hall i (Z.of_nat i, l)
      ltac:(by rewrite list_lookup_imap, Hi)) j Hj). }
  split.
  - apply Forall_lookup. intros i l Hi. apply Forall_forall. intros j Hj. by apply (Hedge i l).
  - intros i j He. destruct (Wcc.nb_adj adj i j He) as (l & Hl & Hnb).
    assert (Hi : 0 <= i).
    { unfold Wcc.edge, Wcc.nb, znth in He. destruct (Z.leb_spec 0 i); [done|].
      by apply not_elem_of_nil in He. }
    unfold Wcc.edge in He. rewrite Hnb in He. destruct (Hedge _ l j Hl He) as [Hj Hin].
    rewrite Z2Nat.id in Hin by done. unfold Wcc.edge, Wcc.nb, znth.
    rewrite (proj2 (Z.leb_le 0 j)), Wcc.wcc_vertices_lookup by lia.
    by destruct (adj !! Z.to_nat j).
Qed.

Lemma demo_undirected : Wcc.undirected demo_adj.
Proof. apply edges_symmetric, (bool_decide_unpack _). vm_compute. exact I. Qed.

Lemma wcc_over_network_witness :
  exists ccs,
    Wcc.main (C := unit) (H := RemoteStore.store_ops 200 500) 300 "graph"
      (Some (Input.graph_file 396 demo_adj)) (OrderedPolicy.mk 5 0 0) demo_system = Ok ccs /\
    length ccs = 200%nat /\
    forall i j, (i < 200)%nat -> (j < 200)%nat ->
      ccs !! i = ccs !! j <->
      rtc (Wcc.edge (Input.wcc_vertices 0 demo_adj)) (Z.of_nat i) (Z.of_nat j).
Proof.
  refine (wcc_over_network 200 500 16 8000 (mk_a 0 ∅) demo_system 300 "graph" 396 demo_adj 200
    (OrderedPolicy.mk 5 0 0) demo_system_empty eq_refl _ demo_undirected _ _ _ _).
  - split; [lia|]. split; [vm_compute; congruence|].
    apply (bool_decide_unpack _). vm_compute. exact I.
  - vm_compute. congruence.
  - apply (bool_decide_unpack _). vm_compute. exact I.
  - vm_compute. reflexivity.
  - split; try (vm_compute; congruence); try (vm_compute; lia).
    + split; vm_compute; congruence.
    + split; [reflexivity|]. vm_compute. congruence.
Defined.
End GraphPrograms.
