(* ===== verification/MLChecksum.v ===== *)
(** * CRC-32 ([examples/ml/Checksum.cpp])

    The table-driven CRC-32 that the training tasks print of their arrays, the
    remainder that it computes ([remainder]), one bit at a time, and the errors
    that it finds. *)

From stdpp Require Import base list numbers.
From Stdlib Require Import ZArith Lia Btauto.
From S2P Require Import Prelude Double.

Module Checksum.

Definition crc32_tab : list Z := [
  0x00000000; 0x77073096; 0xee0e612c; 0x990951ba; 0x076dc419; 0x706af48f;
  0xe963a535; 0x9e6495a3; 0x0edb8832; 0x79dcb8a4; 0xe0d5e91e; 0x97d2d988;
  0x09b64c2b; 0x7eb17cbd; 0xe7b82d07; 0x90bf1d91; 0x1db71064; 0x6ab020f2;
  0xf3b97148; 0x84be41de; 0x1adad47d; 0x6ddde4eb; 0xf4d4b551; 0x83d385c7;
  0x136c9856; 0x646ba8c0; 0xfd62f97a; 0x8a65c9ec; 0x14015c4f; 0x63066cd9;
  0xfa0f3d63; 0x8d080df5; 0x3b6e20c8; 0x4c69105e; 0xd56041e4; 0xa2677172;
  0x3c03e4d1; 0x4b04d447; 0xd20d85fd; 0xa50ab56b; 0x35b5a8fa; 0x42b2986c;
  0xdbbbc9d6; 0xacbcf940; 0x32d86ce3; 0x45df5c75; 0xdcd60dcf; 0xabd13d59;
  0x26d930ac; 0x51de003a; 0xc8d75180; 0xbfd06116; 0x21b4f4b5; 0x56b3c423;
  0xcfba9599; 0xb8bda50f; 0x2802b89e; 0x5f058808; 0xc60cd9b2; 0xb10be924;
  0x2f6f7c87; 0x58684c11; 0xc1611dab; 0xb6662d3d; 0x76dc4190; 0x01db7106;
  0x98d220bc; 0xefd5102a; 0x71b18589; 0x06b6b51f; 0x9fbfe4a5; 0xe8b8d433;
  0x7807c9a2; 0x0f00f934; 0x9609a88e; 0xe10e9818; 0x7f6a0dbb; 0x086d3d2d;
  0x91646c97; 0xe6635c01; 0x6b6b51f4; 0x1c6c6162; 0x856530d8; 0xf262004e;
  0x6c0695ed; 0x1b01a57b; 0x8208f4c1; 0xf50fc457; 0x65b0d9c6; 0x12b7e950;
  0x8bbeb8ea; 0xfcb9887c; 0x62dd1ddf; 0x15da2d49; 0x8cd37cf3; 0xfbd44c65;
  0x4db26158; 0x3ab551ce; 0xa3bc0074; 0xd4bb30e2; 0x4adfa541; 0x3dd895d7;
  0xa4d1c46d; 0xd3d6f4fb; 0x4369e96a; 0x346ed9fc; 0xad678846; 0xda60b8d0;
  0x44042d73; 0x33031de5; 0xaa0a4c5f; 0xdd0d7cc9; 0x5005713c; 0x270241aa;
  0xbe0b1010; 0xc90c2086; 0x5768b525; 0x206f85b3; 0xb966d409; 0xce61e49f;
  0x5edef90e; 0x29d9c998; 0xb0d09822; 0xc7d7a8b4; 0x59b33d17; 0x2eb40d81;
  0xb7bd5c3b; 0xc0ba6cad; 0xedb88320; 0x9abfb3b6; 0x03b6e20c; 0x74b1d29a;
  0xead54739; 0x9dd277af; 0x04db2615; 0x73dc1683; 0xe3630b12; 0x94643b84;
  0x0d6d6a3e; 0x7a6a5aa8; 0xe40ecf0b; 0x9309ff9d; 0x0a00ae27; 0x7d079eb1;
  0xf00f9344; 0x8708a3d2; 0x1e01f268; 0x6906c2fe; 0xf762575d; 0x806567cb;
  0x196c3671; 0x6e6b06e7; 0xfed41b76; 0x89d32be0; 0x10da7a5a; 0x67dd4acc;
  0xf9b9df6f; 0x8ebeeff9; 0x17b7be43; 0x60b08ed5; 0xd6d6a3e8; 0xa1d1937e;
  0x38d8c2c4; 0x4fdff252; 0xd1bb67f1; 0xa6bc5767; 0x3fb506dd; 0x48b2364b;
  0xd80d2bda; 0xaf0a1b4c; 0x36034af6; 0x41047a60; 0xdf60efc3; 0xa867df55;
  0x316e8eef; 0x4669be79; 0xcb61b38c; 0xbc66831a; 0x256fd2a0; 0x5268e236;
  0xcc0c7795; 0xbb0b4703; 0x220216b9; 0x5505262f; 0xc5ba3bbe; 0xb2bd0b28;
  0x2bb45a92; 0x5cb36a04; 0xc2d7ffa7; 0xb5d0cf31; 0x2cd99e8b; 0x5bdeae1d;
  0x9b64c2b0; 0xec63f226; 0x756aa39c; 0x026d930a; 0x9c0906a9; 0xeb0e363f;
  0x72076785; 0x05005713; 0x95bf4a82; 0xe2b87a14; 0x7bb12bae; 0x0cb61b38;
  0x92d28e9b; 0xe5d5be0d; 0x7cdcefb7; 0x0bdbdf21; 0x86d3d2d4; 0xf1d4e242;
  0x68ddb3f8; 0x1fda836e; 0x81be16cd; 0xf6b9265b; 0x6fb077e1; 0x18b74777;
  0x88085ae6; 0xff0f6a70; 0x66063bca; 0x11010b5c; 0x8f659eff; 0xf862ae69;
  0x616bffd3; 0x166ccf45; 0xa00ae278; 0xd70dd2ee; 0x4e048354; 0x3903b3c2;
  0xa7672661; 0xd06016f7; 0x4969474d; 0x3e6e77db; 0xaed16a4a; 0xd9d65adc;
  0x40df0b66; 0x37d83bf0; 0xa9bcae53; 0xdebb9ec5; 0x47b2cf7f; 0x30b5ffe9;
  0xbdbdf21c; 0xcabac28a; 0x53b39330; 0x24b4a3a6; 0xbad03605; 0xcdd70693;
  0x54de5729; 0x23d967bf; 0xb3667a2e; 0xc4614ab8; 0x5d681b02; 0x2a6f2b94;
  0xb40bbe37; 0xc30c8ea1; 0x5a05df1b; 0x2d02ef8d].

(** ** The code *)

(** [crc32_tab[(crc ^ *p++) & 0xFF] ^ (crc >> 8)]; the index is below 256
    ([tab_index]). *)
Definition crc32_step (crc : Z) (p : byte) : Z :=
  Z.lxor (nth (Z.to_nat (Z.land (Z.lxor crc (byte_to_Z p)) 0xff)) crc32_tab 0)
    (Z.shiftr crc 8).

(** [~0U] *)
Definition all_ones : Z := 0xffffffff.

(** Reading past the block of [buf] is undefined. *)
Definition crc32 (buf : bytes) (size : nat) : outcome Z :=
  outcome_bind (read_at 0 size buf) (fun p =>
  Ok (Z.lxor (fold_left crc32_step p (Z.lxor 0 all_ones)) all_ones)).

(** An array of doubles as bytes. *)
Definition array_bytes (arr : list Z) : bytes := concat (le_bytes 8 <$> arr).

(** [checksum(p, size)]: the sum is returned as a [double]. *)
Definition checksum (p : list Z) (size : nat) : outcome Z :=
  outcome_bind (crc32 (array_bytes p) (size * 8)) (fun c => Ok (Double.of_uint c)).

(** ** The reference: division of polynomials, a bit at a time *)

(** The polynomial of CRC-32, its coefficients in reverse order. *)
Definition poly : Z := 0xedb88320.
Definition reduce_bit (c : Z) : Z :=
  Z.lxor (Z.shiftr c 1) (if Z.testbit c 0 then poly else 0).
Definition reduce (n : nat) (c : Z) : Z := Nat.iter n reduce_bit c.

(** The whole message is one polynomial, its first bit the lowest. *)
Definition remainder (msg : bytes) : Z :=
  Z.lxor (reduce (8 * length msg) (Z.lxor (le_val msg) all_ones)) all_ones.

(** ** Bits *)

#[local] Hint Rewrite Z.lxor_spec Z.land_spec Z.shiftr_spec Z.shiftl_spec Z.bits_0
  using lia : bit_spec.

Lemma reduce_bit_lxor a b : reduce_bit (Z.lxor a b) = Z.lxor (reduce_bit a) (reduce_bit b).
Proof.
  unfold reduce_bit. rewrite Z.lxor_spec, Z.shiftr_lxor.
  destruct (Z.testbit a 0), (Z.testbit b 0); apply Z.bits_inj'; intros i Hi;
    autorewrite with bit_spec; simpl xorb; autorewrite with bit_spec; btauto.
Qed.

Lemma reduce_lxor n a b : reduce n (Z.lxor a b) = Z.lxor (reduce n a) (reduce n b).
Proof. induction n as [|n IH]; [done|]. simpl. by rewrite IH, reduce_bit_lxor. Qed.

Lemma reduce_add n m a : reduce (n + m) a = reduce n (reduce m a).
Proof. apply Nat.iter_add. Qed.

(** Low bits that are zero are shifted out. *)
Lemma reduce_shiftl n h : reduce n (Z.shiftl h (Z.of_nat n)) = h.
Proof.
  induction n as [|n IH]; [apply Z.shiftl_0_r|].
  unfold reduce in *. rewrite Nat.iter_succ_r. rewrite <- IH at 2. f_equal.
  unfold reduce_bit. rewrite Z.shiftl_spec_low by lia. rewrite Z.lxor_0_r.
  rewrite Z.shiftr_shiftl_l by lia. f_equal. lia.
Qed.

Lemma split_byte c : c = Z.lxor (Z.land c 0xff) (Z.shiftl (Z.shiftr c 8) 8).
Proof.
  change 0xff with (Z.ones 8). apply Z.bits_inj'. intros i Hi.
  rewrite Z.lxor_spec, Z.land_spec, Z.shiftl_spec by lia.
  destruct (decide (i < 8)).
  - rewrite Z.ones_spec_low, (Z.testbit_neg_r _ (i - 8)) by lia. btauto.
  - rewrite Z.ones_spec_high, Z.shiftr_spec by lia. replace (i - 8 + 8) with i by lia. btauto.
Qed.

Lemma tab_index c : (Z.to_nat (Z.land c 0xff) < 256)%nat.
Proof. change 0xff with (Z.ones 8). rewrite Z.land_ones by lia.
  pose proof (Z.mod_pos_bound c (2 ^ 8)). lia. Qed.

(** The table holds the remainders of the bytes. *)
Lemma tab_ok i : (i < 256)%nat -> nth i crc32_tab 0 = reduce 8 (Z.of_nat i).
Proof.
  assert (H : crc32_tab = (fun i => reduce 8 (Z.of_nat i)) <$> seq 0 256) by reflexivity.
  intros Hi. rewrite H. erewrite nth_lookup_Some; [reflexivity|].
  by rewrite list_lookup_fmap, lookup_seq_lt.
Qed.

Lemma byte_high b : Z.shiftr (byte_to_Z b) 8 = 0.
Proof.
  rewrite Z.shiftr_div_pow2 by lia. apply Z.div_small. apply byte_to_Z_range.
Qed.

Lemma step_ok c b : crc32_step c b = reduce 8 (Z.lxor c (byte_to_Z b)).
Proof.
  unfold crc32_step. rewrite tab_ok by apply tab_index.
  set (x := Z.lxor c (byte_to_Z b)).
  rewrite Z2Nat.id by (apply Z.land_nonneg; lia).
  rewrite (split_byte x) at 2. rewrite reduce_lxor. f_equal.
  rewrite (reduce_shiftl 8). unfold x. by rewrite Z.shiftr_lxor, byte_high, Z.lxor_0_r.
Qed.

Lemma le_val_cons b bs :
  le_val (b :: bs) = Z.lxor (byte_to_Z b) (Z.shiftl (le_val bs) 8).
Proof.
  change (le_val (b :: bs)) with (byte_to_Z b + 256 * le_val bs).
  assert (Hl : Z.land (byte_to_Z b) (Z.shiftl (le_val bs) 8) = 0).
  { apply Z.bits_inj'. intros i Hi. rewrite Z.land_spec, Z.shiftl_spec, Z.bits_0 by lia.
    destruct (decide (i < 8)); [rewrite (Z.testbit_neg_r _ (i - 8)) by lia; btauto|].
    pose proof (Z.shiftr_spec (byte_to_Z b) 8 (i - 8)) as Hs. rewrite byte_high, Z.bits_0 in Hs.
    replace (i - 8 + 8) with i in Hs by lia. rewrite <- Hs by lia. done. }
  rewrite <- Z.add_nocarry_lxor by done. rewrite Z.shiftl_mul_pow2 by lia. lia.
Qed.

Lemma fold_ok bs c :
  fold_left crc32_step bs c = reduce (8 * length bs) (Z.lxor c (le_val bs)).
Proof.
  revert c. induction bs as [|b bs IH]; intros c.
  - change (le_val []) with 0. by rewrite Z.lxor_0_r.
  - cbn [fold_left length]. rewrite IH, step_ok, le_val_cons.
    replace (8 * S (length bs))%nat with (8 * length bs + 8)%nat by lia.
    rewrite reduce_add. f_equal.
    rewrite <- (reduce_shiftl 8 (le_val bs)) at 1. rewrite <- reduce_lxor.
    by rewrite Z.lxor_assoc.
Qed.

(** C17: the table-driven loop computes the remainder of the message divided by
    the polynomial of CRC-32, for every message. *)
Theorem crc32_is_remainder msg rest :
  crc32 (msg ++ rest) (length msg) = Ok (remainder msg).
Proof.
  unfold crc32, remainder. pose proof (read_at_next [] msg rest) as Hr.
  cbn [app length] in Hr. rewrite Hr. cbn [outcome_bind].
  by rewrite fold_ok, Z.lxor_0_l, (Z.lxor_comm all_ones (le_val msg)).
Qed.

(** ** Errors *)

Lemma is_u32_shiftr x : is_u32 x <-> Z.shiftr x 32 = 0.
Proof.
  unfold is_u32. rewrite Z.shiftr_div_pow2 by lia. rewrite Z.div_small_iff by lia. lia.
Qed.

Lemma is_u32_lxor a b : is_u32 a -> is_u32 b -> is_u32 (Z.lxor a b).
Proof. rewrite !is_u32_shiftr, Z.shiftr_lxor. intros -> ->. reflexivity. Qed.

Lemma reduce_bit_u32 c : is_u32 c -> is_u32 (reduce_bit c).
Proof.
  intros Hc. apply is_u32_lxor; [|destruct (Z.testbit c 0); unfold is_u32, poly; lia].
  rewrite is_u32_shiftr in *. rewrite Z.shiftr_shiftr by lia. rewrite Z.add_comm.
  by rewrite <- Z.shiftr_shiftr, Hc by lia.
Qed.

Lemma reduce_u32 n c : is_u32 c -> is_u32 (reduce n c).
Proof. intros Hc. induction n; [done|]. by apply reduce_bit_u32. Qed.

(** Nothing is lost from 32 bits: the polynomial has its highest bit. *)
Lemma reduce_bit_zero c : is_u32 c -> reduce_bit c = 0 -> c = 0.
Proof.
  intros Hc H0. assert (Hb : Z.testbit (reduce_bit c) 31 = Z.testbit c 0).
  { unfold reduce_bit. rewrite Z.lxor_spec, Z.shiftr_spec by lia.
    apply is_u32_shiftr in Hc. pose proof (Z.shiftr_spec c 32 0) as H32.
    rewrite Hc, Z.bits_0 in H32. change (31 + 1) with (0 + 32). rewrite <- H32 by lia.
    by destruct (Z.testbit c 0). }
  rewrite H0, Z.bits_0 in Hb. unfold reduce_bit in H0. rewrite <- Hb, Z.lxor_0_r in H0.
  rewrite Z.bit0_odd in Hb. rewrite Z.shiftr_div_pow2 in H0 by lia.
  rewrite (Z.div_mod c 2) by lia. change (2 ^ 1) with 2 in H0. rewrite H0, Zmod_odd, <- Hb. done.
Qed.

Lemma reduce_inj n a b : is_u32 (Z.lxor a b) -> reduce n a = reduce n b -> a = b.
Proof.
  intros Hd Heq. apply Z.lxor_eq. assert (Hr : reduce n (Z.lxor a b) = 0).
  { by rewrite reduce_lxor, Heq, Z.lxor_nilpotent. }
  clear Heq. induction n as [|n IH]; [done|]. apply IH, reduce_bit_zero; [|done].
  by apply reduce_u32.
Qed.

Lemma fold_app_eq pre x post c :
  fold_left crc32_step (pre ++ x ++ post) c =
  reduce (8 * length post) (Z.lxor (fold_left crc32_step x (fold_left crc32_step pre c))
    (le_val post)).
Proof. by rewrite !fold_left_app, fold_ok. Qed.

Lemma fold_u32 bs c : is_u32 c -> is_u32 (fold_left crc32_step bs c).
Proof.
  revert c. induction bs as [|b bs IH]; intros c Hc; [done|]. apply IH. rewrite step_ok.
  apply reduce_u32, is_u32_lxor; [done|]. pose proof (byte_to_Z_range b). split; lia.
Qed.

Lemma crc32_burst_inj pre x y post : length x = length y -> (length x <= 4)%nat ->
  crc32 (pre ++ x ++ post) (length (pre ++ x ++ post)) =
    crc32 (pre ++ y ++ post) (length (pre ++ y ++ post)) -> x = y.
Proof.
  intros Hl H4. rewrite <- (app_nil_r (pre ++ x ++ post)) at 1.
  rewrite <- (app_nil_r (pre ++ y ++ post)) at 1.
  unfold crc32. pose proof (read_at_next []) as Hr. cbn [app length] in Hr.
  rewrite !Hr. cbn [outcome_bind]. rewrite !fold_app_eq.
  set (c := fold_left crc32_step pre _). assert (Hc : is_u32 c) by (by apply fold_u32).
  intros [= Heq]. apply (f_equal (fun z => Z.lxor z all_ones)) in Heq.
  rewrite !Z.lxor_assoc, Z.lxor_nilpotent, !Z.lxor_0_r in Heq.
  apply reduce_inj in Heq.
  2:{ rewrite (Z.lxor_comm (fold_left _ y _)), Z.lxor_assoc, <- (Z.lxor_assoc (le_val post)).
      rewrite Z.lxor_nilpotent, Z.lxor_0_l. by apply is_u32_lxor; apply fold_u32. }
  apply (f_equal (fun z => Z.lxor z (le_val post))) in Heq.
  rewrite !Z.lxor_assoc, Z.lxor_nilpotent, !Z.lxor_0_r, !fold_ok, <- Hl in Heq.
  assert (Hv : forall l : bytes, (length l <= 4)%nat -> is_u32 (le_val l)).
  { intros l Hle. pose proof (le_val_range l). unfold is_u32.
    assert (256 ^ Z.of_nat (length l) <= 256 ^ 4) by (apply Z.pow_le_mono_r; lia). lia. }
  apply reduce_inj in Heq; [|by apply is_u32_lxor; apply is_u32_lxor; auto; apply Hv; lia].
  apply (f_equal (Z.lxor c)) in Heq.
  rewrite <- !Z.lxor_assoc, Z.lxor_nilpotent, !Z.lxor_0_l in Heq.
  rewrite <- (le_bytes_le_val x), <- (le_bytes_le_val y). by rewrite Heq, Hl.
Qed.

(** The check value of CRC-32: the digits 1 to 9 give cbf43926. *)
Example crc32_check_value :
  crc32 [x31; x32; x33; x34; x35; x36; x37; x38; x39] 9 = Ok 0xcbf43926.
Proof. reflexivity. Qed.

(** C26: any change of at most four consecutive bytes of a message changes its
    checksum. *)
Theorem crc32_detects_bursts pre x y post : length x = length y -> (length x <= 4)%nat -> x <> y ->
  crc32 (pre ++ x ++ post) (length (pre ++ x ++ post)) <>
    crc32 (pre ++ y ++ post) (length (pre ++ y ++ post)).
Proof. intros Hl H4 Hne Heq. by apply Hne, (crc32_burst_inj pre x y post). Qed.

Lemma crc32_detects_bursts_witness :
  crc32 ([x31] ++ [x32; x33] ++ [x34]) 4 <> crc32 ([x31] ++ [x33; x32] ++ [x34]) 4.
Proof. apply (crc32_detects_bursts [x31] [x32; x33] [x33; x32] [x34]); simpl; [lia..|done]. Defined.
End Checksum.
