(* ===== verification/MLData.v ===== *)
(** * Matrices and datasets of the training programs ([examples/ml])

    Matrix.h and .cpp, Dataset.h and .cpp.  A [double] is its 64 bits
    (Double.v), an array the list of its elements, a pointer into it the rest of
    the array from there.  [heap] is what memory holds before it is written. *)

From stdpp Require Import base list numbers strings.
From Stdlib Require Import ZArith Lia.
From S2P Require Import Prelude Double MLChecksum.

(** ** Matrix *)

Module Matrix.

(** [cached_data] is the transpose that [T] has computed. *)
Inductive t := mk (rows cols : Z) (data : list Z) (cached_data : option t).
Definition rows (m : t) : Z := let '(mk r _ _ _) := m in r.
Definition cols (m : t) : Z := let '(mk _ c _ _) := m in c.
Definition data (m : t) : list Z := let '(mk _ _ d _) := m in d.
Definition cached_data (m : t) : option t := let '(mk _ _ _ c) := m in c.

(** From a vector of rows: the elements are written one after the other into an
    array of [rows * cols], [cols] being the length of the first row. *)
Definition of_vectors (heap : nat -> Z) (m : list (list Z)) : outcome t :=
  match m with
  | [] => Throw (RuntimeError "Wrong vector size in Matrix")
  | v :: _ =>
      let rows := Z.of_nat (length m) in
      let cols := Z.of_nat (length v) in
      let n := Z.to_nat (u64 (rows * cols)) in
      let cells := concat m in
      if decide (length cells <= n)%nat then
        Ok (mk rows cols (cells ++ (heap <$> seq (length cells) (n - length cells))) None)
      else Undefined
  end.

(** From an array in row-major order, which is copied. *)
Definition of_array (d : list Z) (r c : Z) : outcome t :=
  let n := Z.to_nat (u64 (r * c)) in
  if decide (n <= length d)%nat then Ok (mk r c (take n d) None) else Undefined.

Definition row (m : t) (l : Z) : outcome (list Z) := from_index (data m) (u64 (l * cols m)).

(** The result, and this matrix with its cache. *)
Definition T (m : t) : outcome (t * t) :=
  match cached_data m with
  | Some c => Ok (c, m)
  | None =>
      let? c := of_array (data m) (cols m) (rows m) in
      Ok (c, mk (rows m) (cols m) (data m) (Some c))
  end.

Definition sizeBytes (m : t) : Z := u64 (u64 (rows m * cols m) * 8).

(** [data.get()[i * cols + j]] *)
Definition cell (m : t) (i j : Z) : outcome Z := at_index (data m) (u64 (i * cols m + j)).

(** The text of the second error also has the value. *)
Definition c_300 : Z := 0x4072c00000000000.
Definition c_minus_300 : Z := 0xc072c00000000000.
Definition check_value (val : Z) : outcome unit :=
  if Double.isinf val || Double.isnan val then Throw (RuntimeError "Matrix has nans")
  else if Double.ltb c_300 val || Double.ltb val c_minus_300 then
    Throw (RuntimeError "Matrix::check value badly normalized")
  else Ok tt.
Definition check_values (m : t) : outcome unit :=
  ofor (below (rows m)) (fun i => ofor (below (cols m)) (fun j =>
  let? val := cell m i j in check_value val)).

Definition checksum (m : t) : outcome Z :=
  let? c := Checksum.crc32 (Checksum.array_bytes (data m)) (Z.to_nat (u64 (rows m * cols m * 8))) in
  Ok (Double.of_uint c).

(** The array has the size that the fields say, and fits into memory. *)
Record wf (m : t) : Prop := mk_wf {
  wf_rows : 0 <= rows m;
  wf_cols : 0 <= cols m;
  wf_data : Z.of_nat (length (data m)) = rows m * cols m;
  wf_size : rows m * cols m * 8 < 2 ^ 64;
}.

(** What [check_value] accepts. *)
Definition normalized (val : Z) : Prop :=
  Double.isinf val = false /\ Double.isnan val = false /\
  Double.ltb c_300 val = false /\ Double.ltb val c_minus_300 = false.

Lemma check_value_ok val : check_value val = Ok tt <-> normalized val.
Proof.
  unfold check_value, normalized.
  destruct (Double.isinf val), (Double.isnan val), (Double.ltb c_300 val),
    (Double.ltb val c_minus_300); simpl; naive_solver.
Qed.

Lemma of_array_wf d r c m : 0 <= r -> 0 <= c -> r * c * 8 < 2 ^ 64 ->
  of_array d r c = Ok m -> wf m /\ rows m = r /\ cols m = c /\
    data m = take (Z.to_nat (r * c)) d.
Proof.
  intros Hr Hc Hs. unfold of_array. rewrite u64_small by (unfold is_u64; lia).
  case_decide; [|done]. intros [= <-]. split; [|done]. split; cbn; [done..| |done].
  rewrite length_take_le by done. lia.
Qed.

Lemma cell_lookup m i j : wf m -> 0 <= i < rows m -> 0 <= j < cols m ->
  exists v, data m !! Z.to_nat (i * cols m + j) = Some v /\ cell m i j = Ok v.
Proof.
  intros [Hr Hc Hd Hs] Hi Hj. assert (0 <= i * cols m + j < rows m * cols m) by nia.
  destruct (lookup_lt_is_Some_2 (data m) (Z.to_nat (i * cols m + j))) as [v Hv]; [lia|].
  exists v. split; [done|]. unfold cell. rewrite u64_small by (unfold is_u64; lia).
  rewrite <- (Z2Nat.id (i * cols m + j)) by lia. by apply at_index_ok.
Qed.

(** The two loops of [check_values] visit every element of the array. *)
Lemma check_values_ok m : wf m -> check_values m = Ok tt <-> Forall normalized (data m).
Proof.
  intros Hm. pose proof Hm as [Hr Hc Hd Hs]. rewrite Forall_lookup. split.
  - intros Hok k v Hv. pose proof (lookup_lt_Some _ _ _ Hv) as Hk.
    assert (0 < cols m) by nia.
    assert (Hi : 0 <= Z.of_nat k / cols m < rows m).
    { split; [apply Z.div_pos; lia|]. apply Z.div_lt_upper_bound; lia. }
    pose proof (Z.mod_pos_bound (Z.of_nat k) (cols m)) as Hj.
    destruct (cell_lookup m (Z.of_nat k / cols m) (Z.of_nat k mod cols m)) as (v' & Hv' & Hcell);
      [done|done|lia|].
    rewrite Z.mul_comm, <- Z.div_mod, Nat2Z.id in Hv' by lia. simplify_eq.
    apply (ofor_Ok_inv _ _ (Z.of_nat k / cols m)) in Hok; [|by apply elem_of_below].
    apply (ofor_Ok_inv _ _ (Z.of_nat k mod cols m)) in Hok; [|apply elem_of_below; lia].
    cbv beta in Hok. rewrite Hcell in Hok. by apply check_value_ok.
  - intros Hall. apply ofor_ok. intros i Hi%elem_of_below. apply ofor_ok.
    intros j Hj%elem_of_below. destruct (cell_lookup m i j) as (v & Hv & ->); [done..|].
    apply check_value_ok. eauto.
Qed.

(** A rectangular vector of rows becomes the matrix of its elements. *)
Lemma of_vectors_ok heap v m : Forall (fun r => length r = length v) m ->
  Z.of_nat (S (length m)) * Z.of_nat (length v) * 8 < 2 ^ 64 ->
  exists mat, of_vectors heap (v :: m) = Ok mat /\ wf mat /\ cached_data mat = None /\
    rows mat = Z.of_nat (S (length m)) /\ cols mat = Z.of_nat (length v) /\
    data mat = concat (v :: m).
Proof.
  intros Hm Hs. assert (Hl : length (concat (v :: m)) = (S (length m) * length v)%nat).
  { cbn [concat]. rewrite length_app. simpl. f_equal. clear Hs.
    induction Hm as [|r m Hr Hm IH]; [done|]. cbn [concat]. rewrite length_app, Hr, IH. simpl. lia. }
  unfold of_vectors. cbn [length]. rewrite u64_small by (unfold is_u64; lia).
  rewrite decide_True by lia. eexists. split; [done|]. cbn [rows cols data cached_data].
  replace (_ - _)%nat with 0%nat by lia. cbn [seq fmap list_fmap]. rewrite app_nil_r.
  split_and!; try done. split; cbn [rows cols data]; lia.
Qed.

(** The transpose has the elements of the matrix in the same order. *)
Lemma T_data m c m' : wf m -> cached_data m = None -> T m = Ok (c, m') ->
  rows c = cols m /\ cols c = rows m /\ data c = data m.
Proof.
  intros [Hr Hc Hd Hs] Hn. unfold T. rewrite Hn. intros (c' & Ho & [= -> <-])%outcome_bind_Ok_inv.
  apply of_array_wf in Ho as (_ & -> & -> & ->); [|lia..]. split_and!; [done..|].
  apply take_ge. lia.
Qed.

Example T_is_not_transpose : exists c m',
  T (mk 2 2 [1; 2; 3; 4] None) = Ok (c, m') /\
  cell c 0 1 = Ok 2 /\ cell (mk 2 2 [1; 2; 3; 4] None) 1 0 = Ok 3.
Proof. by eexists _, _. Qed.
End Matrix.

(** ** Dataset *)

Module Dataset.

Record t := mk { samples_ : Matrix.t; labels_ : list Z }.

(** The default matrix is the matrix of no rows. *)
Definition ctor (heap : nat -> Z) : outcome t :=
  let? m := Matrix.of_vectors heap [] in Ok (mk m []).

Definition ctor_vectors (heap : nat -> Z) (samples : list (list Z)) (labels : list Z)
    : outcome t :=
  let? m := Matrix.of_vectors heap samples in Ok (mk m labels).

Definition ctor_arrays (samples labels : list Z) (n_samples n_features : Z) : outcome t :=
  let? m := Matrix.of_array samples n_samples n_features in Ok (mk m labels).

Definition num_features (d : t) : Z := Matrix.cols d.(samples_).
Definition num_samples (d : t) : Z := Matrix.rows d.(samples_).
Definition sample (d : t) (i : Z) : outcome (list Z) := Matrix.row d.(samples_) i.
Definition label (d : t) (i : Z) : outcome (list Z) := from_index d.(labels_) i.

Definition check_values (d : t) : outcome unit :=
  let? _ := ofor (below (num_samples d)) (fun i =>
    let? l := at_index d.(labels_) i in
    if Double.isnan l || Double.isinf l then
      Throw (RuntimeError "Dataset::check_values nan/inf error in labels")
    else Ok tt) in
  Matrix.check_values d.(samples_).

(** The first [num_samples()] bytes of the labels, and the samples. *)
Definition checksum (d : t) : outcome Z :=
  let? c := Checksum.crc32 (Checksum.array_bytes d.(labels_)) (Z.to_nat (num_samples d)) in
  let? s := Matrix.checksum d.(samples_) in
  Ok (Double.add (Double.of_uint c) s).

(** As many labels as samples. *)
Definition wf (d : t) : Prop :=
  Matrix.wf d.(samples_) /\ Z.of_nat (length d.(labels_)) = num_samples d.

(** [Dataset()] throws: there is no empty matrix. *)
Lemma ctor_throws heap : ctor heap = Throw (RuntimeError "Wrong vector size in Matrix").
Proof. done. Qed.

Definition finite (l : Z) : Prop := Double.isnan l = false /\ Double.isinf l = false.

(** The check accepts a dataset if and only if its labels are numbers and its
    samples are normalised. *)
Lemma dataset_check_values d : wf d -> check_values d = Ok tt <->
  Forall finite d.(labels_) /\ Forall Matrix.normalized (Matrix.data d.(samples_)).
Proof.
  intros [Hm Hl]. rewrite <- Matrix.check_values_ok by done. unfold check_values. split.
  - intros (u & Ho & Hc)%outcome_bind_Ok_inv. destruct u. split; [|done].
    apply Forall_lookup. intros i x Hx. pose proof (lookup_lt_Some _ _ _ Hx).
    apply (ofor_Ok_inv _ _ (Z.of_nat i)) in Ho; [|apply elem_of_below; lia].
    cbv beta in Ho. rewrite (at_index_ok _ _ _ Hx) in Ho. cbn in Ho. unfold finite.
    destruct (Double.isnan x), (Double.isinf x); simpl in Ho; done.
  - intros [Hf Hc]. rewrite ofor_ok; [done|]. intros i Hi%elem_of_below.
    destruct (lookup_lt_is_Some_2 (labels_ d) (Z.to_nat i)) as [x Hx]; [lia|].
    rewrite <- (Z2Nat.id i) by lia. rewrite (at_index_ok _ _ _ Hx). cbn.
    rewrite Forall_lookup in Hf. by destruct (Hf _ _ Hx) as [-> ->].
Qed.
End Dataset.
