(* ===== verification/MLModel.v ===== *)
(** * Gradients and models of the training programs ([examples/ml])

    ModelGradient.cpp, LRModel.cpp, SoftmaxModel.cpp and MlUtils.cpp: how they
    are built, serialised, updated and evaluated.  The products and sums of
    Eigen ([Eigen]) and the functions [exp] and [log] of the C library ([Libm])
    are parameters; [rand] is the sequence of the generator [mt_rand]. *)

From stdpp Require Import base list numbers strings.
From Stdlib Require Import ZArith Lia.
From S2P Require Import Prelude Double MLChecksum MLData.

(** ** Arrays of doubles in memory *)

(** [n] doubles from a pointer. *)
Fixpoint read_doubles (n : nat) (ptr : bytes) : outcome (list Z) :=
  match n with
  | O => Ok []
  | S n =>
      let? w := read_at 0 8 ptr in
      let? ds := read_doubles n (drop 8 ptr) in
      Ok (le_val w :: ds)
  end.

Lemma Ok_inj {A} (a b : A) : Ok a = Ok b -> a = b.
Proof. congruence. Qed.

(** [resize] of a vector whose elements have [size] bytes. *)
Definition vec_resize {A} (size : Z) (x : A) (n : Z) (l : list A) : outcome (list A) :=
  if 2 ^ 63 - 1 <? n * size then
    Throw (LengthError "vector::_M_default_append")
  else Ok (resize (Z.to_nat n) x l).

(** [std::copy(src, src + n, dst)] to the front of a vector. *)
Definition copy_front {A} (src dst : list A) : outcome (list A) :=
  if decide (length src <= length dst)%nat then Ok (src ++ drop (length src) dst)
  else Undefined.

(** [l[i] = x] *)
Definition set_index {A} (i : Z) (x : A) (l : list A) : outcome (list A) :=
  if (0 <=? i) && (i <? Z.of_nat (length l)) then Ok (<[Z.to_nat i := x]> l) else Undefined.

(** A loop that carries a value. *)
Fixpoint ofold {A B} (l : list A) (f : A -> B -> outcome B) (b : B) : outcome B :=
  match l with
  | [] => Ok b
  | x :: l => let? b := f x b in ofold l f b
  end.

Lemma length_array_bytes ds : length (Checksum.array_bytes ds) = (8 * length ds)%nat.
Proof.
  unfold Checksum.array_bytes. induction ds as [|d ds IH]; [done|].
  cbn. rewrite length_app, length_le_bytes, IH. lia.
Qed.

Lemma array_bytes_app a b :
  Checksum.array_bytes (a ++ b) = Checksum.array_bytes a ++ Checksum.array_bytes b.
Proof. unfold Checksum.array_bytes. by rewrite fmap_app, concat_app. Qed.

Lemma read_le k z rest : 0 <= z < 256 ^ Z.of_nat k ->
  (let? w := read_at 0 k (le_bytes k z ++ rest) in Ok (le_val w)) = Ok z.
Proof.
  intros Hz. pose proof (read_at_next [] (le_bytes k z) rest) as Hr.
  rewrite length_le_bytes in Hr. cbn [app length] in Hr. rewrite Hr. cbn [outcome_bind].
  by rewrite le_val_le_bytes, Z.mod_small.
Qed.

Lemma read_at_le k z rest : read_at 0 k (le_bytes k z ++ rest) = Ok (le_bytes k z).
Proof.
  pose proof (read_at_next [] (le_bytes k z) rest) as Hr. by rewrite length_le_bytes in Hr.
Qed.

Lemma read_doubles_array ds rest : Forall is_u64 ds ->
  read_doubles (length ds) (Checksum.array_bytes ds ++ rest) = Ok ds.
Proof.
  intros Hds. unfold Checksum.array_bytes. induction Hds as [|d ds Hd Hds IH]; [done|].
  cbn [fmap list_fmap concat length read_doubles]. rewrite <- app_assoc, read_at_le.
  cbn [outcome_bind]. rewrite drop_app_length' by (by rewrite length_le_bytes).
  rewrite IH. cbn [outcome_bind]. rewrite le_val_le_bytes. change (256 ^ Z.of_nat 8) with (2 ^ 64).
  by rewrite Z.mod_small.
Qed.

(** ** ModelGradient.h *)

(** [*reinterpret_cast<uint32_t*>(mem) = version], and back. *)
Definition version_bytes (version : Z) : bytes := le_bytes 4 version.
Definition read_version (mem : bytes) : outcome (Z * bytes) :=
  let? w := read_at 0 4 mem in Ok (le_val w, drop 4 mem).

Lemma read_version_bytes v rest : read_version (version_bytes v ++ rest) = Ok (u32 v, rest).
Proof.
  unfold read_version, version_bytes. rewrite read_at_le. cbn [outcome_bind].
  by rewrite drop_app_length' by (by rewrite length_le_bytes); rewrite le_val_le_bytes.
Qed.

Module LRGradient.

Record t := mk { weights : list Z; version : Z }.

Definition ctor_data (data : list Z) : t := mk data 0.

(** [LRGradient(int d)] *)
Definition ctor (d : Z) : outcome t :=
  if i32 d <? 0 then Throw (LengthError "vector::_M_default_append")
  else Ok (mk (replicate (Z.to_nat (i32 d)) Double.zero) 0).

Definition setVersion (v : Z) (g : t) : t := mk g.(weights) v.
Definition getVersion (g : t) : Z := g.(version).

Definition loadSerialized (mem : bytes) (g : t) : outcome t :=
  let? '(version, mem) := read_version mem in
  let? ws := read_doubles (length g.(weights)) mem in
  Ok (mk ws version).

Definition serialize (g : t) : bytes :=
  version_bytes g.(version) ++ Checksum.array_bytes g.(weights).

Definition getSerializedSize (g : t) : Z := Z.of_nat (length g.(weights)) * 8 + 4.

Definition check_values (g : t) : outcome unit :=
  ofor g.(weights) (fun w =>
    if Double.isnan w || Double.isinf w then
      Throw (RuntimeError "LRGradient::check_values error")
    else Ok tt).
End LRGradient.

Module SoftmaxGradient.

(** [weights] has a row per feature and a column per class. *)
Record t := mk { weights : list (list Z); version : Z }.

Definition ctor (nclasses d : Z) : t :=
  mk (replicate (Z.to_nat d) (replicate (Z.to_nat nclasses) Double.zero)) 0.
Definition ctor_data (w : list (list Z)) : t := mk w 0.

Definition setVersion (v : Z) (g : t) : t := mk g.(weights) v.
Definition getVersion (g : t) : Z := g.(version).

Definition serialize (g : t) : bytes :=
  version_bytes g.(version) ++ concat (Checksum.array_bytes <$> g.(weights)).

(** [weights[0]] of no weights is undefined. *)
Definition getSerializedSize (g : t) : outcome Z :=
  let? v := at_index g.(weights) 0 in
  Ok (Z.of_nat (length g.(weights)) * Z.of_nat (length v) * 8 + 4).

(** [for (auto& v : weights) { std::copy(data, data + v.size(), v.begin()); ... }] *)
Fixpoint load_rows (ws : list (list Z)) (data : bytes) : outcome (list (list Z)) :=
  match ws with
  | [] => Ok []
  | v :: ws =>
      let? v' := read_doubles (length v) data in
      let? ws' := load_rows ws (drop (8 * length v) data) in
      Ok (v' :: ws')
  end.
Definition loadSerialized (mem : bytes) (g : t) : outcome t :=
  let? '(version, mem) := read_version mem in
  let? ws := load_rows g.(weights) mem in
  Ok (mk ws version).

Definition check_values (g : t) : outcome unit :=
  ofor g.(weights) (fun v => ofor v (fun vv =>
    if Double.isnan vv || Double.isinf vv then
      Throw (RuntimeError "SoftmaxGradient::check_values error")
    else Ok tt)).
End SoftmaxGradient.

(** The rows of a matrix of shape [n * k]. *)
Definition shaped (n k : Z) (ws : list (list Z)) : Prop :=
  Z.of_nat (length ws) = n /\ Forall (fun v => Z.of_nat (length v) = k /\ Forall is_u64 v) ws.

(** ** MlUtils.cpp *)

(** The functions of the C library, whose results are not specified to the bit. *)
Class Libm := { libm_exp : Z -> Z; libm_log : Z -> Z; libm_pow : Z -> Z -> Z }.

Module mlutils.
Section mlutils.
Context `{Libm}.

(** The text of the errors also has the numbers. *)
Definition s_1 (x : Z) : outcome Z :=
  let res := Double.div Double.one (Double.add Double.one (libm_exp (Double.opp x))) in
  if Double.isnan res || Double.isinf res then
    Throw (RuntimeError "s_1 generated nan/inf")
  else Ok res.

(** [10e-9] *)
Definition tiny : Z := 0x3e45798ee2308c3a.
Definition log_aux (v : Z) : outcome Z :=
  if Double.ltb (Double.abs v) tiny then Ok tiny
  else
    let res := libm_log v in
    if Double.isnan res || Double.isinf res then
      Throw (RuntimeError "log_aux generated nan/inf")
    else Ok res.
End mlutils.
End mlutils.

(** ** Eigen *)

(** What the models use of Eigen, on matrices in row-major order: products of
    a matrix and a vector, of its transpose and a vector, of a row and a
    vector, of two matrices and of a transpose and a matrix, a sum of all
    coefficients.  The order of the additions is Eigen's. *)
Class Eigen := {
  eig_mv : list (list Z) -> list Z -> list Z;
  eig_mtv : list (list Z) -> list Z -> list Z;
  eig_dot : list Z -> list Z -> Z;
  eig_mm : list (list Z) -> list (list Z) -> list (list Z);
  eig_mtm : list (list Z) -> list (list Z) -> list (list Z);
  eig_sum : list (list Z) -> Z;
}.

(** The sizes of the products; [eig_mtv] and [eig_mtm] have a row per column. *)
Class EigenSpec `{Eigen} := {
  eig_mv_length m v : length (eig_mv m v) = length m;
  eig_mtv_length m v c : Forall (fun r => length r = c) m -> m <> [] ->
    length (eig_mtv m v) = c;
  eig_mm_length m k : length (eig_mm m k) = length m;
  eig_mm_row m k c : Forall (fun r => length r = c) k -> k <> [] ->
    Forall (fun r => length r = c) (eig_mm m k);
  eig_mtm_length m k c : Forall (fun r => length r = c) m -> m <> [] ->
    length (eig_mtm m k) = c;
  eig_mtm_row m k c : Forall (fun r => length r = c) k -> k <> [] ->
    Forall (fun r => length r = c) (eig_mtm m k);
}.

(** [Eigen::Map] of an array in row-major order: its rows. *)
Fixpoint rows_of (n c : nat) (data : list Z) : list (list Z) :=
  match n with
  | O => []
  | S n => take c data :: rows_of n c (drop c data)
  end.
Definition map_matrix (m : Matrix.t) : list (list Z) :=
  rows_of (Z.to_nat (Matrix.rows m)) (Z.to_nat (Matrix.cols m)) (Matrix.data m).

(** ** LRModel.cpp *)

Module LRModel.

Record t := mk { weights : list Z; d : Z }.

Definition ctor (d : Z) : outcome t :=
  let? ws := vec_resize 8 Double.zero d [] in Ok (mk ws d).

Definition ctor_array (w : list Z) (d : Z) : outcome t :=
  let? ws := vec_resize 8 Double.zero d [] in
  if decide (Z.to_nat d <= length w)%nat then
    let? ws := copy_front (take (Z.to_nat d) w) ws in Ok (mk ws d)
  else Undefined.

Definition getSerializedSize (m : t) : Z := u64 (m.(d) * 8).

(** [serialize] and [serializeTo] copy [getSerializedSize()] bytes of the
    weights. *)
Definition serializeTo (m : t) : outcome bytes :=
  read_at 0 (Z.to_nat (getSerializedSize m)) (Checksum.array_bytes m.(weights)).
Definition serialize (m : t) : outcome (bytes * Z) :=
  let? mem := serializeTo m in Ok (mem, getSerializedSize m).

Definition deserialize (data : bytes) (size : Z) : outcome t :=
  let d := size / 8 in
  let? w := read_doubles (Z.to_nat d) data in
  ctor_array w d.

Definition loadSerialized (data : bytes) (m : t) : outcome t :=
  let? v := read_doubles (Z.to_nat m.(d)) data in
  let? ws := copy_front v m.(weights) in
  Ok (mk ws m.(d)).

(** [get_rand_between_0_1]: [1.0 * mt_rand() / mt_rand.max()]; [k] numbers have
    been drawn before. *)
Definition get_rand_between_0_1 (rand : nat -> Z) (k : nat) : Z :=
  Double.div (Double.mul Double.one (Double.of_uint (rand k))) (Double.of_uint 0xffffffff).


Definition randomize (rand : nat -> Z) (k : nat) (m : t) : outcome t :=
  let? ws := ofold (below m.(d))
    (fun i => set_index i (get_rand_between_0_1 rand (k + Z.to_nat i))) m.(weights) in
  Ok (mk ws m.(d)).

Definition copy (m : t) : outcome t := ctor_array m.(weights) m.(d).

(** The gradient is an [LRGradient]: [dynamic_cast] succeeds. *)
Definition sgd_update (learning_rate : Z) (grad : LRGradient.t) (m : t) : outcome t :=
  let? ws := ofold (below m.(d)) (fun i ws =>
    let? w := at_index ws i in
    let? g := at_index grad.(LRGradient.weights) i in
    set_index i (Double.add w (Double.mul learning_rate g)) ws) m.(weights) in
  Ok (mk ws m.(d)).

Definition getSerializedGradientSize (m : t) : Z := u64 (m.(d) * 8).

(** The doubles are read from the start of [mem]. *)
Definition loadGradient (mem : bytes) (m : t) : outcome LRGradient.t :=
  let? g := LRGradient.ctor m.(d) in
  let? ws := ofold (below m.(d)) (fun i ws =>
    let? w := read_at (Z.to_nat (8 * i)) 8 mem in
    set_index i (le_val w) ws) g.(LRGradient.weights) in
  Ok (LRGradient.mk ws g.(LRGradient.version)).

Definition checksum (m : t) : outcome Z :=
  let? c := Checksum.crc32 (Checksum.array_bytes m.(weights)) (length m.(weights) * 8) in
  Ok (Double.of_uint c).

Section evaluation.
Context `{Libm, Eigen}.

(** Sizes that do not match are undefined in Eigen. *)
Definition minibatch_grad (dataset : Matrix.t) (labels : list Z) (labels_size epsilon : Z)
    (m : t) : outcome LRGradient.t :=
  let ds := map_matrix dataset in
  if negb ((Matrix.cols dataset =? m.(d)) && (labels_size =? Matrix.rows dataset) &&
           (labels_size <=? Z.of_nat (length labels))) then Undefined else
  let lbs := take (Z.to_nat labels_size) labels in
  let part1_1 := eig_mv ds m.(weights) in
  let? part1 := omapM part1_1 mlutils.s_1 in
  let part2 := zip_with Double.sub lbs part1 in
  let part3 := eig_mtv ds part2 in
  let part4 := (fun w => Double.mul (Double.mul w (Double.of_uint 2)) epsilon) <$> m.(weights) in
  let res := zip_with Double.add part4 part3 in
  Ok (LRGradient.ctor_data res).

(** [0.5], [1e-6] *)
Definition c_half : Z := 0x3fe0000000000000.
Definition c_1e_6 : Z := 0x3eb0c6f7a0b5ed8d.

(** One sample: the loss after it, and the count of wrong predictions. *)
Definition loss_step (m : t) (row : list Z) (class_i : Z) (acc : Z * Z) : outcome (Z * Z) :=
  let '(total_loss, wrong_count) := acc in
  if negb (Double.is_integer class_i) then Exited else
  let r1 := eig_dot row m.(weights) in
  let? p := mlutils.s_1 r1 in
  let predicted_class := if Double.ltb c_half p then Double.one else Double.zero in
  let wrong_count :=
    if Double.eqb predicted_class class_i then wrong_count else u64 (wrong_count + 1) in
  let? v1 := mlutils.log_aux (Double.sub Double.one p) in
  let? v2 := mlutils.log_aux p in
  let value := Double.add (Double.mul class_i v2)
                 (Double.mul (Double.sub Double.one class_i) v1) in
  let value := if Double.ltb Double.zero value && Double.ltb value c_1e_6
               then Double.zero else value in
  if Double.ltb Double.zero value then
    Throw (RuntimeError "Error: logistic loss is > 0")
  else Ok (Double.sub total_loss value, wrong_count).

Definition loss_sum (dataset : Dataset.t) (m : t) : outcome (Z * Z) :=
  ofold (below (Dataset.num_samples dataset)) (fun i acc =>
    let? class_i := at_index dataset.(Dataset.labels_) i in
    let? row := at_index (map_matrix dataset.(Dataset.samples_)) i in
    if negb (Dataset.num_features dataset =? m.(d)) then Undefined else
    loss_step m row class_i acc) (Double.zero, 0).

Definition calc_loss (dataset : Dataset.t) (m : t) : outcome Z :=
  let? '(total_loss, _) := loss_sum dataset m in
  if Double.ltb total_loss Double.zero then Throw (RuntimeError "total_loss < 0")
  else if Double.isnan total_loss || Double.isinf total_loss then
    Throw (RuntimeError "calc_log_loss generated nan/inf")
  else Ok total_loss.
End evaluation.
End LRModel.

(** ** SoftmaxModel.cpp *)

Module SoftmaxModel.

Record t := mk { nclasses : Z; d : Z; weights : list (list Z) }.

(** [weights.resize(dim); for (auto& v : weights) v.resize(classes);] *)
Definition resize_rows (dim classes : Z) (ws : list (list Z)) : outcome (list (list Z)) :=
  let? ws := vec_resize 24 [] dim ws in
  omapM ws (vec_resize 8 Double.zero classes).

Definition ctor (classes d : Z) : outcome t :=
  let? ws := resize_rows d classes [] in Ok (mk classes d ws).

(** [weights[i][j]] *)
Definition weight (ws : list (list Z)) (i j : Z) : outcome Z :=
  let? v := at_index ws i in at_index v j.
Definition set_weight (i j : Z) (x : Z) (ws : list (list Z)) : outcome (list (list Z)) :=
  let? v := at_index ws i in
  let? v := set_index j x v in
  set_index i v ws.

Definition loadSerialized (data : bytes) (m : t) : outcome t :=
  let? w1 := read_at 0 8 data in
  let? w2 := read_at 8 8 data in
  let dim := le_val w1 in
  let classes := le_val w2 in
  let? ws := resize_rows dim classes m.(weights) in
  let w := drop 16 data in
  let? ws := ofold (below m.(d)) (fun i ws =>
    let? src := read_doubles (Z.to_nat m.(nclasses)) (drop (Z.to_nat (8 * (i * m.(nclasses)))) w) in
    let? v := at_index ws i in
    let? v := copy_front src v in
    set_index i v ws) ws in
  Ok (mk m.(nclasses) m.(d) ws).

(** From serialised memory. *)
Definition ctor_array (data : bytes) (nclasses d : Z) : outcome t :=
  let? m := ctor nclasses d in loadSerialized data m.

(** From a vector of rows: the index [i] of the loop keeps the value 0. *)
Definition ctor_vectors (data : list (list Z)) (nclasses d : Z) : outcome t :=
  let? ws := vec_resize 24 [] d [] in
  let? ws := omapM ws (fun v =>
    let? v := vec_resize 8 Double.zero nclasses v in
    let? row := at_index data 0 in
    copy_front row v) in
  Ok (mk nclasses d ws).

(** [0.01 * (get_rand_between_0_1() - 0.5)] *)
Definition c_0_01 : Z := 0x3f847ae147ae147b.
Definition randomize (rand : nat -> Z) (k : nat) (m : t) : outcome t :=
  let? ws := ofold (below m.(d)) (fun i ws => ofold (below m.(nclasses)) (fun j ws =>
    let r := LRModel.get_rand_between_0_1 rand (k + Z.to_nat (i * m.(nclasses) + j)) in
    set_weight i j (Double.mul c_0_01 (Double.sub r LRModel.c_half)) ws) ws) m.(weights) in
  Ok (mk m.(nclasses) m.(d) ws).

Definition getSerializedSize (m : t) : Z := u64 (8 * m.(d) * m.(nclasses) + 16).

(** The weights [weights[i][j]] in row-major order. *)
Definition cells (m : t) : outcome (list (list Z)) :=
  omapM (below m.(d)) (fun i => omapM (below m.(nclasses)) (fun j => weight m.(weights) i j)).

Definition serializeTo (m : t) : outcome bytes :=
  let? w := cells m in
  Ok (le_bytes 8 m.(d) ++ le_bytes 8 m.(nclasses) ++ Checksum.array_bytes (concat w)).
Definition serialize (m : t) : outcome (bytes * Z) :=
  let? mem := serializeTo m in Ok (mem, getSerializedSize m).

Definition deserialize (data : bytes) (size : Z) : outcome t :=
  let? w1 := read_at 0 8 data in
  let? w2 := read_at 8 8 data in
  ctor_array (drop 16 data) (le_val w2) (le_val w1).

Definition copy (m : t) : outcome t := ctor_vectors m.(weights) m.(nclasses) m.(d).

Definition sgd_update (learning_rate : Z) (grad : SoftmaxGradient.t) (m : t) : outcome t :=
  let? ws := ofold (below m.(d)) (fun i ws => ofold (below m.(nclasses)) (fun j ws =>
    let? w := weight ws i j in
    let? g := weight grad.(SoftmaxGradient.weights) i j in
    set_weight i j (Double.sub w (Double.mul learning_rate g)) ws) ws) m.(weights) in
  Ok (mk m.(nclasses) m.(d) ws).

Definition getSerializedGradientSize (m : t) : Z := u64 (m.(nclasses) * m.(d) * 8).

Definition loadGradient (mem : bytes) (m : t) : outcome SoftmaxGradient.t :=
  SoftmaxGradient.loadSerialized mem (SoftmaxGradient.ctor m.(nclasses) m.(d)).

Definition checksum (m : t) : outcome Z :=
  ofold m.(weights) (fun v sum =>
    let? c := Checksum.crc32 (Checksum.array_bytes v) (length v * 8) in
    Ok (Double.add sum (Double.of_uint c))) Double.zero.

Section evaluation.
Context `{Libm, Eigen}.

(** The rows of the weights that the products use. *)
Definition weight_matrix (cols : Z) (m : t) : outcome (list (list Z)) :=
  omapM (below cols) (fun i => omapM (below m.(nclasses)) (fun k => weight m.(weights) i k)).

Definition exp_checked (v : Z) : outcome Z :=
  let new_v := libm_exp v in
  if Double.isnan new_v || Double.isinf new_v then
    Throw (RuntimeError "Invalid value after exp")
  else Ok new_v.

(** [probs]: the exponentials divided by the sum of all of them. *)
Definition probabilities (dataset W : list (list Z)) : outcome (list (list Z)) :=
  let scores := eig_mm dataset W in
  let? exp_scores := omapM scores (fun v => omapM v exp_checked) in
  let exp_scores_sum := eig_sum exp_scores in
  Ok (map (map (fun v => Double.div v exp_scores_sum)) exp_scores).

(** The column of a label: a [double] as an index of Eigen. *)
Definition label_index (l : Z) : outcome Z :=
  match Double.to_i64 l with Some c => Ok c | None => Undefined end.

(** [1e-10] *)
Definition c_1e_10 : Z := 0x3ddb7cdfd9d7bdbb.

Definition checked_logprob (x : Z) : outcome Z :=
  if Double.isnan x || Double.isinf x then Throw (RuntimeError "Invalid logprob") else Ok x.

Definition minibatch_grad (mat : Matrix.t) (labels : list Z) (labels_size epsilon : Z) (m : t)
    : outcome SoftmaxGradient.t :=
  if negb (labels_size =? Matrix.rows mat) then Exited else
  let dataset := map_matrix mat in
  let? W := weight_matrix (Matrix.cols mat) m in
  let? probs := probabilities dataset W in
  let? _ := ofor (below (Matrix.rows mat)) (fun i =>
    let? l := at_index labels i in
    let? c := label_index l in
    let? p := weight probs i c in
    let? _ := checked_logprob (Double.sub Double.zero
      (if Double.ltb p c_1e_10 then c_1e_10 else libm_log p)) in
    Ok tt) in
  let? dscores := ofold (below (Matrix.rows mat)) (fun i ds =>
    let? l := at_index labels i in
    let? c := label_index l in
    let? p := weight ds i c in
    set_weight i c (Double.div (Double.sub p Double.one)
      (Double.of_uint (Matrix.rows mat))) ds) probs in
  let dW := zip_with (zip_with Double.add) (eig_mtm dataset dscores)
              (map (map (Double.mul epsilon)) W) in
  if negb (Matrix.cols mat =? m.(d)) then Exited else
  Ok (SoftmaxGradient.ctor_data dW).

(** One sample: the sum of the losses and the count of wrong predictions. *)
Definition loss_step (row : list Z) (class_i : Z) (acc : Z * Z) : outcome (Z * Z) :=
  let '(sum, count_wrong) := acc in
  let? c := label_index class_i in
  let? p := at_index row c in
  let count_wrong :=
    if existsb (fun q => Double.ltb p q) row then u64 (count_wrong + 1) else count_wrong in
  let? x := checked_logprob
    (if Double.ltb p c_1e_10 then c_1e_10 else Double.opp (libm_log p)) in
  Ok (Double.add sum x, count_wrong).

Definition calc_loss (data : Dataset.t) (m : t) : outcome Z :=
  let mat := data.(Dataset.samples_) in
  let dataset := map_matrix mat in
  let? W := weight_matrix (Matrix.cols mat) m in
  let? probs := probabilities dataset W in
  let? '(sum, _) := ofold (below (Matrix.rows mat)) (fun i acc =>
    let? class_i := at_index data.(Dataset.labels_) i in
    let? row := at_index probs i in
    loss_step row class_i acc) (Double.zero, 0) in
  Ok (Double.div sum (Double.of_uint (Matrix.rows mat))).
End evaluation.
End SoftmaxModel.

Example model_literals :
  mlutils.tiny = Double.of_decimal false 10 (-9) /\
  LRModel.c_half = Double.of_decimal false 5 (-1) /\
  LRModel.c_1e_6 = Double.of_decimal false 1 (-6) /\
  SoftmaxModel.c_0_01 = Double.of_decimal false 1 (-2) /\
  SoftmaxModel.c_1e_10 = Double.of_decimal false 1 (-10).
Proof. vm_compute. done. Qed.

(** ** Loops over weights *)

Lemma set_index_ok {A} (i : nat) (x : A) l : (i < length l)%nat ->
  set_index (Z.of_nat i) x l = Ok (<[i := x]> l).
Proof.
  intros Hi. unfold set_index. rewrite (proj2 (Z.leb_le 0 _)), (proj2 (Z.ltb_lt _ _)) by lia.
  by rewrite Nat2Z.id.
Qed.

(** A loop whose round [i] changes element [i] by [g i]. *)
Lemma ofold_from {A} (g : nat -> A -> A) body (pre l : list A) :
  (forall i l' x, l !! i = Some x -> l' !! (length pre + i)%nat = Some x ->
    body (Z.of_nat (length pre + i)) l' =
      Ok (<[(length pre + i)%nat := g (length pre + i)%nat x]> l')) ->
  ofold (Z.of_nat <$> seq (length pre) (length l)) body (pre ++ l) =
    Ok (pre ++ imap (fun i => g (length pre + i)%nat) l).
Proof.
  revert pre. induction l as [|x l IH]; intros pre Hb; [done|]. cbn [length seq fmap list_fmap ofold].
  pose proof (Hb 0%nat (pre ++ x :: l) x eq_refl) as H0. rewrite Nat.add_0_r in H0.
  rewrite H0 by (by rewrite list_lookup_middle). cbn [outcome_bind].
  rewrite insert_app_r_alt by done. rewrite Nat.sub_diag. cbn.
  specialize (IH (pre ++ [g (length pre) x])). rewrite length_app in IH. cbn [length] in IH.
  rewrite Nat.add_1_r in IH. rewrite cons_middle, app_assoc, IH.
  - rewrite <- app_assoc. cbn. rewrite Nat.add_0_r. do 3 f_equal. apply imap_ext.
    intros i y _. cbn. f_equal. lia.
  - intros i l' y Hl Hl'. specialize (Hb (S i) l' y Hl). rewrite Nat.add_succ_r in Hb. auto.
Qed.

Lemma ofold_imap {A} (g : nat -> A -> A) body (l : list A) n : n = Z.of_nat (length l) ->
  (forall i l' x, l !! i = Some x -> l' !! i = Some x ->
    body (Z.of_nat i) l' = Ok (<[i := g i x]> l')) ->
  ofold (below n) body l = Ok (imap g l).
Proof. intros -> Hb. unfold below. rewrite Nat2Z.id. exact (ofold_from g body [] l Hb). Qed.

(** A loop over the elements of row [k]. *)
Lemma ofold_row {A} (g : nat -> A -> A) body (ws : list (list A)) k v n :
  ws !! k = Some v -> n = Z.of_nat (length v) ->
  (forall j ws' v' x, ws' !! k = Some v' -> v' !! j = Some x -> (j < length v)%nat ->
    body (Z.of_nat j) ws' = Ok (<[k := <[j := g j x]> v']> ws')) ->
  ofold (below n) body ws = Ok (<[k := imap g v]> ws).
Proof.
  intros Hk -> Hb. pose proof (lookup_lt_Some _ _ _ Hk) as Hlt.
  assert (Hgen : forall l : list Z, (forall i, i ∈ l -> 0 <= i < Z.of_nat (length v)) ->
    forall u, length u = length v ->
    ofold l body (<[k := u]> ws) =
      let? u' := ofold l (fun j u => match znth u j with
        Some x => Ok (<[Z.to_nat j := g (Z.to_nat j) x]> u) | None => Undefined end) u in
      Ok (<[k := u']> ws)).
  { induction l as [|j l IH]; intros Hl u Hu; [done|]. cbn [ofold].
    destruct (Hl j ltac:(left)) as [Hj0 Hj]. rewrite <- (Z2Nat.id j) by done.
    destruct (lookup_lt_is_Some_2 u (Z.to_nat j)) as [x Hx]; [lia|].
    rewrite (Hb _ _ u x); [|by rewrite list_lookup_insert_eq|done|lia].
    rewrite znth_nat, Hx, Nat2Z.id. cbn [outcome_bind]. rewrite list_insert_insert_eq. apply IH.
    - intros i Hi. apply Hl. by right.
    - by rewrite length_insert. }
  rewrite <- (list_insert_id ws k v Hk) at 1. rewrite Hgen; [|by intros i Hi%elem_of_below|done].
  rewrite (ofold_imap g _ v _ eq_refl); [done|]. intros i l' x _ Hx.
  by rewrite znth_nat, Hx, Nat2Z.id.
Qed.

(** ** The models *)

(** A model whose vector has the size of its field, which fits into memory. *)
Definition lr_shape (n : Z) (m : LRModel.t) : Prop :=
  LRModel.d m = n /\ Z.of_nat (length (LRModel.weights m)) = n /\
  Forall is_u64 (LRModel.weights m) /\ n * 8 < 2 ^ 31.

Lemma vec_resize_ok {A} size (x : A) n l : 0 <= n -> n * size < 2 ^ 63 ->
  vec_resize size x n l = Ok (resize (Z.to_nat n) x l).
Proof.
  intros Hn Hs. unfold vec_resize. by rewrite (proj2 (Z.ltb_ge _ _)) by lia.
Qed.

Lemma copy_front_all {A} (src dst : list A) : length src = length dst ->
  copy_front src dst = Ok src.
Proof.
  intros Hl. unfold copy_front. rewrite decide_True by lia.
  by rewrite drop_ge, app_nil_r by lia.
Qed.

Lemma lr_ctor_ok n : 0 <= n -> n * 8 < 2 ^ 31 ->
  LRModel.ctor n = Ok (LRModel.mk (replicate (Z.to_nat n) Double.zero) n).
Proof.
  intros Hn Hs. unfold LRModel.ctor. rewrite vec_resize_ok by lia. cbn [outcome_bind].
  by rewrite resize_nil.
Qed.

Lemma lr_serialized_size n m : lr_shape n m -> LRModel.getSerializedSize m = n * 8.
Proof.
  intros (Hd & Hl & _ & Hs). unfold LRModel.getSerializedSize. rewrite Hd.
  apply u64_small. unfold is_u64. lia.
Qed.

Lemma lr_serializeTo n m : lr_shape n m ->
  LRModel.serializeTo m = Ok (Checksum.array_bytes (LRModel.weights m)).
Proof.
  intros Hm. unfold LRModel.serializeTo. rewrite (lr_serialized_size n) by done.
  destruct Hm as (Hd & Hl & _ & Hs). unfold read_at.
  rewrite decide_True by (rewrite length_array_bytes; lia).
  by rewrite drop_0, take_ge by (rewrite length_array_bytes; lia).
Qed.

Lemma lr_loadSerialized n m m0 rest : lr_shape n m -> LRModel.d m0 = n ->
  Z.of_nat (length (LRModel.weights m0)) = n ->
  LRModel.loadSerialized (Checksum.array_bytes (LRModel.weights m) ++ rest) m0 = Ok m.
Proof.
  intros (Hd & Hl & Hu & Hs) Hd0 Hl0. unfold LRModel.loadSerialized. rewrite Hd0.
  replace (Z.to_nat n) with (length (LRModel.weights m)) by lia.
  rewrite read_doubles_array by done. cbn [outcome_bind].
  rewrite copy_front_all by lia. cbn. rewrite <- Hd. by destruct m.
Qed.

(** [deserialize] and [copy] give the model back. *)
Lemma lr_ctor_array_all n m rest : lr_shape n m ->
  LRModel.ctor_array (LRModel.weights m ++ rest) n = Ok m.
Proof.
  intros (Hd & Hl & Hu & Hs). unfold LRModel.ctor_array. rewrite vec_resize_ok by lia.
  cbn [outcome_bind]. rewrite decide_True by (rewrite length_app; lia).
  rewrite take_app_length' by lia. rewrite copy_front_all.
  - cbn. rewrite <- Hd. by destruct m.
  - rewrite length_resize. lia.
Qed.

Lemma lr_deserialize_serialize n m : lr_shape n m -> exists mem,
  LRModel.serialize m = Ok (mem, n * 8) /\ LRModel.deserialize mem (n * 8) = Ok m /\
  LRModel.copy m = Ok m.
Proof.
  intros Hm. pose proof Hm as (Hd & Hl & Hu & Hs). eexists. split_and!.
  - unfold LRModel.serialize. rewrite (lr_serializeTo n), (lr_serialized_size n) by done. done.
  - unfold LRModel.deserialize. rewrite Z.div_mul by lia.
    rewrite <- (app_nil_r (Checksum.array_bytes _)).
    replace (Z.to_nat n) with (length (LRModel.weights m)) by lia.
    rewrite read_doubles_array by done. cbn [outcome_bind].
    rewrite <- (app_nil_r (LRModel.weights m)). by apply lr_ctor_array_all.
  - unfold LRModel.copy. rewrite Hd, <- (app_nil_r (LRModel.weights m)).
    by apply lr_ctor_array_all.
Qed.

Lemma zip_with_imap {A B C} (f : A -> B -> C) l k g :
  (length l <= length k)%nat ->
  (forall i x y, l !! i = Some x -> k !! i = Some y -> g i x = f x y) ->
  imap g l = zip_with f l k.
Proof.
  intros Hl Hg. apply list_eq. intros i. rewrite list_lookup_imap, lookup_zip_with.
  destruct (l !! i) as [x|] eqn:Hx; [|done]. cbn.
  destruct (lookup_lt_is_Some_2 k i) as [y Hy].
  { apply lookup_lt_Some in Hx. lia. }
  rewrite Hy. cbn. by rewrite (Hg i x y).
Qed.

(** A step of the descent is a step for every weight. *)
Lemma lr_sgd_update n rate g m : lr_shape n m ->
  Z.of_nat (length (LRGradient.weights g)) = n ->
  LRModel.sgd_update rate g m = Ok (LRModel.mk
    (zip_with (fun w x => Double.add w (Double.mul rate x))
      (LRModel.weights m) (LRGradient.weights g)) n).
Proof.
  intros (Hd & Hl & Hu & Hs) Hg. unfold LRModel.sgd_update. rewrite Hd.
  rewrite (ofold_imap (fun i w => Double.add w (Double.mul rate
    (default 0 (LRGradient.weights g !! i))))).
  - cbn. f_equal. f_equal. apply zip_with_imap; [lia|]. by intros i x y _ ->.
  - lia.
  - intros i l' x Hi Hx. rewrite (at_index_ok _ _ _ Hx). cbn [outcome_bind].
    destruct (lookup_lt_is_Some_2 (LRGradient.weights g) i) as [y Hy];
      [apply lookup_lt_Some in Hi; lia|].
    rewrite (at_index_ok _ _ _ Hy). cbn [outcome_bind]. rewrite Hy. cbn.
    apply set_index_ok. by apply lookup_lt_Some in Hx.
Qed.

Lemma Forall_zip_u64 (f : Z -> Z -> Z) l k : (forall x y, is_u64 (f x y)) ->
  Forall is_u64 (zip_with f l k).
Proof. intros Hf. revert k. induction l as [|x l IH]; intros [|y k]; constructor; auto. Qed.

Lemma double_add_u64 x y : is_u64 (Double.add x y).
Proof. apply Double.encode_range. Qed.

Lemma lr_sgd_update_shape n rate g m m' : lr_shape n m ->
  Z.of_nat (length (LRGradient.weights g)) = n ->
  LRModel.sgd_update rate g m = Ok m' -> lr_shape n m'.
Proof.
  intros Hm Hg. rewrite (lr_sgd_update n) by done. intros [= <-].
  destruct Hm as (Hd & Hl & Hu & Hs). split_and!; [done| | |done]; cbn [LRModel.weights].
  - rewrite length_zip_with_l_eq; [done|lia].
  - apply Forall_zip_u64. intros. apply double_add_u64.
Qed.

Lemma lr_randomize_shape n rand k m : lr_shape n m -> exists m',
  LRModel.randomize rand k m = Ok m' /\ lr_shape n m'.
Proof.
  intros (Hd & Hl & Hu & Hs). unfold LRModel.randomize. rewrite Hd.
  rewrite (ofold_imap (fun i _ => LRModel.get_rand_between_0_1 rand (k + i))); [|lia|].
  - eexists. split; [done|]. split_and!; [done| | |done]; cbn [LRModel.weights].
    + by rewrite length_imap.
    + apply Forall_lookup. intros i x. rewrite list_lookup_imap. intros Hx.
      destruct (LRModel.weights m !! i); [|done]. cbn in Hx. simplify_eq. apply Double.encode_range.
  - intros i l' x _ Hx. rewrite Nat2Z.id. apply set_index_ok. by apply lookup_lt_Some in Hx.
Qed.

(** A model with a row per feature and a column per class. *)
Definition sm_shape (nc n : Z) (m : SoftmaxModel.t) : Prop :=
  SoftmaxModel.nclasses m = nc /\ SoftmaxModel.d m = n /\
  shaped n nc (SoftmaxModel.weights m) /\
  0 <= nc /\ n * 24 < 2 ^ 31 /\ n * nc * 8 + 16 < 2 ^ 31 /\ nc * 8 < 2 ^ 31.

Lemma below_lookup {A} (x : A) (l : list A) n : n = Z.of_nat (length l) ->
  (fun i => default x (l !! Z.to_nat i)) <$> below n = l.
Proof.
  intros ->. unfold below. rewrite Nat2Z.id. apply list_eq. intros i.
  rewrite !list_lookup_fmap. destruct (decide (i < length l)%nat) as [Hi|Hi].
  - rewrite lookup_seq_lt by done. cbn. rewrite Nat2Z.id.
    destruct (lookup_lt_is_Some_2 l i Hi) as [y ->]. done.
  - rewrite lookup_seq_ge, lookup_ge_None_2 by lia. done.
Qed.

Lemma shaped_lookup n k ws i v : shaped n k ws -> ws !! i = Some v ->
  Z.of_nat (length v) = k /\ Forall is_u64 v.
Proof. intros [_ Hws] Hv. rewrite Forall_lookup in Hws. eauto. Qed.

(** Reading the weights one by one gives the weights. *)
Lemma omapM_cells n k ws : shaped n k ws ->
  omapM (below n) (fun i => omapM (below k) (fun j => SoftmaxModel.weight ws i j)) = Ok ws.
Proof.
  intros Hws. rewrite (omapM_ok _ _ (fun i => default [] (ws !! Z.to_nat i))).
  - rewrite below_lookup; [done|]. symmetry. apply Hws.
  - intros i Hi%elem_of_below. destruct (lookup_lt_is_Some_2 ws (Z.to_nat i)) as [v Hv].
    { destruct Hws. lia. }
    destruct (shaped_lookup _ _ _ _ _ Hws Hv) as [Hk _].
    rewrite Hv. cbn. rewrite (omapM_ok _ _ (fun j => default 0 (v !! Z.to_nat j))).
    { by rewrite below_lookup. }
    intros j Hj%elem_of_below. unfold SoftmaxModel.weight.
    rewrite <- (Z2Nat.id i) by lia. rewrite (at_index_ok _ _ _ Hv). cbn [outcome_bind].
    destruct (lookup_lt_is_Some_2 v (Z.to_nat j)) as [x Hx]; [lia|].
    rewrite <- (Z2Nat.id j) at 1 by lia. rewrite (at_index_ok _ _ _ Hx), Hx. done.
Qed.

Lemma resize_rows_shaped n k ws : shaped n k ws -> 0 <= k -> n * 24 < 2 ^ 63 -> k * 8 < 2 ^ 63 ->
  SoftmaxModel.resize_rows n k ws = Ok ws.
Proof.
  intros [Hn Hws] Hk Hs1 Hs2. unfold SoftmaxModel.resize_rows. rewrite vec_resize_ok by lia.
  cbn [outcome_bind]. rewrite resize_all_alt by lia.
  rewrite (omapM_ok _ _ id); [by rewrite list_fmap_id|]. intros v Hv.
  rewrite Forall_forall in Hws. destruct (Hws v Hv) as [Hl _].
  rewrite vec_resize_ok by lia. by rewrite resize_all_alt by lia.
Qed.

Lemma sm_ctor_ok nc n : 0 <= nc -> 0 <= n -> n * 24 < 2 ^ 31 -> n * nc * 8 + 16 < 2 ^ 31 ->
  nc * 8 < 2 ^ 31 ->
  exists m, SoftmaxModel.ctor nc n = Ok m /\ sm_shape nc n m.
Proof.
  intros Hnc Hn H1 H2 H3. unfold SoftmaxModel.ctor, SoftmaxModel.resize_rows.
  rewrite vec_resize_ok by lia. cbn [outcome_bind]. rewrite resize_nil.
  rewrite (omapM_ok _ _ (fun _ => replicate (Z.to_nat nc) Double.zero)).
  - eexists. split; [done|]. split_and!; try done.
    split; cbn; [rewrite length_fmap, length_replicate; lia|]. apply Forall_fmap, Forall_replicate. cbn. rewrite length_replicate. split; [lia|].
    by apply Forall_replicate.
  - intros v [-> _]%elem_of_replicate. rewrite vec_resize_ok by lia. by rewrite resize_nil.
Qed.

Lemma concat_drop_rows {A} k (ws : list (list A)) i : Forall (fun v => length v = k) ws ->
  drop (i * k) (concat ws) = concat (drop i ws).
Proof.
  intros Hws. revert i. induction Hws as [|v ws Hv Hws IH]; intros i; [cbn; rewrite !drop_nil; done|].
  destruct i as [|i]; [done|]. cbn [concat drop]. rewrite <- IH.
  replace (S i * k)%nat with (length v + i * k)%nat by (subst; simpl; lia).
  by rewrite drop_app_add.
Qed.

Lemma drop_array_bytes ds k : drop (8 * k) (Checksum.array_bytes ds) =
  Checksum.array_bytes (drop k ds).
Proof.
  destruct (decide (k <= length ds)%nat) as [Hk|Hk].
  - rewrite <- (take_drop k ds) at 1. rewrite array_bytes_app, drop_app_length'; [done|].
    rewrite length_array_bytes, length_take. lia.
  - rewrite (drop_ge ds), drop_ge; [done|rewrite length_array_bytes; lia|lia].
Qed.

(** Row [i] in the serialised weights. *)
Lemma read_row n k ws rest i v : shaped n k ws -> ws !! i = Some v ->
  read_doubles (Z.to_nat k) (drop (8 * (i * Z.to_nat k)) (Checksum.array_bytes (concat ws) ++ rest))
    = Ok v.
Proof.
  intros Hws Hv. destruct (shaped_lookup _ _ _ _ _ Hws Hv) as [Hk Hu].
  assert (Hl : Forall (fun v => length v = Z.to_nat k) ws).
  { eapply Forall_impl; [apply Hws|]. cbn. intros x [? _]. lia. }
  assert (Hd : drop (i * Z.to_nat k) (concat ws) = v ++ concat (drop (S i) ws)).
  { rewrite concat_drop_rows by done. by rewrite (drop_S _ v). }
  assert (Hlen : (i * Z.to_nat k + Z.to_nat k <= length (concat ws))%nat).
  { apply (f_equal length) in Hd. rewrite length_app, length_drop in Hd. lia. }
  rewrite drop_app_le by (rewrite length_array_bytes; lia).
  rewrite drop_array_bytes, Hd, array_bytes_app, <- app_assoc.
  replace (Z.to_nat k) with (length v) by lia. by apply read_doubles_array.
Qed.

Lemma imap_const_lookup {A} (x : A) (l k : list A) : length l = length k ->
  imap (fun i _ => default x (k !! i)) l = k.
Proof.
  intros Hl. apply list_eq. intros i. rewrite list_lookup_imap.
  destruct (k !! i) as [y|] eqn:Hy.
  - destruct (lookup_lt_is_Some_2 l i) as [z Hz]; [apply lookup_lt_Some in Hy; lia|].
    by rewrite Hz.
  - apply lookup_ge_None in Hy. by rewrite (lookup_ge_None_2 l) by lia.
Qed.

Lemma sm_serializeTo nc n m : sm_shape nc n m -> SoftmaxModel.serializeTo m =
  Ok (le_bytes 8 n ++ le_bytes 8 nc ++ Checksum.array_bytes (concat (SoftmaxModel.weights m))).
Proof.
  intros (Hnc & Hn & Hws & _). unfold SoftmaxModel.serializeTo, SoftmaxModel.cells.
  rewrite Hn, Hnc, omapM_cells by done. done.
Qed.

Lemma sm_loadSerialized nc n m m0 mem rest : sm_shape nc n m -> sm_shape nc n m0 ->
  SoftmaxModel.serializeTo m = Ok mem ->
  SoftmaxModel.loadSerialized (mem ++ rest) m0 = Ok m.
Proof.
  intros Hm (Hnc0 & Hn0 & Hws0 & _). rewrite (sm_serializeTo nc n) by done. intros <-%Ok_inj.
  destruct Hm as (Hnc & Hn & Hws & H0 & Hs1 & Hs2 & Hs3).
  assert (0 <= n) by (destruct Hws; lia).
  unfold SoftmaxModel.loadSerialized. rewrite <- !app_assoc, read_at_le. cbn [outcome_bind].
  pose proof (read_at_next (le_bytes 8 n) (le_bytes 8 nc)) as Hr. rewrite !length_le_bytes in Hr.
  rewrite Hr. cbn [outcome_bind]. rewrite !le_val_le_bytes. change (256 ^ Z.of_nat 8) with (2 ^ 64).
  rewrite !Z.mod_small by lia. rewrite resize_rows_shaped by (done || lia). cbn [outcome_bind].
  rewrite app_assoc, drop_app_length' by (by rewrite length_app, !length_le_bytes).
  rewrite Hn0, Hnc0.
  rewrite (ofold_imap (fun i _ => default [] (SoftmaxModel.weights m !! i))).
  - cbn [outcome_bind]. rewrite imap_const_lookup by (destruct Hws, Hws0; lia).
    rewrite <- Hnc, <- Hn. by destruct m.
  - destruct Hws0. lia.
  - intros i l' x Hi Hx. destruct (lookup_lt_is_Some_2 (SoftmaxModel.weights m) i) as [v Hv].
    { apply lookup_lt_Some in Hi. destruct Hws, Hws0. lia. }
    replace (Z.to_nat (8 * (Z.of_nat i * nc))) with (8 * (i * Z.to_nat nc))%nat
      by (rewrite !Z2Nat.inj_mul, Nat2Z.id by lia; lia).
    rewrite (read_row n nc _ _ _ v) by done. cbn [outcome_bind].
    rewrite (at_index_ok _ _ _ Hx). cbn [outcome_bind].
    destruct (shaped_lookup _ _ _ _ _ Hws Hv) as [Hlv _].
    destruct (shaped_lookup _ _ _ _ _ Hws0 Hi) as [Hlx _].
    rewrite copy_front_all by lia. cbn [outcome_bind]. rewrite Hv. cbn.
    apply set_index_ok. by apply lookup_lt_Some in Hx.
Qed.

Lemma set_weight_ok (i j : nat) x (ws : list (list Z)) v y : ws !! i = Some v -> v !! j = Some y ->
  SoftmaxModel.set_weight (Z.of_nat i) (Z.of_nat j) x ws = Ok (<[i := <[j := x]> v]> ws).
Proof.
  intros Hv Hy. unfold SoftmaxModel.set_weight. rewrite (at_index_ok _ _ _ Hv). cbn [outcome_bind].
  rewrite set_index_ok by (by apply lookup_lt_Some in Hy). cbn [outcome_bind].
  apply set_index_ok. by apply lookup_lt_Some in Hv.
Qed.

Lemma weight_ok (i j : nat) (ws : list (list Z)) v y : ws !! i = Some v -> v !! j = Some y ->
  SoftmaxModel.weight ws (Z.of_nat i) (Z.of_nat j) = Ok y.
Proof.
  intros Hv Hy. unfold SoftmaxModel.weight. rewrite (at_index_ok _ _ _ Hv). cbn [outcome_bind].
  by apply at_index_ok.
Qed.

(** A double loop that changes every weight. *)
Lemma ofold_weights n k (g : nat -> nat -> Z -> Z) body ws : shaped n k ws ->
  (forall i j ws' v x, ws' !! i = Some v -> v !! j = Some x ->
    (i < Z.to_nat n)%nat -> (j < Z.to_nat k)%nat ->
    body (Z.of_nat i) (Z.of_nat j) ws' = Ok (<[i := <[j := g i j x]> v]> ws')) ->
  ofold (below n) (fun i ws => ofold (below k) (fun j ws => body i j ws) ws) ws =
    Ok (imap (fun i v => imap (g i) v) ws).
Proof.
  intros Hws Hb. apply (ofold_imap (fun i v => imap (g i) v)); [by destruct Hws|].
  intros i ws' v Hi Hv. destruct (shaped_lookup _ _ _ _ _ Hws Hi) as [Hk _].
  apply (ofold_row (g i)); [done|done|]. intros j ws'' v' x Hv' Hx Hj.
  apply Hb; [done|done| |lia]. apply lookup_lt_Some in Hi. destruct Hws. lia.
Qed.

Lemma shaped_imap n k g (ws : list (list Z)) : shaped n k ws ->
  (forall i j x, is_u64 (g i j x)) -> shaped n k (imap (fun i v => imap (g i) v) ws).
Proof.
  intros Hws Hg. split; [rewrite length_imap; apply Hws|]. apply Forall_lookup.
  intros i u. rewrite list_lookup_imap. intros (v & Hv & ->)%fmap_Some.
  destruct (shaped_lookup _ _ _ _ _ Hws Hv) as [Hk _]. rewrite length_imap. split; [done|].
  apply Forall_lookup. intros j x. rewrite list_lookup_imap. by intros (y & _ & ->)%fmap_Some.
Qed.

Lemma sm_sgd_update nc n rate g m : sm_shape nc n m -> shaped n nc (SoftmaxGradient.weights g) ->
  SoftmaxModel.sgd_update rate g m = Ok (SoftmaxModel.mk nc n
    (zip_with (zip_with (fun w x => Double.sub w (Double.mul rate x)))
      (SoftmaxModel.weights m) (SoftmaxGradient.weights g))).
Proof.
  intros (Hnc & Hn & Hws & _) Hg. unfold SoftmaxModel.sgd_update. rewrite Hn, Hnc.
  set (row i := default [] (SoftmaxGradient.weights g !! i)).
  rewrite (ofold_weights n nc (fun i j w => Double.sub w (Double.mul rate
    (default 0 (row i !! j))))); [|done|].
  - cbn. do 2 f_equal. apply zip_with_imap; [destruct Hws, Hg; lia|]. intros i v u Hv Hu.
    apply zip_with_imap.
    + destruct (shaped_lookup _ _ _ _ _ Hws Hv), (shaped_lookup _ _ _ _ _ Hg Hu). lia.
    + intros j x y _ Hy. unfold row. rewrite Hu. cbn. by rewrite Hy.
  - intros i j ws' v x Hv Hx Hi Hj. rewrite (weight_ok _ _ _ _ _ Hv Hx). cbn [outcome_bind].
    destruct (lookup_lt_is_Some_2 (SoftmaxGradient.weights g) i) as [u Hu]; [destruct Hg; lia|].
    destruct (shaped_lookup _ _ _ _ _ Hg Hu) as [Hk _].
    destruct (lookup_lt_is_Some_2 u j) as [y Hy]; [lia|].
    rewrite (weight_ok _ _ _ _ _ Hu Hy). cbn [outcome_bind]. unfold row. rewrite Hu. cbn.
    rewrite Hy. by rewrite (set_weight_ok _ _ _ _ _ _ Hv Hx).
Qed.

Lemma sm_sgd_update_shape nc n rate g m m' : sm_shape nc n m ->
  shaped n nc (SoftmaxGradient.weights g) ->
  SoftmaxModel.sgd_update rate g m = Ok m' -> sm_shape nc n m'.
Proof.
  intros Hm Hg. rewrite (sm_sgd_update nc n) by done. intros [= <-].
  destruct Hm as (Hnc & Hn & Hws & Hb). split_and!; try done; try apply Hb.
  cbn [SoftmaxModel.weights]. split; [rewrite length_zip_with_l_eq; destruct Hws, Hg; lia|].
  apply Forall_lookup. intros i r. rewrite lookup_zip_with. intros Hr.
  destruct (SoftmaxModel.weights m !! i) as [v|] eqn:Hv; [|done].
  destruct (SoftmaxGradient.weights g !! i) as [u|] eqn:Hu; [|done]. cbn in Hr. simplify_eq.
  destruct (shaped_lookup _ _ _ _ _ Hws Hv), (shaped_lookup _ _ _ _ _ Hg Hu). split.
  - rewrite length_zip_with_l_eq; lia.
  - apply Forall_zip_u64. intros. apply Double.encode_range.
Qed.

Lemma sm_randomize_shape nc n rand k m : sm_shape nc n m -> exists m',
  SoftmaxModel.randomize rand k m = Ok m' /\ sm_shape nc n m'.
Proof.
  intros (Hnc & Hn & Hws & Hb). unfold SoftmaxModel.randomize. rewrite Hn, Hnc.
  rewrite (ofold_weights n nc (fun i j _ => Double.mul SoftmaxModel.c_0_01 (Double.sub
    (LRModel.get_rand_between_0_1 rand (k + Z.to_nat (Z.of_nat i * nc + Z.of_nat j)))
    LRModel.c_half))); [|done|].
  - eexists. split; [done|]. split_and!; try done; try apply Hb.
    apply shaped_imap; [done|]. intros. apply Double.encode_range.
  - intros i j ws' v x Hv Hx _ _. apply (set_weight_ok _ _ _ _ _ _ Hv Hx).
Qed.

(** The copy of a model repeats its first row. *)
Lemma sm_copy nc n m v : sm_shape nc n m -> SoftmaxModel.weights m !! 0%nat = Some v ->
  SoftmaxModel.copy m = Ok (SoftmaxModel.mk nc n (replicate (Z.to_nat n) v)).
Proof.
  intros (Hnc & Hn & Hws & H0 & Hs1 & Hs2 & Hs3) Hv.
  destruct (shaped_lookup _ _ _ _ _ Hws Hv) as [Hk _].
  assert (0 <= n) by (destruct Hws; lia).
  unfold SoftmaxModel.copy, SoftmaxModel.ctor_vectors. rewrite Hn, Hnc, vec_resize_ok by lia.
  cbn [outcome_bind]. rewrite resize_nil, (omapM_ok _ _ (fun _ => v)).
  - cbn. do 2 f_equal. by rewrite fmap_replicate.
  - intros u [-> _]%elem_of_replicate. rewrite vec_resize_ok by lia. cbn [outcome_bind].
    pose proof (at_index_ok _ 0 _ Hv) as Ha. change (Z.of_nat 0) with 0 in Ha. rewrite Ha.
    apply copy_front_all.
    rewrite length_resize. lia.
Qed.

(** ** Gradients *)

Lemma lr_gradient_load g g0 rest : Forall is_u64 (LRGradient.weights g) ->
  length (LRGradient.weights g0) = length (LRGradient.weights g) ->
  LRGradient.loadSerialized (LRGradient.serialize g ++ rest) g0 =
    Ok (LRGradient.mk (LRGradient.weights g) (u32 (LRGradient.version g))).
Proof.
  intros Hu Hl. unfold LRGradient.loadSerialized, LRGradient.serialize.
  rewrite <- app_assoc, read_version_bytes. cbn [outcome_bind]. rewrite Hl.
  by rewrite read_doubles_array.
Qed.

Lemma load_rows_ok ws ws0 rest : Forall (Forall is_u64) ws ->
  Forall2 (fun v v0 => length v = length v0) ws ws0 ->
  SoftmaxGradient.load_rows ws0 (concat (Checksum.array_bytes <$> ws) ++ rest) = Ok ws.
Proof.
  intros Hu Hl. revert Hu. induction Hl as [|v v0 ws ws0 Hv Hl IH]; intros Hu; [done|].
  apply Forall_cons in Hu as [Hu Hus]. cbn [fmap list_fmap concat SoftmaxGradient.load_rows].
  rewrite <- app_assoc, <- Hv, read_doubles_array by done. cbn [outcome_bind].
  rewrite drop_app_length' by (by rewrite length_array_bytes). by rewrite IH.
Qed.

Lemma sm_gradient_load n k g rest : shaped n k (SoftmaxGradient.weights g) -> 0 <= k ->
  SoftmaxGradient.loadSerialized (SoftmaxGradient.serialize g ++ rest) (SoftmaxGradient.ctor k n) =
    Ok (SoftmaxGradient.mk (SoftmaxGradient.weights g) (u32 (SoftmaxGradient.version g))).
Proof.
  intros [Hn Hws] Hk. unfold SoftmaxGradient.loadSerialized, SoftmaxGradient.serialize.
  rewrite <- app_assoc, read_version_bytes. cbn [outcome_bind].
  rewrite load_rows_ok; [done| |].
  - eapply Forall_impl; [done|]. by intros v [].
  - cbn. rewrite <- Hn, Nat2Z.id. clear Hn. induction Hws as [|v ws [Hv _] Hws IH]; constructor.
    + rewrite length_replicate. lia.
    + done.
Qed.

Lemma length_concat_rows k (ws : list (list Z)) :
  Forall (fun v => Z.of_nat (length v) = k /\ Forall is_u64 v) ws ->
  Z.of_nat (length (concat ws)) = Z.of_nat (length ws) * k.
Proof.
  induction 1 as [|v ws [Hv _] Hws IH]; [done|]. cbn [concat length].
  rewrite length_app. lia.
Qed.

Lemma length_sm_gradient n k g : shaped n k (SoftmaxGradient.weights g) ->
  Z.of_nat (length (SoftmaxGradient.serialize g)) = n * k * 8 + 4.
Proof.
  intros [Hn Hws]. unfold SoftmaxGradient.serialize. rewrite length_app. unfold version_bytes.
  rewrite length_le_bytes. assert (He : concat (Checksum.array_bytes <$> SoftmaxGradient.weights g)
    = Checksum.array_bytes (concat (SoftmaxGradient.weights g))).
  { clear. induction (SoftmaxGradient.weights g) as [|v ws IH]; [done|].
    cbn [fmap list_fmap concat]. by rewrite array_bytes_app, <- IH. }
  rewrite He, length_array_bytes. pose proof (length_concat_rows k _ Hws). nia.
Qed.

Lemma rows_of_length n c data : (n * c <= length data)%nat ->
  length (rows_of n c data) = n /\ Forall (fun r => length r = c) (rows_of n c data).
Proof.
  revert data. induction n as [|n IH]; intros data Hd; [done|]. cbn in *.
  destruct (IH (drop c data)) as [Hl Hf]; [rewrite length_drop; lia|].
  split; [lia|]. constructor; [rewrite length_take; lia|done].
Qed.

Lemma map_matrix_rows mat : Matrix.wf mat ->
  length (map_matrix mat) = Z.to_nat (Matrix.rows mat) /\
  Forall (fun r => length r = Z.to_nat (Matrix.cols mat)) (map_matrix mat).
Proof. intros [Hr Hc Hd _]. apply rows_of_length. nia. Qed.

(** The gradient of a minibatch has a weight for each of the model's. *)
Lemma lr_minibatch_shape `{Libm, EigenSpec} n mat labels k eps m g : lr_shape n m ->
  Matrix.wf mat -> 0 < Matrix.rows mat ->
  LRModel.minibatch_grad mat labels k eps m = Ok g ->
  Z.of_nat (length (LRGradient.weights g)) = n /\ Forall is_u64 (LRGradient.weights g).
Proof.
  intros (Hd & Hl & Hu & Hs) Hmat Hrows. unfold LRModel.minibatch_grad.
  destruct (_ && _) eqn:Hc; [|done]. cbn [negb].
  apply andb_true_iff in Hc as [[Hcols%Z.eqb_eq Hk%Z.eqb_eq]%andb_true_iff _].
  intros (part1 & _ & [= <-])%outcome_bind_Ok_inv. cbn [LRGradient.weights LRGradient.ctor_data].
  split.
  - rewrite length_zip_with_l_eq; rewrite length_fmap; [done|].
    destruct (map_matrix_rows mat Hmat) as [Hml Hmr].
    rewrite (eig_mtv_length _ _ _ Hmr); [lia|]. intros He. rewrite He in Hml. cbn in Hml. lia.
  - apply Forall_zip_u64, double_add_u64.
Qed.

Lemma ofold_inv {A B} (P : B -> Prop) (l : list A) f (b b' : B) : P b ->
  (forall x b b', f x b = Ok b' -> P b -> P b') -> ofold l f b = Ok b' -> P b'.
Proof.
  intros Hb Hf. revert b Hb. induction l as [|x l IH]; intros b Hb; cbn; [by intros [= <-]|].
  intros (c & Hc & Ho)%outcome_bind_Ok_inv. eauto.
Qed.

Lemma set_index_length {A} i (x : A) l l' : set_index i x l = Ok l' ->
  length l' = length l /\ exists y, l !! Z.to_nat i = Some y /\ l' = <[Z.to_nat i := x]> l.
Proof.
  unfold set_index. destruct (_ && _) eqn:Hi; [|done]. intros [= <-]. rewrite length_insert.
  split; [done|]. apply andb_true_iff in Hi as [Hi1%Z.leb_le Hi2%Z.ltb_lt].
  destruct (lookup_lt_is_Some_2 l (Z.to_nat i)) as [y Hy]; [lia|]. eauto.
Qed.

Lemma at_index_Ok_inv {A} (l : list A) i x : at_index l i = Ok x -> l !! Z.to_nat i = Some x.
Proof.
  unfold at_index. destruct (znth l i) as [y|] eqn:Hy; [|done]. intros [= <-]. by apply znth_Some.
Qed.

Lemma set_weight_rows i j x (ws ws' : list (list Z)) c :
  SoftmaxModel.set_weight i j x ws = Ok ws' ->
  Forall (fun r => length r = c) ws -> Forall (fun r => length r = c) ws'.
Proof.
  intros (v & Hv & H)%outcome_bind_Ok_inv Hws. apply outcome_bind_Ok_inv in H as (v' & Hv' & H).
  apply set_index_length in H as (_ & y & Hy & ->). apply set_index_length in Hv' as [Hl _].
  apply at_index_Ok_inv in Hv. apply Forall_insert; [done|].
  rewrite Forall_lookup in Hws. rewrite Hl. eauto.
Qed.

Lemma probabilities_rows `{Libm, EigenSpec} dataset W probs c :
  Forall (fun r => length r = c) W -> W <> [] ->
  SoftmaxModel.probabilities dataset W = Ok probs ->
  length probs = length dataset /\ Forall (fun r => length r = c) probs.
Proof.
  intros HW Hne (es & Hes & [= <-])%outcome_bind_Ok_inv.
  pose proof (omapM_Ok_inv _ _ _ Hes) as Hf. rewrite length_map. split.
  - rewrite <- (Forall2_length _ _ _ Hf). apply eig_mm_length.
  - apply Forall_fmap. cbn. pose proof (eig_mm_row dataset W c HW Hne) as Hr.
    revert Hr. generalize (eig_sum es). intros s. revert Hf. generalize (eig_mm dataset W).
    clear. intros sc Hf Hr.
    induction Hf as [|r e sc es Hre Hf IH]; constructor; apply Forall_cons in Hr as [Hr Hrs].
    + cbn. rewrite length_map. apply omapM_Ok_inv, Forall2_length in Hre. congruence.
    + by apply IH.
Qed.

Lemma sm_minibatch_shape `{Libm, EigenSpec} nc n mat labels k eps m g : sm_shape nc n m ->
  Matrix.wf mat -> 0 < Matrix.rows mat -> 0 < n ->
  SoftmaxModel.minibatch_grad mat labels k eps m = Ok g ->
  shaped n nc (SoftmaxGradient.weights g).
Proof.
  intros (Hnc & Hn & Hws & Hz & _) Hmat Hrows Hpos. unfold SoftmaxModel.minibatch_grad.
  destruct (negb _); [done|]. intros (W & HW & Hk)%outcome_bind_Ok_inv.
  apply outcome_bind_Ok_inv in Hk as (probs & Hp & Hk).
  apply outcome_bind_Ok_inv in Hk as (_ & _ & Hk).
  apply outcome_bind_Ok_inv in Hk as (ds & Hds & Hk).
  destruct (Z.eqb_spec (Matrix.cols mat) (SoftmaxModel.d m)) as [Hcols|]; [|done].
  cbn [negb] in Hk. injection Hk as <-. cbn [SoftmaxGradient.weights SoftmaxGradient.ctor_data].
  unfold SoftmaxModel.weight_matrix in HW. rewrite Hnc, Hcols, Hn, (omapM_cells n nc) in HW by done.
  injection HW as <-. pose proof Hws as [Hlen Hrow].
  assert (Hwr : Forall (fun r => length r = Z.to_nat nc) (SoftmaxModel.weights m)).
  { eapply Forall_impl; [exact Hrow|]. cbn. intros r [? _]. lia. }
  assert (Hwn : SoftmaxModel.weights m <> []).
  { intros He. rewrite He in Hlen. cbn in Hlen. lia. }
  destruct (probabilities_rows _ _ _ _ Hwr Hwn Hp) as [Hpl Hpr].
  destruct (map_matrix_rows mat Hmat) as [Hml Hmr].
  assert (Hdr : length ds = length probs /\ Forall (fun r => length r = Z.to_nat nc) ds).
  { eapply (ofold_inv (fun ws => length ws = length probs /\ Forall _ ws)); [|
      |exact Hds]; [done|]. cbn. intros i b b' Hb [Hbl Hbf].
    apply outcome_bind_Ok_inv in Hb as (l & _ & Hb).
    apply outcome_bind_Ok_inv in Hb as (c & _ & Hb).
    apply outcome_bind_Ok_inv in Hb as (p & _ & Hb). split; [|by eapply set_weight_rows].
    apply outcome_bind_Ok_inv in Hb as (v & _ & Hb).
    apply outcome_bind_Ok_inv in Hb as (v' & _ & Hb). apply set_index_length in Hb as [Hb _]. lia. }
  destruct Hdr as [Hdl Hdf].
  assert (Hdn : ds <> []) by (intros He; rewrite He in Hdl; cbn in Hdl; lia).
  assert (Hmn : map_matrix mat <> []) by (intros He; rewrite He in Hml; cbn in Hml; lia).
  pose proof (eig_mtm_length _ ds _ Hmr Hmn) as Htl.
  pose proof (eig_mtm_row (map_matrix mat) ds _ Hdf Hdn) as Htr.
  split; [rewrite length_zip_with_l_eq; rewrite ?length_map; lia|].
  apply Forall_lookup. intros i r. rewrite lookup_zip_with. intros Hr.
  destruct (eig_mtm _ ds !! i) as [t|] eqn:Ht; [|done]. cbn in Hr.
  change (map (map (Double.mul eps)) (SoftmaxModel.weights m)) with
    (map (Double.mul eps) <$> SoftmaxModel.weights m) in Hr. rewrite list_lookup_fmap in Hr.
  destruct (SoftmaxModel.weights m !! i) as [w|] eqn:Hw; [|done]. cbn in Hr. simplify_eq.
  rewrite Forall_lookup in Htr, Hwr. split; [|apply Forall_zip_u64, double_add_u64].
  rewrite length_zip_with_l_eq; rewrite ?length_map; rewrite (Htr _ _ Ht), ?(Hwr _ _ Hw); lia.
Qed.

(** ** Products in the plain order *)

(** An implementation of the interface, to evaluate the models: the sums are
    taken from the left. *)
Module PlainEigen.
Definition dot (u v : list Z) : Z := fold_left Double.add (zip_with Double.mul u v) Double.zero.
Definition columns (m : list (list Z)) : list (list Z) :=
  match m with
  | [] => []
  | r :: _ => (fun j => (fun r => default Double.zero (r !! j)) <$> m) <$> seq 0 (length r)
  end.
Definition mv (m : list (list Z)) (v : list Z) : list Z := (fun r => dot r v) <$> m.
Definition mm (m k : list (list Z)) : list (list Z) := (fun r => mv (columns k) r) <$> m.

Lemma columns_length m c : Forall (fun r => length r = c) m -> m <> [] -> length (columns m) = c.
Proof. intros [|r m' Hr _] Hne; [done|]. cbn. by rewrite length_fmap, length_seq. Qed.

Lemma mm_row m k c : length (columns k) = c -> Forall (fun r => length r = c) (mm m k).
Proof. intros <-. apply Forall_fmap, Forall_true. intros r. apply length_fmap. Qed.
End PlainEigen.

Definition plain_eigen : Eigen := {|
  eig_mv := PlainEigen.mv;
  eig_mtv m v := PlainEigen.mv (PlainEigen.columns m) v;
  eig_dot := PlainEigen.dot;
  eig_mm := PlainEigen.mm;
  eig_mtm m k := PlainEigen.mm (PlainEigen.columns m) k;
  eig_sum m := fold_left Double.add (concat m) Double.zero |}.

Lemma plain_eigen_spec : @EigenSpec plain_eigen.
Proof.
  split; cbn.
  - intros m v. apply length_fmap.
  - intros m v c Hm Hne. unfold PlainEigen.mv. rewrite length_fmap. by apply PlainEigen.columns_length.
  - intros m k. apply length_fmap.
  - intros m k c Hk Hne. by apply PlainEigen.mm_row, PlainEigen.columns_length.
  - intros m k c Hm Hne. unfold PlainEigen.mm. rewrite length_fmap.
    by apply PlainEigen.columns_length.
  - intros m k c Hk Hne. by apply PlainEigen.mm_row, PlainEigen.columns_length.
Qed.
