(* ===== verification/MLSerializers.v ===== *)
(** * The serialisers of the training programs ([examples/ml/Serializers.h])

    The serialisers and deserialisers of arrays, models and gradients, with
    their checks of the size; a codec is a pair of them.  What is sent is a
    [blob]: the size that the serialiser declares, and the bytes that it
    writes. *)

From stdpp Require Import base list numbers strings pretty.
From Stdlib Require Import ZArith Lia.
From S2P Require Import Prelude Common Double MLChecksum MLData MLModel.

Record blob := mk_blob { blob_size : Z; blob_bytes : bytes }.

#[global] Instance blob_serializer : Serializer blob :=
  { ser_size := blob_size; ser_serialize := blob_bytes }.

(** ** The code *)

(** [numslots] is an [int]. *)
Definition c_array_serializer_size (numslots : Z) : Z := u64 (u64 numslots * 8).
Definition c_array_serializer_serialize (numslots : Z) (obj : list Z) : outcome bytes :=
  read_at 0 (Z.to_nat (c_array_serializer_size numslots)) (Checksum.array_bytes obj).

(** [new T[numslots]] of a negative number throws. *)
Definition c_array_deserializer (numslots : Z) (name : string) (data : bytes) (des_size : Z)
    : outcome (list Z) :=
  let size := u32 (u64 (8 * u64 numslots)) in
  if negb (des_size =? size) then
    Throw (RuntimeError ("Wrong size received at c_array_deserializer) size: " +:+
      pretty des_size +:+ " expected: " +:+ pretty size +:+ " name: " +:+ name))
  else if numslots <? 0 then Throw (LengthError "std::bad_array_new_length")
  else read_doubles (Z.to_nat numslots) data.

Definition lr_model_serializer_size (model : LRModel.t) : Z := LRModel.getSerializedSize model.
Definition lr_model_serializer_serialize (model : LRModel.t) : outcome bytes :=
  LRModel.serializeTo model.
Definition lr_model_deserializer (n : Z) (data : bytes) (des_size : Z) : outcome LRModel.t :=
  let? model := LRModel.ctor n in
  if negb (des_size =? LRModel.getSerializedSize model) then
    Throw (RuntimeError "Wrong deserializer size at lr_model_deserializer")
  else LRModel.loadSerialized data model.

Definition lr_gradient_serializer_size (g : LRGradient.t) : Z := LRGradient.getSerializedSize g.
Definition lr_gradient_serializer_serialize (g : LRGradient.t) : outcome bytes :=
  Ok (LRGradient.serialize g).
Definition lr_gradient_deserializer (n : Z) (data : bytes) (des_size : Z)
    : outcome LRGradient.t :=
  let? gradient := LRGradient.ctor n in
  if negb (des_size =? LRGradient.getSerializedSize gradient) then
    Throw (RuntimeError "Wrong deserializer size at lr_gradient_deserializer")
  else LRGradient.loadSerialized data gradient.

Definition sm_gradient_serializer_size (g : SoftmaxGradient.t) : outcome Z :=
  SoftmaxGradient.getSerializedSize g.
Definition sm_gradient_serializer_serialize (g : SoftmaxGradient.t) : outcome bytes :=
  Ok (SoftmaxGradient.serialize g).
Definition sm_gradient_deserializer (nclasses d : Z) (data : bytes) (des_size : Z)
    : outcome SoftmaxGradient.t :=
  let gradient := SoftmaxGradient.ctor nclasses d in
  let? size := SoftmaxGradient.getSerializedSize gradient in
  if negb (des_size =? size) then
    Throw (RuntimeError "Wrong deserializer size at sm_gradient_deserializer")
  else SoftmaxGradient.loadSerialized data gradient.

Definition sm_model_serializer_size (model : SoftmaxModel.t) : Z :=
  SoftmaxModel.getSerializedSize model.
Definition sm_model_serializer_serialize (model : SoftmaxModel.t) : outcome bytes :=
  SoftmaxModel.serializeTo model.
Definition sm_model_deserializer (nclasses d : Z) (data : bytes) (des_size : Z)
    : outcome SoftmaxModel.t :=
  let? model := SoftmaxModel.ctor nclasses d in
  if negb (des_size =? SoftmaxModel.getSerializedSize model) then
    Throw (RuntimeError "Wrong deserializer size at lr_model_deserializer")
  else SoftmaxModel.loadSerialized data model.

(** ** Codecs *)

Record codec (T : Type) := mk_codec {
  c_blob : T -> outcome blob;
  c_decode : bytes -> Z -> outcome T;
}.
Arguments mk_codec {T} _ _.
Arguments c_blob {T} _ _.
Arguments c_decode {T} _ _ _.

Definition to_blob (size : outcome Z) (data : outcome bytes) : outcome blob :=
  let? n := size in let? bs := data in Ok (mk_blob n bs).

Definition array_codec (n : Z) (name : string) : codec (list Z) := mk_codec
  (fun a => to_blob (Ok (c_array_serializer_size (i32 n)))
              (c_array_serializer_serialize (i32 n) a))
  (c_array_deserializer (i32 n) name).
Definition lr_model_codec (n : Z) : codec LRModel.t := mk_codec
  (fun m => to_blob (Ok (lr_model_serializer_size m)) (lr_model_serializer_serialize m))
  (lr_model_deserializer n).
Definition lr_gradient_codec (n : Z) : codec LRGradient.t := mk_codec
  (fun g => to_blob (Ok (lr_gradient_serializer_size g)) (lr_gradient_serializer_serialize g))
  (lr_gradient_deserializer n).
Definition sm_model_codec (nclasses n : Z) : codec SoftmaxModel.t := mk_codec
  (fun m => to_blob (Ok (sm_model_serializer_size m)) (sm_model_serializer_serialize m))
  (sm_model_deserializer nclasses n).
Definition sm_gradient_codec (nclasses n : Z) : codec SoftmaxGradient.t := mk_codec
  (fun g => to_blob (sm_gradient_serializer_size g) (sm_gradient_serializer_serialize g))
  (sm_gradient_deserializer nclasses n).

(** What a codec promises of the objects of [P]: they have [len] bytes, as
    declared, and come back as [norm] of themselves, whatever follows in memory;
    other sizes are refused. *)
Record codec_ok {T} (c : codec T) (P : T -> Prop) (norm : T -> T) (len : Z) : Prop := {
  co_len : 0 <= len < 2 ^ 32;
  co_blob v : P v -> exists bs, c_blob c v = Ok (mk_blob len bs) /\
    Z.of_nat (length bs) = len /\
    (forall rest, c_decode c (bs ++ rest) len = Ok (norm v)) /\ P (norm v);
  co_size data size : size <> len -> exists e, c_decode c data size = Throw e;
}.

(** ** The contracts *)

Definition is_array (n : Z) (a : list Z) : Prop := Z.of_nat (length a) = n /\ Forall is_u64 a.

Lemma array_codec_ok n name : 0 <= n -> n * 8 < 2 ^ 31 ->
  codec_ok (array_codec n name) (is_array n) id (n * 8).
Proof.
  intros Hn Hs. assert (Hi : i32 n = n) by (apply i32_small; lia).
  assert (Hsz : c_array_serializer_size n = n * 8).
  { unfold c_array_serializer_size. rewrite !u64_small; unfold is_u64; [lia..|].
    rewrite u64_small; unfold is_u64; lia. }
  assert (H8 : u32 (u64 (8 * u64 n)) = n * 8).
  { rewrite (u64_small n) by (unfold is_u64; lia).
    rewrite u64_small by (unfold is_u64; lia). rewrite u32_small by (unfold is_u32; lia). lia. }
  split; [lia| |].
  - intros a [Hl Hu]. exists (Checksum.array_bytes a). cbn [array_codec c_blob c_decode].
    rewrite Hi, Hsz. unfold c_array_serializer_serialize. rewrite Hsz. split_and!.
    + unfold read_at. rewrite decide_True by (rewrite length_array_bytes; lia). cbn [outcome_bind to_blob].
      by rewrite drop_0, take_ge by (rewrite length_array_bytes; lia).
    + rewrite length_array_bytes. lia.
    + intros rest. unfold c_array_deserializer. rewrite H8, Z.eqb_refl. cbn [negb].
      rewrite (proj2 (Z.ltb_ge n 0)) by lia. replace (Z.to_nat n) with (length a) by lia.
      by apply read_doubles_array.
    + done.
  - intros data size Hne. cbn [array_codec c_decode]. unfold c_array_deserializer.
    rewrite Hi, H8, (proj2 (Z.eqb_neq size (n * 8))) by done. by eexists.
Qed.

Lemma lr_model_codec_ok n : 0 <= n -> n * 8 < 2 ^ 31 ->
  codec_ok (lr_model_codec n) (lr_shape n) id (n * 8).
Proof.
  intros Hn Hs. split; [lia| |].
  - intros m Hm. eexists. cbn [lr_model_codec c_blob c_decode]. split_and!.
    + unfold lr_model_serializer_size, lr_model_serializer_serialize.
      by rewrite (lr_serialized_size n), (lr_serializeTo n).
    + rewrite length_array_bytes. destruct Hm as (_ & Hl & _). lia.
    + intros rest. unfold lr_model_deserializer. rewrite lr_ctor_ok by lia. cbn [outcome_bind].
      unfold LRModel.getSerializedSize. cbn [LRModel.d].
      rewrite u64_small by (unfold is_u64; lia). rewrite Z.eqb_refl. cbn [negb].
      apply (lr_loadSerialized n); [done|done|]. cbn. rewrite length_replicate. lia.
    + done.
  - intros data size Hne. cbn [lr_model_codec c_decode]. unfold lr_model_deserializer.
    rewrite lr_ctor_ok by lia. cbn [outcome_bind]. unfold LRModel.getSerializedSize.
    cbn [LRModel.d]. rewrite u64_small by (unfold is_u64; lia).
    rewrite (proj2 (Z.eqb_neq size (n * 8))) by done. by eexists.
Qed.

Definition lr_gradient_shape (n : Z) (g : LRGradient.t) : Prop :=
  Z.of_nat (length (LRGradient.weights g)) = n /\ Forall is_u64 (LRGradient.weights g).
Definition lr_gradient_norm (g : LRGradient.t) : LRGradient.t :=
  LRGradient.setVersion (u32 (LRGradient.getVersion g)) g.

Lemma lr_gradient_codec_ok n : 0 <= n -> n * 8 < 2 ^ 31 ->
  codec_ok (lr_gradient_codec n) (lr_gradient_shape n) lr_gradient_norm (n * 8 + 4).
Proof.
  intros Hn Hs. assert (Hc : LRGradient.ctor n =
    Ok (LRGradient.mk (replicate (Z.to_nat n) Double.zero) 0)).
  { unfold LRGradient.ctor. rewrite i32_small, (proj2 (Z.ltb_ge n 0)) by lia. done. }
  split; [lia| |].
  - intros g [Hl Hu]. eexists. cbn [lr_gradient_codec c_blob c_decode]. split_and!.
    + unfold lr_gradient_serializer_size, lr_gradient_serializer_serialize, to_blob.
      cbn [outcome_bind]. unfold LRGradient.getSerializedSize. by rewrite Hl.
    + unfold LRGradient.serialize, version_bytes. rewrite length_app, length_le_bytes, length_array_bytes. lia.
    + intros rest. unfold lr_gradient_deserializer. rewrite Hc. cbn [outcome_bind].
      unfold LRGradient.getSerializedSize. cbn [LRGradient.weights].
      rewrite length_replicate, Z2Nat.id, Z.eqb_refl by lia. cbn [negb].
      apply lr_gradient_load; [done|]. cbn. rewrite length_replicate. lia.
    + done.
  - intros data size Hne. cbn [lr_gradient_codec c_decode]. unfold lr_gradient_deserializer.
    rewrite Hc. cbn [outcome_bind]. unfold LRGradient.getSerializedSize. cbn [LRGradient.weights].
    rewrite length_replicate, Z2Nat.id, (proj2 (Z.eqb_neq size _)) by (done || lia). by eexists.
Qed.

(** The sizes that a softmax model may have. *)
Record sm_sizes (nc n : Z) : Prop := {
  sz_classes : 0 <= nc;
  sz_dim : 0 < n;
  sz_rows : n * 24 < 2 ^ 31;
  sz_cols : nc * 8 < 2 ^ 31;
  sz_total : n * nc * 8 + 16 < 2 ^ 31;
}.

Lemma sm_model_codec_ok nc n : sm_sizes nc n ->
  codec_ok (sm_model_codec nc n) (sm_shape nc n) id (n * nc * 8 + 16).
Proof.
  intros [Hnc Hn H1 H2 H3]. destruct (sm_ctor_ok nc n) as (m0 & Hc & Hm0); [lia..|].
  assert (Hsz : forall m, sm_shape nc n m -> SoftmaxModel.getSerializedSize m = n * nc * 8 + 16).
  { intros m (Hmc & Hmn & _). unfold SoftmaxModel.getSerializedSize. rewrite Hmc, Hmn.
    rewrite u64_small by (unfold is_u64; nia). lia. }
  split; [nia| |].
  - intros m Hm. eexists. cbn [sm_model_codec c_blob c_decode]. split_and!.
    + unfold sm_model_serializer_size, sm_model_serializer_serialize.
      by rewrite (sm_serializeTo nc n), Hsz.
    + rewrite !length_app, !length_le_bytes, length_array_bytes.
      destruct Hm as (_ & _ & [Hl Hws] & _). pose proof (length_concat_rows nc _ Hws). nia.
    + intros rest. unfold sm_model_deserializer. rewrite Hc. cbn [outcome_bind].
      rewrite Hsz, Z.eqb_refl by done. cbn [negb].
      apply (sm_loadSerialized nc n m m0); [done..|]. by apply sm_serializeTo.
    + done.
  - intros data size Hne. cbn [sm_model_codec c_decode]. unfold sm_model_deserializer. rewrite Hc.
    cbn [outcome_bind]. rewrite Hsz, (proj2 (Z.eqb_neq size _)) by done. by eexists.
Qed.

Definition sm_gradient_shape (nc n : Z) (g : SoftmaxGradient.t) : Prop :=
  shaped n nc (SoftmaxGradient.weights g).
Definition sm_gradient_norm (g : SoftmaxGradient.t) : SoftmaxGradient.t :=
  SoftmaxGradient.setVersion (u32 (SoftmaxGradient.getVersion g)) g.

Lemma sm_gradient_codec_ok nc n : sm_sizes nc n ->
  codec_ok (sm_gradient_codec nc n) (sm_gradient_shape nc n) sm_gradient_norm (n * nc * 8 + 4).
Proof.
  intros [Hnc Hn H1 H2 H3].
  assert (Hsz : forall g, sm_gradient_shape nc n g ->
    SoftmaxGradient.getSerializedSize g = Ok (n * nc * 8 + 4)).
  { intros g Hg. unfold SoftmaxGradient.getSerializedSize. pose proof Hg as [Hl _].
    destruct (lookup_lt_is_Some_2 (SoftmaxGradient.weights g) 0) as [v Hv]; [lia|].
    pose proof (at_index_ok _ 0 _ Hv) as Ha. change (Z.of_nat 0) with 0 in Ha. rewrite Ha.
    destruct (shaped_lookup _ _ _ _ _ Hg Hv) as [Hk _]. cbn [outcome_bind]. by rewrite Hl, Hk. }
  assert (H0 : sm_gradient_shape nc n (SoftmaxGradient.ctor nc n)).
  { split; cbn; [rewrite length_replicate; lia|]. apply Forall_replicate.
    rewrite length_replicate. split; [lia|]. by apply Forall_replicate. }
  split; [nia| |].
  - intros g Hg. eexists. cbn [sm_gradient_codec c_blob c_decode]. split_and!.
    + unfold sm_gradient_serializer_size, sm_gradient_serializer_serialize. by rewrite Hsz.
    + by apply length_sm_gradient.
    + intros rest. unfold sm_gradient_deserializer. rewrite Hsz by done. cbn [outcome_bind].
      rewrite Z.eqb_refl. cbn [negb]. by apply sm_gradient_load.
    + done.
  - intros data size Hne. cbn [sm_gradient_codec c_decode]. unfold sm_gradient_deserializer.
    rewrite Hsz by done. cbn [outcome_bind]. rewrite (proj2 (Z.eqb_neq size _)) by done. by eexists.
Qed.

(** C19: the objects that the training tasks exchange survive the store.  Arrays,
    models and gradients of the configured sizes are written to exactly the
    number of bytes that their serialisers declare, come back as themselves (a
    gradient's version modulo 2^32) whatever follows in memory, and a message
    of another size is refused. *)
Theorem training_objects_roundtrip n nc name : 0 <= n -> n * 8 < 2 ^ 31 -> sm_sizes nc n ->
  codec_ok (array_codec n name) (is_array n) id (n * 8) /\
  codec_ok (lr_model_codec n) (lr_shape n) id (n * 8) /\
  codec_ok (lr_gradient_codec n) (lr_gradient_shape n) lr_gradient_norm (n * 8 + 4) /\
  codec_ok (sm_model_codec nc n) (sm_shape nc n) id (n * nc * 8 + 16) /\
  codec_ok (sm_gradient_codec nc n) (sm_gradient_shape nc n) sm_gradient_norm (n * nc * 8 + 4).
Proof.
  intros Hn Hs Hsz. split_and!; [by apply array_codec_ok|by apply lr_model_codec_ok
    |by apply lr_gradient_codec_ok|by apply sm_model_codec_ok|by apply sm_gradient_codec_ok].
Qed.

Lemma training_objects_roundtrip_witness : exists bs,
  c_blob (sm_gradient_codec 1 2) (SoftmaxGradient.mk [[7]; [8]] 3) = Ok (mk_blob 20 bs) /\
  c_decode (sm_gradient_codec 1 2) bs 20 = Ok (SoftmaxGradient.mk [[7]; [8]] 3).
Proof.
  destruct (training_objects_roundtrip 2 1 "samples") as (_ & _ & _ & _ & [_ Hb _]); [lia..|split; lia|].
  destruct (Hb (SoftmaxGradient.mk [[7]; [8]] 3)) as (bs & Hw & _ & Hd & _).
  - split; [done|]. repeat constructor; unfold is_u64; lia.
  - exists bs. specialize (Hd []). rewrite app_nil_r in Hd. by split.
Defined.

(** [loadGradient] reads the doubles from the start, where the version is. *)
Example loadGradient_misreads : exists g,
  LRModel.loadGradient (LRGradient.serialize (LRGradient.mk [Double.one] 1)) (LRModel.mk [0] 1) = Ok g /\
  LRGradient.weights g <> [Double.one].
Proof. eexists. split; [reflexivity|discriminate]. Qed.

(** [deserialize] skips the header that [loadSerialized] then reads. *)
Example softmax_deserialize_fails : exists mem size,
  SoftmaxModel.serialize (SoftmaxModel.mk 1 1 [[Double.one]]) = Ok (mem, size) /\
  SoftmaxModel.deserialize mem size = Undefined.
Proof. eexists _, _. split; reflexivity. Qed.
