(* ===== verification/MLText.v ===== *)
(** * Reading text ([examples/ml/Utils.h], streams of the C++ library)

    What the training programs use of [std::istringstream]: [operator>>] on
    strings, integers and doubles (in the "C" locale, with the digits
    accumulated as libstdc++ does), [string_to] of Utils.h and [strsep] of the C
    library.  Text is a list of characters. *)

From stdpp Require Import base list numbers strings.
From Stdlib Require Import ZArith Lia Ascii.
From S2P Require Import Prelude Double.

Abbreviation text := (list ascii) (only parsing).

Module Text.

Definition of_string (s : string) : text := String.list_ascii_of_string s.

Definition is_space (c : ascii) : bool :=
  let n := nat_of_ascii c in (n =? 32)%nat || ((9 <=? n)%nat && (n <=? 13)%nat).

(** The value of a decimal digit. *)
Definition digit (c : ascii) : option Z :=
  let n := Z.of_nat (nat_of_ascii c) in
  if (48 <=? n) && (n <=? 57) then Some (n - 48) else None.

Fixpoint skip_spaces (l : text) : text :=
  match l with
  | c :: l' => if is_space c then skip_spaces l' else l
  | [] => []
  end.

(** The characters up to the next space. *)
Fixpoint word (l : text) : text :=
  match l with
  | c :: l => if is_space c then [] else c :: word l
  | [] => []
  end.

(** The leading digits: how many, their value after [acc], and the rest. *)
Fixpoint digits (l : text) (k : nat) (acc : Z) : nat * Z * text :=
  match l with
  | c :: l' =>
      match digit c with
      | Some d => digits l' (S k) (10 * acc + d)
      | None => (k, acc, l)
      end
  | [] => (k, acc, l)
  end.

(** A sign: is it a minus, and the rest. *)
Definition sign (l : text) : bool * text :=
  match l with
  | c :: l' =>
      if (c =? "-")%char then (true, l') else if (c =? "+")%char then (false, l') else (false, l)
  | [] => (false, l)
  end.

(** What [>>] stores ([None]: nothing, the stream was at its end), whether the
    stream has failed, and the characters left. *)
Record extraction (A : Type) := mk { value : option A; failed : bool; left : text }.
Arguments mk {A} _ _ _.
Arguments value {A} _.
Arguments failed {A} _.
Arguments left {A} _.

Definition at_end {A} : extraction A := mk None true [].

Definition get_string (l : text) : extraction text :=
  match skip_spaces l with
  | [] => at_end
  | l => mk (Some (word l)) false (drop (length (word l)) l)
  end.

(** [uint64_t]: a negative number wraps around, a number that is too large
    gives the greatest one and fails. *)
Definition get_uint64 (l : text) : extraction Z :=
  match skip_spaces l with
  | [] => at_end
  | l =>
      let '(neg, l1) := sign l in
      let '(k, n, rest) := digits l1 0 0 in
      if (k =? 0)%nat then mk (Some 0) true rest
      else if 2 ^ 64 <=? n then mk (Some (2 ^ 64 - 1)) true rest
      else mk (Some (u64 (if neg : bool then - n else n))) false rest
  end.

Definition get_int (l : text) : extraction Z :=
  match skip_spaces l with
  | [] => at_end
  | l =>
      let '(neg, l1) := sign l in
      let '(k, n, rest) := digits l1 0 0 in
      if (k =? 0)%nat then mk (Some 0) true rest
      else
        let v := if neg : bool then - n else n in
        if v <? - 2 ^ 31 then mk (Some (- 2 ^ 31)) true rest
        else if 2 ^ 31 <=? v then mk (Some (2 ^ 31 - 1)) true rest
        else mk (Some v) false rest
  end.

(** The greatest double. *)
Definition DBL_MAX : Z := 0x7fefffffffffffff.

(** [+-m * 10^e]; the greatest number for one that is too large. *)
Definition convert_double (neg : bool) (m e : Z) : Z * bool :=
  match m with
  | Zpos p =>
      let d := Double.of_decimal neg p e in
      if Double.isinf d then ((if neg then Double.opp DBL_MAX else DBL_MAX), true)
      else (d, false)
  | _ => ((if neg then Double.opp Double.zero else Double.zero), false)
  end.

(** [double]: a sign, digits with at most one point, and an exponent, which is
    read only after a digit.  What does not convert is 0 and fails. *)
Definition get_double (l : text) : extraction Z :=
  match skip_spaces l with
  | [] => at_end
  | l =>
      let '(neg, l1) := sign l in
      let '(k1, m1, l2) := digits l1 0 0 in
      let '(k2, m2, l3) :=
        match l2 with
        | c :: l2' =>
            if (c =? ".")%char then
              let '(k, m, r) := digits l2' k1 m1 in ((k - k1)%nat, m, r)
            else (0%nat, m1, l2)
        | [] => (0%nat, m1, l2)
        end in
      let found := negb (k1 + k2 =? 0)%nat in
      let '(has_e, e_neg, k3, e, l4) :=
        match l3 with
        | c :: l3' =>
            if found && ((c =? "e")%char || (c =? "E")%char) then
              let '(en, l3'') := sign l3' in
              let '(k, e, r) := digits l3'' 0 0 in (true, en, k, e, r)
            else (false, false, 0%nat, 0, l3)
        | [] => (false, false, 0%nat, 0, l3)
        end in
      if negb found || (has_e && (k3 =? 0)%nat) then mk (Some Double.zero) true l4
      else
        let '(d, fail) := convert_double neg m2 ((if e_neg : bool then - e else e) - Z.of_nat k2) in
        mk (Some d) fail l4
  end.

(** [string_to<double>]: the variable is returned uninitialised when the text
    is blank. *)
Definition string_to_double (s : text) : outcome Z :=
  match s with
  | [] => Ok Double.zero
  | _ => match value (get_double s) with Some d => Ok d | None => Undefined end
  end.

(** [strsep] in a loop: the pieces between the characters of [delim]. *)
Definition is_delimiter (delim : text) (c : ascii) : bool := existsb (Ascii.eqb c) delim.
Fixpoint split (delim : text) (l : text) : list text :=
  match l with
  | [] => [[]]
  | c :: l =>
      if is_delimiter delim c then [] :: split delim l
      else match split delim l with
           | p :: ps => (c :: p) :: ps
           | [] => [[c]]
           end
  end.

Example reads_text :
  get_string (of_string "  minibatch_size: 20") =
    mk (Some (of_string "minibatch_size:")) false (of_string " 20") /\
  get_uint64 (of_string " 20 x") = mk (Some 20) false (of_string " x") /\
  value (get_uint64 (of_string "-1")) = Some (2 ^ 64 - 1) /\
  get_int (of_string "3000000000") = mk (Some (2 ^ 31 - 1)) true [] /\
  string_to_double (of_string "0.85") = Ok Double.c_0_85 /\
  string_to_double (of_string "1e-05;") = Ok Double.c_1e_5 /\
  string_to_double (of_string "-.5e1") = Ok (Double.opp (Double.of_uint 5)) /\
  get_double (of_string "2.x") = mk (Some (Double.of_uint 2)) false (of_string "x") /\
  get_double (of_string "1e+") = mk (Some Double.zero) true [] /\
  get_double (of_string "abc") = mk (Some Double.zero) true (of_string "abc") /\
  get_double (of_string "1e999") = mk (Some DBL_MAX) true [] /\
  string_to_double (of_string " ") = Undefined /\
  split (of_string " ") (of_string "1 22  3") =
    [of_string "1"; of_string "22"; []; of_string "3"].
Proof. vm_compute. done. Qed.
End Text.
