(* ===== verification/MLInput.v ===== *)
(** * Reading datasets ([examples/ml/Input.cpp])

    The readers of the CSV, MNIST and binary formats.  [read_input_csv] starts
    threads that take lines from a queue while the caller fills it: [reader] is
    their shared state and [run] follows a schedule.  A critical section is one
    step; the flag [terminate] is read outside of them.  [rand] is the sequence of
    numbers that [std::rand] gives after [std::srand(42)]. *)

From stdpp Require Import base list numbers strings sorting.
From Stdlib Require Import ZArith Lia Ascii.
From S2P Require Import Prelude Double MLChecksum MLData MLModel MLText.

Module Input.

Definition STR_SIZE : nat := 10000.
Definition read_at_a_time : nat := 100.

(** The delimiter that the programs use. *)
Definition space : text := Text.of_string " ".

(** ** Lines *)

(** [c_str()] as [strncpy] sees it: up to the first character 0. *)
Fixpoint c_str (l : text) : text :=
  match l with
  | c :: l => if (c =? "000")%char then [] else c :: c_str l
  | [] => []
  end.

(** The columns of a line, up to [limit_cols] if that is not 0. *)
Definition columns (delimiter : text) (limit_cols : Z) (line : text) : list text :=
  let pieces := Text.split delimiter (c_str line) in
  if limit_cols =? 0 then pieces else take (Z.to_nat limit_cols) pieces.

(** A line as label and features; [assert] on its length. *)
Definition parse_line (delimiter : text) (limit_cols : Z) (line : text)
    : outcome (Z * list Z) :=
  if decide (STR_SIZE <= length line)%nat then Exited else
  let? sample := omapM (columns delimiter limit_cols line) Text.string_to_double in
  match sample with
  | label :: sample => Ok (label, sample)
  | [] => Undefined
  end.

(** ** The threads of [read_input_csv] *)

(** Where a thread is in [read_csv_thread]: at the top of the loop, after it has
    read [terminate], with the lines it has taken, with what it has parsed (in the
    order of its vectors), or done. *)
Inductive phase :=
| Polling
| Checked
| Holding (thread_lines : list text)
| Parsed (thread_labels : list Z) (thread_samples : list (list Z))
| Finished.

Record reader := mk {
  unread : list text;           (* lines that getline has not returned *)
  lines : list text;
  samples : list (list Z);
  labels : list Z;
  terminate : bool;
  threads : list phase;
}.

Definition initial (file : list text) (nthreads : nat) : reader :=
  mk file [] [] [] false (replicate nthreads Polling).

(** The caller: a line is pushed; after the last line, [terminate] is set when
    the queue is found empty. *)
Definition producer_step (s : reader) : reader :=
  match s.(unread) with
  | l :: ls => mk ls (s.(lines) ++ [l]) s.(samples) s.(labels) s.(terminate) s.(threads)
  | [] =>
      match s.(lines) with
      | [] => mk [] [] s.(samples) s.(labels) true s.(threads)
      | _ => s
      end
  end.

Definition set_thread (i : nat) (p : phase) (s : reader) : reader :=
  mk s.(unread) s.(lines) s.(samples) s.(labels) s.(terminate) (<[i := p]> s.(threads)).

Section threads.
Context (delimiter : text) (limit_cols : Z).

(** Lines are taken from the front of the queue, parsed from the last to the
    first, and the results appended from the last to the first. *)
Definition thread_step (i : nat) (s : reader) : outcome reader :=
  match s.(threads) !! i with
  | None | Some Finished => Ok s
  | Some Polling => Ok (set_thread i (if s.(terminate) then Finished else Checked) s)
  | Some Checked =>
      match take read_at_a_time s.(lines) with
      | [] => Ok (set_thread i Polling s)
      | thread_lines => Ok (set_thread i (Holding thread_lines)
          (mk s.(unread) (drop read_at_a_time s.(lines)) s.(samples) s.(labels)
              s.(terminate) s.(threads)))
      end
  | Some (Holding thread_lines) =>
      let? parsed := omapM (rev thread_lines) (parse_line delimiter limit_cols) in
      Ok (set_thread i (Parsed parsed.*1 parsed.*2) s)
  | Some (Parsed thread_labels thread_samples) =>
      Ok (set_thread i Polling
        (mk s.(unread) s.(lines) (s.(samples) ++ rev thread_samples)
            (s.(labels) ++ rev thread_labels) s.(terminate) s.(threads)))
  end.

Inductive actor := Producer | Thread (i : nat).

Definition step (a : actor) (s : reader) : outcome reader :=
  match a with
  | Producer => Ok (producer_step s)
  | Thread i => thread_step i s
  end.

Definition run (schedule : list actor) (s : reader) : outcome reader :=
  ofold schedule step s.
End threads.

(** The queue was found empty and all threads have returned: the calls of [join]
    do. *)
Definition finished (s : reader) : Prop :=
  s.(terminate) = true /\ Forall (eq Finished) s.(threads).
#[global] Instance reader_phase_eq_dec : EqDecision phase.
Proof. solve_decision. Defined.
#[global] Instance finished_dec s : Decision (finished s).
Proof. unfold finished. apply _. Defined.

(** ** After the threads *)

(** [std::random_shuffle] of libstdc++: element [i] changes places with one of
    the elements up to it. *)
Definition swap {A} (i j : nat) (l : list A) : list A :=
  match l !! i, l !! j with
  | Some x, Some y => <[i := y]> (<[j := x]> l)
  | _, _ => l
  end.
Definition random_shuffle {A} (rand : nat -> nat) (l : list A) : list A :=
  fold_left (fun l i => swap i (rand (i - 1)%nat mod (i + 1)) l) (seq 1 (length l - 1)) l.

Section normalize.
Context `{Libm}.

(** [std::vector<double> means(cols)] and the loops over samples and features. *)
Definition add_row (f : Z -> Z -> Z) (cols : nat) (row acc : list Z) : outcome (list Z) :=
  if decide (cols <= length row)%nat then Ok (zip_with f acc (take cols row)) else Undefined.

Definition normalize_value (x mean sd : Z) : outcome Z :=
  let y := if negb (Double.eqb mean Double.zero)
           then Double.div (Double.sub x mean) sd else x in
  if Double.isnan y || Double.isinf y then
    Throw (RuntimeError "Value is not valid after normalization")
  else Ok y.
Fixpoint normalize_row (row means sds : list Z) : outcome (list Z) :=
  match means, sds, row with
  | m :: means, s :: sds, x :: row =>
      let? y := normalize_value x m s in
      let? ys := normalize_row row means sds in
      Ok (y :: ys)
  | [], _, _ => Ok row
  | _, _, _ => Undefined
  end.

Definition normalize (data : list (list Z)) : outcome (list (list Z)) :=
  match data with
  | [] => Undefined
  | first :: _ =>
      let cols := length first in
      let n := Double.of_uint (Z.of_nat (length data)) in
      let? means := ofold data (add_row (fun m x => Double.add m (Double.div x n)) cols)
                      (replicate cols Double.zero) in
      let? sums := ofold data (fun row acc =>
        if decide (cols <= length row)%nat then
          Ok (zip_with Double.add acc (zip_with (fun x m =>
            libm_pow (Double.sub x m) (Double.of_uint 2)) (take cols row) means))
        else Undefined) (replicate cols Double.zero) in
      let sds := (fun s => Double.sqrt (Double.div s n)) <$> sums in
      omapM data (fun row => normalize_row row means sds)
  end.

(** What the caller does with the results of the threads; [samples[0]] is
    printed. *)
Definition finish (heap : nat -> Z) (rand : nat -> nat) (to_normalize : bool) (s : reader)
    : outcome Dataset.t :=
  if negb (length s.(samples) =? length s.(labels))%nat then Exited else
  match s.(samples) with
  | [] => Undefined
  | _ =>
      let? samples := (if to_normalize then normalize s.(samples) else Ok s.(samples)) in
      Dataset.ctor_vectors heap (random_shuffle rand samples) (random_shuffle rand s.(labels))
  end.

(** [file]: the lines of the file, if it can be opened. *)
Definition read_input_csv (heap : nat -> Z) (rand : nat -> nat) (file : option (list text))
    (delimiter : text) (nthreads : nat) (limit_cols : Z) (to_normalize : bool)
    (schedule : list actor) : outcome Dataset.t :=
  match file with
  | None => Throw (RuntimeError "Error opening input file")
  | Some file =>
      let? s := run delimiter limit_cols schedule (initial file nthreads) in
      if decide (finished s) then finish heap rand to_normalize s else OutOfFuel
  end.
End normalize.

(** ** The other formats *)

Definition read_mnist_csv (file : option (list text)) (delimiter : text)
    : outcome (list (list Z)) :=
  match file with
  | None => Throw (RuntimeError "Can't open file")
  | Some file =>
      omapM file (fun line =>
        if decide (STR_SIZE <= length line)%nat then Exited else
        omapM (Text.split delimiter (c_str line)) Text.string_to_double)
  end.

(** Labels and features; the iterators past the label must be in the row. *)
Definition split_row (label_col : nat) (row : list Z) : outcome (Z * list Z) :=
  match row !! label_col with
  | Some l => Ok (l, take label_col row ++ drop (S label_col) row)
  | None => Undefined
  end.
Definition split_data_labels (input : list (list Z)) (label_col : nat)
    : outcome (list (list Z) * list Z) :=
  match input with
  | [] => Throw (RuntimeError "Error: Input data has 0 columns")
  | row :: _ =>
      if (length row <? label_col)%nat then
        Throw (RuntimeError "Error: label column is too big")
      else
        let? parts := omapM input (split_row label_col) in
        Ok (parts.*2, parts.*1)
  end.

(** The size of the labels file is taken from the samples file. *)
Definition n_cols : Z := 13.
Definition read_input_criteo (samples_file labels_file : option bytes) : outcome Dataset.t :=
  match samples_file with
  | None => Throw (RuntimeError "Error opening: samples")
  | Some sf =>
      let samples_entries := Z.of_nat (length sf) / (8 * n_cols) in
      let labels_entries := Z.of_nat (length sf) / (8 * n_cols) in
      if negb (samples_entries =? labels_entries) then Exited else
      match labels_file with
      | None => Throw (RuntimeError "Error opening input files")
      | Some lf =>
          let? samples := read_doubles (Z.to_nat (samples_entries * n_cols)) sf in
          if Z.of_nat (length lf) / 8 <? samples_entries then
            Throw (RuntimeError "Did not read enough data")
          else
            let? labels := read_doubles (Z.to_nat samples_entries) lf in
            Dataset.ctor_arrays samples labels samples_entries n_cols
      end
  end.

(** ** No sample is lost *)

Section invariant.
Context (delimiter : text) (limit_cols : Z).

(** The label and features of a line that parses. *)
Definition entry (line : text) : Z * list Z :=
  match parse_line delimiter limit_cols line with Ok p => p | _ => (0, []) end.
Definition parses (line : text) : Prop := parse_line delimiter limit_cols line = Ok (entry line).

(** The entries that a thread has taken and not yet delivered. *)
Definition in_flight (p : phase) : list (Z * list Z) :=
  match p with
  | Holding ls => entry <$> ls
  | Parsed lb sm => zip lb sm
  | _ => []
  end.
Definition phase_ok (p : phase) : Prop :=
  match p with
  | Holding ls => Forall parses ls
  | Parsed lb sm => length lb = length sm
  | _ => True
  end.

Record inv (file : list text) (s : reader) : Prop := mk_inv {
  inv_entries : (entry <$> s.(unread)) ++ (entry <$> s.(lines)) ++
    concat (in_flight <$> s.(threads)) ++ zip s.(labels) s.(samples) ≡ₚ entry <$> file;
  inv_unread : Forall parses s.(unread);
  inv_lines : Forall parses s.(lines);
  inv_threads : Forall phase_ok s.(threads);
  inv_length : length s.(labels) = length s.(samples);
  inv_terminate : s.(terminate) = true -> s.(unread) = [] /\ s.(lines) = [];
  inv_done : Finished ∈ s.(threads) -> s.(terminate) = true;
}.

Lemma in_flight_insert (ts : list phase) i p q : ts !! i = Some q -> exists rest,
  concat (in_flight <$> ts) ≡ₚ in_flight q ++ rest /\
  concat (in_flight <$> <[i := p]> ts) ≡ₚ in_flight p ++ rest.
Proof.
  intros Hq. exists (concat (in_flight <$> take i ts) ++ concat (in_flight <$> drop (S i) ts)).
  pose proof (lookup_lt_Some _ _ _ Hq) as Hi. split.
  - rewrite <- (take_drop_middle ts i q Hq) at 1. rewrite fmap_app, concat_app. cbn.
    apply Permutation_app_swap_app.
  - rewrite insert_take_drop by done. rewrite fmap_app, concat_app. cbn.
    apply Permutation_app_swap_app.
Qed.

Lemma inv_initial file n : Forall parses file -> inv file (initial file n).
Proof.
  intros Hf. split; cbn; try done.
  - induction n as [|n IH]; cbn; [by rewrite app_nil_r|exact IH].
  - by apply Forall_replicate.
  - by intros [? _]%elem_of_replicate.
Qed.

Lemma producer_inv file s : inv file s -> inv file (producer_step s).
Proof.
  intros [Hp Hu Hl Ht Hlen Hterm Hdone]. unfold producer_step.
  destruct (unread s) as [|l ls] eqn:Hun.
  - destruct (lines s) as [|x xs] eqn:Hli; [|by split; rewrite ?Hun, ?Hli].
    by split; cbn; rewrite ?Hun, ?Hli.
  - apply Forall_cons in Hu as [Hl1 Hls]. split; cbn; try done.
    + rewrite <- Hp. rewrite fmap_cons, fmap_app. cbn. rewrite <- (app_assoc (entry <$> lines s)).
      cbn. rewrite <- Permutation_middle. rewrite app_assoc, <- Permutation_middle.
      by rewrite <- !app_assoc.
    + apply Forall_app. split; [done|]. by constructor.
    + intros Htm. by destruct (Hterm Htm).
Qed.

Lemma rev_zip {A B} (l : list A) (k : list B) : length l = length k ->
  zip (rev l) (rev k) = rev (zip l k).
Proof.
  intros Hl. apply Forall2_same_length in Hl. induction Hl as [|x y l k _ Hl IH]; [done|]. cbn.
  rewrite zip_with_app by (rewrite !length_rev; by eapply Forall2_length). by rewrite IH.
Qed.

Lemma zip_fst_snd {A B} (l : list (A * B)) : zip l.*1 l.*2 = l.
Proof. induction l as [|[x y] l IH]; [done|]. cbn. by rewrite IH. Qed.

(** A step of a thread that parses does not fail. *)
Lemma thread_inv file i s : inv file s -> exists s',
  thread_step delimiter limit_cols i s = Ok s' /\ inv file s'.
Proof.
  intros Hinv. pose proof Hinv as [Hp Hu Hl Ht Hlen Hterm Hdone]. unfold thread_step.
  destruct (threads s !! i) as [q|] eqn:Hq; [|by eexists].
  pose proof (in_flight_insert (threads s) i) as Hins.
  assert (Hok : phase_ok q) by (rewrite Forall_lookup in Ht; eauto).
  assert (Hset : forall p, phase_ok p -> Forall phase_ok (<[i := p]> (threads s))).
  { intros p Hp'. by apply Forall_insert. }
  assert (Hfin : forall p, p <> Finished \/ terminate s = true ->
    Finished ∈ <[i := p]> (threads s) -> terminate s = true).
  { intros p Hpf Hin. apply list_elem_of_lookup in Hin as [j Hj].
    apply list_lookup_insert_Some in Hj as [(_ & ? & _)|[_ Hj]]; [naive_solver|].
    by apply Hdone, list_elem_of_lookup_2 with j. }
  destruct q as [| |ls|lb sm|]; cbn in Hok; [| | | |by eexists].
  - eexists. split; [done|]. destruct (Hins (if terminate s then Finished else Checked) _ Hq)
      as (rest & H1 & H2). split; cbn; try done.
    + rewrite H2, <- Hp, H1. by destruct (terminate s).
    + apply Hset. by destruct (terminate s).
    + apply Hfin. destruct (terminate s); auto.
  - rewrite <- (take_drop read_at_a_time (lines s)) in Hp, Hl.
    apply Forall_app in Hl as [Hl1 Hl2].
    destruct (take read_at_a_time (lines s)) as [|t ts] eqn:Htk.
    + eexists. split; [done|]. destruct (Hins Polling _ Hq) as (rest & H1 & H2).
      assert (Hnil : lines s = []) by (by destruct (lines s)).
      split; cbn; try done; try (apply Hfin; by left); [|by rewrite Hnil|by apply Hset].
      rewrite H2, <- Hp, H1, Hnil. by rewrite drop_nil.
    + eexists. split; [done|]. destruct (Hins (Holding (t :: ts)) _ Hq) as (rest & H1 & H2).
      split; cbn; try done; try (apply Hfin; by left); [|by apply Hset|].
      * rewrite H2, <- Hp, H1, fmap_app, <- !app_assoc. apply Permutation_app_head.
        cbn [in_flight]. rewrite ?app_nil_l. apply Permutation_app_swap_app.
      * intros Htm. destruct (Hterm Htm) as [Hu0 Hl0]. by rewrite Hl0 in Htk.
  - rewrite (omapM_ok _ _ entry).
    2:{ intros l Hin. rewrite Forall_forall in Hok. apply Hok.
        apply list_elem_of_In in Hin. by apply list_elem_of_In, in_rev. }
    cbn [outcome_bind]. set (parsed := entry <$> rev ls).
    eexists. split; [done|]. destruct (Hins (Parsed parsed.*1 parsed.*2) _ Hq) as (rest & H1 & H2).
    split; cbn; try done; try (apply Hfin; by left); [|apply Hset; cbn; by rewrite !length_fmap].
    rewrite H2, <- Hp, H1. cbn [in_flight]. rewrite zip_fst_snd. unfold parsed.
    do 2 apply Permutation_app_head. apply Permutation_app_tail, Permutation_app_tail.
    apply fmap_Permutation. by rewrite <- Permutation_rev.
  - eexists. split; [done|]. destruct (Hins Polling _ Hq) as (rest & H1 & H2).
    split; cbn; try done; try (apply Hfin; by left); [|by apply Hset|rewrite !length_app, !length_rev; lia].
    rewrite H2, <- Hp, H1. cbn [in_flight app].
    rewrite zip_with_app, rev_zip by done. do 2 apply Permutation_app_head.
    rewrite <- !app_assoc, <- Permutation_rev. rewrite (Permutation_app_comm (zip lb sm)).
    by rewrite <- app_assoc.
Qed.

Lemma step_inv file a s : inv file s -> exists s',
  step delimiter limit_cols a s = Ok s' /\ inv file s'.
Proof.
  intros Hs. destruct a as [|i]; [|by apply thread_inv].
  eexists. split; [done|]. by apply producer_inv.
Qed.

Lemma run_inv file schedule s : inv file s -> exists s',
  run delimiter limit_cols schedule s = Ok s' /\ inv file s'.
Proof.
  revert s. induction schedule as [|a sched IH]; intros s Hs; [by eexists|]. cbn.
  destruct (step_inv file a s Hs) as (s1 & -> & H1). by apply IH.
Qed.

Lemma finished_entries file s : inv file s -> finished s ->
  zip s.(labels) s.(samples) ≡ₚ entry <$> file.
Proof.
  intros [Hp _ _ _ _ Hterm _] [Ht Hf]. destruct (Hterm Ht) as [Hu Hl]. rewrite <- Hp, Hu, Hl. cbn.
  replace (concat (in_flight <$> threads s)) with (@nil (Z * list Z)); [done|]. clear -Hf.
  induction Hf as [|p ts <- Hf IH]; [done|exact IH].
Qed.

(** *** The threads can always finish *)

Definition phase_weight (p : phase) : nat :=
  match p with Finished => 0 | Polling => 1 | Checked => 2 | Parsed _ _ => 2 | Holding _ => 3 end.
Fixpoint threads_weight (ts : list phase) : nat :=
  match ts with [] => 0 | t :: ts => phase_weight t + threads_weight ts end.
Definition weight (s : reader) : nat :=
  6 * length s.(unread) + 5 * length s.(lines) + threads_weight s.(threads) +
  (if s.(terminate) then 0 else 1).

Lemma weight_insert (ts : list phase) i p q : ts !! i = Some q ->
  (threads_weight (<[i := p]> ts) + phase_weight q =
   threads_weight ts + phase_weight p)%nat.
Proof.
  revert i. induction ts as [|t ts IH]; intros [|i] Hi; [done|done| |].
  - injection Hi as ->. cbn. lia.
  - change (<[S i := p]> (t :: ts)) with (t :: <[i := p]> ts). cbn [threads_weight].
    specialize (IH i Hi). lia.
Qed.

(** A thread that has something in hand goes on. *)
Lemma busy_progress file i q s : inv file s -> s.(threads) !! i = Some q ->
  q = Checked \/ (exists ls, q = Holding ls) \/ (exists lb sm, q = Parsed lb sm) ->
  exists s', step delimiter limit_cols (Thread i) s = Ok s' /\ (weight s' < weight s)%nat.
Proof.
  intros [_ _ _ Ht _ _ _] Hq Hc. cbn. unfold thread_step. rewrite Hq.
  destruct Hc as [->|[[ls ->]|(lb & sm & ->)]].
  - destruct (take read_at_a_time (lines s)) as [|t ts] eqn:Htk; eexists; (split; [done|]);
      unfold weight; cbn.
    + pose proof (weight_insert _ _ Polling _ Hq). cbn in *. lia.
    + pose proof (weight_insert _ _ (Holding (t :: ts)) _ Hq). cbn in *.
      rewrite length_drop. destruct (lines s); [done|]. cbn. unfold read_at_a_time. lia.
  - rewrite Forall_lookup in Ht. pose proof (Ht _ _ Hq) as Hok. cbn in Hok.
    rewrite (omapM_ok _ _ entry).
    2:{ intros l Hin. rewrite Forall_forall in Hok. apply Hok.
        apply list_elem_of_In in Hin. by apply list_elem_of_In, in_rev. }
    eexists. split; [done|]. unfold weight. cbn.
    pose proof (weight_insert _ _ (Parsed (entry <$> rev ls).*1 (entry <$> rev ls).*2) _ Hq).
    cbn in *. lia.
  - eexists. split; [done|]. unfold weight. cbn.
    pose proof (weight_insert _ _ Polling _ Hq). cbn in *. lia.
Qed.

Lemma progress file s : inv file s -> s.(threads) <> [] -> ~ finished s ->
  exists sched s', run delimiter limit_cols sched s = Ok s' /\ (weight s' < weight s)%nat.
Proof.
  intros Hinv Hne Hnf. pose proof Hinv as [_ _ _ _ _ Hterm Hdone].
  destruct (unread s) as [|l ls] eqn:Hu.
  2:{ exists [Producer]. eexists. split; [done|]. unfold weight, producer_step. rewrite Hu. cbn.
      rewrite length_app. cbn. lia. }
  destruct (decide (Forall (fun p => p = Polling \/ p = Finished) (threads s))) as [Hall|Hex].
  2:{ apply not_Forall_Exists in Hex; [|apply _]. apply Exists_exists in Hex as (q & Hin & Hq).
      apply list_elem_of_lookup in Hin as [i Hi]. destruct (busy_progress file i q s) as (s' & Hs & Hw);
        [done|done| |].
      - destruct q; cbn in Hq; naive_solver.
      - exists [Thread i], s'. split; [|done]. cbn in Hs |- *. by rewrite Hs. }
  destruct (terminate s) eqn:Ht.
  - destruct (decide (Forall (eq Finished) (threads s))) as [Hf|Hf]; [by destruct Hnf|].
    apply not_Forall_Exists in Hf; [|apply _]. apply Exists_exists in Hf as (q & Hin & Hq).
    rewrite Forall_forall in Hall. destruct (Hall q Hin) as [->| ->]; [|by destruct Hq].
    apply list_elem_of_lookup in Hin as [i Hi]. exists [Thread i]. eexists.
    cbn. unfold thread_step. rewrite Hi, Ht. split; [done|]. unfold weight. cbn.
    pose proof (weight_insert _ _ Finished _ Hi). cbn in *. rewrite Ht. lia.
  - destruct (lines s) as [|l ls] eqn:Hl.
    + exists [Producer]. eexists. split; [done|]. unfold weight, producer_step.
      rewrite Hu, Hl, Ht. cbn. lia.
    + destruct (threads s) as [|q ts] eqn:Hts; [congruence|]. apply Forall_cons in Hall as [Hq _].
      assert (q = Polling) as ->.
      { destruct Hq as [->| ->]; [done|].
        specialize (Hdone ltac:(left)). congruence. }
      assert (H1 : thread_step delimiter limit_cols 0 s = Ok (set_thread 0 Checked s)).
      { unfold thread_step. rewrite Hts. cbn. by rewrite Ht. }
      assert (H2 : thread_step delimiter limit_cols 0 (set_thread 0 Checked s) =
        Ok (mk [] (drop read_at_a_time (l :: ls)) s.(samples) s.(labels) false
          (Holding (take read_at_a_time (l :: ls)) :: ts))).
      { unfold thread_step, set_thread. cbn [threads]. rewrite Hts. cbn. by rewrite Hl, Hu, Ht. }
      exists [Thread 0; Thread 0]. eexists. unfold run. cbn [ofold step]. rewrite H1. cbn [outcome_bind].
      rewrite H2. split; [done|]. unfold weight. cbn [unread lines threads terminate].
      rewrite Hu, Hl, Hts, Ht, length_drop. cbn [length threads_weight phase_weight].
      unfold read_at_a_time. lia.
Qed.

Lemma run_app s1 s2 s s' : run delimiter limit_cols s1 s = Ok s' ->
  run delimiter limit_cols (s1 ++ s2) s = run delimiter limit_cols s2 s'.
Proof.
  revert s. unfold run. induction s1 as [|a s1 IH]; intros s; cbn; [by intros [= ->]|].
  intros (t & Ht & H)%outcome_bind_Ok_inv. rewrite Ht. cbn. by apply IH.
Qed.

Lemma threads_length sched s s' : run delimiter limit_cols sched s = Ok s' ->
  length s'.(threads) = length s.(threads).
Proof.
  apply (ofold_inv (fun s' => length (threads s') = length (threads s))); [done|].
  intros a b b' Hb <-. destruct a as [|i]; cbn in Hb.
  - injection Hb as <-. unfold producer_step. by repeat case_match.
  - unfold thread_step in Hb. repeat case_match; simplify_eq; cbn; rewrite ?length_insert; try done.
    all: apply outcome_bind_Ok_inv in Hb as (x & _ & [= <-]); cbn; by rewrite length_insert.
Qed.

Lemma can_finish file s : inv file s -> s.(threads) <> [] -> exists sched s',
  run delimiter limit_cols sched s = Ok s' /\ finished s'.
Proof.
  remember (weight s) as n eqn:Hn. revert s Hn.
  induction (lt_wf n) as [n _ IH]. intros s -> Hinv Hne.
  destruct (decide (finished s)) as [Hf|Hf]; [by exists [], s|].
  destruct (progress file s Hinv Hne Hf) as (sc1 & s1 & H1 & Hw).
  destruct (run_inv file sc1 s Hinv) as (s1' & H1' & Hinv1).
  rewrite H1 in H1'. injection H1' as <-.
  destruct (IH _ Hw s1 eq_refl Hinv1) as (sc2 & s2 & H2 & Hf2).
  - intros He. apply threads_length in H1. rewrite He in H1. by destruct (threads s).
  - exists (sc1 ++ sc2), s2. split; [|done]. by rewrite (run_app _ _ _ _ H1).
Qed.
End invariant.

(** ** Shuffling *)

Lemma swap_Permutation {A} i j (l : list A) : swap i j l ≡ₚ l.
Proof.
  unfold swap. destruct (l !! i) eqn:Hi; [|done]. destruct (l !! j) eqn:Hj; [|done].
  by apply Permutation_insert_swap.
Qed.

Lemma random_shuffle_Permutation {A} rand (l : list A) : random_shuffle rand l ≡ₚ l.
Proof.
  unfold random_shuffle. generalize (seq 1 (length l - 1)). intros js. revert l.
  induction js as [|i js IH]; intros l; [done|]. cbn. by rewrite IH, swap_Permutation.
Qed.

(** Both vectors are shuffled in the same way. *)
Lemma swap_zip {A B} i j (l : list A) (k : list B) : length l = length k ->
  swap i j (zip l k) = zip (swap i j l) (swap i j k) /\
  length (swap i j l) = length (swap i j k).
Proof.
  intros Hl. split.
  - unfold swap. rewrite !lookup_zip_with.
    destruct (l !! i) as [x|] eqn:Hi; cbn.
    + destruct (lookup_lt_is_Some_2 k i) as [y Hy]; [apply lookup_lt_Some in Hi; lia|].
      rewrite Hy. cbn. destruct (l !! j) as [x'|] eqn:Hj; cbn.
      * destruct (lookup_lt_is_Some_2 k j) as [y' Hy']; [apply lookup_lt_Some in Hj; lia|].
        rewrite Hy'. cbn. by rewrite !insert_zip_with.
      * by rewrite (lookup_ge_None_2 k j) by (apply lookup_ge_None in Hj; lia).
    + by rewrite (lookup_ge_None_2 k i) by (apply lookup_ge_None in Hi; lia).
  - by rewrite (Permutation_length (swap_Permutation i j l)),
      (Permutation_length (swap_Permutation i j k)).
Qed.

Lemma random_shuffle_zip {A B} rand (l : list A) (k : list B) : length l = length k ->
  random_shuffle rand (zip l k) = zip (random_shuffle rand l) (random_shuffle rand k).
Proof.
  intros Hl. unfold random_shuffle. rewrite length_zip_with_l_eq, <- Hl by done.
  generalize (seq 1 (length l - 1)). intros js. revert l k Hl.
  induction js as [|i js IH]; intros l k Hl; [done|]. cbn.
  destruct (swap_zip i (rand (i - 1)%nat mod (i + 1))%nat l k Hl) as [-> Hl']. by apply IH.
Qed.

Lemma rows_of_concat (c : nat) (ws : list (list Z)) : Forall (fun v => length v = c) ws ->
  rows_of (length ws) c (concat ws) = ws.
Proof.
  induction 1 as [|v ws Hv Hws IH]; [done|]. cbn.
  by rewrite take_app_length', drop_app_length', IH by done.
Qed.

(** ** The dataset *)

Section dataset.
Context `{Libm} (delimiter : text) (limit_cols : Z) (c : nat).

(** A line with [c] features. *)
Definition has_columns (line : text) : Prop :=
  parses delimiter limit_cols line /\ length (entry delimiter limit_cols line).2 = c.

Lemma samples_columns file (labels : list Z) samples : Forall has_columns file ->
  length labels = length samples ->
  zip labels samples ≡ₚ entry delimiter limit_cols <$> file ->
  Forall (fun v => length v = c) samples.
Proof.
  intros Hf Hl Hp. apply Forall_lookup. intros i v Hv.
  destruct (lookup_lt_is_Some_2 labels i) as [x Hx]; [apply lookup_lt_Some in Hv; lia|].
  assert (Hin : (x, v) ∈ zip labels samples).
  { apply list_elem_of_lookup. exists i. by rewrite lookup_zip_with, Hx, Hv. }
  rewrite Hp in Hin. apply list_elem_of_fmap in Hin as (l & He & Hl').
  rewrite Forall_forall in Hf. destruct (Hf l Hl') as [_ <-]. by rewrite <- He.
Qed.

(** *** Normalisation *)

Definition not_valid : exn := RuntimeError "Value is not valid after normalization".

(** A result with the property [P], or the exception. *)
Definition or_not_valid {A} (P : A -> Prop) (o : outcome A) : Prop :=
  match o with Ok a => P a | o => o = Throw not_valid end.

Lemma or_not_valid_bind {A B} (P : A -> Prop) (Q : B -> Prop) o (k : A -> outcome B) :
  or_not_valid P o -> (forall a, P a -> or_not_valid Q (k a)) -> or_not_valid Q (outcome_bind o k).
Proof. intros Ho Hk. destruct o; try done; [by apply Hk|]. cbn in *. congruence. Qed.

Lemma ofold_total {A B} (P : B -> Prop) (l : list A) f :
  (forall x b, x ∈ l -> P b -> exists b', f x b = Ok b' /\ P b') ->
  forall b, P b -> exists b', ofold l f b = Ok b' /\ P b'.
Proof.
  induction l as [|x l IH]; intros Hf b Hb; [by exists b|]. cbn [ofold].
  destruct (Hf x b) as (b1 & -> & Hb1); [left|done|]. apply IH; [|done].
  intros y b' Hy. apply Hf. by right.
Qed.

Lemma normalize_row_shape row : forall means sds, length means = length row ->
  length sds = length row ->
  or_not_valid (fun r => length r = length row) (normalize_row row means sds).
Proof.
  induction row as [|x row IH]; intros means sds Hm Hs.
  { apply nil_length_inv in Hm, Hs. by subst. }
  destruct means as [|m means]; [simpl in Hm; lia|]. destruct sds as [|d sds]; [simpl in Hs; lia|].
  cbn [normalize_row]. apply (or_not_valid_bind (fun _ => True)).
  { unfold normalize_value. destruct (_ || _)%bool; reflexivity || exact I. }
  intros y _. cbn [length] in *. apply (or_not_valid_bind (fun r => length r = length row)); [apply IH; lia|].
  intros ys Hys. cbn [or_not_valid length]. lia.
Qed.

Lemma omapM_shape {A} (f : A -> outcome (list Z)) (l : list A) :
  (forall x, x ∈ l -> or_not_valid (fun r => length r = c) (f x)) ->
  or_not_valid (fun rs => length rs = length l /\ Forall (fun r => length r = c) rs) (omapM l f).
Proof.
  induction l as [|x l IH]; intros Hf; [by split|]. cbn [omapM].
  apply (or_not_valid_bind _ _ _ _ (Hf x ltac:(left))). intros r Hr.
  eapply or_not_valid_bind; [apply IH; intros y Hy; apply Hf; by right|].
  intros rs [Hl Hrs]. cbn. split; [lia|by constructor].
Qed.

(** Samples of [c] features stay so, or a value is refused. *)
Lemma normalize_shape data : data <> [] -> Forall (fun v => length v = c) data ->
  or_not_valid (fun rs => length rs = length data /\ Forall (fun r => length r = c) rs)
    (normalize data).
Proof.
  intros Hne Hc. destruct data as [|v data]; [done|]. unfold normalize.
  pose proof Hc as [Hv _]%Forall_cons. rewrite Hv. rewrite Forall_forall in Hc.
  edestruct (ofold_total (fun acc : list Z => length acc = c) (v :: data))
    as (means & Hmeans & Hml); [|apply length_replicate|rewrite Hmeans; clear Hmeans].
  { intros row acc Hr Hacc. unfold add_row. rewrite decide_True by (by rewrite (Hc row Hr)).
    eexists. split; [done|]. rewrite length_zip_with, length_take, (Hc row Hr). lia. }
  cbn [outcome_bind].
  edestruct (ofold_total (fun acc : list Z => length acc = c) (v :: data))
    as (sums & Hsums & Hsl); [|apply length_replicate|rewrite Hsums; clear Hsums].
  { intros row acc Hr Hacc. cbv beta. rewrite decide_True by (by rewrite (Hc row Hr)).
    eexists. split; [done|]. rewrite !length_zip_with, length_take, (Hc row Hr). lia. }
  cbn [outcome_bind]. apply omapM_shape. intros row Hr. rewrite <- (Hc row Hr).
  apply normalize_row_shape; rewrite ?length_fmap, (Hc row Hr); done.
Qed.

(** What the caller makes of the results of the threads. *)
Lemma finish_ok heap rand flag s : length (labels s) = length (samples s) ->
  samples s <> [] -> Forall (fun v => length v = c) (samples s) ->
  Z.of_nat (length (samples s)) * Z.of_nat c * 8 < 2 ^ 64 ->
  match (if flag : bool then normalize (samples s) else Ok (samples s)) with
  | Ok rows => exists ds, finish heap rand flag s = Ok ds /\
      Dataset.wf ds /\ Dataset.num_samples ds = Z.of_nat (length (samples s)) /\
      Dataset.num_features ds = Z.of_nat c /\
      zip ds.(Dataset.labels_) (map_matrix ds.(Dataset.samples_)) ≡ₚ zip (labels s) rows
  | _ => finish heap rand flag s = Throw not_valid
  end.
Proof.
  intros Hl Hne Hc Hsz. unfold finish. rewrite Hl, Nat.eqb_refl. cbn [negb].
  assert (Hrows : or_not_valid (fun rs => length rs = length (samples s) /\
    Forall (fun r => length r = c) rs) (if flag then normalize (samples s) else Ok (samples s))).
  { destruct flag; [by apply normalize_shape|done]. }
  destruct (samples s) as [|v0 vs0] eqn:Hsm; [done|]. rewrite <- Hsm in *. clear v0 vs0 Hsm.
  destruct (if flag then _ else _) as [rows| | | | |]; try (cbn in Hrows; by simplify_eq).
  destruct Hrows as [Hrl Hrc]. cbn [outcome_bind].
  pose proof (random_shuffle_Permutation rand rows) as Hsh.
  assert (Hc' : Forall (fun v => length v = c) (random_shuffle rand rows)) by (by rewrite Hsh).
  apply Permutation_length in Hsh. unfold Dataset.ctor_vectors.
  pose proof (random_shuffle_zip rand (labels s) rows ltac:(lia)) as Hz.
  destruct (random_shuffle rand rows) as [|v vs] eqn:Hr.
  { destruct (samples s); simpl in *; [done|lia]. }
  pose proof Hc' as [Hv Hvs]%Forall_cons.
  destruct (Matrix.of_vectors_ok heap v vs) as (mat & -> & Hwf & _ & Hmr & Hcols & Hdata).
  { eapply Forall_impl; [exact Hvs|]. cbn. congruence. }
  { simpl in Hsh. rewrite Hv, Hsh, Hrl. done. }
  cbn [outcome_bind]. eexists. split; [done|]. cbn [length] in Hsh.
  unfold Dataset.wf, Dataset.num_samples, Dataset.num_features.
  cbn [Dataset.samples_ Dataset.labels_]. split_and!; try lia; try done.
  - rewrite Hmr, Hsh, (Permutation_length (random_shuffle_Permutation rand (labels s))). lia.
  - rewrite <- (random_shuffle_Permutation rand (zip (labels s) rows)), Hz.
    unfold map_matrix. rewrite Hmr, Hcols, Hdata, !Nat2Z.id, Hv.
    change (S (length vs)) with (length (v :: vs)). by rewrite rows_of_concat.
Qed.

(** C16: whatever the interleaving of the caller and the threads, the dataset that
    is read has a sample for each line of the file, once and with its own
    label.  Without normalisation the samples are the lines; with it they are
    the rows that [normalize] makes of the lines, in the order in which the
    threads delivered them, or its exception is thrown. *)
Theorem csv_dataset heap rand file nthreads to_normalize sched s :
  Forall has_columns file -> file <> [] ->
  Z.of_nat (length file) * Z.of_nat c * 8 < 2 ^ 64 ->
  run delimiter limit_cols sched (initial file nthreads) = Ok s -> finished s ->
  exists es, es ≡ₚ entry delimiter limit_cols <$> file /\
    match (if to_normalize : bool then normalize es.*2 else Ok es.*2) with
    | Ok rows => exists ds,
        read_input_csv heap rand (Some file) delimiter nthreads limit_cols to_normalize sched =
          Ok ds /\
        Dataset.wf ds /\ Dataset.num_samples ds = Z.of_nat (length file) /\
        Dataset.num_features ds = Z.of_nat c /\
        zip ds.(Dataset.labels_) (map_matrix ds.(Dataset.samples_)) ≡ₚ zip es.*1 rows
    | _ => read_input_csv heap rand (Some file) delimiter nthreads limit_cols to_normalize sched =
        Throw not_valid
    end.
Proof.
  intros Hf Hne Hsz Hrun Hfin. unfold read_input_csv. rewrite Hrun. cbn [outcome_bind].
  rewrite decide_True by done.
  destruct (run_inv delimiter limit_cols file sched (initial file nthreads)) as (s' & Hs' & Hinv).
  { apply inv_initial. eapply Forall_impl; [exact Hf|]. by intros l []. }
  rewrite Hrun in Hs'. injection Hs' as <-.
  pose proof (finished_entries _ _ _ _ Hinv Hfin) as Hp. pose proof (inv_length _ _ _ _ Hinv) as Hl.
  pose proof (samples_columns file _ _ Hf Hl Hp) as Hc.
  assert (Hn : length (samples s) = length file).
  { apply Permutation_length in Hp. rewrite length_zip_with_l_eq, length_fmap in Hp by done. lia. }
  exists (zip (labels s) (samples s)). split; [done|].
  rewrite fst_zip, snd_zip by lia. rewrite <- Hn. apply finish_ok; try done.
  - intros He. rewrite He in Hn. by destruct file.
  - by rewrite Hn.
Qed.

(** C25: however far the caller and the threads have come, they can finish. *)
Theorem csv_reader_finishes file nthreads sched : Forall (parses delimiter limit_cols) file ->
  (0 < nthreads)%nat -> exists s sched' s',
    run delimiter limit_cols sched (initial file nthreads) = Ok s /\
    run delimiter limit_cols sched' s = Ok s' /\ finished s'.
Proof.
  intros Hf Hn. destruct (run_inv delimiter limit_cols file sched (initial file nthreads))
    as (s & Hs & Hinv); [by apply inv_initial|].
  destruct (can_finish delimiter limit_cols file s Hinv) as (sc & s' & Hr & Hfin).
  - intros He. apply threads_length in Hs. rewrite He in Hs. cbn in Hs.
    rewrite length_replicate in Hs. lia.
  - by exists s, sc, s'.
Qed.
End dataset.

(** ** Witnesses and small runs *)

#[local] Instance demo_libm : Libm := {|
  libm_exp x := Double.one; libm_log x := Double.zero; libm_pow x y := Double.mul x x;
|}.
Definition demo_file : list text :=
  Text.of_string <$> ["1 2 3"; "0 4 5.5"; "1 -7 8e1"]%string.
(** Both threads take lines, and the first one to take delivers last. *)
Definition demo_schedule : list actor :=
  [Producer; Thread 0; Thread 0; Producer; Producer; Thread 1; Thread 1; Thread 1; Thread 1;
   Thread 0; Thread 0; Producer; Thread 1; Thread 0].

(** With and without normalisation. *)
Lemma csv_dataset_witness : Forall (fun flag => exists es, es ≡ₚ entry space 0 <$> demo_file /\
    match (if flag : bool then normalize es.*2 else Ok es.*2) with
    | Ok rows => exists ds,
        read_input_csv (fun _ => 0) (fun n => n * 7 + 3)%nat (Some demo_file) space 2 0 flag
          demo_schedule = Ok ds /\
        Dataset.wf ds /\ Dataset.num_samples ds = 3 /\ Dataset.num_features ds = 2 /\
        zip ds.(Dataset.labels_) (map_matrix ds.(Dataset.samples_)) ≡ₚ zip es.*1 rows
    | _ => read_input_csv (fun _ => 0) (fun n => n * 7 + 3)%nat (Some demo_file) space 2 0 flag
        demo_schedule = Throw not_valid
    end) [false; true].
Proof.
  pose (final := match run space 0 demo_schedule (initial demo_file 2) with
                 | Ok s => s | _ => initial [] 0 end).
  apply Forall_cons; split; [|apply Forall_singleton];
    [apply (csv_dataset space 0 2 (fun _ => 0) (fun n => n * 7 + 3)%nat demo_file 2 false
       demo_schedule final)
    |apply (csv_dataset space 0 2 (fun _ => 0) (fun n => n * 7 + 3)%nat demo_file 2 true
       demo_schedule final)].
  1, 6: repeat constructor.
  1, 5: discriminate.
  1, 2, 4, 5: vm_compute; reflexivity.
  all: split; [vm_compute; reflexivity|]; vm_compute; repeat constructor.
Defined.

(** In this run normalisation succeeds. *)
Example demo_normalized :
  match read_input_csv (fun _ => 0) (fun n => n * 7 + 3)%nat (Some demo_file) space 2 0 true
    demo_schedule with Ok ds => Dataset.num_samples ds = 3 | _ => False end.
Proof. vm_compute. done. Qed.

Lemma csv_reader_finishes_witness : exists s sched' s',
  run space 0 [Producer; Thread 0; Thread 0] (initial demo_file 2) = Ok s /\
  run space 0 sched' s = Ok s' /\ finished s'.
Proof.
  apply (csv_reader_finishes space 0 demo_file 2 [Producer; Thread 0; Thread 0]); [|lia].
  repeat constructor.
Defined.

(** A feature with the same value in every sample, other than zero, cannot be
    normalised: its deviation is zero. *)
Example normalize_constant_feature :
  normalize [[Double.one; Double.of_uint 2]; [Double.one; Double.of_uint 4]] =
    Throw (RuntimeError "Value is not valid after normalization").
Proof. vm_compute. done. Qed.

(** The guard of [split_data_labels] lets the column after the last one pass. *)
Example split_past_the_end : split_data_labels [[1; 2]; [3; 4]] 2 = Undefined.
Proof. done. Qed.
Example split_in_range : split_data_labels [[1; 2; 3]; [4; 5; 6]] 1 = Ok ([[1; 3]; [4; 6]], [2; 5]).
Proof. done. Qed.
End Input.
