(* ===== verification/MLConfig.v ===== *)
(** * The configuration of the training programs ([examples/ml/Configuration.cpp])

    The file has one option per line; [parse_line] is the parser, [read] the
    loop over the lines, and the getters throw for options that were not given. *)

From stdpp Require Import base list numbers strings.
From Stdlib Require Import ZArith Lia Ascii.
From S2P Require Import Prelude Double MLText.

Module Configuration.

Inductive ModelType := UNKNOWN | LOGISTICREGRESSION | SOFTMAX.
#[global] Instance model_type_eq_dec : EqDecision ModelType.
Proof. solve_decision. Defined.

Record t := mk {
  n_workers : Z;
  minibatch_size : Z;
  learning_rate : Z;
  epsilon : Z;
  prefetching : Z;
  num_classes : Z;
  input_path : text;
  input_type : text;
  samples_path : text;
  labels_path : text;
  model_type : ModelType;
  limit_cols : Z;
  normalize : bool;
  num_samples : Z;
}.

(** [-1.0] *)
Definition minus_one : Z := 0xbff0000000000000.
Definition ctor : t := mk 0 0 minus_one minus_one 0 0 [] [] [] [] UNKNOWN 0 false 0.

(** The options of the file. *)
Inductive option_line :=
| Minibatch (n : Z) | InputPath (s : text) | SamplesPath (s : text) | LabelsPath (s : text)
| Workers (n : Z) | Prefetching (n : Z) | Epsilon (d : Z) | InputType (s : text)
| LearningRate (d : Z) | Classes (n : Z) | LimitCols (n : Z) | Samples (n : Z)
| Normalize (n : Z) | TypeOfModel (m : ModelType).

Definition set_option (o : option_line) (c : t) : t :=
  let '(mk nw ms lr ep pf nc ip it sp lp mt lc no ns) := c in
  match o with
  | Minibatch n => mk nw n lr ep pf nc ip it sp lp mt lc no ns
  | InputPath s => mk nw ms lr ep pf nc s it sp lp mt lc no ns
  | SamplesPath s => mk nw ms lr ep pf nc ip it s lp mt lc no ns
  | LabelsPath s => mk nw ms lr ep pf nc ip it sp s mt lc no ns
  | Workers n => mk n ms lr ep pf nc ip it sp lp mt lc no ns
  | Prefetching n => mk nw ms lr ep n nc ip it sp lp mt lc no ns
  | Epsilon d => mk nw ms lr d pf nc ip it sp lp mt lc no ns
  | InputType s => mk nw ms lr ep pf nc ip s sp lp mt lc no ns
  | LearningRate d => mk nw ms d ep pf nc ip it sp lp mt lc no ns
  | Classes n => mk nw ms lr ep pf n ip it sp lp mt lc no ns
  | LimitCols n => mk nw ms lr ep pf nc ip it sp lp mt n no ns
  | Samples n => mk nw ms lr ep pf nc ip it sp lp mt lc no n
  | Normalize n => mk nw ms lr ep pf nc ip it sp lp mt lc (n =? 1) ns
  | TypeOfModel m => mk nw ms lr ep pf nc ip it sp lp m lc no ns
  end.

(** The value of an option: what [>>] stores, unless the stream has failed,
    when [parse_line] throws. *)
Definition take_value {A} (e : Text.extraction A) : outcome A :=
  match Text.value e, Text.failed e with
  | Some v, false => Ok v
  | _, _ => Throw (RuntimeError "Error parsing configuration file")
  end.

Definition key (s : string) : text := Text.of_string s.

(** A missing model has the empty name, which is unknown. *)
Definition parse_model (rest : text) : outcome ModelType :=
  let model := default [] (Text.value (Text.get_string rest)) in
  if decide (model = key "LogisticRegression") then Ok LOGISTICREGRESSION
  else if decide (model = key "Softmax") then Ok SOFTMAX
  else Throw (RuntimeError ("Unknown model : " +:+ String.string_of_list_ascii model)).

Definition parse_option (line : text) : outcome option_line :=
  let e := Text.get_string line in
  let s := default [] (Text.value e) in
  let iss := Text.left e in
  if decide (s = key "minibatch_size:") then
    let? n := take_value (Text.get_uint64 iss) in Ok (Minibatch n)
  else if decide (s = key "input_path:") then
    let? p := take_value (Text.get_string iss) in Ok (InputPath p)
  else if decide (s = key "samples_path:") then
    let? p := take_value (Text.get_string iss) in Ok (SamplesPath p)
  else if decide (s = key "labels_path:") then
    let? p := take_value (Text.get_string iss) in Ok (LabelsPath p)
  else if decide (s = key "n_workers:") then
    let? n := take_value (Text.get_uint64 iss) in Ok (Workers n)
  else if decide (s = key "prefetching:") then
    let? n := take_value (Text.get_int iss) in Ok (Prefetching n)
  else if decide (s = key "epsilon:") then
    let? d := take_value (Text.get_double iss) in Ok (Epsilon d)
  else if decide (s = key "input_type:") then
    let? p := take_value (Text.get_string iss) in Ok (InputType p)
  else if decide (s = key "learning_rate:") then
    let? d := take_value (Text.get_double iss) in Ok (LearningRate d)
  else if decide (s = key "num_classes:") then
    let? n := take_value (Text.get_uint64 iss) in Ok (Classes n)
  else if decide (s = key "limit_cols:") then
    let? n := take_value (Text.get_uint64 iss) in Ok (LimitCols n)
  else if decide (s = key "num_samples:") then
    let? n := take_value (Text.get_uint64 iss) in Ok (Samples n)
  else if decide (s = key "normalize:") then
    let? n := take_value (Text.get_int iss) in Ok (Normalize n)
  else if decide (s = key "model_type:") then
    let? m := parse_model iss in Ok (TypeOfModel m)
  else Throw (RuntimeError ("Unrecognized option: " +:+ String.string_of_list_ascii line)).

Definition parse_line (line : text) (c : t) : outcome t :=
  let? o := parse_option line in Ok (set_option o c).

(** *** Getters *)

Definition given {A} (missing : bool) (what : string) (x : A) : outcome A :=
  if missing then Throw (RuntimeError what) else Ok x.

Definition get_input_path (c : t) : outcome text :=
  given (bool_decide (c.(input_path) = [])) "input path not loaded" c.(input_path).
Definition get_path (p what : text) (c : t) : outcome text :=
  if decide (p = []) then Throw (RuntimeError (String.string_of_list_ascii what))
  else given (negb (bool_decide (c.(input_type) = key "double_binary")))
         "mismatch between paths and input type" p.
Definition get_samples_path (c : t) : outcome text :=
  get_path c.(samples_path) (key "samples path not loaded") c.
Definition get_labels_path (c : t) : outcome text :=
  get_path c.(labels_path) (key "labels path not loaded") c.
Definition get_learning_rate (c : t) : outcome Z :=
  given (Double.eqb c.(learning_rate) minus_one) "learning rate not loaded" c.(learning_rate).
Definition get_epsilon (c : t) : outcome Z :=
  given (Double.eqb c.(epsilon) minus_one) "epsilon not loaded" c.(epsilon).
Definition get_minibatch_size (c : t) : outcome Z :=
  given (c.(minibatch_size) =? 0) "Minibatch size not loaded" c.(minibatch_size).
Definition get_prefetching (c : t) : outcome Z :=
  given (c.(prefetching) =? -1) "prefetching not loaded" c.(prefetching).
Definition get_input_type (c : t) : outcome text :=
  given (bool_decide (c.(input_type) = [])) "input_type not loaded" c.(input_type).
Definition get_model_type (c : t) : outcome ModelType :=
  given (bool_decide (c.(model_type) = UNKNOWN)) "model_type not loaded" c.(model_type).
Definition get_num_classes (c : t) : outcome Z :=
  given (c.(num_classes) =? 0) "num_classes not loaded" c.(num_classes).
Definition get_limit_cols (c : t) : Z := c.(limit_cols).
Definition get_normalize (c : t) : bool := c.(normalize).
Definition get_num_samples (c : t) : Z := c.(num_samples).

(** [print] calls four of the getters, which may throw. *)
Definition print (c : t) : outcome unit :=
  let? _ := get_input_path c in
  let? _ := get_minibatch_size c in
  let? _ := get_learning_rate c in
  Ok tt.

(** [file]: the lines of the file, if it can be opened. *)
Fixpoint parse_lines (file : list text) (c : t) : outcome t :=
  match file with
  | [] => Ok c
  | line :: file => let? c := parse_line line c in parse_lines file c
  end.
Definition read (file : option (list text)) (c : t) : outcome t :=
  match file with
  | None => Throw (RuntimeError "Error opening config file")
  | Some file =>
      let? c := parse_lines file c in
      let? _ := print c in
      Ok c
  end.

(** ** What a file sets *)

(** The configuration that a list of options describes. *)
Definition describe (os : list option_line) (c : t) : t := fold_left (fun c o => set_option o c) os c.

Lemma parse_lines_ok file os c : Forall2 (fun l o => parse_option l = Ok o) file os ->
  parse_lines file c = Ok (describe os c).
Proof.
  intros Hf. revert c. induction Hf as [|l o file os Hl Hf IH]; intros c; [done|]. cbn.
  unfold parse_line. rewrite Hl. cbn. apply IH.
Qed.

(** The last value given for the size of the minibatch. *)
Definition last_minibatch (os : list option_line) : option Z :=
  last (omap (fun o => match o with Minibatch n => Some n | _ => None end) os).

Lemma describe_snoc os o c : describe (os ++ [o]) c = set_option o (describe os c).
Proof. unfold describe. by rewrite fold_left_app. Qed.

Lemma describe_minibatch os c :
  minibatch_size (describe os c) = default (minibatch_size c) (last_minibatch os).
Proof.
  induction os as [|o os IH] using rev_ind; [done|]. rewrite describe_snoc.
  unfold last_minibatch in *. rewrite omap_app. destruct (describe os c).
  destruct o; cbn in *; rewrite ?app_nil_r; try done. by rewrite last_snoc.
Qed.

(** A file without a learning rate, a size or a path is refused when it is
    read: [read] prints what it has read. *)
Lemma read_needs_minibatch file os : Forall2 (fun l o => parse_option l = Ok o) file os ->
  last_minibatch os = None -> ~ exists c, read (Some file) ctor = Ok c.
Proof.
  intros Hf Hm [c Hc]. unfold read in Hc. rewrite (parse_lines_ok _ _ _ Hf) in Hc.
  cbn [outcome_bind] in Hc. apply outcome_bind_Ok_inv in Hc as (u & Hp & _).
  unfold print in Hp. apply outcome_bind_Ok_inv in Hp as (p & _ & Hp).
  apply outcome_bind_Ok_inv in Hp as (n & Hn & _). unfold get_minibatch_size, given in Hn.
  pose proof (describe_minibatch os ctor) as Hd. rewrite Hm in Hd. cbn [default] in Hd.
  by rewrite Hd in Hn.
Qed.

Example reads_configuration : exists c,
  read (Some (Text.of_string <$> ["minibatch_size: 20"; "input_path: /tmp/x.csv";
    "learning_rate: 0.1"; "epsilon: 1e-4"; "model_type: Softmax"; "num_classes: 10";
    "normalize: 1"; "num_samples: 10000"]%string)) ctor = Ok c /\
  get_minibatch_size c = Ok 20 /\ get_num_classes c = Ok 10 /\ get_model_type c = Ok SOFTMAX /\
  get_normalize c = true /\ get_num_samples c = 10000 /\
  get_input_type c = Throw (RuntimeError "input_type not loaded") /\
  get_prefetching c = Ok 0.
Proof. eexists. vm_compute. repeat split. Qed.
End Configuration.
