(* ===== verification/MLTasks.v ===== *)
(** * The tasks of the training programs ([examples/ml/Tasks.cpp], [Tasks_softmax.cpp])

    The tasks are processes that share a server: a loader stores the dataset, a
    parameter server stores the model and reads gradients, workers read the model
    and store gradients, an error task reads the model and the dataset.  A task is
    a tree of requests to the store ([prog]), so that the same task can be run on
    a map (here), over the network (MLPrograms.v) and together with other tasks
    (MLTraining.v).  A [while] loop is the program of one iteration, from a state
    to the next; what a task prints to the user is part of its state where it is
    its purpose. *)

From stdpp Require Import gmap base list numbers strings.
From Stdlib Require Import ZArith Lia.
From S2P Require Import Prelude Common Double MLChecksum MLData MLModel MLSerializers MLText MLInput MLConfig ObjectStore.

(** ** Programs of requests *)

(** A reply is what the operation of the store returns or throws. *)
Inductive prog (A : Type) :=
| Done (o : outcome A)
| Get (oid : ObjectID) (k : outcome bytes -> prog A)
| Put (oid : ObjectID) (b : blob) (k : outcome bool -> prog A).
Arguments Done {A} _.
Arguments Get {A} _ _.
Arguments Put {A} _ _ _.

(** [try] a program and go on from its outcome, whatever it is. *)
Fixpoint ptry {A B} (p : prog A) (k : outcome A -> prog B) : prog B :=
  match p with
  | Done o => k o
  | Get oid f => Get oid (fun r => ptry (f r) k)
  | Put oid b f => Put oid b (fun r => ptry (f r) k)
  end.

(** Pass on an outcome that is not a value. *)
Definition pass {A B} (o : outcome A) (k : A -> prog B) : prog B :=
  match o with
  | Ok a => k a
  | Throw e => Done (Throw e)
  | Undefined => Done Undefined
  | Exited => Done Exited
  | Blocked => Done Blocked
  | OutOfFuel => Done OutOfFuel
  end.
Definition pbind {A B} (p : prog A) (k : A -> prog B) : prog B :=
  ptry p (fun o => pass o k).

Notation "'do' x '<-' p 'in' k" := (pbind p (fun x => k))
  (at level 10, x name, p at level 100, k at level 200) : cirrus_scope.

(** [store.get(oid)] and [store.put(oid, v)] of a store with the serialisers
    [c]. *)
Definition store_get {T} (c : codec T) (oid : ObjectID) : prog T :=
  Get oid (fun r => pass r (fun bs => Done (c_decode c bs (u32 (Z.of_nat (length bs)))))).
Definition store_put {T} (c : codec T) (oid : ObjectID) (v : T) : prog bool :=
  pass (c_blob c v) (fun b => Put oid b (fun r => Done r)).

(** ** Families of models *)

(** The tasks of Tasks.cpp and of Tasks_softmax.cpp differ in the model that
    they train: its serialisers, constructor, [randomize], [sgd_update],
    [minibatch_grad], [calc_loss] and [checksum], and the versions of its
    gradients. *)
Record family (Mo Gr : Type) := mk_family {
  fm_model : codec Mo;
  fm_gradient : codec Gr;
  fm_new : outcome Mo;
  fm_randomize : Mo -> outcome Mo;
  fm_sgd_update : Z -> Gr -> Mo -> outcome Mo;
  fm_minibatch_grad : Matrix.t -> list Z -> Z -> Z -> Mo -> outcome Gr;
  fm_calc_loss : Dataset.t -> Mo -> outcome Z;
  fm_checksum : Mo -> outcome Z;
  fm_getVersion : Gr -> Z;
  fm_setVersion : Z -> Gr -> Gr;
}.
Arguments mk_family {Mo Gr}.
Arguments fm_model {Mo Gr} _.
Arguments fm_gradient {Mo Gr} _.
Arguments fm_new {Mo Gr} _.
Arguments fm_randomize {Mo Gr} _ _.
Arguments fm_sgd_update {Mo Gr} _ _ _ _.
Arguments fm_minibatch_grad {Mo Gr} _ _ _ _ _ _.
Arguments fm_calc_loss {Mo Gr} _ _ _.
Arguments fm_checksum {Mo Gr} _ _.
Arguments fm_getVersion {Mo Gr} _ _.
Arguments fm_setVersion {Mo Gr} _ _ _.

Definition lr_family `{Libm, Eigen} (rand : nat -> Z) (n : Z) : family LRModel.t LRGradient.t :=
  mk_family (lr_model_codec n) (lr_gradient_codec n) (LRModel.ctor n)
    (LRModel.randomize rand 0) LRModel.sgd_update LRModel.minibatch_grad LRModel.calc_loss
    LRModel.checksum LRGradient.getVersion LRGradient.setVersion.
Definition sm_family `{Libm, Eigen} (rand : nat -> Z) (nclasses n : Z)
    : family SoftmaxModel.t SoftmaxGradient.t :=
  mk_family (sm_model_codec nclasses n) (sm_gradient_codec nclasses n)
    (SoftmaxModel.ctor nclasses n) (SoftmaxModel.randomize rand 0) SoftmaxModel.sgd_update
    SoftmaxModel.minibatch_grad SoftmaxModel.calc_loss SoftmaxModel.checksum
    SoftmaxGradient.getVersion SoftmaxGradient.setVersion.

(** The constructor arguments of a task. *)
Record task := mk_task {
  MODEL_BASE : Z;
  LABEL_BASE : Z;
  GRADIENT_BASE : Z;
  SAMPLE_BASE : Z;
  batch_size : Z;
  samples_per_batch : Z;
  features_per_sample : Z;
  nworkers : Z;
}.

(** [int gradient_id = GRADIENT_BASE + worker;], and the id that is used,
    [GRADIENT_BASE + gradient_id]. *)
Definition gradient_oid (t : task) (worker : Z) : Z :=
  u64 (t.(GRADIENT_BASE) + i32 (u64 (t.(GRADIENT_BASE) + worker))).
Definition sample_oid (t : task) (i : Z) : Z := u64 (t.(SAMPLE_BASE) + i).
Definition label_oid (t : task) (i : Z) : Z := u64 (t.(LABEL_BASE) + i).

Definition samples_codec (t : task) (name : string) : codec (list Z) :=
  array_codec t.(batch_size) name.
Definition labels_codec (t : task) (name : string) : codec (list Z) :=
  array_codec t.(samples_per_batch) name.

Section tasks.
Context {Mo Gr : Type} (F : family Mo Gr) (t : task).

(** ** PSTask *)

(** [worker] is the counter of the inner loop. *)
Record ps_state := mk_ps {
  ps_worker : Z;
  ps_model : Mo;
  gradientVersions : list Z;
}.

(** Up to the loop: the model is stored and read back. *)
Definition ps_start : prog ps_state :=
  pass (fm_new F) (fun model =>
  pass (fm_randomize F model) (fun model =>
  pass (fm_checksum F model) (fun _ =>
  do _ <- store_put (fm_model F) t.(MODEL_BASE) model in
  do m <- store_get (fm_model F) t.(MODEL_BASE) in
  pass (fm_checksum F m) (fun _ =>
  Done (Ok (mk_ps 0 model (replicate 10 0))))))).

(** A gradient of [worker] that has not been used updates the model, which is
    stored. *)
Definition ps_use (learning_rate : Z) (gradient : Gr) (st : ps_state) : prog ps_state :=
  let '(mk_ps worker model versions) := st in
  pass (at_index versions worker) (fun last =>
  if last <? fm_getVersion F gradient then
    pass (set_index worker (u32 (fm_getVersion F gradient)) versions) (fun versions =>
    pass (fm_sgd_update F learning_rate gradient model) (fun model =>
    do _ <- store_put (fm_model F) t.(MODEL_BASE) model in
    Done (Ok (mk_ps (worker + 1) model versions))))
  else Done (Ok (mk_ps (worker + 1) model versions))).

(** One round of the inner loop; without a gradient of the worker, the same
    worker is asked again. *)
Definition ps_iteration (learning_rate : Z) (st : ps_state) : prog ps_state :=
  let '(mk_ps worker model versions) := st in
  if worker <? i32 t.(nworkers) then
    ptry (store_get (fm_gradient F) (gradient_oid t worker)) (fun r =>
      match r with
      | Throw (NoSuchIDException _) => Done (Ok st)
      | _ => pass r (fun gradient => ps_use learning_rate gradient st)
      end)
  else Done (Ok (mk_ps 0 model versions)).

(** ** The worker of Tasks_softmax.cpp *)

Record worker_state := mk_worker {
  first_time : bool;
  samples_id : Z;
  labels_id : Z;
  version : Z;
}.
Definition worker_start : worker_state := mk_worker true 0 0 0.

(** [exit] on any exception. *)
Definition or_exit {A B} (o : outcome A) (k : A -> prog B) : prog B :=
  match o with Throw _ => Done Exited | _ => pass o k end.

(** From the model and a batch: the gradient is computed and stored with the next
    version.  [epsilon] is what the configuration gives. *)
Definition worker_compute (epsilon : outcome Z) (num_batches worker : Z) (st : worker_state)
    (model : Mo) (samples labels : list Z) : prog worker_state :=
  let '(mk_worker _ samples_id labels_id version) := st in
  pass (Dataset.ctor_arrays samples labels t.(samples_per_batch) t.(features_per_sample))
    (fun dataset =>
  pass (Dataset.check_values dataset) (fun _ =>
  or_exit (let? eps := epsilon in
           fm_minibatch_grad F (Dataset.samples_ dataset) labels t.(samples_per_batch) eps model)
    (fun gradient =>
  let gradient := fm_setVersion F version gradient in
  ptry (store_put (fm_gradient F) (gradient_oid t worker) gradient) (fun r =>
  or_exit r (fun _ =>
  let samples_id := i32 (samples_id + 1) in
  let labels_id := i32 (labels_id + 1) in
  let wrap := samples_id =? i32 num_batches in
  Done (Ok (mk_worker false (if wrap then 0 else samples_id) (if wrap then 0 else labels_id)
              (u64 (version + 1))))))))).

(** One iteration of the loop. *)
Definition worker_iteration (epsilon : outcome Z) (num_batches worker : Z) (st : worker_state)
    : prog worker_state :=
  ptry (do model <- store_get (fm_model F) t.(MODEL_BASE) in
        do samples <- store_get (samples_codec t "worker samples_store")
                        (sample_oid t st.(samples_id)) in
        do labels <- store_get (labels_codec t "worker labels_store")
                       (label_oid t st.(labels_id)) in
        Done (Ok (model, samples, labels))) (fun r =>
  match r with
  | Throw (NoSuchIDException _) => if st.(first_time) then Done (Ok st) else Done Exited
  | _ => pass r (fun '(model, samples, labels) =>
      worker_compute epsilon num_batches worker st model samples labels)
  end).

(** ** ErrorTask *)

(** Before the model is read, or in the loop over the batches. *)
Inductive error_state :=
| EStart
| EBatches (model : Mo) (i loss count : Z).

(** One iteration of the inner loop; with it the loss that is printed, if any. *)
Definition error_iteration (st : error_state) : prog (error_state * option Z) :=
  match st with
  | EStart =>
      ptry (do model <- store_get (fm_model F) t.(MODEL_BASE) in
            pass (fm_checksum F model) (fun _ => Done (Ok model))) (fun r =>
      match r with
      | Throw (NoSuchIDException _) => Done (Ok (EStart, Some Double.zero))
      | _ => pass r (fun model => Done (Ok (EBatches model 0 Double.zero 0, None)))
      end)
  | EBatches model i loss count =>
      ptry (do samples <- store_get (samples_codec t "error samples_store") (sample_oid t i) in
            do labels <- store_get (labels_codec t "error labels_store") (label_oid t i) in
            Done (Ok (samples, labels))) (fun r =>
      match r with
      | Throw (NoSuchIDException _) =>
          if i =? 0 then Done (Ok (EStart, None))
          else Done (Ok (EStart, Some (Double.div loss (Double.of_uint count))))
      | _ => pass r (fun '(samples, labels) =>
          pass (Dataset.ctor_arrays samples labels t.(samples_per_batch) t.(features_per_sample))
            (fun dataset =>
          pass (Dataset.check_values dataset) (fun _ =>
          pass (fm_calc_loss F dataset model) (fun l =>
          Done (Ok (EBatches model (i32 (i + 1)) (Double.add loss l) (u64 (count + 1)), None))))))
      end)
  end.

(** ** LoadingTask *)

(** [memcpy] of [n] doubles from a pointer. *)
Definition copy_doubles (n : Z) (src : list Z) : outcome (list Z) :=
  if decide (Z.to_nat n <= length src)%nat then Ok (take (Z.to_nat n) src) else Undefined.

(** Batch [i] of the dataset. *)
Definition batch (dataset : Dataset.t) (i : Z) : outcome (list Z * list Z) :=
  let? src := Dataset.sample dataset (u64 (i * t.(samples_per_batch))) in
  let? sample := copy_doubles t.(batch_size) src in
  let? src := Dataset.label dataset (u64 (i * t.(samples_per_batch))) in
  let? label := copy_doubles t.(samples_per_batch) src in
  Ok (sample, label).

Definition put_batch (i : Z) (sample label : list Z) : prog unit :=
  do _ <- store_put (samples_codec t "loader samples_store") (sample_oid t i) sample in
  do _ <- store_put (labels_codec t "loader labels_store") (label_oid t i) label in
  Done (Ok tt).
Definition load_batch (dataset : Dataset.t) (i : Z) : prog unit :=
  pass (batch dataset i) (fun '(sample, label) =>
  ptry (put_batch i sample label) (fun r => or_exit r (fun _ => Done (Ok tt)))).

Fixpoint load_batches (dataset : Dataset.t) (ids : list Z) : prog unit :=
  match ids with
  | [] => Done (Ok tt)
  | i :: ids => do _ <- load_batch dataset i in load_batches dataset ids
  end.

(** The number of batches; a batch of no samples divides by zero. *)
Definition num_batches (dataset : Dataset.t) : Z :=
  Dataset.num_samples dataset / t.(samples_per_batch).

(** The task from the dataset on; the object of id 0 is read at the end. *)
Definition load_dataset (dataset : Dataset.t) : prog unit :=
  pass (Dataset.check_values dataset) (fun _ =>
  if t.(samples_per_batch) =? 0 then Done Undefined else
  do _ <- load_batches dataset (below (num_batches dataset)) in
  do sample <- store_get (samples_codec t "loader samples_store") 0 in
  pass (Checksum.checksum sample (Z.to_nat t.(batch_size))) (fun _ => Done (Ok tt))).
End tasks.
Arguments mk_ps {Mo} _ _ _.
Arguments ps_worker {Mo} _.
Arguments ps_model {Mo} _.
Arguments gradientVersions {Mo} _.
Arguments EStart {Mo}.
Arguments EBatches {Mo} _ _ _ _.

(** [LoadingTask::run] of Tasks.cpp and of Tasks_softmax.cpp, which also prints
    ten labels; the file, the schedule of the reading threads and what memory
    holds are arguments. *)
Section loading.
Context `{Libm} (heap : nat -> Z) (rand : nat -> nat) (file : option (list text))
  (schedule : list Input.actor) (config : Configuration.t) (t : task).

Definition loading_task : prog unit :=
  pass (Configuration.get_input_path config) (fun _ =>
  pass (Input.read_input_csv heap rand file Input.space 3 (Configuration.get_limit_cols config)
          false schedule) (fun dataset =>
  load_dataset t dataset)).

Definition loading_task_softmax : prog unit :=
  pass (Configuration.get_input_path config) (fun _ =>
  pass (Input.read_input_csv heap rand file Input.space 1 (Configuration.get_limit_cols config)
          true schedule) (fun dataset =>
  pass (ofor (below 10) (fun i =>
    let? p := Dataset.label dataset i in let? _ := at_index p 0 in Ok tt)) (fun _ =>
  load_dataset t dataset))).
End loading.

(** ** Running on a map *)

(** The server has room for all objects.  A blob whose declared size is not that
    of its bytes overruns or leaves memory uninitialised. *)
Definition stores (b : blob) : bool := blob_size b =? Z.of_nat (length (blob_bytes b)).

Definition lookup_reply (m : gmap Z bytes) (oid : ObjectID) : outcome bytes :=
  match m !! oid with Some bs => Ok bs | None => Throw no_such_id end.

Fixpoint run_map {A} (p : prog A) (m : gmap Z bytes) : gmap Z bytes * outcome A :=
  match p with
  | Done o => (m, o)
  | Get oid k => run_map (k (lookup_reply m oid)) m
  | Put oid b k =>
      if stores b then run_map (k (Ok true)) (<[oid := blob_bytes b]> m) else (m, Undefined)
  end.

Lemma run_map_ptry {A B} (p : prog A) (k : outcome A -> prog B) m :
  run_map (ptry p k) m = run_map (k (run_map p m).2) (run_map p m).1 \/
  (run_map p m).2 = Undefined /\ (run_map (ptry p k) m).2 = Undefined.
Proof.
  revert m. induction p as [o|oid f IH|oid b f IH]; intros m; cbn; [by left|apply IH|].
  destruct (stores b); [apply IH|by right].
Qed.

(** A program that returns a value is followed by the rest. *)
Lemma run_map_ptry_not_undefined {A B} (p : prog A) (k : outcome A -> prog B) m :
  (run_map p m).2 <> Undefined ->
  run_map (ptry p k) m = run_map (k (run_map p m).2) (run_map p m).1.
Proof. intros Hp. by destruct (run_map_ptry p k m) as [|[? _]]. Qed.

Lemma run_map_bind {A B} (p : prog A) (k : A -> prog B) m m' a : run_map p m = (m', Ok a) ->
  run_map (pbind p k) m = run_map (k a) m'.
Proof.
  intros Hp. unfold pbind. rewrite run_map_ptry_not_undefined; rewrite Hp; [done|discriminate].
Qed.

Section codec_runs.
Context {T : Type} (c : codec T) (P : T -> Prop) (norm : T -> T) (len : Z)
  (Hc : codec_ok c P norm len).

(** The bytes of an object. *)
Definition encodes (v : T) (bs : bytes) : Prop := P v /\ c_blob c v = Ok (mk_blob len bs).

Lemma encodes_decode v bs : encodes v bs -> Z.of_nat (length bs) = len /\
  c_decode c bs (u32 (Z.of_nat (length bs))) = Ok (norm v) /\ P (norm v).
Proof using Hc.
  intros [Hv Hb]. destruct (co_blob _ _ _ _ Hc v Hv) as (bs' & Hb' & Hl & Hd & Hn).
  rewrite Hb in Hb'. injection Hb' as <-. split; [done|]. split; [|done].
  rewrite Hl, u32_small by apply (co_len _ _ _ _ Hc). rewrite <- (app_nil_r bs) at 1. apply Hd.
Qed.

Lemma encodes_exists v : P v -> exists bs, encodes v bs.
Proof using Hc. intros Hv. destruct (co_blob _ _ _ _ Hc v Hv) as (bs & Hb & _). by exists bs. Qed.

Lemma run_store_put oid v bs m : encodes v bs ->
  run_map (store_put c oid v) m = (<[oid := bs]> m, Ok true).
Proof using Hc.
  intros He. pose proof (encodes_decode v bs He) as [Hl _]. destruct He as [Hv Hb].
  unfold store_put. rewrite Hb. cbn. unfold stores. cbn. by rewrite Hl, Z.eqb_refl.
Qed.

Lemma run_store_get oid v bs m : encodes v bs -> m !! oid = Some bs ->
  run_map (store_get c oid) m = (m, Ok (norm v)).
Proof using Hc.
  intros He Hm. cbn. unfold lookup_reply. rewrite Hm. cbn.
  by destruct (encodes_decode v bs He) as (_ & -> & _).
Qed.
End codec_runs.

Lemma run_store_get_missing {T} (c : codec T) oid m : m !! oid = None ->
  run_map (store_get c oid) m = (m, Throw no_such_id).
Proof. intros Hm. cbn. unfold lookup_reply. by rewrite Hm. Qed.

(** ** The ids *)

(** The ranges of ids of the programs, for up to [B] batches: samples, the model,
    labels, gradients, in this order and apart. *)
Record placed (t : task) (B : Z) : Prop := {
  pl_batches : 0 < B < 2 ^ 31;
  pl_sample : 0 <= t.(SAMPLE_BASE);
  pl_model : t.(SAMPLE_BASE) + B < t.(MODEL_BASE);
  pl_label : t.(MODEL_BASE) < t.(LABEL_BASE);
  pl_gradient : t.(LABEL_BASE) + B < 2 * t.(GRADIENT_BASE);
  pl_workers : 0 <= t.(nworkers);
  pl_int : t.(GRADIENT_BASE) + t.(nworkers) < 2 ^ 31;
}.

(** The sizes of the batches. *)
Record sized (t : task) : Prop := {
  sd_samples : 0 < t.(samples_per_batch);
  sd_features : 0 < t.(features_per_sample);
  sd_batch : t.(batch_size) = t.(samples_per_batch) * t.(features_per_sample);
  sd_bytes : t.(batch_size) * 8 < 2 ^ 31;
  sd_label_bytes : t.(samples_per_batch) * 8 < 2 ^ 31;
}.

Lemma sample_oid_eq t B i : placed t B -> 0 <= i <= B -> sample_oid t i = t.(SAMPLE_BASE) + i.
Proof. intros [] Hi. apply u64_small. unfold is_u64. lia. Qed.

Lemma label_oid_eq t B i : placed t B -> 0 <= i <= B -> label_oid t i = t.(LABEL_BASE) + i.
Proof. intros [] Hi. apply u64_small. unfold is_u64. lia. Qed.

Lemma gradient_oid_eq t B w : placed t B -> 0 <= w < t.(nworkers) ->
  gradient_oid t w = 2 * t.(GRADIENT_BASE) + w.
Proof.
  intros [] Hw. unfold gradient_oid. rewrite (u64_small (_ + w)) by (unfold is_u64; lia).
  rewrite i32_small by lia. rewrite u64_small by (unfold is_u64; lia). lia.
Qed.

(** ** Loading *)

Section loading_proofs.
Context (t : task) (B : Z) (Ht : sized t) (Hp : placed t B).

Lemma samples_codec_ok name : codec_ok (samples_codec t name) (is_array t.(batch_size)) id
  (t.(batch_size) * 8).
Proof using Ht. destruct Ht. apply array_codec_ok; nia. Qed.

Lemma labels_codec_ok name : codec_ok (labels_codec t name) (is_array t.(samples_per_batch)) id
  (t.(samples_per_batch) * 8).
Proof using Ht. destruct Ht. apply array_codec_ok; lia. Qed.

(** A dataset for the task. *)
Record fits (ds : Dataset.t) : Prop := {
  ft_wf : Dataset.wf ds;
  ft_features : Dataset.num_features ds = t.(features_per_sample);
  ft_data : Forall is_u64 (Matrix.data (Dataset.samples_ ds));
  ft_labels : Forall is_u64 (Dataset.labels_ ds);
  ft_batches : num_batches t ds <= B;
  ft_checked : Dataset.check_values ds = Ok tt;
}.

Definition batch_samples (ds : Dataset.t) (i : Z) : list Z :=
  take (Z.to_nat t.(batch_size)) (drop (Z.to_nat (i * t.(batch_size)))
    (Matrix.data (Dataset.samples_ ds))).
Definition batch_labels (ds : Dataset.t) (i : Z) : list Z :=
  take (Z.to_nat t.(samples_per_batch)) (drop (Z.to_nat (i * t.(samples_per_batch)))
    (Dataset.labels_ ds)).

Lemma Forall_sub {A} (P : A -> Prop) n k (l : list A) : Forall P l -> Forall P (take n (drop k l)).
Proof. intros. by apply Forall_take, Forall_drop. Qed.

Lemma batch_bound ds i : fits ds -> 0 <= i < num_batches t ds ->
  (i + 1) * t.(samples_per_batch) <= Dataset.num_samples ds.
Proof using Ht.
  intros Hds Hi. destruct Ht. unfold num_batches in Hi.
  pose proof (Z.mul_div_le (Dataset.num_samples ds) (samples_per_batch t)). nia.
Qed.

Lemma batch_ok ds i : fits ds -> 0 <= i < num_batches t ds ->
  batch t ds i = Ok (batch_samples ds i, batch_labels ds i) /\
  is_array t.(batch_size) (batch_samples ds i) /\
  is_array t.(samples_per_batch) (batch_labels ds i).
Proof using Ht.
  intros Hds Hi. pose proof (batch_bound ds i Hds Hi) as Hb.
  destruct Hds as [[[Hr Hc Hd Hs] Hl] Hf Hu Hlu HB _]. destruct Ht as [Hspb Hfeat Hbs Hby Hlb].
  unfold Dataset.num_features, Dataset.num_samples in *.
  set (n := Matrix.rows (Dataset.samples_ ds)) in *. rewrite Hf in *.
  assert (Hlim : (i + 1) * batch_size t <= n * features_per_sample t) by (rewrite Hbs; nia).
  assert (Hdata : (i + 1) * batch_size t <= Z.of_nat (length (Matrix.data (Dataset.samples_ ds)))) by lia.
  assert (0 <= batch_size t) by nia.
  split_and!.
  - unfold batch, Dataset.sample, Matrix.row, Dataset.label, copy_doubles, from_index. rewrite Hf.
    assert (n < 2 ^ 64) by nia.
    rewrite !(u64_small (i * samples_per_batch t)) by (unfold is_u64; nia).
    replace (i * samples_per_batch t * features_per_sample t) with (i * batch_size t)
      by (rewrite Hbs; ring).
    rewrite u64_small by (unfold is_u64; nia).
    rewrite (proj2 (Z.leb_le 0 _)), (proj2 (Z.leb_le _ _)) by nia. cbn [andb outcome_bind].
    rewrite decide_True by (rewrite length_drop; nia). cbn [outcome_bind].
    rewrite (proj2 (Z.leb_le 0 _)), (proj2 (Z.leb_le _ _)) by nia. cbn [andb outcome_bind].
    rewrite decide_True by (rewrite length_drop; nia). done.
  - unfold batch_samples. split; [|by apply Forall_sub]. rewrite length_take, length_drop. nia.
  - unfold batch_labels. split; [|by apply Forall_sub]. rewrite length_take, length_drop. nia.
Qed.

(** What the loader leaves in the store. *)
Definition loaded (ds : Dataset.t) (n : Z) (m : gmap Z bytes) : Prop := forall i, 0 <= i < n ->
  m !! sample_oid t i = Some (Checksum.array_bytes (batch_samples ds i)) /\
  m !! label_oid t i = Some (Checksum.array_bytes (batch_labels ds i)).

Lemma array_encodes n name a : 0 <= n -> n * 8 < 2 ^ 31 -> is_array n a ->
  encodes (array_codec n name) (is_array n) (n * 8) a (Checksum.array_bytes a).
Proof.
  intros Hn Hs Ha. split; [done|].
  destruct (co_blob _ _ _ _ (array_codec_ok n name Hn Hs) a Ha) as (bs & Hb & _).
  rewrite Hb. cbn in Hb. unfold to_blob in Hb. cbn [outcome_bind] in Hb.
  apply outcome_bind_Ok_inv in Hb as (bs' & Hr & [= _ <-]).
  unfold c_array_serializer_serialize, read_at in Hr. case_decide; [|done].
  apply Ok_inj in Hr. rewrite <- Hr. do 2 f_equal. rewrite drop_0, take_ge; [done|].
  rewrite length_array_bytes. unfold c_array_serializer_size.
  rewrite i32_small by lia. rewrite !u64_small; unfold is_u64; try rewrite u64_small; unfold is_u64;
    destruct Ha; lia.
Qed.

Lemma sample_label_apart i j : 0 <= i <= B -> 0 <= j <= B -> sample_oid t i <> label_oid t j.
Proof using Hp.
  intros Hi Hj. rewrite (sample_oid_eq t B), (label_oid_eq t B) by done. destruct Hp. lia.
Qed.

Lemma put_batch_ok i sample label m : is_array t.(batch_size) sample ->
  is_array t.(samples_per_batch) label ->
  run_map (put_batch t i sample label) m =
    (<[label_oid t i := Checksum.array_bytes label]>
     (<[sample_oid t i := Checksum.array_bytes sample]> m), Ok tt).
Proof using Ht.
  intros Hs Hl. pose proof Ht as [Hspb Hfeat Hbs Hby Hlb]. unfold put_batch.
  pose proof (array_encodes (batch_size t) "loader samples_store" _ ltac:(nia) Hby Hs) as Hes.
  pose proof (array_encodes (samples_per_batch t) "loader labels_store" _ ltac:(lia) Hlb Hl) as Hel.
  rewrite (run_map_bind _ _ _ _ _ (run_store_put _ _ _ _ (samples_codec_ok _) _ _ _ _ Hes)).
  by rewrite (run_map_bind _ _ _ _ _ (run_store_put _ _ _ _ (labels_codec_ok _) _ _ _ _ Hel)).
Qed.

Lemma load_batch_ok ds i m : fits ds -> 0 <= i < num_batches t ds ->
  run_map (load_batch t ds i) m =
    (<[label_oid t i := Checksum.array_bytes (batch_labels ds i)]>
     (<[sample_oid t i := Checksum.array_bytes (batch_samples ds i)]> m), Ok tt).
Proof using Ht.
  intros Hds Hi. destruct (batch_ok ds i Hds Hi) as (Hb & Hs & Hl). unfold load_batch. rewrite Hb.
  cbn [pass]. by rewrite run_map_ptry_not_undefined; rewrite put_batch_ok.
Qed.

Lemma load_batches_ok ds k n m : fits ds -> (k + n <= Z.to_nat (num_batches t ds))%nat ->
  loaded ds (Z.of_nat k) m -> exists m',
  run_map (load_batches t ds (Z.of_nat <$> seq k n)) m = (m', Ok tt) /\
  loaded ds (Z.of_nat (k + n)) m' /\
  (forall oid, (forall i, 0 <= i < num_batches t ds -> oid <> sample_oid t i /\ oid <> label_oid t i) ->
    m' !! oid = m !! oid).
Proof using Ht Hp.
  intros Hds. revert k m. induction n as [|n IH]; intros k m Hk Hm; cbn [seq fmap list_fmap load_batches].
  { rewrite Nat.add_0_r. by exists m. }
  assert (Hi : 0 <= Z.of_nat k < num_batches t ds) by lia.
  rewrite (run_map_bind _ _ _ _ _ (load_batch_ok ds (Z.of_nat k) m Hds Hi)).
  destruct (IH (S k) (<[label_oid t (Z.of_nat k) := Checksum.array_bytes (batch_labels ds (Z.of_nat k))]>
     (<[sample_oid t (Z.of_nat k) := Checksum.array_bytes (batch_samples ds (Z.of_nat k))]> m)))
    as (m' & Hrun & Hld & Hother); [lia| |].
  - pose proof (ft_batches _ Hds) as HB. intros i Hik.
    assert (Hapart := sample_label_apart). split.
    + rewrite lookup_insert_ne by (apply not_eq_sym, Hapart; lia).
      destruct (decide (i = Z.of_nat k)) as [->|Hne]; [by rewrite lookup_insert_eq|].
      rewrite lookup_insert_ne; [apply Hm; lia|].
      rewrite !(sample_oid_eq t B) by (done || lia). lia.
    + destruct (decide (i = Z.of_nat k)) as [->|Hne]; [by rewrite lookup_insert_eq|].
      rewrite lookup_insert_ne by (rewrite !(label_oid_eq t B) by (done || lia); lia).
      rewrite lookup_insert_ne by (apply Hapart; lia). apply Hm. lia.
  - exists m'. split; [done|]. rewrite Nat.add_succ_r. split; [done|]. intros oid Ho.
    rewrite Hother by done. destruct (Ho (Z.of_nat k) Hi) as [Hs Hl].
    by rewrite !lookup_insert_ne by done.
Qed.

(** The loader ends, and the store then holds every batch of the dataset under
    its ids and is unchanged elsewhere. *)
Lemma load_dataset_ok ds m : fits ds -> t.(SAMPLE_BASE) = 0 -> 0 < num_batches t ds -> exists m',
  run_map (load_dataset t ds) m = (m', Ok tt) /\ loaded ds (num_batches t ds) m' /\
  (forall oid, (forall i, 0 <= i < num_batches t ds -> oid <> sample_oid t i /\ oid <> label_oid t i) ->
    m' !! oid = m !! oid).
Proof using Ht Hp.
  intros Hds Hs0 Hn. destruct (load_batches_ok ds 0 (Z.to_nat (num_batches t ds)) m)
    as (m' & Hrun & Hld & Hother); [done|lia|intros i Hi; lia|].
  exists m'. split; [|rewrite Nat.add_0_l, Z2Nat.id in Hld by lia; done].
  unfold load_dataset. rewrite (ft_checked _ Hds). cbn [pass].
  rewrite (proj2 (Z.eqb_neq _ 0)) by (destruct Ht; lia).
  unfold below. rewrite (run_map_bind _ _ _ _ _ Hrun).
  destruct (batch_ok ds 0 Hds ltac:(lia)) as (_ & Hb & _).
  pose proof (ft_batches _ Hds). destruct (Hld 0 ltac:(lia)) as [Hm0 _].
  rewrite (sample_oid_eq t B), Hs0, Z.add_0_r in Hm0 by (done || lia).
  assert (He : encodes (samples_codec t "loader samples_store") (is_array (batch_size t))
    (batch_size t * 8) (batch_samples ds 0) (Checksum.array_bytes (batch_samples ds 0))).
  { apply array_encodes; [destruct Hb; lia|apply Ht|done]. }
  rewrite (run_map_bind _ _ _ _ _ (run_store_get _ _ _ _ (samples_codec_ok _) 0 _ _ m' He Hm0)).
  unfold id, Checksum.checksum, Checksum.crc32, read_at. rewrite decide_True; [done|].
  rewrite length_array_bytes. destruct Hb. lia.
Qed.

(** Batch [i] as the tasks see it. *)
Definition batch_dataset (ds : Dataset.t) (i : Z) : Dataset.t :=
  Dataset.mk (Matrix.mk t.(samples_per_batch) t.(features_per_sample) (batch_samples ds i) None)
    (batch_labels ds i).

(** A batch of a dataset that has passed the check passes it. *)
Lemma batch_dataset_ok ds i : fits ds -> 0 <= i < num_batches t ds ->
  Dataset.ctor_arrays (batch_samples ds i) (batch_labels ds i) t.(samples_per_batch)
    t.(features_per_sample) = Ok (batch_dataset ds i) /\
  Dataset.check_values (batch_dataset ds i) = Ok tt.
Proof using Ht.
  intros Hds Hi. destruct (batch_ok ds i Hds Hi) as (_ & [Hsl Hsu] & [Hll Hlu]).
  pose proof Ht as [Hspb Hfeat Hbs Hby Hlb].
  assert (Hsz : is_u64 (samples_per_batch t * features_per_sample t)) by (unfold is_u64; nia).
  split.
  - unfold Dataset.ctor_arrays, Matrix.of_array. rewrite u64_small, <- Hbs by done.
    rewrite decide_True by lia. cbn [outcome_bind]. rewrite take_ge by lia. done.
  - apply Dataset.dataset_check_values.
    + split; [|done]. split; cbn; nia.
    + destruct Hds as [Hwf _ _ _ _ Hck]. apply Dataset.dataset_check_values in Hck as [Hf Hn]; [|done].
      cbn. split; by apply Forall_sub.
Qed.

(** ** Evaluating *)

Section evaluating.
Context {Mo Gr : Type} (F : family Mo Gr) (Pm : Mo -> Prop) (len : Z).
Context (Hmodel : codec_ok (fm_model F) Pm id len).

(** The iterations of the error task on a store, up to the first loss that it
    prints. *)
Fixpoint evaluate (n : nat) (st : error_state) (m : gmap Z bytes) : outcome Z :=
  match n with
  | O => OutOfFuel
  | S n =>
      let? '(st, printed) := (run_map (error_iteration F t st) m).2 in
      match printed with Some loss => Ok loss | None => evaluate n st m end
  end.

Lemma evaluate_S n st m : evaluate (S n) st m =
  let? '(st, printed) := (run_map (error_iteration F t st) m).2 in
  match printed with Some loss => Ok loss | None => evaluate n st m end.
Proof. done. Qed.

Lemma error_iteration_batch ds m mo i loss count l : fits ds -> loaded ds (num_batches t ds) m ->
  0 <= i < num_batches t ds -> fm_calc_loss F (batch_dataset ds i) mo = Ok l ->
  run_map (error_iteration F t (EBatches mo i loss count)) m =
    (m, Ok (EBatches mo (i32 (i + 1)) (Double.add loss l) (u64 (count + 1)), None)).
Proof using Ht Hp.
  intros Hds Hld Hi Hl. destruct (batch_ok ds i Hds Hi) as (_ & Hs & Hlb').
  destruct (Hld i Hi) as [Hms Hml]. pose proof Ht as [Hspb Hfeat Hbs Hby Hlb].
  assert (Hes : encodes (samples_codec t "error samples_store") (is_array (batch_size t))
    (batch_size t * 8) (batch_samples ds i) (Checksum.array_bytes (batch_samples ds i))).
  { by apply array_encodes; [destruct Hs; lia|..]. }
  assert (Hel : encodes (labels_codec t "error labels_store") (is_array (samples_per_batch t))
    (samples_per_batch t * 8) (batch_labels ds i) (Checksum.array_bytes (batch_labels ds i))).
  { by apply array_encodes; [destruct Hlb'; lia|..]. }
  pose proof (run_store_get _ _ _ _ (samples_codec_ok _) _ _ _ m Hes Hms) as H1.
  pose proof (run_store_get _ _ _ _ (labels_codec_ok _) _ _ _ m Hel Hml) as H2.
  cbn [error_iteration]. rewrite run_map_ptry_not_undefined;
    rewrite (run_map_bind _ _ _ _ _ H1), (run_map_bind _ _ _ _ _ H2); [|discriminate].
  cbn [run_map fst snd id pass]. destruct (batch_dataset_ok ds i Hds Hi) as [-> Hc].
  cbn [pass]. rewrite Hc. cbn [pass]. rewrite Hl. done.
Qed.

Lemma error_iteration_last ds m mo loss count : fits ds -> 0 < num_batches t ds ->
  m !! sample_oid t (num_batches t ds) = None ->
  run_map (error_iteration F t (EBatches mo (num_batches t ds) loss count)) m =
    (m, Ok (EStart, Some (Double.div loss (Double.of_uint count)))).
Proof.
  intros Hds Hn Hm. cbn [error_iteration].
  pose proof (run_store_get_missing (samples_codec t "error samples_store") _ m Hm) as H1.
  assert (Hrun : run_map (do samples <- store_get (samples_codec t "error samples_store")
      (sample_oid t (num_batches t ds)) in
    do labels <- store_get (labels_codec t "error labels_store")
      (label_oid t (num_batches t ds)) in Done (Ok (samples, labels))) m = (m, Throw no_such_id)).
  { unfold pbind. rewrite run_map_ptry_not_undefined; rewrite H1; [done|discriminate]. }
  rewrite run_map_ptry_not_undefined; rewrite Hrun; [|discriminate].
  cbn. by rewrite (proj2 (Z.eqb_neq (num_batches t ds) 0)) by lia.
Qed.

Lemma evaluate_batches ds m mo ls : fits ds -> loaded ds (num_batches t ds) m ->
  m !! sample_oid t (num_batches t ds) = None -> 0 < num_batches t ds ->
  forall i loss, 0 <= i -> i + Z.of_nat (length ls) = num_batches t ds ->
  (forall j l, ls !! j = Some l ->
    fm_calc_loss F (batch_dataset ds (i + Z.of_nat j)) mo = Ok l) ->
  evaluate (S (length ls)) (EBatches mo i loss i) m =
    Ok (Double.div (fold_left Double.add ls loss) (Double.of_uint (num_batches t ds))).
Proof using Ht Hp.
  intros Hds Hld Hmiss Hn. induction ls as [|l ls IH]; intros i loss Hi Hlen Hls.
  - cbn [length] in *. rewrite Z.add_0_r in Hlen. subst i. rewrite evaluate_S.
    rewrite error_iteration_last by done. done.
  - cbn [length] in *. rewrite evaluate_S. pose proof (ft_batches _ Hds). pose proof (pl_batches _ _ Hp).
    rewrite (error_iteration_batch ds m mo i loss i l); [|done|done|lia|].
    2:{ rewrite <- (Z.add_0_r i). by apply (Hls 0%nat). }
    cbn [snd outcome_bind]. rewrite i32_small by lia. rewrite u64_small by (unfold is_u64; lia).
    rewrite IH; [done|lia|lia|]. intros j x Hx. specialize (Hls (S j) x Hx).
    by replace (i + 1 + Z.of_nat j) with (i + Z.of_nat (S j)) by lia.
Qed.

(** The error task prints the mean of the losses of the batches. *)
Lemma evaluate_ok ds m mo mb c ls : fits ds -> loaded ds (num_batches t ds) m ->
  m !! sample_oid t (num_batches t ds) = None -> 0 < num_batches t ds ->
  m !! t.(MODEL_BASE) = Some mb -> encodes (fm_model F) Pm len mo mb ->
  fm_checksum F mo = Ok c ->
  omapM (below (num_batches t ds)) (fun i => fm_calc_loss F (batch_dataset ds i) mo) = Ok ls ->
  evaluate (S (S (Z.to_nat (num_batches t ds)))) EStart m =
    Ok (Double.div (fold_left Double.add ls Double.zero) (Double.of_uint (num_batches t ds))).
Proof using Ht Hp Hmodel.
  intros Hds Hld Hmiss Hn Hmb He Hc Hls. apply omapM_Ok_inv in Hls.
  assert (Hlen : length ls = Z.to_nat (num_batches t ds)).
  { rewrite <- (Forall2_length _ _ _ Hls). unfold below. by rewrite length_fmap, length_seq. }
  pose proof (run_store_get _ _ _ _ Hmodel _ _ _ m He Hmb) as H1.
  rewrite evaluate_S. assert (Hfirst : run_map (error_iteration F t EStart) m =
    (m, Ok (EBatches mo 0 Double.zero 0, None))).
  { cbn [error_iteration]. rewrite run_map_ptry_not_undefined; rewrite (run_map_bind _ _ _ _ _ H1);
      unfold id; rewrite Hc; [done|discriminate]. }
  rewrite Hfirst. cbn [snd outcome_bind]. rewrite <- Hlen.
  apply (evaluate_batches ds m mo ls); [done..|lia|lia|].
  intros j l Hl. rewrite Z.add_0_l. eapply Forall2_lookup_r in Hls as (x & Hx & Hloss); [|exact Hl].
  unfold below in Hx. rewrite list_lookup_fmap in Hx. apply fmap_Some in Hx as (k & Hk & ->).
  apply lookup_seq in Hk as [-> _]. exact Hloss.
Qed.

(** C18: the loader and the error task agree.  After the loader has stored a
    dataset, the error task prints the mean of the losses of the model on the
    batches of the dataset: it finds every batch, each under its id, and stops
    after the last. *)
Theorem load_then_evaluate ds m mo mb c ls : fits ds -> t.(SAMPLE_BASE) = 0 ->
  0 < num_batches t ds -> m !! sample_oid t (num_batches t ds) = None ->
  m !! t.(MODEL_BASE) = Some mb -> encodes (fm_model F) Pm len mo mb ->
  fm_checksum F mo = Ok c ->
  omapM (below (num_batches t ds)) (fun i => fm_calc_loss F (batch_dataset ds i) mo) = Ok ls ->
  exists m', run_map (load_dataset t ds) m = (m', Ok tt) /\
    evaluate (S (S (Z.to_nat (num_batches t ds)))) EStart m' =
      Ok (Double.div (fold_left Double.add ls Double.zero) (Double.of_uint (num_batches t ds))).
Proof using Ht Hp Hmodel.
  intros Hds Hs0 Hn Hmiss Hmb He Hc Hls.
  destruct (load_dataset_ok ds m Hds Hs0 Hn) as (m' & Hrun & Hld & Hother).
  exists m'. split; [done|]. pose proof (ft_batches _ Hds) as HB. pose proof Hp as [].
  apply (evaluate_ok ds m' mo mb c ls); try done.
  - rewrite Hother; [done|]. intros i Hi. split; [|apply sample_label_apart; lia].
    rewrite !(sample_oid_eq t B) by (done || lia). lia.
  - rewrite Hother; [done|]. intros i Hi.
    rewrite (sample_oid_eq t B), (label_oid_eq t B) by (done || lia). lia.
Qed.
End evaluating.
End loading_proofs.

(** ** An example *)

(** The base ids of parameter_server.cpp, batches of one sample with two
    features, and a C library that takes two terms of the series. *)
Definition demo_libm : Libm := {|
  libm_exp x := Double.add Double.one x;
  libm_log x := Double.sub x Double.one;
  libm_pow x _ := x |}.
Definition demo_task : task := mk_task 1000000000 3000000000 2000000000 0 2 1 2 1.
Definition demo_dataset : Dataset.t :=
  Dataset.mk (Matrix.mk 2 2 [Double.one; Double.zero; Double.zero; Double.one] None)
    [Double.one; Double.zero].
Definition demo_family : family LRModel.t LRGradient.t :=
  @lr_family demo_libm plain_eigen (fun k => Z.of_nat k) 2.
Definition demo_model : LRModel.t := LRModel.mk [Double.one; Double.zero] 2.

Lemma demo_sized : sized demo_task.
Proof. split; cbn; lia. Qed.

Lemma demo_placed : placed demo_task 1000.
Proof. split; cbn; lia. Qed.

Lemma demo_fits : fits demo_task 1000 demo_dataset.
Proof.
  split; [|reflexivity|..|reflexivity].
  - split; [|reflexivity]. split; cbn; lia.
  - cbn. repeat apply Forall_cons_2; try apply Forall_nil_2; done.
  - cbn. repeat apply Forall_cons_2; try apply Forall_nil_2; done.
  - vm_compute. discriminate.
Qed.

Lemma load_then_evaluate_witness : exists m',
  run_map (load_dataset demo_task demo_dataset)
    {[1000000000 := Checksum.array_bytes [Double.one; Double.zero]]} = (m', Ok tt) /\
  evaluate demo_task demo_family 4 EStart m' = Ok 0x3fd0000000000000.
Proof.
  apply (load_then_evaluate demo_task 1000 demo_sized demo_placed demo_family (lr_shape 2) 16
    (lr_model_codec_ok 2 ltac:(lia) ltac:(lia)) demo_dataset _ demo_model
    (Checksum.array_bytes [Double.one; Double.zero]) 4731875359392268288
    [Double.zero; 0x3fe0000000000000]).
  - exact demo_fits.
  - reflexivity.
  - reflexivity.
  - by rewrite lookup_singleton_ne.
  - by rewrite lookup_singleton_eq.
  - split; [|reflexivity]. split_and!; [reflexivity|reflexivity|repeat apply Forall_cons_2; try apply Forall_nil_2; done|lia].
  - reflexivity.
  - vm_compute. reflexivity.
Defined.
