(* ===== verification/MLPrograms.v ===== *)
(** * The training tasks over the network

    A task of MLTasks.v run by one client on System.v: every request goes through
    FullBladeObjectStore, the client, the network and the server
    (RemoteStore.v). *)

From stdpp Require Import gmap list strings.
From S2P Require Import Prelude Common Eviction Storage Wire Codec BladeClient.
From S2P Require Import TCPClient TCPServer System ObjectStore RemoteStore EndToEnd.
From S2P Require Import Double MLChecksum MLData MLModel MLSerializers MLTasks.

Module MLPrograms.
Import TCPServer System RemoteStore.

Section network.
Context {B : Type} `{StorageSpec B} `{FlatbuffersSpec} `{!FlatbuffersSize}.
Context (fuel k : nat) (max_object : nat).

(** The requests of a task, one after the other. *)
Fixpoint interp {A} (p : prog A) : M (sys B) A :=
  match p with
  | Done o => stop o
  | Get oid f => fun w =>
      let '(w, r) := remote_get (T := bytes) fuel k oid w in interp (f r) w
  | Put oid b f => fun w =>
      let '(w, r) := remote_put (T := blob) fuel k oid b w in interp (f r) w
  end.

(** The requests of a run on the map [m], and the ids and sizes that it may
    use. *)
Fixpoint requests {A} (p : prog A) (m : gmap Z bytes) : nat :=
  match p with
  | Done _ => 0
  | Get oid f => S (requests (f (lookup_reply m oid)) m)
  | Put oid b f => S (requests (f (Ok true)) (<[oid := blob_bytes b]> m))
  end.
Fixpoint admissible {A} (p : prog A) (m : gmap Z bytes) : Prop :=
  match p with
  | Done _ => True
  | Get oid f => is_u64 oid /\ admissible (f (lookup_reply m oid)) m
  | Put oid b f => is_u64 oid /\ stores b = true /\ (length (blob_bytes b) <= max_object)%nat /\
      admissible (f (Ok true)) (<[oid := blob_bytes b]> m)
  end.

(** An object with a serialiser of its own is sent as its bytes are. *)
Lemma put_blob oid b w : stores b = true ->
  remote_put (T := blob) fuel k oid b w = remote_put (T := bytes) fuel k oid (blob_bytes b) w.
Proof.
  intros Hs%Z.eqb_eq. unfold remote_put, FullBladeObjectStore.put. cbn.
  unfold TCPClient.write_sync, TCPClient.write_async, WriteUnit.size, WriteUnit.serialize.
  cbn. by rewrite Hs.
Qed.

(** *** Programs one after the other *)

(** An admissible program that makes [n] requests. *)
Definition makes {A} (n : nat) (p : prog A) (m : gmap Z bytes) : Prop :=
  admissible p m /\ requests p m = n.

Lemma makes_ptry {A C} n1 n2 (p : prog A) (f : outcome A -> prog C) m : makes n1 p m ->
  makes n2 (f (run_map p m).2) (run_map p m).1 -> makes (n1 + n2) (ptry p f) m.
Proof.
  intros [Ha <-]. revert m Ha. induction p as [o|oid g IH|oid b g IH]; intros m Ha Hf; [done|..].
  - cbn in *. destruct Ha as [Hoid Ha]. destruct (IH _ m Ha Hf) as [Ha' Hr]. split; [done|].
    cbn. by rewrite Hr.
  - cbn in *. destruct Ha as (Hoid & Hs & Hl & Ha). rewrite Hs in Hf.
    destruct (IH _ _ Ha Hf) as [Ha' Hr]. split; [done|]. cbn. by rewrite Hr.
Qed.

Lemma makes_bind {A C} n1 n2 (p : prog A) (f : A -> prog C) m m' a : makes n1 p m ->
  run_map p m = (m', Ok a) -> makes n2 (f a) m' -> makes (n1 + n2) (pbind p f) m.
Proof. intros Hp Hr Hf. unfold pbind. apply makes_ptry; [done|]. by rewrite Hr. Qed.

Lemma makes_store_put {T} (c : codec T) P norm len oid v bs m : codec_ok c P norm len ->
  encodes c P len v bs -> is_u64 oid -> len <= Z.of_nat max_object ->
  makes 1 (store_put c oid v) m.
Proof.
  intros Hc He Hoid Hl. destruct (encodes_decode c P norm len Hc v bs He) as [Hb _].
  destruct He as [_ Hv]. unfold store_put. rewrite Hv. cbn. split; [|done]. cbn.
  unfold stores. cbn. rewrite Hb, Z.eqb_refl. split_and!; try done. lia.
Qed.

Lemma makes_store_get {T} (c : codec T) oid m : is_u64 oid -> makes 1 (store_get c oid) m.
Proof.
  intros Hoid. unfold makes, store_get. cbn. destruct (lookup_reply m oid); by cbn.
Qed.

Context (pool : Z) (a0 : astate).
Context (Hpool : pool_ok pool).
Context (Hfuel : (4 + 2 * (fb_overhead + max_object) <= fuel)%nat).
Context (Hsize : Z.of_nat (fb_overhead + max_object) < 2 ^ 31).

(** The server holds the map [m]; [n] more requests can be made. *)
Abbreviation holds n w m := (rep (T := bytes) fuel k pool a0 max_object n w m ∅).

Lemma interp_ok {A} (p : prog A) n w m : holds n w m -> admissible p m ->
  (requests p m <= n)%nat -> exists w',
  interp p w = (w', (run_map p m).2) /\ holds (n - requests p m)%nat w' (run_map p m).1.
Proof.
  revert n w m. induction p as [o|oid f IH|oid b f IH]; intros n w m Hr Ha Hn.
  - exists w. cbn. by rewrite Nat.sub_0_r.
  - cbn [requests admissible run_map interp] in *. destruct Ha as [Hoid Ha].
    destruct n as [|n]; [lia|].
    destruct (rep_get (T := bytes) fuel k pool a0 max_object Hpool Hfuel Hsize n w m ∅ oid Hr Hoid)
      as (w1 & Hg & Hr1).
    rewrite Hg. cbn [Nat.sub]. apply IH; [done|done|]. fold (lookup_reply m oid). lia.
  - cbn [requests admissible run_map interp] in *. destruct Ha as (Hoid & Hs & Hl & Ha).
    destruct n as [|n]; [lia|]. rewrite Hs, put_blob by done.
    destruct (rep_put (T := bytes) fuel k pool a0 max_object Hpool Hfuel Hsize n w m ∅ oid
      (blob_bytes b) Hr Hoid) as (w1 & Hg & Hr1); [done|].
    rewrite Hg. cbn [Nat.sub]. apply IH; [done|done|lia].
Qed.

(** *** The loader *)

Section loader.
Context (t : task) (nb : Z) (Ht : sized t) (Hp : placed t nb).
Context (Hbytes : t.(batch_size) * 8 <= Z.of_nat max_object)
  (Hlabels : t.(samples_per_batch) * 8 <= Z.of_nat max_object).

Lemma load_batch_makes ds i m : fits t nb ds -> 0 <= i < num_batches t ds ->
  makes 2 (load_batch t ds i) m.
Proof.
  intros Hds Hi. destruct (batch_ok t nb Ht ds i Hds Hi) as (Hb & Hs & Hl).
  unfold load_batch. rewrite Hb. cbn [pass].
  assert (Hso : is_u64 (sample_oid t i)) by apply u64_range.
  assert (Hlo : is_u64 (label_oid t i)) by apply u64_range.
  pose proof Ht as [Hspb Hfeat Hbs Hby Hlb].
  pose proof (array_encodes (batch_size t) "loader samples_store" _ ltac:(nia) Hby Hs) as Hes.
  pose proof (array_encodes (samples_per_batch t) "loader labels_store" _ ltac:(lia) Hlb Hl) as Hel.
  apply (makes_ptry 2 0); [|by rewrite (put_batch_ok t Ht)].
  eapply (makes_bind 1 1 _ _ _ _ true).
  - by apply (makes_store_put _ _ _ _ _ _ _ _ (samples_codec_ok t Ht _) Hes).
  - by apply (run_store_put _ _ _ _ (samples_codec_ok t Ht _)).
  - eapply (makes_bind 1 0 _ _ _ _ true).
    + by apply (makes_store_put _ _ _ _ _ _ _ _ (labels_codec_ok t Ht _) Hel).
    + by apply (run_store_put _ _ _ _ (labels_codec_ok t Ht _)).
    + done.
Qed.

Lemma load_batches_makes ds j n m : fits t nb ds -> (j + n <= Z.to_nat (num_batches t ds))%nat ->
  makes (2 * n) (load_batches t ds (Z.of_nat <$> seq j n)) m.
Proof.
  intros Hds. revert j m. induction n as [|n IH]; intros j m Hj; [done|].
  cbn [seq fmap list_fmap load_batches]. replace (2 * S n)%nat with (2 + 2 * n)%nat by lia.
  assert (Hi : 0 <= Z.of_nat j < num_batches t ds) by lia.
  eapply (makes_bind _ _ _ _ _ _ tt); [by apply load_batch_makes|by apply (load_batch_ok t nb Ht)|].
  apply IH. lia.
Qed.

Lemma load_dataset_makes ds m : fits t nb ds -> t.(SAMPLE_BASE) = 0 -> 0 < num_batches t ds ->
  makes (2 * Z.to_nat (num_batches t ds) + 1) (load_dataset t ds) m.
Proof.
  intros Hds Hs0 Hn. unfold load_dataset. rewrite (ft_checked _ _ _ Hds). cbn [pass].
  rewrite (proj2 (Z.eqb_neq _ 0)) by (destruct Ht; lia).
  destruct (load_batches_ok t nb Ht Hp ds 0 (Z.to_nat (num_batches t ds)) m)
    as (m' & Hrun & Hld & _); [done|lia|intros i Hi; lia|].
  eapply (makes_bind _ 1 _ _ _ _ tt); [by apply load_batches_makes; [done|lia]|exact Hrun|].
  apply (makes_ptry 1 0); [by apply makes_store_get|].
  destruct (batch_ok t nb Ht ds 0 Hds ltac:(lia)) as (_ & Hb & _).
  pose proof (ft_batches _ _ _ Hds). destruct (Hld 0 ltac:(lia)) as [Hm0 _].
  rewrite (sample_oid_eq t nb), Hs0, Z.add_0_r in Hm0 by (done || lia).
  pose proof (array_encodes (batch_size t) "loader samples_store" (batch_samples t ds 0)
    ltac:(destruct Hb; lia) ltac:(apply Ht) Hb) as He.
  rewrite (run_store_get _ _ _ _ (samples_codec_ok t Ht _) 0 _ _ m' He Hm0). cbn [fst snd pass id].
  unfold Checksum.checksum, Checksum.crc32, read_at. rewrite decide_True; [done|].
  rewrite length_array_bytes. destruct Hb. lia.
Qed.

(** C11: the loader over the network.  Connected to a server with the objects of
    [m], the task returns, and the server then holds every batch of the dataset
    under its ids, and everything else as before. *)
Theorem loader_over_network w m ds : initial fuel pool a0 w -> a_map a0 = m ->
  map_Forall (fun _ v => (length v <= max_object)%nat) m ->
  EndToEnd.within_limits fuel k max_object pool a0 (2 * Z.to_nat (num_batches t ds) + 1) ->
  fits t nb ds -> t.(SAMPLE_BASE) = 0 -> 0 < num_batches t ds -> exists w' m',
  interp (load_dataset t ds) w = (w', Ok tt) /\ holds 0 w' m' /\
  loaded t ds (num_batches t ds) m' /\
  (forall oid, (forall i, 0 <= i < num_batches t ds -> oid <> sample_oid t i /\ oid <> label_oid t i) ->
    m' !! oid = m !! oid).
Proof.
  intros Hw Ha Hm Hlim Hds Hs0 Hn.
  destruct (load_dataset_makes ds m Hds Hs0 Hn) as [Hadm Hreq].
  destruct (load_dataset_ok t nb Ht Hp ds m Hds Hs0 Hn) as (m' & Hrun & Hld & Hother).
  destruct (interp_ok (load_dataset t ds) (2 * Z.to_nat (num_batches t ds) + 1) w m)
    as (w' & Hi & Hr); [|done|lia|].
  - apply (EndToEnd.initial_rep (T := bytes) fuel k max_object pool a0); [done| | |done].
    + rewrite Ha. symmetry. apply map_fmap_id.
    + intros oid v Hv. split; [done|]. by apply (Hm oid v).
  - exists w', m'. rewrite Hreq, Nat.sub_diag, Hrun in Hr. rewrite Hrun in Hi. done.
Qed.
End loader.
End network.

(** ** Witness *)

(** The server of System.v, which holds one object. *)
Lemma loader_over_network_witness : exists w' m',
  interp 200 50 (load_dataset demo_task demo_dataset) demo_system = (w', Ok tt) /\
  rep (T := bytes) 200 50 1000 (mk_a 4 demo_objects) 16 0 w' m' ∅ /\
  loaded demo_task demo_dataset 2 m' /\
  (forall oid, (forall i, 0 <= i < 2 ->
    oid <> sample_oid demo_task i /\ oid <> label_oid demo_task i) ->
    m' !! oid = demo_objects !! oid).
Proof.
  assert (Hlim : EndToEnd.within_limits 200 50 16 1000 (mk_a 4 demo_objects) 5).
  { split; try (vm_compute; congruence); try (simpl; lia).
    - split; lia.
    - split; [reflexivity|]. vm_compute. congruence. }
  apply (loader_over_network 200 50 16 1000 (mk_a 4 demo_objects) (EndToEnd.wl_pool_ok _ _ _ _ _ _ Hlim)
    (EndToEnd.wl_fuel _ _ _ _ _ _ Hlim) (EndToEnd.wl_size _ _ _ _ _ _ Hlim) demo_task 1000
    demo_sized demo_placed ltac:(simpl; lia) ltac:(simpl; lia) demo_system demo_objects demo_dataset
    demo_system_initial eq_refl).
  - unfold demo_objects. intros oid v [<- <-]%lookup_singleton_Some. simpl. lia.
  - exact Hlim.
  - exact demo_fits.
  - reflexivity.
  - reflexivity.
Defined.
End MLPrograms.
