(* ===== verification/MLTraining.v ===== *)
(** * Training with all tasks at once

    The processes of parameter_server_softmax.cpp (a parameter server, a loader,
    an error task and workers) share a server.  [pool] has the program that each
    of them still has to run and the history of a store with room for all
    objects; a step is one request of one process (TCPLoop.v shows that the server
    answers the requests of its clients one after the other).  [wp] is a logic
    for processes that rely on what the others store and guarantee what they
    store themselves; with it, the history of every interleaving is shown to be
    a run of an abstract trainer ([trained]). *)

From stdpp Require Import gmap list strings.
From Stdlib Require Import ZArith Lia.
From S2P Require Import Prelude Common Double MLChecksum MLData MLModel MLSerializers MLText MLInput MLConfig MLTasks ObjectStore.

(** ** Processes on a shared store *)

Abbreviation trace := (list (Z * bytes)) (only parsing).

(** What the store holds after the puts of a history. *)
Definition store_of (tr : trace) : gmap Z bytes :=
  fold_left (fun m e => <[e.1 := e.2]> m) tr ∅.
Definition reply (tr : trace) (oid : ObjectID) : outcome bytes := lookup_reply (store_of tr) oid.

Lemma store_of_snoc tr e : store_of (tr ++ [e]) = <[e.1 := e.2]> (store_of tr).
Proof. unfold store_of. by rewrite fold_left_app. Qed.

Lemma store_of_elem tr oid bs : store_of tr !! oid = Some bs -> (oid, bs) ∈ tr.
Proof.
  induction tr as [|e tr IH] using rev_ind; [done|]. rewrite store_of_snoc.
  rewrite lookup_insert_Some, elem_of_app, list_elem_of_singleton. destruct e. naive_solver.
Qed.

Section pool.
Context {S : Type} (body : nat -> S -> prog S).

Record pool := mk_pool { procs : list (prog S); history : trace }.

Definition set_proc (i : nat) (p : prog S) (x : pool) : pool :=
  mk_pool (<[i := p]> x.(procs)) x.(history).

(** One step of process [i]: a request, or the next iteration of its loop.  A
    process that has stopped stays so. *)
Definition pool_step (i : nat) (x : pool) : pool :=
  match x.(procs) !! i with
  | Some (Get oid k) => set_proc i (k (reply x.(history) oid)) x
  | Some (Put oid b k) =>
      if stores b then
        mk_pool (<[i := k (Ok true)]> x.(procs)) (x.(history) ++ [(oid, blob_bytes b)])
      else set_proc i (Done Undefined) x
  | Some (Done (Ok s)) => set_proc i (body i s) x
  | _ => x
  end.

Definition pool_run (schedule : list nat) (x : pool) : pool :=
  fold_left (fun x i => pool_step i x) schedule x.

(** *** Relying and guaranteeing *)

(** [typed oid bs]: what may be stored; [own i oid]: only process [i] stores at
    [oid]. *)
Context (typed : Z -> bytes -> Prop) (own : nat -> Z -> Prop).

Definition well_typed (tr : trace) : Prop := Forall (fun e => typed e.1 e.2) tr.

(** What the others may do. *)
Definition rely (i : nat) (tr tr' : trace) : Prop := exists ext, tr' = tr ++ ext /\
  Forall (fun e => typed e.1 e.2 /\ ~ own i e.1) ext.

(** Process [i], at [p], keeps [P] and its guarantees and ends in [Q]. *)
Fixpoint wp {A} (i : nat) (P : trace -> Prop) (p : prog A) (tr : trace)
    (Q : outcome A -> trace -> Prop) : Prop :=
  match p with
  | Done o => Q o tr
  | Get oid k => forall tr', rely i tr tr' -> well_typed tr' -> wp i P (k (reply tr' oid)) tr' Q
  | Put oid b k => forall tr', rely i tr tr' -> well_typed tr' ->
      stores b = true /\ own i oid /\ typed oid (blob_bytes b) /\
      P (tr' ++ [(oid, blob_bytes b)]) /\
      wp i P (k (Ok true)) (tr' ++ [(oid, blob_bytes b)]) Q
  end.

Definition stable (i : nat) (Q : trace -> Prop) : Prop :=
  forall tr tr', Q tr -> rely i tr tr' -> Q tr'.

Lemma rely_refl i tr : rely i tr tr.
Proof. exists []. by rewrite app_nil_r. Qed.

Lemma rely_trans i tr1 tr2 tr3 : rely i tr1 tr2 -> rely i tr2 tr3 -> rely i tr1 tr3.
Proof.
  intros (e1 & -> & H1) (e2 & -> & H2). exists (e1 ++ e2). rewrite app_assoc.
  split; [done|]. by apply Forall_app.
Qed.

Lemma wp_rely {A} i P (p : prog A) tr tr' Q : (forall o, stable i (Q o)) ->
  wp i P p tr Q -> rely i tr tr' -> wp i P p tr' Q.
Proof.
  intros HQ Hp Hr. destruct p as [o|oid k|oid b k]; cbn in *.
  - by eapply HQ.
  - intros tr2 Hr2. apply Hp. by eapply rely_trans.
  - intros tr2 Hr2. apply Hp. by eapply rely_trans.
Qed.

Lemma wp_mono {A} i P (p : prog A) tr (Q Q' : outcome A -> trace -> Prop) :
  (forall o tr, Q o tr -> Q' o tr) -> wp i P p tr Q -> wp i P p tr Q'.
Proof.
  intros HQ. revert tr. induction p as [o|oid k IH|oid b k IH]; intros tr; cbn; [apply HQ|..].
  - intros Hp tr' Hr Ht. by apply IH, Hp.
  - intros Hp tr' Hr Ht. destruct (Hp tr' Hr Ht) as (Hs & Ho & Hb & HP & Hk).
    split_and!; try done. by apply IH.
Qed.

Lemma wp_ptry {A C} i P (p : prog A) (k : outcome A -> prog C) tr Q :
  wp i P p tr (fun o tr' => wp i P (k o) tr' Q) -> wp i P (ptry p k) tr Q.
Proof.
  revert tr. induction p as [o|oid f IH|oid b f IH]; intros tr; cbn; [done|..].
  - intros Hp tr' Hr Ht. by apply IH, Hp.
  - intros Hp tr' Hr Ht. destruct (Hp tr' Hr Ht) as (Hs & Ho & Hb & HP & Hk).
    split_and!; try done. by apply IH.
Qed.

(** *** Pools *)

(** The specification of a process: [J] holds between the iterations of its
    loop, and it may stop with the outcomes of [may_stop]. *)
Context (P : nat -> trace -> Prop) (J : nat -> S -> trace -> Prop)
  (may_stop : nat -> outcome S -> Prop).
Context (HP : forall i, stable i (P i)) (HJ : forall i s, stable i (J i s)).
Context (Hown : forall i j oid, own i oid -> own j oid -> i = j).

Definition ends (i : nat) (o : outcome S) (tr : trace) : Prop :=
  match o with Ok s => J i s tr | o => may_stop i o end.

Context (Hbody : forall i s tr, J i s tr -> P i tr -> well_typed tr ->
  wp i (P i) (body i s) tr (ends i)).

Lemma ends_stable i o : stable i (ends i o).
Proof using HJ. intros tr tr'. destruct o; cbn; [apply HJ|done..]. Qed.

Record pool_ok (x : pool) : Prop := mk_pool_ok {
  po_typed : well_typed x.(history);
  po_procs : forall i p, x.(procs) !! i = Some p -> wp i (P i) p x.(history) (ends i);
  po_props : forall i, P i x.(history);
}.

Lemma pool_step_ok i x : pool_ok x -> pool_ok (pool_step i x).
Proof using HP HJ Hown Hbody.
  intros [Ht Hw HPi]. unfold pool_step. destruct (procs x !! i) as [p|] eqn:Hp; [|by split].
  pose proof (Hw i p Hp) as Hwp. destruct p as [o|oid k|oid b k].
  - destruct o as [s| | | | |]; try by split. cbn in Hwp. split; cbn; [done| |done].
    intros j q. rewrite list_lookup_insert_Some. intros [(<- & <- & _)|[_ Hq]]; [|auto].
    apply Hbody; auto.
  - split; cbn; [done| |done]. intros j q. rewrite list_lookup_insert_Some.
    intros [(<- & <- & _)|[_ Hq]]; [|auto]. apply (Hwp (history x)); [apply rely_refl|done].
  - destruct (Hwp (history x) (rely_refl _ _) Ht) as (-> & Ho & Hb & HP' & Hk).
    assert (Hrely : forall j, j <> i -> rely j (history x) (history x ++ [(oid, blob_bytes b)])).
    { intros j Hne. eexists. split; [done|]. constructor; [|done]. cbn. split; [done|].
      intros Hj. apply Hne. by eapply Hown. }
    split; cbn.
    + apply Forall_app. split; [done|]. by constructor.
    + intros j q. rewrite list_lookup_insert_Some. intros [(<- & <- & _)|[Hne Hq]]; [done|].
      eapply wp_rely; [apply ends_stable|by apply Hw|]. apply Hrely. congruence.
    + intros j. destruct (decide (j = i)) as [->|Hne]; [done|]. eapply HP; [apply HPi|auto].
Qed.

Lemma pool_run_ok schedule x : pool_ok x -> pool_ok (pool_run schedule x).
Proof using HP HJ Hown Hbody.
  unfold pool_run. revert x. induction schedule as [|i sched IH]; intros x Hx; [done|].
  cbn. by apply IH, pool_step_ok.
Qed.
End pool.
Arguments mk_pool {S} _ _.
Arguments procs {S} _.
Arguments history {S} _.

(** ** The tasks of parameter_server_softmax.cpp *)

(** What the protocol needs of a family of models: [Pm] and [Pg] are the
    models and gradients of the right size. *)
Record family_ok {Mo Gr} (F : family Mo Gr) (Pm : Mo -> Prop) (Pg : Gr -> Prop)
    (norm : Gr -> Gr) (mlen glen : Z) : Prop := {
  fo_model : codec_ok (fm_model F) Pm id mlen;
  fo_gradient : codec_ok (fm_gradient F) Pg norm glen;
  fo_new : exists m, fm_new F = Ok m /\ Pm m;
  fo_randomize m : Pm m -> exists m', fm_randomize F m = Ok m' /\ Pm m';
  fo_checksum m : Pm m -> exists c, fm_checksum F m = Ok c;
  fo_sgd_update rate g m : Pm m -> Pg g -> exists m', fm_sgd_update F rate g m = Ok m' /\ Pm m';
  fo_minibatch mat labels k eps m g : Pm m -> Matrix.wf mat -> 0 < Matrix.rows mat ->
    fm_minibatch_grad F mat labels k eps m = Ok g -> Pg g;
  fo_set_version v g : Pg g -> Pg (fm_setVersion F v g);
  fo_version g : is_u32 (fm_getVersion F (norm g));
}.

Section training.
Context {Mo Gr : Type} (F : family Mo Gr) (t : task).
Context (learning_rate : Z) (epsilon : outcome Z) (worker_batches : Z) (loader : prog unit).

(** The processes by their MPI rank, as [run_tasks] starts them. *)
Inductive tstate :=
| TSleep
| TPS (st : ps_state (Mo := Mo))
| TError (st : error_state (Mo := Mo))
| TWorker (worker : Z) (st : worker_state).

Definition pmap {A C} (f : A -> C) (p : prog A) : prog C := do a <- p in Done (Ok (f a)).

Definition run_tasks (rank : Z) : outcome (prog tstate) :=
  if rank =? 0 then Ok (Done (Ok TSleep))
  else if rank =? 1 then Ok (pmap TPS (ps_start F t))
  else if rank =? 2 then Ok (pmap (fun _ => TSleep) loader)
  else if rank =? 3 then Ok (Done (Ok (TError EStart)))
  else if (4 <=? rank) && (rank <? 4 + t.(nworkers)) then
    Ok (Done (Ok (TWorker (rank - 4) worker_start)))
  else Throw (RuntimeError "Wrong number of tasks").

(** The loops. *)
Definition task_body (i : nat) (s : tstate) : prog tstate :=
  match s with
  | TSleep => Done (Ok TSleep)
  | TPS st => pmap TPS (ps_iteration F t learning_rate st)
  | TError st => pmap (fun r => TError r.1) (error_iteration F t st)
  | TWorker w st => pmap (TWorker w) (worker_iteration F t epsilon worker_batches w st)
  end.

(** A run with all ranks, on an empty server. *)
Definition start_pool : pool (S := tstate) :=
  mk_pool ((fun i => match run_tasks (Z.of_nat i) with Ok p => p | o => Done Exited end) <$>
    seq 0 (4 + Z.to_nat t.(nworkers))) [].

(** ** The abstract trainer *)

(** A history in which models are published one after the other: the first one is
    any, and the next is the last one moved by a gradient that was read from
    the store, with a version greater than all that were used of its worker. *)
Inductive trained : trace -> option Mo -> list Z -> Prop :=
| trained_start : trained [] None (replicate 10 0)
| trained_other tr m vs oid bs : trained tr m vs -> oid <> t.(MODEL_BASE) ->
    trained (tr ++ [(oid, bs)]) m vs
| trained_first tr vs m b : trained tr None vs -> c_blob (fm_model F) m = Ok b ->
    trained (tr ++ [(t.(MODEL_BASE), blob_bytes b)]) (Some m) vs
| trained_update tr m vs w last gb g m' b : trained tr (Some m) vs ->
    0 <= w < t.(nworkers) -> (gradient_oid t w, gb) ∈ tr ->
    c_decode (fm_gradient F) gb (Z.of_nat (length gb)) = Ok g ->
    vs !! Z.to_nat w = Some last -> last < fm_getVersion F g ->
    fm_sgd_update F learning_rate g m = Ok m' -> c_blob (fm_model F) m' = Ok b ->
    trained (tr ++ [(t.(MODEL_BASE), blob_bytes b)]) (Some m')
      (<[Z.to_nat w := fm_getVersion F g]> vs).

(** ** The proof *)

Context (Pm : Mo -> Prop) (Pg : Gr -> Prop) (norm : Gr -> Gr) (mlen glen : Z).
Context (HF : family_ok F Pm Pg norm mlen glen).
Context (B : Z) (Ht : sized t) (Hp : placed t B).
Context (Hworkers : t.(nworkers) <= 10).

Definition typed (oid : Z) (bs : bytes) : Prop :=
  (oid = t.(MODEL_BASE) -> exists m, encodes (fm_model F) Pm mlen m bs) /\
  (forall w, 0 <= w < t.(nworkers) -> oid = gradient_oid t w ->
    exists g, encodes (fm_gradient F) Pg glen g bs).

Definition own (i : nat) (oid : Z) : Prop :=
  match i with
  | 1%nat => oid = t.(MODEL_BASE)
  | 2%nat => exists j, 0 <= j < B /\ (oid = sample_oid t j \/ oid = label_oid t j)
  | S (S (S (S w))) => Z.of_nat w < t.(nworkers) /\ oid = gradient_oid t (Z.of_nat w)
  | _ => False
  end.

Definition keeps (i : nat) (tr : trace) : Prop :=
  match i with 1%nat => exists m vs, trained tr m vs | _ => True end.

(** The state of the parameter server agrees with the history. *)
Record ps_agrees (st : ps_state (Mo := Mo)) (tr : trace) : Prop := {
  pa_trained : trained tr (Some (ps_model st)) (gradientVersions st);
  pa_model : Pm (ps_model st);
  pa_worker : 0 <= ps_worker st;
  pa_versions : length (gradientVersions st) = 10%nat;
}.

Definition between (i : nat) (s : tstate) (tr : trace) : Prop :=
  match s with
  | TPS st => i = 1%nat /\ ps_agrees st tr
  | TWorker w _ => (i = 4 + Z.to_nat w)%nat /\ 0 <= w < t.(nworkers)
  | _ => i <> 1%nat
  end.

(** Only the parameter server never stops. *)
Definition may_stop (i : nat) (o : outcome tstate) : Prop := i <> 1%nat.

Abbreviation rely_on i := (rely typed own i).
Abbreviation proves i p tr Q := (wp typed own i (keeps i) p tr Q).

Lemma own_disjoint i j oid : own i oid -> own j oid -> i = j.
Proof using Hp.
  assert (Hg : forall w, Z.of_nat w < nworkers t ->
    gradient_oid t (Z.of_nat w) = 2 * GRADIENT_BASE t + Z.of_nat w).
  { intros w Hw. apply (gradient_oid_eq t B); [done|lia]. }
  pose proof (fun j => sample_oid_eq t B j Hp) as Hs. pose proof (fun j => label_oid_eq t B j Hp) as Hl.
  pose proof Hp as [].
  destruct i as [|[|[|[|i]]]]; cbn; try done; destruct j as [|[|[|[|j]]]]; cbn; try done.
  - intros -> (k & Hk & [He|He]); [rewrite Hs in He by lia|rewrite Hl in He by lia]; lia.
  - intros -> [Hw He]. rewrite Hg in He by done. lia.
  - intros (k & Hk & [He|He]) ->; [rewrite Hs in He by lia|rewrite Hl in He by lia]; lia.
  - intros (k & Hk & [-> | ->]) [Hw He]; rewrite Hg in He by done;
      [rewrite Hs in He by lia|rewrite Hl in He by lia]; lia.
  - intros [Hw ->] He. rewrite Hg in He by done. lia.
  - intros [Hw ->] (k & Hk & [He|He]); rewrite Hg in He by done;
      [rewrite Hs in He by lia|rewrite Hl in He by lia]; lia.
  - intros [Hw ->] [Hw' He]. rewrite !Hg in He by done. lia.
Qed.

Lemma trained_rely tr tr' m vs : trained tr m vs -> rely_on 1 tr tr' -> trained tr' m vs.
Proof.
  intros Htr (ext & -> & Hext). induction ext as [|e ext IH] using rev_ind; [by rewrite app_nil_r|].
  apply Forall_app in Hext as [Hext He]. apply Forall_cons in He as [[_ He] _].
  rewrite app_assoc. destruct e as [oid bs]. apply trained_other; auto.
Qed.

Lemma keeps_stable i : stable typed own i (keeps i).
Proof.
  intros tr tr'. destruct i as [|[|i]]; [done| |done]. cbn. intros (m & vs & Htr) Hr.
  exists m, vs. by eapply trained_rely.
Qed.

Lemma between_stable i s : stable typed own i (between i s).
Proof.
  intros tr tr'. destruct s as [|st|st|w st]; cbn; try done. intros [-> [Htr Hm Hw Hv]] Hr.
  split; [done|]. split; try done. by eapply trained_rely.
Qed.

(** What a process finds under its own ids is what it has stored. *)
Lemma store_rely i tr tr' oid : own i oid -> rely_on i tr tr' ->
  store_of tr' !! oid = store_of tr !! oid.
Proof.
  intros Ho (ext & -> & Hext). induction ext as [|e ext IH] using rev_ind; [by rewrite app_nil_r|].
  apply Forall_app in Hext as [Hext He]. apply Forall_cons in He as [[_ He] _].
  rewrite app_assoc, store_of_snoc, lookup_insert_ne; [auto|]. by intros <-.
Qed.

(** *** Requests *)

Lemma wp_store_put {T} i (c : codec T) P' norm' len oid v bs tr Q :
  codec_ok c P' norm' len -> encodes c P' len v bs -> own i oid -> typed oid bs ->
  (forall tr', rely_on i tr tr' -> well_typed typed tr' ->
    keeps i (tr' ++ [(oid, bs)]) /\ Q (Ok true) (tr' ++ [(oid, bs)])) ->
  proves i (store_put c oid v) tr Q.
Proof.
  intros Hc He Ho Hb HQ. destruct (encodes_decode _ _ _ _ Hc v bs He) as [Hl _].
  unfold store_put. rewrite (proj2 He). cbn. intros tr' Hr Hw.
  destruct (HQ tr' Hr Hw) as [Hk Hq]. split_and!; try done. unfold stores. cbn.
  by rewrite Hl, Z.eqb_refl.
Qed.

Lemma wp_store_get {T} i (c : codec T) oid tr Q :
  (forall tr' bs, rely_on i tr tr' -> well_typed typed tr' -> store_of tr' !! oid = Some bs ->
    Q (c_decode c bs (u32 (Z.of_nat (length bs)))) tr') ->
  (forall tr', rely_on i tr tr' -> store_of tr' !! oid = None -> Q (Throw no_such_id) tr') ->
  proves i (store_get c oid) tr Q.
Proof.
  intros Hs Hn. cbn. intros tr' Hr Hw. unfold reply, lookup_reply.
  destruct (store_of tr' !! oid) as [bs|] eqn:Hb; cbn; auto.
Qed.

Lemma well_typed_lookup tr oid bs : well_typed typed tr -> store_of tr !! oid = Some bs ->
  typed oid bs.
Proof.
  intros Hw Hb%store_of_elem. unfold well_typed in Hw. rewrite Forall_forall in Hw.
  by apply (Hw _ Hb).
Qed.

(** A program that goes on only from values. *)
Lemma wp_bind {A C} i (p : prog A) (k : A -> prog C) tr Q :
  proves i p tr (fun o tr' => match o with Ok a => proves i (k a) tr' Q
                              | o => proves i (pass o k) tr' Q end) ->
  proves i (do a <- p in k a) tr Q.
Proof.
  intros Hpr. unfold pbind. apply wp_ptry. eapply wp_mono; [|exact Hpr]. by intros [].
Qed.

Lemma wp_pmap {A C} i (f : A -> C) (p : prog A) tr (Q : outcome C -> trace -> Prop) :
  proves i p tr (fun o tr' => match o with
    | Ok a => Q (Ok (f a)) tr'
    | Throw e => Q (Throw e) tr' | Undefined => Q Undefined tr' | Exited => Q Exited tr'
    | Blocked => Q Blocked tr' | OutOfFuel => Q OutOfFuel tr' end) ->
  proves i (pmap f p) tr Q.
Proof. intros Hpr. apply wp_bind. eapply wp_mono; [|exact Hpr]. by intros []. Qed.

(** *** The parameter server *)

Lemma model_typed m bs : encodes (fm_model F) Pm mlen m bs -> typed t.(MODEL_BASE) bs.
Proof using Hp.
  intros He. split; [eauto|]. intros w Hw Heq. exfalso.
  rewrite (gradient_oid_eq t B) in Heq by done. destruct Hp. lia.
Qed.

(** The model is published and read back. *)
Lemma ps_start_ok tr : trained tr None (replicate 10 0) ->
  proves 1 (pmap TPS (ps_start F t)) tr (ends between may_stop 1).
Proof using HF Hp.
  intros Htr. apply wp_pmap. unfold ps_start.
  destruct (fo_new _ _ _ _ _ _ HF) as (m0 & -> & Hm0). cbn [pass].
  destruct (fo_randomize _ _ _ _ _ _ HF m0 Hm0) as (m & -> & Hm). cbn [pass].
  destruct (fo_checksum _ _ _ _ _ _ HF m Hm) as (c & ->). cbn [pass].
  destruct (encodes_exists _ _ _ _ (fo_model _ _ _ _ _ _ HF) m Hm) as (bs & He).
  apply wp_bind. eapply wp_store_put; [apply (fo_model _ _ _ _ _ _ HF)|exact He|done
    |by eapply model_typed|]. intros tr1 Hr1 _.
  assert (Htr1 : trained (tr1 ++ [(MODEL_BASE t, bs)]) (Some m) (replicate 10 0)).
  { change bs with (blob_bytes (mk_blob mlen bs)). apply trained_first; [|apply He].
    by eapply trained_rely. }
  split; [by exists (Some m), (replicate 10 0)|].
  apply wp_bind. eapply wp_store_get.
  - intros tr2 bs' Hr2 _ Hb. rewrite (store_rely 1 (tr1 ++ [(MODEL_BASE t, bs)]) tr2) in Hb by done.
    rewrite store_of_snoc, lookup_insert_eq in Hb. injection Hb as <-.
    destruct (encodes_decode _ _ _ _ (fo_model _ _ _ _ _ _ HF) m bs He) as (_ & -> & _).
    unfold id. destruct (fo_checksum _ _ _ _ _ _ HF m Hm) as (c' & ->). cbn.
    split; [done|]. split; cbn; [|done|lia|done]. by eapply trained_rely.
  - intros tr2 Hr2 Hb. rewrite (store_rely 1 (tr1 ++ [(MODEL_BASE t, bs)]) tr2) in Hb by done.
    by rewrite store_of_snoc, lookup_insert_eq in Hb.
Qed.

Lemma ps_agrees_next st tr : ps_agrees st tr ->
  ps_agrees (mk_ps (ps_worker st + 1) (ps_model st) (gradientVersions st)) tr.
Proof. intros [Htr Hm Hw Hv]. split; cbn; (done || lia). Qed.

(** A gradient that was read is used once, or not at all. *)
Lemma ps_use_ok tr st gb g : ps_agrees st tr -> ps_worker st < t.(nworkers) ->
  (gradient_oid t (ps_worker st), gb) ∈ tr ->
  c_decode (fm_gradient F) gb (Z.of_nat (length gb)) = Ok g -> Pg g ->
  is_u32 (fm_getVersion F g) ->
  proves 1 (ps_use F t learning_rate g st) tr (fun o tr' => match o with
    | Ok st' => ps_agrees st' tr' | _ => False end).
Proof using HF Hp Hworkers.
  intros Hag Hlt Hin Hdec Hg Hu. pose proof Hag as [Htr Hm Hw Hv]. destruct st as [w m vs].
  cbn [ps_worker ps_model gradientVersions] in *. unfold ps_use.
  destruct (lookup_lt_is_Some_2 vs (Z.to_nat w)) as [last Hlast]; [lia|].
  rewrite <- (Z2Nat.id w) at 1 by done. rewrite (at_index_ok _ _ _ Hlast). cbn [pass].
  destruct (Z.ltb_spec last (fm_getVersion F g)) as [Hv'|Hv']; [|by apply (ps_agrees_next _ _ Hag)].
  rewrite <- (Z2Nat.id w) at 1 by done.
  rewrite set_index_ok by (by apply lookup_lt_Some in Hlast). cbn [pass].
  rewrite u32_small by done.
  destruct (fo_sgd_update _ _ _ _ _ _ HF learning_rate g m Hm Hg) as (m' & Hsgd & Hm').
  rewrite Hsgd. cbn [pass].
  destruct (encodes_exists _ _ _ _ (fo_model _ _ _ _ _ _ HF) m' Hm') as (bs & He).
  apply wp_bind. eapply wp_store_put; [apply (fo_model _ _ _ _ _ _ HF)|exact He|done
    |by eapply model_typed|]. intros tr1 Hr1 _.
  assert (Htr1 : trained (tr1 ++ [(MODEL_BASE t, bs)]) (Some m')
    (<[Z.to_nat w := fm_getVersion F g]> vs)).
  { change bs with (blob_bytes (mk_blob mlen bs)). pose proof Hr1 as (ext & Hext & _).
    eapply (trained_update _ m vs w last gb g); try done.
    - by eapply trained_rely.
    - rewrite Hext. apply elem_of_app. by left.
    - apply He. }
  split; [by eexists _, _|]. cbn. split; cbn; [done|done|lia|by rewrite length_insert].
Qed.

Lemma ps_iteration_ok tr st : ps_agrees st tr ->
  proves 1 (pmap TPS (ps_iteration F t learning_rate st)) tr (ends between may_stop 1).
Proof using HF Hp Hworkers.
  intros Hag. apply wp_pmap. pose proof Hag as [Htr Hm Hw Hv]. destruct st as [w m vs].
  cbn [ps_worker ps_model gradientVersions] in *. unfold ps_iteration.
  rewrite i32_small by (destruct Hp; lia).
  destruct (Z.ltb_spec w (nworkers t)) as [Hlt|Hge]; [|cbn; split; [done|]; split; cbn; (done || lia)].
  apply wp_ptry, wp_store_get.
  - intros tr1 bs Hr1 Hwt Hb. pose proof (well_typed_lookup _ _ _ Hwt Hb) as [_ Hgr].
    destruct (Hgr w (conj Hw Hlt) eq_refl) as (g & Hge).
    destruct (encodes_decode _ _ _ _ (fo_gradient _ _ _ _ _ _ HF) g bs Hge) as (Hl & Hdec & Hpg).
    rewrite Hdec. cbn [pass]. eapply wp_mono; [|eapply (ps_use_ok tr1 (mk_ps w m vs) bs (norm g))].
    + by intros [st'| | | | |] tr2.
    + split; cbn; try done. by eapply trained_rely.
    + done.
    + by apply store_of_elem.
    + rewrite <- Hdec. f_equal. symmetry. apply u32_small. rewrite Hl.
      apply (co_len _ _ _ _ (fo_gradient _ _ _ _ _ _ HF)).
    + done.
    + apply (fo_version _ _ _ _ _ _ HF).
  - intros tr1 Hr1 _. cbn. split; [done|]. split; cbn; try done. by eapply trained_rely.
Qed.
(** *** The other tasks *)

(** They only have to guarantee what they store. *)
Abbreviation safe i p tr := (proves i p tr (fun _ _ => True)).

Lemma safe_pass {A C} i (o : outcome A) (k : A -> prog C) tr :
  (forall a, o = Ok a -> safe i (k a) tr) -> safe i (pass o k) tr.
Proof. intros Hk. destruct o; cbn; auto. Qed.

Lemma safe_or_exit {A C} i (o : outcome A) (k : A -> prog C) tr :
  (forall a, o = Ok a -> safe i (k a) tr) -> safe i (or_exit o k) tr.
Proof. intros Hk. destruct o; cbn; auto. Qed.

Lemma safe_pbind {A C} i (p : prog A) (k : A -> prog C) tr :
  safe i p tr -> (forall a tr', safe i (k a) tr') -> safe i (do a <- p in k a) tr.
Proof.
  intros Hpr Hk. apply wp_bind. eapply wp_mono; [|exact Hpr]. intros [] tr' _; cbn; auto.
Qed.

Lemma safe_ptry {A C} i (p : prog A) (k : outcome A -> prog C) tr :
  safe i p tr -> (forall o tr', safe i (k o) tr') -> safe i (ptry p k) tr.
Proof. intros Hpr Hk. apply wp_ptry. eapply wp_mono; [|exact Hpr]. auto. Qed.

(** What is read was allowed to be stored. *)
Lemma wp_read {T} i (c : codec T) oid tr (Q : outcome T -> trace -> Prop) :
  (forall tr' r, (forall v, r = Ok v -> exists bs, typed oid bs /\
      c_decode c bs (u32 (Z.of_nat (length bs))) = Ok v) -> Q r tr') ->
  proves i (store_get c oid) tr Q.
Proof.
  intros HQ. apply wp_store_get.
  - intros tr' bs _ Hw Hb. apply HQ. intros v Hv. exists bs. split; [|done].
    by eapply well_typed_lookup.
  - intros tr' _ _. by apply HQ.
Qed.

Lemma safe_read {T} i (c : codec T) oid tr : safe i (store_get c oid) tr.
Proof. by apply wp_read. Qed.

Lemma safe_put {T} i (c : codec T) P' norm' len oid v tr : i <> 1%nat ->
  codec_ok c P' norm' len -> P' v -> own i oid ->
  (forall bs, encodes c P' len v bs -> typed oid bs) -> safe i (store_put c oid v) tr.
Proof.
  intros Hi Hc Hv Ho Hb. destruct (encodes_exists _ _ _ _ Hc v Hv) as (bs & He).
  eapply wp_store_put; [done|exact He|done|auto|]. intros tr' _ _. split; [|done].
  by destruct i as [|[|i]].
Qed.

(** A process that is safe may go on in any state of its own. *)
Lemma safe_ends {A} i (f : A -> tstate) (p : prog A) tr : i <> 1%nat ->
  (forall a tr', between i (f a) tr') -> safe i p tr ->
  proves i (pmap f p) tr (ends between may_stop i).
Proof.
  intros Hi Hf Hpr. apply wp_pmap. eapply wp_mono; [|exact Hpr]. intros [] tr' _; cbn; auto.
Qed.

Lemma gradient_typed w g bs : 0 <= w < t.(nworkers) ->
  encodes (fm_gradient F) Pg glen g bs -> typed (gradient_oid t w) bs.
Proof using Hp.
  intros Hw He. rewrite (gradient_oid_eq t B) by done. split.
  - intros Heq. exfalso. destruct Hp. lia.
  - eauto.
Qed.

Lemma ctor_arrays_ok samples labels ds :
  Dataset.ctor_arrays samples labels t.(samples_per_batch) t.(features_per_sample) = Ok ds ->
  Matrix.wf (Dataset.samples_ ds) /\ 0 < Matrix.rows (Dataset.samples_ ds).
Proof using Ht.
  intros (m & Hm & [= <-])%outcome_bind_Ok_inv. destruct Ht. cbn [Dataset.samples_].
  apply Matrix.of_array_wf in Hm as (Hwf & -> & _); [done|nia..].
Qed.

Lemma worker_compute_safe w st m samples labels tr : 0 <= w < t.(nworkers) -> Pm m ->
  safe (4 + Z.to_nat w) (worker_compute F t epsilon worker_batches w st m samples labels) tr.
Proof using HF Ht Hp.
  intros Hw Hm. destruct st as [first sid lid v]. unfold worker_compute.
  apply safe_pass. intros ds Hmat%ctor_arrays_ok. apply safe_pass. intros _ _.
  apply safe_or_exit. intros g (eps & _ & Hg)%outcome_bind_Ok_inv.
  apply (fo_minibatch _ _ _ _ _ _ HF) in Hg; [|done|apply Hmat..].
  apply safe_ptry; [|intros o tr2; by apply safe_or_exit].
  eapply safe_put; [lia|apply (fo_gradient _ _ _ _ _ _ HF)|by apply (fo_set_version _ _ _ _ _ _ HF)| |].
  - cbn. rewrite Z2Nat.id by lia. split; [lia|done].
  - intros bs He. by eapply gradient_typed.
Qed.

Lemma worker_iteration_safe w st tr : 0 <= w < t.(nworkers) ->
  safe (4 + Z.to_nat w) (worker_iteration F t epsilon worker_batches w st) tr.
Proof using HF Ht Hp.
  intros Hw. unfold worker_iteration. apply wp_ptry.
  eapply (wp_mono _ _ _ _ _ _ (fun r _ => forall m s l, r = Ok (m, s, l) -> Pm m)).
  - intros [[[m s] l]|[]| | | |] tr1 Hr; try done; [|by destruct (first_time st)].
    apply worker_compute_safe; [done|]. by eapply Hr.
  - apply wp_bind, wp_read. intros tr1 [m| | | | |] Hm; try by cbn.
    destruct (Hm m eq_refl) as (bs & [Hty _] & Hdec). destruct (Hty eq_refl) as (m0 & He).
    destruct (encodes_decode _ _ _ _ (fo_model _ _ _ _ _ _ HF) m0 bs He) as (_ & Hdec' & Hpm).
    rewrite Hdec in Hdec'. injection Hdec' as ->.
    apply wp_bind, wp_read. intros tr2 [s| | | | |] _; try by cbn.
    apply wp_bind, wp_read. intros tr3 [l| | | | |] _; cbn; try done. by intros ??? [= <- <- <-].
Qed.

Lemma error_iteration_safe i st tr : safe i (error_iteration F t st) tr.
Proof.
  destruct st as [|m j loss count]; cbn [error_iteration]; apply safe_ptry.
  - apply safe_pbind; [apply safe_read|]. intros m tr'. by apply safe_pass.
  - intros o tr'. destruct o as [|[]| | | |]; cbn; try done.
  - apply safe_pbind; [apply safe_read|]. intros s tr'. apply safe_pbind; [apply safe_read|done].
  - intros o tr'. destruct o as [[s l]|[]| | | |]; cbn [pass]; try done; [|by destruct (j =? 0)].
    do 3 (apply safe_pass; intros ? _). done.
Qed.

Lemma loaded_typed oid bs j : 0 <= j < B -> oid = sample_oid t j \/ oid = label_oid t j ->
  typed oid bs.
Proof using Hp.
  intros Hj Ho. split.
  - intros Heq. exfalso. rewrite (sample_oid_eq t B), (label_oid_eq t B) in Ho by (done || lia).
    destruct Hp. lia.
  - intros w Hw Heq. exfalso. rewrite (gradient_oid_eq t B) in Heq by done.
    rewrite (sample_oid_eq t B), (label_oid_eq t B) in Ho by (done || lia). destruct Hp. lia.
Qed.

Lemma load_batches_safe dataset ids tr : fits t B dataset -> (forall j, j ∈ ids -> 0 <= j < num_batches t dataset) ->
  safe 2 (load_batches t dataset ids) tr.
Proof using Ht Hp.
  intros Hds. revert tr. induction ids as [|j ids IH]; intros tr Hids; cbn [load_batches]; [done|].
  assert (Hj : 0 <= j < num_batches t dataset) by (apply Hids; left).
  pose proof (ft_batches _ _ _ Hds) as HB.
  apply safe_pbind; [|intros _ tr'; apply IH; intros k Hk; apply Hids; by right].
  destruct (batch_ok t B Ht dataset j Hds Hj) as (Hb & Hs & Hl).
  unfold load_batch. rewrite Hb. cbn [pass]. apply safe_ptry; [|intros o tr'; by apply safe_or_exit].
  apply safe_pbind; [|intros _ tr'; apply safe_pbind; [|done]].
  - eapply safe_put; [done|by apply samples_codec_ok|done| |].
    + exists j. split; [lia|by left].
    + intros bs _. apply (loaded_typed _ _ j); [lia|by left].
  - eapply safe_put; [done|by apply labels_codec_ok|done| |].
    + exists j. split; [lia|by right].
    + intros bs _. apply (loaded_typed _ _ j); [lia|by right].
Qed.

Lemma load_dataset_safe dataset tr :
  (Dataset.check_values dataset = Ok tt -> fits t B dataset) -> safe 2 (load_dataset t dataset) tr.
Proof using Ht Hp.
  intros Hds. unfold load_dataset. apply safe_pass. intros [] Hck. specialize (Hds Hck). destruct (_ =? 0); [done|].
  apply safe_pbind; [apply load_batches_safe; [done|]; by intros j Hj%elem_of_below|].
  intros _ tr1. apply safe_pbind; [apply safe_read|]. intros s tr2. by apply safe_pass.
Qed.

(** [LoadingTask::run] of Tasks_softmax.cpp *)
Lemma loading_task_softmax_safe `{Libm} heap rand file sched config tr :
  (forall ds, Input.read_input_csv heap rand file Input.space 1
     (Configuration.get_limit_cols config) true sched = Ok ds ->
     Dataset.check_values ds = Ok tt -> fits t B ds) ->
  safe 2 (loading_task_softmax heap rand file sched config t) tr.
Proof using Ht Hp.
  intros Hread. unfold loading_task_softmax. apply safe_pass. intros _ _. apply safe_pass.
  intros ds Hds. apply safe_pass. intros _ _. apply load_dataset_safe. auto.
Qed.

Context (Hloader : forall tr, safe 2 loader tr).

(** *** All together *)

Lemma task_body_ok i s tr : between i s tr -> keeps i tr -> well_typed typed tr ->
  proves i (task_body i s) tr (ends between may_stop i).
Proof using HF Ht Hp Hworkers.
  intros Hb _ _. destruct s as [|st|st|w st]; cbn [task_body].
  - done.
  - destruct Hb as [-> Hag]. by apply ps_iteration_ok.
  - by apply safe_ends, error_iteration_safe.
  - destruct Hb as [-> Hw]. apply safe_ends; [lia|done|by apply worker_iteration_safe].
Qed.

Lemma start_pool_ok : pool_ok typed own keeps between may_stop start_pool.
Proof using HF Hp Hloader.
  split; [constructor| |].
  - intros i p Hi. cbn [procs start_pool] in Hi. rewrite list_lookup_fmap in Hi.
    apply fmap_Some in Hi as (k & [-> Hk]%lookup_seq & ->). rewrite Nat.add_0_l. cbn [history].
    destruct i as [|[|[|[|w]]]]; cbn [run_tasks].
    + done.
    + apply ps_start_ok, trained_start.
    + apply safe_ends; [done..|auto].
    + done.
    + unfold run_tasks. rewrite !(proj2 (Z.eqb_neq _ _)) by lia.
      rewrite (proj2 (Z.leb_le _ _)), (proj2 (Z.ltb_lt _ _)) by lia. cbn. split; lia.
  - intros [|[|i]]; [done| |done]. cbn. eexists _, _. apply trained_start.
Qed.

(** The parameter server is not among those that may stop. *)
Lemma ps_does_not_stop (x : pool (S := tstate)) o : pool_ok typed own keeps between may_stop x ->
  procs x !! 1%nat = Some (Done o) -> exists st, o = Ok (TPS st).
Proof.
  intros Hx Ho. pose proof (po_procs _ _ _ _ _ _ Hx 1 _ Ho) as He. cbn in He.
  destruct o as [[|st|st|w st]| | | | |]; cbn in He; try done; [eauto|]. lia.
Qed.

Lemma training_run schedule : let x := pool_run task_body schedule start_pool in
  pool_ok typed own keeps between may_stop x.
Proof using HF Ht Hp Hloader Hworkers.
  apply pool_run_ok; [exact keeps_stable|exact between_stable|exact own_disjoint
    |exact task_body_ok|exact start_pool_ok].
Qed.

(** The model that is published is the one that the history has trained. *)
Lemma trained_store tr m vs : trained tr m vs -> match m with
  | Some m => exists b, c_blob (fm_model F) m = Ok b /\
      store_of tr !! t.(MODEL_BASE) = Some (blob_bytes b)
  | None => store_of tr !! t.(MODEL_BASE) = None end.
Proof.
  induction 1 as [|tr m vs oid bs _ IH Hne|tr vs m b _ _ Hb|tr m vs w last gb g m' b _ _ _ _ _ _ _ _ Hb].
  - done.
  - rewrite store_of_snoc. cbn. by rewrite lookup_insert_ne.
  - exists b. split; [done|]. by rewrite store_of_snoc, lookup_insert_eq.
  - exists b. split; [done|]. by rewrite store_of_snoc, lookup_insert_eq.
Qed.

Lemma typed_decode oid bs : typed oid bs ->
  (oid = t.(MODEL_BASE) -> exists m, Pm m /\ c_decode (fm_model F) bs (Z.of_nat (length bs)) = Ok m) /\
  (forall w, 0 <= w < t.(nworkers) -> oid = gradient_oid t w -> exists g, Pg g /\
    c_decode (fm_gradient F) bs (Z.of_nat (length bs)) = Ok g).
Proof using HF.
  intros [Hm Hg]. split.
  - intros Ho. destruct (Hm Ho) as (m & He). exists m.
    destruct (encodes_decode _ _ _ _ (fo_model _ _ _ _ _ _ HF) m bs He) as (Hl & Hd & Hn).
    rewrite u32_small in Hd; [done|]. rewrite Hl. apply (fo_model _ _ _ _ _ _ HF).
  - intros w Hw Ho. destruct (Hg w Hw Ho) as (g & He). exists (norm g).
    destruct (encodes_decode _ _ _ _ (fo_gradient _ _ _ _ _ _ HF) g bs He) as (Hl & Hd & Hn).
    rewrite u32_small in Hd; [done|]. rewrite Hl. apply (fo_gradient _ _ _ _ _ _ HF).
Qed.

(** What training promises of a pool: the models that were published are those
    of the sequential trainer and the store holds the last one; what was stored
    as a model or as a gradient is one; and the parameter server goes on. *)
Record sequentially_trained (x : pool (S := tstate)) : Prop := {
  st_trained : exists m vs, trained (history x) m vs /\
    (forall m', m = Some m' -> exists b, c_blob (fm_model F) m' = Ok b /\
      store_of (history x) !! t.(MODEL_BASE) = Some (blob_bytes b));
  st_models : forall bs, (t.(MODEL_BASE), bs) ∈ history x -> exists m, Pm m /\
    c_decode (fm_model F) bs (Z.of_nat (length bs)) = Ok m;
  st_gradients : forall w bs, 0 <= w < t.(nworkers) -> (gradient_oid t w, bs) ∈ history x ->
    exists g, Pg g /\ c_decode (fm_gradient F) bs (Z.of_nat (length bs)) = Ok g;
  st_server : forall o, procs x !! 1%nat = Some (Done o) -> exists st, o = Ok (TPS st);
}.

Lemma family_training schedule :
  sequentially_trained (pool_run task_body schedule start_pool).
Proof using HF Ht Hp Hloader Hworkers.
  pose proof (training_run schedule) as Hx. set (x := pool_run _ _ _) in *. cbn zeta in *.
  pose proof (po_typed _ _ _ _ _ _ Hx) as Hw. unfold well_typed in Hw. rewrite Forall_forall in Hw.
  split.
  - destruct (po_props _ _ _ _ _ _ Hx 1) as (m & vs & Htr). exists m, vs. split; [done|].
    intros m' ->. by apply (trained_store _ _ _ Htr).
  - intros bs Hin. by apply (typed_decode _ _ (Hw _ Hin)).
  - intros w bs Hb Hin. by apply (typed_decode _ _ (Hw _ Hin)) with w.
  - intros o. by apply ps_does_not_stop.
Qed.
End training.

(** ** The two families *)

Lemma crc32_array ws : exists c, Checksum.crc32 (Checksum.array_bytes ws) (length ws * 8) = Ok c.
Proof.
  unfold Checksum.crc32, read_at. rewrite decide_True by (rewrite length_array_bytes; lia).
  by eexists.
Qed.

Lemma lr_family_ok `{Libm, EigenSpec} rand n : 0 <= n -> n * 8 < 2 ^ 31 ->
  family_ok (lr_family rand n) (lr_shape n) (lr_gradient_shape n) lr_gradient_norm (n * 8) (n * 8 + 4).
Proof.
  intros Hn Hs. split; cbn.
  - by apply lr_model_codec_ok.
  - by apply lr_gradient_codec_ok.
  - rewrite lr_ctor_ok by done. eexists. split; [done|]. split_and!; cbn; [done| | |done].
    + rewrite length_replicate. lia.
    + by apply Forall_replicate.
  - intros m Hm. by apply lr_randomize_shape.
  - intros m Hm. unfold LRModel.checksum. destruct (crc32_array (LRModel.weights m)) as (c & ->).
    by eexists.
  - intros rate g m Hm [Hg _]. eexists. split; [by apply (lr_sgd_update n)|].
    eapply lr_sgd_update_shape; [done|done|by apply lr_sgd_update].
  - intros mat labels k eps m g Hm Hmat Hr Hg. by eapply lr_minibatch_shape.
  - done.
  - intros g. apply u32_range.
Qed.

Lemma sm_family_ok `{Libm, EigenSpec} rand nc n : sm_sizes nc n ->
  family_ok (sm_family rand nc n) (sm_shape nc n) (sm_gradient_shape nc n) sm_gradient_norm
    (n * nc * 8 + 16) (n * nc * 8 + 4).
Proof.
  intros Hs. split; cbn.
  - by apply sm_model_codec_ok.
  - by apply sm_gradient_codec_ok.
  - destruct Hs. apply sm_ctor_ok; lia.
  - intros m Hm. by apply sm_randomize_shape.
  - intros m _. unfold SoftmaxModel.checksum. generalize Double.zero.
    induction (SoftmaxModel.weights m) as [|v ws IH]; intros z; [by eexists|]. cbn [ofold].
    destruct (crc32_array v) as (c & ->). apply IH.
  - intros rate g m Hm Hg. eexists. split; [by apply (sm_sgd_update nc n)|].
    eapply sm_sgd_update_shape; [done|done|by apply sm_sgd_update].
  - intros mat labels k eps m g Hm Hmat Hr Hg. destruct Hs. by eapply sm_minibatch_shape.
  - done.
  - intros g. apply u32_range.
Qed.

(** ** The program *)

(** [MODEL_GRAD_SIZE], [features_per_sample] *)
Definition MODEL_GRAD_SIZE : Z := 28 * 28.

(** The part of [main] that sets the sizes: [samples_per_batch], [batch_size] and
    [num_classes] are of type [int]. *)
Definition program_task (config : Configuration.t) (nworkers : Z) : outcome (task * Z) :=
  let? _ := Configuration.print config in
  let? minibatch_size := Configuration.get_minibatch_size config in
  let samples_per_batch := i32 minibatch_size in
  let batch_size := samples_per_batch * MODEL_GRAD_SIZE in
  if negb ((- 2 ^ 31 <=? batch_size) && (batch_size <? 2 ^ 31)) then Undefined else
  let? num_classes := Configuration.get_num_classes config in
  Ok (mk_task 1000000000 3000000000 2000000000 0 (u64 batch_size) (u64 samples_per_batch)
        MODEL_GRAD_SIZE (u64 nworkers), u64 (i32 num_classes)).

(** All processes of the program on a server, in the order of [schedule]; the
    arguments are what the loader finds in the input file and the numbers of
    the generators. *)
Definition program `{Libm, Eigen} (mt_rand : nat -> Z) (heap : nat -> Z) (rand : nat -> nat)
    (file : option (list text)) (sched : list Input.actor) (config : Configuration.t)
    (nworkers : Z) (schedule : list nat) : outcome (pool (S := tstate (Mo := SoftmaxModel.t))) :=
  let? '(t, nclasses) := program_task config nworkers in
  let? learning_rate := Configuration.get_learning_rate config in
  let? minibatch_size := Configuration.get_minibatch_size config in
  let F := sm_family mt_rand nclasses MODEL_GRAD_SIZE in
  let nbatches := Configuration.get_num_samples config / minibatch_size in
  let loader := loading_task_softmax heap rand file sched config t in
  Ok (pool_run (task_body F t learning_rate (Configuration.get_epsilon config) nbatches) schedule
        (start_pool F t loader)).

(** The most batches whose ids stay apart. *)
Definition max_batches : Z := 999999999.

Lemma program_task_ok config nworkers t nclasses : program_task config nworkers = Ok (t, nclasses) ->
  0 <= nworkers <= 10 -> 0 < t.(samples_per_batch) -> t.(batch_size) * 8 < 2 ^ 31 ->
  sized t /\ placed t max_batches /\ t.(MLTasks.nworkers) <= 10.
Proof.
  intros Hpt Hw. unfold program_task in Hpt.
  apply outcome_bind_Ok_inv in Hpt as (_ & _ & Hpt).
  apply outcome_bind_Ok_inv in Hpt as (mb & _ & Hpt).
  destruct (negb _) eqn:Hb; [done|]. apply outcome_bind_Ok_inv in Hpt as (nc & _ & [= <- _]).
  cbn [samples_per_batch batch_size MLTasks.nworkers].
  apply negb_false_iff, andb_true_iff in Hb as [Hlo%Z.leb_le Hhi%Z.ltb_lt]. unfold MODEL_GRAD_SIZE in *.
  assert (Hneg : forall z, - 2 ^ 31 <= z < 0 -> u64 z = z + 2 ^ 64).
  { intros z Hz. unfold u64. rewrite <- (Z_mod_plus_full z 1). apply Z.mod_small. lia. }
  set (s := i32 mb) in *.
  intros Hs Hbytes. assert (H0 : 0 <= s).
  { destruct (decide (0 <= s)) as [|Hn]; [done|]. rewrite Hneg in Hbytes by lia. lia. }
  rewrite (u64_small s) in * by (unfold is_u64; lia).
  rewrite (u64_small (s * (28 * 28))) in * by (unfold is_u64; lia).
  rewrite (u64_small nworkers) in * by (unfold is_u64; lia).
  split_and!; [split; cbn; lia|split; unfold max_batches; cbn; lia|lia].
Qed.

(** C7: softmax training works under every interleaving of its processes.
    Whatever the order in which the requests of the parameter server, the loader,
    the error task and up to ten workers reach the store, the models that are
    published are those of a sequential trainer: each is the one before moved
    by a gradient that some worker had stored, and no version of a worker's
    gradients is used twice; the store holds the last of them; every model and
    every gradient that was stored has the right size and decodes; and the
    parameter server never stops. *)
Theorem training_protocol `{Libm, EigenSpec} mt_rand heap rand file sched config nworkers schedule
    t nclasses learning_rate :
  program_task config nworkers = Ok (t, nclasses) ->
  Configuration.get_learning_rate config = Ok learning_rate ->
  0 <= nworkers <= 10 -> 0 < t.(samples_per_batch) -> t.(batch_size) * 8 < 2 ^ 31 ->
  sm_sizes nclasses MODEL_GRAD_SIZE ->
  (forall ds, Input.read_input_csv heap rand file Input.space 1
     (Configuration.get_limit_cols config) true sched = Ok ds ->
     Dataset.check_values ds = Ok tt -> fits t max_batches ds) ->
  exists x, program mt_rand heap rand file sched config nworkers schedule = Ok x /\
    sequentially_trained (sm_family mt_rand nclasses MODEL_GRAD_SIZE) t learning_rate
      (sm_shape nclasses MODEL_GRAD_SIZE) (sm_gradient_shape nclasses MODEL_GRAD_SIZE) x.
Proof.
  intros Hpt Hrate Hw Hs Hb Hsz Hread.
  destruct (program_task_ok _ _ _ _ Hpt Hw Hs Hb) as (Ht & Hp & Hw').
  unfold program. rewrite Hpt. cbn [outcome_bind]. rewrite Hrate. cbn [outcome_bind].
  pose proof Hpt as Hpt'. apply outcome_bind_Ok_inv in Hpt' as (_ & _ & Hpt').
  apply outcome_bind_Ok_inv in Hpt' as (mb & -> & _). cbn [outcome_bind]. eexists. split; [done|].
  apply (family_training _ t _ _ _ _ _ _ _ _ _ (sm_family_ok mt_rand nclasses MODEL_GRAD_SIZE Hsz)
    max_batches); try done.
  intros tr. by apply loading_task_softmax_safe.
Qed.

(** ** An example *)

(** Two classes and one worker, with small sizes: the loader runs, the worker
    stores gradients with the versions 0 and 1, and the parameter server uses
    the second. *)
Definition demo_softmax : family SoftmaxModel.t SoftmaxGradient.t :=
  @sm_family demo_libm plain_eigen (fun k => Z.of_nat k) 2 2.
Definition demo_schedule : list nat :=
  (replicate 2 1 ++ replicate 6 2 ++ replicate 12 4 ++ replicate 5 1 ++ replicate 4 3)%nat.
Definition demo_pool : pool (S := tstate) :=
  pool_run (task_body demo_softmax demo_task Double.one (Ok Double.zero) 2) demo_schedule
    (start_pool demo_softmax demo_task (load_dataset demo_task demo_dataset)).

Example demo_training : fst <$> history demo_pool =
  [1000000000; 0; 3000000000; 1; 3000000001; 4000000000; 4000000000; 1000000000].
Proof. vm_compute. reflexivity. Qed.

(** The program itself, with an input file of one black image of class 1.  Its
    loader stops when it prints ten labels, the other processes go on. *)
Definition demo_config : Configuration.t :=
  Configuration.mk 0 1 Double.one Double.one 0 2 (Text.of_string "images.csv") [] [] []
    Configuration.SOFTMAX 0 true 1.
Definition demo_images : list text :=
  [Text.of_string "1" ++ concat (replicate 784 (Text.of_string " 0"))].
Definition demo_reading : list Input.actor :=
  [Input.Producer] ++ replicate 4 (Input.Thread 0) ++ [Input.Producer; Input.Thread 0].
Definition demo_image_data : Dataset.t :=
  Dataset.mk (Matrix.mk 1 784 (replicate 784 Double.zero) None) [Double.one].
Definition demo_program_task : task :=
  mk_task 1000000000 3000000000 2000000000 0 784 1 784 1.

Lemma demo_images_read : @Input.read_input_csv demo_libm (fun _ => 0) (fun k => k) (Some demo_images)
  Input.space 1 0 true demo_reading = Ok demo_image_data.
Proof. vm_compute. reflexivity. Qed.

Lemma demo_images_fit : fits demo_program_task max_batches demo_image_data.
Proof.
  split; [|reflexivity|..].
  - split; [|vm_compute; reflexivity]. split; vm_compute; (reflexivity || discriminate).
  - by apply Forall_replicate.
  - by apply Forall_cons_2.
  - vm_compute. discriminate.
  - vm_compute. reflexivity.
Qed.

Lemma training_protocol_witness : exists x,
  @program demo_libm plain_eigen (fun k => Z.of_nat k) (fun _ => 0) (fun k => k) (Some demo_images)
    demo_reading demo_config 1 demo_schedule = Ok x /\
  sequentially_trained (@sm_family demo_libm plain_eigen (fun k => Z.of_nat k) 2 MODEL_GRAD_SIZE)
    demo_program_task Double.one (sm_shape 2 MODEL_GRAD_SIZE) (sm_gradient_shape 2 MODEL_GRAD_SIZE) x.
Proof.
  apply (@training_protocol demo_libm plain_eigen plain_eigen_spec).
  - reflexivity.
  - reflexivity.
  - lia.
  - reflexivity.
  - reflexivity.
  - split; unfold MODEL_GRAD_SIZE; lia.
  - intros ds Hds _. pose proof (eq_trans (eq_sym demo_images_read) Hds) as He.
    apply Ok_inj in He. subst ds.
    exact demo_images_fit.
Defined.
