(* ===== verification/RDMAVerbs.v ===== *)
(** * The RDMA stack: records, messages and the server's allocator

    What the client and the servers of the RDMA stack share:
    common/AllocationRecord.h; the tables of
    common/schemas/BladeMessage.fbs and BladeObjectStoreMessage.fbs, whose
    generated code is a parameter ([RootTable]) as in Wire.v; Boost's
    [managed_external_buffer], a parameter with its contract
    ([ManagedBuffer], [ManagedBufferSpec]); and a memory region that is read
    and written remotely.  Concrete instances of both parameters come last. *)

From stdpp Require Import gmap list strings.
From S2P Require Import Prelude Common Wire Codec.

(** ** AllocationRecord.h *)

(** [alloc_id] is an [int]: the constructor converts. *)
Record AllocationRecord := mk_alloc_rec {
  alloc_id : Z;
  remote_addr : Z;
  peer_rkey : Z;
}.

Definition new_AllocationRecord (id addr rkey : Z) : AllocationRecord :=
  mk_alloc_rec (i32 id) addr rkey.

(** ** Messages *)

Module BladeMessage.
Inductive t : Type :=
| Alloc (size : Z)
| AllocAck (mr_id remote_addr peer_rkey : Z)
| Dealloc (addr : Z)
| DeallocAck (result : Z).

Definition fits (m : t) : Prop :=
  match m with
  | Alloc z | Dealloc z => is_u64 z
  | AllocAck a b c => is_u64 a /\ is_u64 b /\ is_u64 c
  | DeallocAck z => - 2 ^ 7 <= z < 2 ^ 7
  end.
End BladeMessage.

Module BladeObjectStoreMessage.
Inductive t : Type :=
| Alloc (size : Z)
| AllocAck (mr_id remote_addr peer_rkey : Z)
| Dealloc (addr : Z)
| DeallocAck (result : Z)
| KeepAlive (rand : Z)
| KeepAliveAck (rand : Z)
| Sub (oid : Z) (addr : bytes)
| SubAck (oid : Z)
| Flush (oid : Z)
| FlushAck (oid : Z)
| Lock (id : Z)
| LockAck (id : Z).
End BladeObjectStoreMessage.

(** [FlatBufferBuilder] and [Get<Root>] for the root table [T]: the finished
    buffer of a message and the message that a buffer starts with. *)
Class RootTable (T : Type) := {
  rt_encode : T -> bytes;
  rt_decode : bytes -> option T;
}.

(** A buffer is read by following offsets from its front, so that bytes behind
    it do not matter; the buffer of a message with at most three numbers is
    small. *)
Class BladeMessageSpec `{RootTable BladeMessage.t} := {
  bm_roundtrip m rest : BladeMessage.fits m ->
    rt_decode (rt_encode m ++ rest) = Some m;
  bm_small m : (length (rt_encode m) <= 1000)%nat;
}.

(** ** [boost::interprocess::managed_external_buffer] *)

(** [create_only] construction over [[addr, addr + size)]; [allocate]
    ([None]: it throws [bad_alloc]); [deallocate]. *)
Class ManagedBuffer := {
  mb : Type;
  mb_create : Z -> Z -> option mb;
  mb_allocate : Z -> mb -> option (Z * mb);
  mb_deallocate : Z -> mb -> outcome mb;
}.

Definition disjoint_blocks (a n a' n' : Z) : Prop := a + n <= a' \/ a' + n' <= a.

#[global] Instance disjoint_blocks_dec a n a' n' :
  Decision (disjoint_blocks a n a' n').
Proof. unfold disjoint_blocks. apply _. Defined.

(** The documented contract: [allocate] hands out blocks of the buffer that do
    not overlap a block in use ([mb_live]: the address and size of those); the
    block handed to [deallocate] must be one of them. *)
Class ManagedBufferSpec `{ManagedBuffer} := {
  mb_live : mb -> gmap Z Z;
  mb_wf : Z -> Z -> mb -> Prop;
  mb_create_spec base size b :
    mb_create base size = Some b -> mb_wf base size b /\ mb_live b = ∅;
  mb_allocate_spec base size b n a b' : 0 <= n ->
    mb_wf base size b -> mb_allocate n b = Some (a, b') ->
    mb_wf base size b' /\ mb_live b !! a = None /\
    mb_live b' = <[a := n]> (mb_live b) /\ base <= a /\ a + n <= base + size /\
    (forall a' n', mb_live b !! a' = Some n' -> disjoint_blocks a n a' n');
  mb_deallocate_spec base size b a n :
    mb_wf base size b -> mb_live b !! a = Some n ->
    exists b', mb_deallocate a b = Ok b' /\ mb_wf base size b' /\
      mb_live b' = delete a (mb_live b);
}.

(** ** A memory region with remote access *)

Module Region.
(** The bytes of a registered region and the address of the first one. *)
Record t := mk { base : Z; data : bytes; rkey : Z }.

Definition size (r : t) : Z := Z.of_nat (length r.(data)).

Definition covers (r : t) (addr len : Z) : Prop :=
  r.(base) <= addr /\ addr + len <= r.(base) + size r.

#[global] Instance covers_dec r addr len : Decision (covers r addr len).
Proof. unfold covers. apply _. Defined.

Definition load (r : t) (addr : Z) (n : nat) : bytes :=
  take n (drop (Z.to_nat (addr - r.(base))) r.(data)).

Definition store (r : t) (addr : Z) (bs : bytes) : t :=
  let off := Z.to_nat (addr - r.(base)) in
  mk r.(base) (take off r.(data) ++ bs ++ drop (off + length bs) r.(data)) r.(rkey).

Lemma size_store r addr bs : covers r addr (Z.of_nat (length bs)) ->
  size (store r addr bs) = size r.
Proof.
  intros [Hb He]. unfold size, store in *. cbn [data].
  rewrite !length_app, length_take, length_drop. lia.
Qed.

Lemma covers_store r addr bs addr' len :
  covers r addr (Z.of_nat (length bs)) ->
  covers (store r addr bs) addr' len <-> covers r addr' len.
Proof. intros Hc. unfold covers. rewrite size_store by done. done. Qed.

Lemma length_load r addr n : covers r addr (Z.of_nat n) ->
  length (load r addr n) = n.
Proof.
  intros [Hb He]. unfold load, size in *. rewrite length_take, length_drop. lia.
Qed.

Lemma load_store_same r addr bs : covers r addr (Z.of_nat (length bs)) ->
  load (store r addr bs) addr (length bs) = bs.
Proof.
  intros [Hb He]. unfold load, store, size in *. cbn [data base].
  rewrite drop_app_length' by (rewrite length_take; lia).
  by rewrite take_app_length.
Qed.

Lemma load_store_other r addr bs addr' n :
  covers r addr (Z.of_nat (length bs)) -> covers r addr' (Z.of_nat n) ->
  disjoint_blocks addr (Z.of_nat (length bs)) addr' (Z.of_nat n) ->
  load (store r addr bs) addr' n = load r addr' n.
Proof.
  intros [Hb He] [Hb' He'] Hd. unfold load, store, size in *. cbn [data base].
  apply list_eq. intros i. destruct (decide (i < n)%nat) as [Hi|Hi].
  2: { rewrite !lookup_take_ge by lia. done. }
  rewrite !lookup_take_lt, !lookup_drop by lia. destruct Hd as [Hd|Hd].
  - rewrite lookup_app_r by (rewrite length_take; lia).
    rewrite lookup_app_r by (rewrite length_take; lia).
    rewrite lookup_drop. f_equal. rewrite length_take. lia.
  - rewrite lookup_app_l by (rewrite length_take; lia).
    rewrite lookup_take_lt by lia. done.
Qed.
End Region.

(** ** Instances *)

Module BladeCodec.
Import Codec.

Definition encode (m : BladeMessage.t) : bytes :=
  match m with
  | BladeMessage.Alloc z => x01 :: le_bytes 8 z
  | BladeMessage.AllocAck a b c => x02 :: le_bytes 8 a ++ le_bytes 8 b ++ le_bytes 8 c
  | BladeMessage.Dealloc z => x03 :: le_bytes 8 z
  | BladeMessage.DeallocAck z => x04 :: le_bytes 8 (z + 2 ^ 7)
  end.

Definition decode (bs : bytes) : option BladeMessage.t :=
  '(tag, bs) ← get_byte bs;
  match tag with
  | x01 => '(z, _) ← get_u64 bs; Some (BladeMessage.Alloc z)
  | x02 => '(a, bs) ← get_u64 bs; '(b, bs) ← get_u64 bs; '(c, _) ← get_u64 bs;
           Some (BladeMessage.AllocAck a b c)
  | x03 => '(z, _) ← get_u64 bs; Some (BladeMessage.Dealloc z)
  | x04 => '(z, _) ← get_u64 bs; Some (BladeMessage.DeallocAck (z - 2 ^ 7))
  | _ => None
  end.

#[global] Instance table : RootTable BladeMessage.t :=
  { rt_encode := encode; rt_decode := decode }.

#[global] Instance table_spec : BladeMessageSpec.
Proof.
  split.
  - intros [z|a b c|z|z] rest Hf; cbn in Hf |- *; unfold decode;
      cbn [get_byte mbind option_bind].
    + by rewrite get_u64_fits.
    + destruct Hf as (Ha & Hb & Hc). rewrite <- app_assoc, get_u64_fits by done.
      cbn. rewrite <- app_assoc, get_u64_fits by done. cbn.
      by rewrite get_u64_fits.
    + by rewrite get_u64_fits.
    + rewrite get_u64_fits by (unfold is_u64; lia). cbn. do 2 f_equal. lia.
  - intros [] ; cbn; rewrite ?length_app, ?length_le_bytes; lia.
Qed.
End BladeCodec.

(** First fit: the lowest address, at the start of the buffer or at the end of
    a block, where the new block fits.  Blocks take at least one byte. *)
Module FirstFit.
Record t := mk { ff_base : Z; ff_size : Z; ff_live : gmap Z Z }.

Definition extent (n : Z) : Z := Z.max 1 n.

Definition fits (b : t) (n a : Z) : bool :=
  bool_decide (b.(ff_base) <= a /\ a + extent n <= b.(ff_base) + b.(ff_size) /\
    map_Forall (fun a' n' => disjoint_blocks a (extent n) a' (extent n')) b.(ff_live)).

Definition candidates (b : t) : list Z :=
  b.(ff_base) :: ((fun '(a, n) => a + extent n) <$> map_to_list b.(ff_live)).

#[global] Instance buffer : ManagedBuffer := {
  mb := t;
  mb_create base size := Some (mk base size ∅);
  mb_allocate n b :=
    a ← head (filter (fun a => fits b n a = true) (candidates b));
    Some (a, mk b.(ff_base) b.(ff_size) (<[a := n]> b.(ff_live)));
  mb_deallocate a b :=
    match b.(ff_live) !! a with
    | Some _ => Ok (mk b.(ff_base) b.(ff_size) (delete a b.(ff_live)))
    | None => Undefined
    end;
}.

#[global] Program Instance buffer_spec : ManagedBufferSpec := {
  mb_live := ff_live;
  mb_wf base size b := ff_base b = base /\ ff_size b = size;
}.
Next Obligation. intros base size b [= <-]. done. Qed.
Next Obligation.
  intros base size b n a b' Hn [Hb Hs] Ha. cbn [mb_allocate buffer] in Ha.
  apply bind_Some in Ha as (x & Hx & [= <- <-]). cbn.
  apply head_Some_elem_of, list_elem_of_filter in Hx as [Hf _].
  apply bool_decide_eq_true in Hf as (H1 & H2 & H3). unfold extent in *.
  split_and!; [done|done| |done|lia|lia|].
  - destruct (ff_live b !! x) as [n'|] eqn:Hl; [|done].
    specialize (H3 x n' Hl). unfold disjoint_blocks in H3. lia.
  - intros a' n' Hl. specialize (H3 a' n' Hl). unfold disjoint_blocks in *. lia.
Qed.
Next Obligation.
  intros base size b a n [Hb Hs] Hl. cbn. rewrite Hl. eauto.
Qed.
End FirstFit.
