(* ===== verification/RDMAServer.v ===== *)
(** * The RDMA servers ([src/server])

    RDMAServer.cpp with ConnectionContext.cpp: the event loop that accepts
    connections, the receive requests that it keeps posted, and the dispatch of
    a received message to the derived class (BladeServers.v).

    The calls of rdmacm and ibverbs are parameters: [fails] says which of them
    report an error.  [TEST_NZ] and [TEST_Z] end the process then. *)

From stdpp Require Import gmap list strings.
From S2P Require Import Prelude Common RDMAVerbs.

(** ** Verbs and events *)

(** The library calls whose result the code tests. *)
Inductive verb :=
| rdma_create_event_channel | rdma_create_id | rdma_bind_addr | rdma_listen
| ibv_alloc_pd | ibv_create_comp_channel | ibv_create_cq | ibv_req_notify_cq
| rdma_create_qp | posix_memalign | ibv_reg_mr | rdma_resolve_route
| rdma_connect | rdma_accept | ibv_post_recv | ibv_post_send | ibv_dereg_mr
| getaddrinfo | rdma_resolve_addr.

(** [event_copy.event]. *)
Inductive cm_event_type :=
| ADDR_RESOLVED | ADDR_ERROR | ROUTE_RESOLVED | ROUTE_ERROR | CONNECT_REQUEST
| CONNECT_RESPONSE | CONNECT_ERROR | UNREACHABLE | REJECTED | ESTABLISHED
| DISCONNECTED | DEVICE_REMOVAL | MULTICAST_JOIN | MULTICAST_ERROR
| ADDR_CHANGE | TIMEWAIT_EXIT | UNKNOWN_EVENT.

#[global] Instance cm_event_type_eq_dec : EqDecision cm_event_type.
Proof. solve_decision. Defined.

Record cm_event := mk_event { ev_type : cm_event_type; ev_id : Z }.

(** Opcode and status of a work completion. *)
Inductive wc_opcode := IBV_WC_RECV | IBV_WC_SEND | IBV_WC_RDMA_READ
  | IBV_WC_RDMA_WRITE | IBV_WC_OTHER.

#[global] Instance wc_opcode_eq_dec : EqDecision wc_opcode.
Proof. solve_decision. Defined.

Module RDMAServer.

Definition RECV_MSG_SIZE : Z := 10000.
Definition SEND_MSG_SIZE : Z := 10000.
Definition NUM_BACKLOG : Z := 10.

(** [class ConnectionContext]: its number, whether its two buffers are
    registered, and whether it is tied to a server. *)
Record ConnectionContext := mk_ctx {
  context_id_ : Z;
  recv_msg_mr : bool;
  send_msg_mr : bool;
  ctx_server : bool;
}.

(** An [rdma_cm_id]: the position in [conns_] of the context its [context]
    points to, whether it has a queue pair, how many receive requests are
    posted on it, and the messages that were sent over it. *)
Record cm_id := mk_id {
  id_context : option nat;
  id_qp : bool;
  id_recvs : nat;
  id_sent : list bytes;
}.

Definition fresh_id : cm_id := mk_id None false 0 [].

(** [derived]: the members of the derived class.  [gen_ctx_] stands for the
    protection domain, the completion queue and the polling thread, which
    [build_gen_context] makes; [ids] for the connection ids that exist. *)
Record t (D : Type) := mk {
  conns_ : list ConnectionContext;
  ids : gmap Z cm_id;
  ec_ : bool;
  gen_ctx_ : bool;
  id_count_ : Z;
  derived : D;
}.
#[global] Arguments mk {D} _ _ _ _ _ _.
#[global] Arguments conns_ {D} _.
#[global] Arguments ids {D} _.
#[global] Arguments ec_ {D} _.
#[global] Arguments gen_ctx_ {D} _.
#[global] Arguments id_count_ {D} _.
#[global] Arguments derived {D} _.

Section server.
Context {D : Type}.

Definition set_conns l (s : t D) := mk l s.(ids) s.(ec_) s.(gen_ctx_) s.(id_count_) s.(derived).
Definition set_ids m (s : t D) := mk s.(conns_) m s.(ec_) s.(gen_ctx_) s.(id_count_) s.(derived).
Definition set_ec b (s : t D) := mk s.(conns_) s.(ids) b s.(gen_ctx_) s.(id_count_) s.(derived).
Definition set_gen_ctx b (s : t D) := mk s.(conns_) s.(ids) s.(ec_) b s.(id_count_) s.(derived).
Definition set_id_count z (s : t D) := mk s.(conns_) s.(ids) s.(ec_) s.(gen_ctx_) z s.(derived).
Definition set_derived (d : D) (s : t D) := mk s.(conns_) s.(ids) s.(ec_) s.(gen_ctx_) s.(id_count_) d.

Context (fails : t D -> verb -> bool).
(** [virtual void process_message(rdma_cm_id*, void* msg) = 0]. *)
Context (process_message : Z -> bytes -> M (t D) unit).

(** [TEST_NZ(call)] and [TEST_Z(p = call)]. *)
Definition test (v : verb) : M (t D) unit :=
  let* s := gets id in if fails s v then stop Exited else ret tt.

(** [RDMAServer(port, timeout_ms)]. *)
Definition construct (d : D) : t D := mk [] ∅ false false 0 d.

(** [init]: the listening id is not in the model. *)
Definition init : M (t D) unit :=
  test rdma_create_event_channel ;;;
  modify (set_ec true) ;;;
  test rdma_create_id ;;;
  test rdma_bind_addr ;;;
  test rdma_listen.

(** [*id]: an id that was destroyed is undefined. *)
Definition deref_id (i : Z) : M (t D) cm_id :=
  let* s := gets id in
  match s.(ids) !! i with Some x => ret x | None => undefined end.

Definition update_id (i : Z) (f : cm_id -> cm_id) : M (t D) unit :=
  modify (fun s => set_ids (alter f i s.(ids)) s).

(** [id->context], dereferenced. *)
Definition deref_context (i : Z) : M (t D) (nat * ConnectionContext) :=
  let* x := deref_id i in
  let* s := gets id in
  match x.(id_context) with
  | Some k => match s.(conns_) !! k with Some c => ret (k, c) | None => undefined end
  | None => undefined
  end.

(** [send_message(id, size)] with the message copied to [ctx->send_msg]
    before it: [memcpy] past the buffer is undefined, [send_msg_mr->lkey] too
    when there is no region. *)
Definition send_message (i : Z) (msg : bytes) : M (t D) unit :=
  let* '(_, c) := deref_context i in
  if Z.of_nat (length msg) <=? SEND_MSG_SIZE then
    if c.(send_msg_mr) then
      test ibv_post_send ;;;
      update_id i (fun x => mk_id x.(id_context) x.(id_qp) x.(id_recvs)
                              (x.(id_sent) ++ [msg]))
    else undefined
  else undefined.

Definition post_msg_receive (i : Z) : M (t D) unit :=
  let* '(_, c) := deref_context i in
  if c.(recv_msg_mr) then
    test ibv_post_recv ;;;
    update_id i (fun x => mk_id x.(id_context) x.(id_qp) (S x.(id_recvs)) x.(id_sent))
  else undefined.

(** [build_gen_context]. *)
Definition build_gen_context : M (t D) unit :=
  test ibv_alloc_pd ;;;
  test ibv_create_comp_channel ;;;
  test ibv_create_cq ;;;
  test ibv_req_notify_cq ;;;
  modify (set_gen_ctx true).

(** [std::call_once(gen_ctx_flag, ...)], then the queue pair. *)
Definition build_connection (i : Z) : M (t D) unit :=
  let* s := gets id in
  (if s.(gen_ctx_) then ret tt else build_gen_context) ;;;
  test rdma_create_qp ;;;
  let* _ := deref_id i in
  update_id i (fun x => mk_id x.(id_context) true x.(id_recvs) x.(id_sent)).

Fixpoint post_receives (n : nat) (i : Z) : M (t D) unit :=
  match n with
  | O => ret tt
  | S n => post_msg_receive i ;;; post_receives n i
  end.

Definition handle_established (i : Z) : M (t D) unit := post_receives 4 i.

Definition handle_connection (_ : Z) : M (t D) unit := ret tt.
Definition handle_disconnection (_ : Z) : M (t D) unit := ret tt.

(** [handle_disconnected]: deregisters both buffers of the context. *)
Definition handle_disconnected (i : Z) : M (t D) unit :=
  let* '(k, c) := deref_context i in
  modify (fun s => set_conns
    (<[k := mk_ctx c.(context_id_) false false c.(ctx_server)]> s.(conns_)) s).

(** [new ConnectionContext]: the number is [id_count_++], which is 64 bits wide,
    converted to an [int]. *)
Definition new_ConnectionContext : M (t D) ConnectionContext :=
  let* s := gets id in
  modify (set_id_count (u64 (s.(id_count_) + 1))) ;;;
  ret (mk_ctx (i32 s.(id_count_)) false false false).

Definition create_connection_context (i : Z) : M (t D) unit :=
  let* c := new_ConnectionContext in
  let* s := gets id in
  let k := length s.(conns_) in
  let* _ := deref_id i in
  modify (fun s => set_conns
    (s.(conns_) ++ [mk_ctx c.(context_id_) false false true]) s) ;;;
  update_id i (fun x => mk_id (Some k) x.(id_qp) x.(id_recvs) x.(id_sent)) ;;;
  test posix_memalign ;;;
  test ibv_reg_mr ;;;
  modify (fun s => set_conns (<[k := mk_ctx c.(context_id_) true false true]> s.(conns_)) s) ;;;
  test posix_memalign ;;;
  test ibv_reg_mr ;;;
  modify (fun s => set_conns (<[k := mk_ctx c.(context_id_) true true true]> s.(conns_)) s).

(** [on_completion] of a completion with status [IBV_WC_SUCCESS] for the id
    [i]; for a receive, [msg] are the bytes in [recv_msg].  The completed
    receive request is no longer posted. *)
Definition on_completion (i : Z) (opcode : wc_opcode) (msg : bytes) : M (t D) unit :=
  let* '(_, c) := deref_context i in
  match opcode with
  | IBV_WC_RECV =>
      update_id i (fun x => mk_id x.(id_context) x.(id_qp) (pred x.(id_recvs)) x.(id_sent)) ;;;
      post_msg_receive i ;;;
      if c.(ctx_server) then process_message i msg else undefined
  | IBV_WC_SEND => ret tt
  | _ => stop Exited
  end.

(** One completion that [poll_cq] takes from the queue; one with another
    status is only reported. *)
Definition poll_cq_one (i : Z) (success : bool) (opcode : wc_opcode) (msg : bytes) :
    M (t D) unit :=
  if success then on_completion i opcode msg else ret tt.

(** The [switch] of [loop].  A connection request comes with a new id. *)
Definition handle_event (ev : cm_event) : M (t D) unit :=
  let i := ev.(ev_id) in
  match ev.(ev_type) with
  | ADDR_RESOLVED =>
      build_connection i ;;; create_connection_context i ;;; test rdma_resolve_route
  | ROUTE_RESOLVED => test rdma_connect
  | CONNECT_REQUEST =>
      modify (fun s => set_ids (<[i := fresh_id]> s.(ids)) s) ;;;
      build_connection i ;;; create_connection_context i ;;; test rdma_accept
  | ESTABLISHED => handle_established i ;;; handle_connection i
  | DISCONNECTED =>
      handle_disconnection i ;;;
      let* _ := deref_id i in
      update_id i (fun x => mk_id x.(id_context) false x.(id_recvs) x.(id_sent)) ;;;
      handle_disconnected i ;;;
      modify (fun s => set_ids (delete i s.(ids)) s)
  | ADDR_ERROR | ROUTE_ERROR | CONNECT_RESPONSE | CONNECT_ERROR | UNREACHABLE
  | REJECTED | DEVICE_REMOVAL | MULTICAST_JOIN | MULTICAST_ERROR | ADDR_CHANGE
  | TIMEWAIT_EXIT => ret tt
  | UNKNOWN_EVENT => stop Exited
  end.

(** [loop]: until [rdma_get_cm_event] reports an error, after [events]. *)
Definition loop (events : list cm_event) : M (t D) unit := mfor events handle_event.

(** What happens to a server: an event for [loop] or a completion for the
    polling thread. *)
Inductive input :=
| Event (ev : cm_event)
| Completion (i : Z) (success : bool) (opcode : wc_opcode) (msg : bytes).

Definition handle (x : input) : M (t D) unit :=
  match x with
  | Event ev => handle_event ev
  | Completion i b o msg => poll_cq_one i b o msg
  end.

(** *** What rdmacm promises *)

(** How far the connection of an id has come. *)
Inductive phase := Requested | Connected.

#[global] Instance phase_eq_dec : EqDecision phase.
Proof. solve_decision. Defined.

(** The order in which a listening server sees events: a request brings an id
    that is not in use, is followed by at most one ESTABLISHED, and
    DISCONNECTED ends a connection; messages arrive on connections. *)
Definition allows (ph : gmap Z phase) (x : input) : option (gmap Z phase) :=
  match x with
  | Event (mk_event CONNECT_REQUEST i) =>
      match ph !! i with None => Some (<[i := Requested]> ph) | _ => None end
  | Event (mk_event ESTABLISHED i) =>
      match ph !! i with Some Requested => Some (<[i := Connected]> ph) | _ => None end
  | Event (mk_event DISCONNECTED i) =>
      match ph !! i with Some Connected => Some (delete i ph) | _ => None end
  | Event (mk_event (ADDR_RESOLVED | ROUTE_RESOLVED | UNKNOWN_EVENT) _) => None
  | Event _ => Some ph
  | Completion i true (IBV_WC_RECV | IBV_WC_SEND) _ =>
      match ph !! i with Some Connected => Some ph | _ => None end
  | Completion _ true _ _ => None
  | Completion _ false _ _ => Some ph
  end.

Fixpoint allows_all (ph : gmap Z phase) (l : list input) : option (gmap Z phase) :=
  match l with
  | [] => Some ph
  | x :: l => ph' ← allows ph x; allows_all ph' l
  end.

Definition recvs_of (p : phase) : nat :=
  match p with Requested => 0 | Connected => 4 end.

(** The id [i] in phase [p]: its own context, with both buffers registered and
    tied to the server, a queue pair, and the receive requests of its phase. *)
Definition id_ok (s : t D) (p : phase) (x : cm_id) : Prop :=
  exists k c, x.(id_context) = Some k /\ s.(conns_) !! k = Some c /\
    c.(recv_msg_mr) = true /\ c.(send_msg_mr) = true /\ c.(ctx_server) = true /\
    x.(id_qp) = true /\ x.(id_recvs) = recvs_of p.

(** No connection id points to the context at [k]: its connection has ended. *)
Definition unused (s : t D) (k : nat) : Prop :=
  forall i x, s.(ids) !! i = Some x -> x.(id_context) <> Some k.

Record server_ok (ph : gmap Z phase) (s : t D) : Prop := {
  ok_ids i p : ph !! i = Some p -> exists x, s.(ids) !! i = Some x /\ id_ok s p x;
  ok_dom i : ph !! i = None -> s.(ids) !! i = None;
  ok_own i j x y : s.(ids) !! i = Some x -> s.(ids) !! j = Some y ->
    x.(id_context) = y.(id_context) -> i = j;
  ok_ended k c : s.(conns_) !! k = Some c -> unused s k ->
    c.(recv_msg_mr) = false /\ c.(send_msg_mr) = false;
  ok_numbers k c : s.(conns_) !! k = Some c -> c.(context_id_) = i32 (Z.of_nat k);
  ok_count : s.(id_count_) = Z.of_nat (length s.(conns_));
  ok_gen : s.(conns_) <> [] -> s.(gen_ctx_) = true;
}.

Definition add_sent (msgs : list bytes) (x : cm_id) : cm_id :=
  mk_id x.(id_context) x.(id_qp) x.(id_recvs) (x.(id_sent) ++ msgs).

(** What a handler may do to the server: change its own members and send. *)
Definition handler_effect (i : Z) (s s' : t D) : Prop :=
  exists d msgs, s' = set_derived d (set_ids (alter (add_sent msgs) i s.(ids)) s).

Definition is_request (x : input) : bool :=
  match x with Event (mk_event CONNECT_REQUEST _) => true | _ => false end.

Definition is_receive (x : input) : bool :=
  match x with Completion _ true IBV_WC_RECV _ => true | _ => false end.

Definition requests (l : list input) : nat := length (List.filter is_request l).

(** *** Lemmas *)

Lemma deref_id_ok i x (s : t D) : s.(ids) !! i = Some x ->
  deref_id i s = (s, Ok x).
Proof. intros Hx. unfold deref_id, bind, gets, id. by rewrite Hx. Qed.

Lemma deref_context_ok i x k c (s : t D) : s.(ids) !! i = Some x ->
  x.(id_context) = Some k -> s.(conns_) !! k = Some c ->
  deref_context i s = (s, Ok (k, c)).
Proof.
  intros Hx Hk Hc. unfold deref_context. mstep (deref_id_ok i x s Hx).
  unfold bind, gets, id. by rewrite Hk, Hc.
Qed.

(** Changing an id without its context and its queue pair. *)
Lemma server_ok_alter ph (s : t D) i p p' f :
  server_ok ph s -> ph !! i = Some p ->
  (forall x, id_context (f x) = id_context x /\ id_qp (f x) = id_qp x) ->
  (forall x, id_recvs x = recvs_of p -> id_recvs (f x) = recvs_of p') ->
  server_ok (<[i := p']> ph) (set_ids (alter f i s.(ids)) s).
Proof.
  intros Hs Hp Hf Hr. destruct (ok_ids _ _ Hs i p Hp) as (x & Hx & k & c & H1 & H2 & H3).
  split; cbn [set_ids conns_ ids id_count_ gen_ctx_]; try apply Hs.
  - intros j q Hq. destruct (decide (i = j)) as [<-|Hne].
    + rewrite lookup_insert_eq in Hq. injection Hq as <-. exists (f x).
      rewrite lookup_alter_eq, Hx. split; [done|].
      destruct (Hf x) as [Hc Hqp]. exists k, c. rewrite Hc, Hqp.
      destruct H3 as (? & ? & ? & ? & ?). eauto 10.
    + rewrite lookup_insert_ne in Hq by done.
      rewrite lookup_alter_ne by done. apply (ok_ids _ _ Hs j q Hq).
  - intros j Hq. destruct (decide (i = j)) as [<-|Hne].
    + by rewrite lookup_insert_eq in Hq.
    + rewrite lookup_insert_ne in Hq by done.
      rewrite lookup_alter_ne by done. by apply (ok_dom _ _ Hs).
  - assert (Hback : forall j y, alter f i s.(ids) !! j = Some y ->
      exists y', s.(ids) !! j = Some y' /\ id_context y' = id_context y).
    { intros j y Hy. destruct (decide (i = j)) as [<-|Hne].
      - rewrite lookup_alter_eq, Hx in Hy. injection Hy as <-.
        exists x. by rewrite (proj1 (Hf x)).
      - rewrite lookup_alter_ne in Hy by done. eauto. }
    intros j j' y y' Hy Hy' Heq. apply Hback in Hy as (z & Hz & Hz').
    apply Hback in Hy' as (z2 & Hz2 & Hz2').
    apply (ok_own _ _ Hs j j' z z2 Hz Hz2). congruence.
  - intros k' c' Hk' Hun. apply (ok_ended _ _ Hs k' c' Hk'). intros j y Hy Hctx.
    destruct (decide (i = j)) as [<-|Hne].
    + apply (Hun i (f y)); [cbn; by rewrite lookup_alter_eq, Hy|].
      by rewrite (proj1 (Hf y)).
    + apply (Hun j y); [cbn; by rewrite lookup_alter_ne|done].
Qed.

Lemma server_ok_derived ph (s : t D) d : server_ok ph s -> server_ok ph (set_derived d s).
Proof. intros Hs. split; apply Hs. Qed.

Lemma handler_effect_ok ph (s s' : t D) i :
  server_ok ph s -> ph !! i = Some Connected -> handler_effect i s s' ->
  server_ok ph s' /\ s'.(conns_) = s.(conns_) /\ s'.(id_count_) = s.(id_count_).
Proof.
  intros Hs Hi (d & msgs & ->). split; [|done]. apply server_ok_derived.
  rewrite <- (insert_id ph i Connected Hi). by apply (server_ok_alter ph s i Connected).
Qed.

(** The calls of the library succeed. *)
Section no_failure.
Context (Hv : forall s v, fails s v = false).

Lemma test_ok v (s : t D) : test v s = (s, Ok tt).
Proof. unfold test, bind, gets, id. by rewrite Hv. Qed.

Ltac tstep := rewrite (bind_ok _ _ _ _ _ (test_ok _ _)).

Definition add_recvs (n : nat) (x : cm_id) : cm_id :=
  mk_id x.(id_context) x.(id_qp) (n + x.(id_recvs)) x.(id_sent).

Lemma post_receives_ok n i x k c (s : t D) : s.(ids) !! i = Some x ->
  x.(id_context) = Some k -> s.(conns_) !! k = Some c -> c.(recv_msg_mr) = true ->
  post_receives n i s = (set_ids (alter (add_recvs n) i s.(ids)) s, Ok tt).
Proof.
  revert x s. induction n as [|n IH]; intros x s Hx Hk Hc Hm.
  - cbn. unfold ret. destruct s as [cs m e g z d]. cbn in *. do 2 f_equal.
    unfold set_ids. cbn. f_equal. symmetry.
    apply alter_id. intros y _. by destruct y.
  - cbn [post_receives]. unfold post_msg_receive. rewrite <- bind_assoc.
    mstep (deref_context_ok i x k c s Hx Hk Hc). rewrite Hm. rewrite <- bind_assoc.
    mstep (test_ok ibv_post_recv s). unfold update_id.
    unfold bind at 1, modify.
    rewrite (IH (add_recvs 1 x));
      [|cbn [set_ids ids]; by rewrite lookup_alter_eq, Hx|done|done|done].
    cbn [set_ids ids]. rewrite alter_alter. unfold set_ids. cbn.
    by rewrite (alter_ext _ (add_recvs (S n)))
      by (intros y _; unfold add_recvs; cbn; f_equal; lia).
Qed.

Lemma post_msg_receive_ok i x k c (s : t D) : s.(ids) !! i = Some x ->
  x.(id_context) = Some k -> s.(conns_) !! k = Some c -> c.(recv_msg_mr) = true ->
  post_msg_receive i s = (set_ids (alter (add_recvs 1) i s.(ids)) s, Ok tt).
Proof.
  intros Hx Hk Hc Hm. pose proof (post_receives_ok 1 i x k c s Hx Hk Hc Hm) as H1.
  cbn [post_receives] in H1. unfold bind, ret in H1.
  destruct (post_msg_receive i s) as [s' [[]| | | | |]]; congruence.
Qed.

Lemma send_message_ok i x k c msg (s : t D) : s.(ids) !! i = Some x ->
  x.(id_context) = Some k -> s.(conns_) !! k = Some c -> c.(send_msg_mr) = true ->
  Z.of_nat (length msg) <= SEND_MSG_SIZE ->
  send_message i msg s = (set_ids (alter (add_sent [msg]) i s.(ids)) s, Ok tt).
Proof.
  intros Hx Hk Hc Hm Hl. unfold send_message.
  mstep (deref_context_ok i x k c s Hx Hk Hc).
  rewrite (proj2 (Z.leb_le _ _) Hl), Hm. mstep (test_ok ibv_post_send s). done.
Qed.

(** The state after a connection request for [i]. *)
Definition requested (i : Z) (s : t D) : t D :=
  mk (s.(conns_) ++ [mk_ctx (i32 s.(id_count_)) true true true])
     (<[i := mk_id (Some (length s.(conns_))) true 0 []]> s.(ids))
     s.(ec_) true (u64 (s.(id_count_) + 1)) s.(derived).

Lemma insert_last {A} (l : list A) x y : <[length l := y]> (l ++ [x]) = l ++ [y].
Proof. rewrite insert_app_r_alt by lia. by rewrite Nat.sub_diag. Qed.

Lemma connect_request_ok i (s : t D) :
  handle_event (mk_event CONNECT_REQUEST i) s = (requested i s, Ok tt).
Proof.
  unfold handle_event. cbn [ev_type ev_id]. unfold bind at 1, modify at 1.
  set (s1 := set_ids _ s).
  assert (Hb : build_connection i s1 =
    (set_ids (<[i := mk_id None true 0 []]> s.(ids)) (set_gen_ctx true s), Ok tt)).
  { unfold build_connection, bind at 1, gets, id.
    assert (Hg : (if gen_ctx_ s1 then ret tt else build_gen_context) s1 =
      (set_gen_ctx true s1, Ok tt)).
    { destruct s as [cs m e [] z d]; cbn; [done|]. unfold build_gen_context.
      by rewrite !(bind_ok _ _ _ _ _ (test_ok _ _)). }
    mstep Hg. mstep (test_ok rdma_create_qp (set_gen_ctx true s1)).
    erewrite bind_ok by (apply deref_id_ok; cbn; apply lookup_insert_eq).
    unfold update_id, modify. destruct s as [cs m e g z d]. cbn.
    unfold set_ids; cbn. do 2 f_equal. f_equal.
    by rewrite alter_insert_eq. }
  mstep Hb. unfold create_connection_context.
  set (s2 := set_ids _ _). cbn [new_ConnectionContext].
  unfold new_ConnectionContext. rewrite <- !bind_assoc.
  unfold bind at 1, gets, id. rewrite <- !bind_assoc.
  unfold bind at 1, modify at 1. unfold bind at 1, ret. rewrite <- !bind_assoc.
  unfold bind at 1. rewrite <- !bind_assoc.
  erewrite bind_ok by (apply deref_id_ok; cbn; apply lookup_insert_eq).
  rewrite <- !bind_assoc. unfold bind at 1, modify at 1. rewrite <- !bind_assoc.
  unfold bind at 1, update_id, modify at 1. rewrite <- !bind_assoc.
  tstep. rewrite <- !bind_assoc. tstep. rewrite <- !bind_assoc.
  unfold bind at 1, modify at 1. rewrite <- !bind_assoc.
  tstep. rewrite <- !bind_assoc. tstep. unfold bind at 1, modify at 1.
  rewrite test_ok. destruct s as [cs m e g z d]. unfold s2, requested, set_ids, set_conns.
  cbn. by rewrite !insert_last, alter_insert_eq.
Qed.
Lemma requested_ok ph (s : t D) i :
  server_ok ph s -> ph !! i = None -> s.(id_count_) + 1 < 2 ^ 64 ->
  server_ok (<[i := Requested]> ph) (requested i s).
Proof.
  intros Hs Hi Hc. pose proof (ok_dom _ _ Hs i Hi) as Hid.
  assert (Hold : forall p x, id_ok s p x -> id_ok (requested i s) p x).
  { intros p x (k & c & H1 & H2 & H3). exists k, c. split_and!; [done| |apply H3..].
    cbn. by apply lookup_app_l_Some. }
  split; cbn [requested conns_ ids id_count_ gen_ctx_].
  - intros j p. destruct (decide (i = j)) as [<-|Hne].
    + rewrite !lookup_insert_eq. intros [= <-]. eexists. split; [done|].
      exists (length s.(conns_)), (mk_ctx (i32 s.(id_count_)) true true true).
      split; [done|]. split; [|done]. cbn. by rewrite lookup_app_r, Nat.sub_diag by lia.
    + rewrite !lookup_insert_ne by done. intros Hp.
      destruct (ok_ids _ _ Hs j p Hp) as (x & Hx & Hok). eauto.
  - intros j. destruct (decide (i = j)) as [<-|Hne]; [by rewrite lookup_insert_eq|].
    rewrite !lookup_insert_ne by done. apply (ok_dom _ _ Hs).
  - assert (Hnew : forall j y, s.(ids) !! j = Some y ->
      id_context y <> Some (length s.(conns_))).
    { intros j y Hy Hk. destruct (ph !! j) as [p|] eqn:Hp.
      - destruct (ok_ids _ _ Hs j p Hp) as (x & Hx & k & c & H1 & H2 & _).
        simplify_eq. apply lookup_lt_Some in H2. lia.
      - apply (ok_dom _ _ Hs) in Hp. congruence. }
    intros j j' y y'. destruct (decide (i = j)) as [<-|Hne], (decide (i = j')) as [<-|Hne'];
      rewrite ?lookup_insert_eq, ?lookup_insert_ne by done; intros Hy Hy' Heq;
      simplify_eq; try done.
    + by destruct (Hnew j' y' Hy').
    + by destruct (Hnew j y Hy).
    + by apply (ok_own _ _ Hs j j' y y').
  - intros k c Hk Hun. apply lookup_app_Some in Hk as [Hk|[Hge Hk]].
    + apply (ok_ended _ _ Hs k c Hk). intros j y Hy.
      apply (Hun j y). cbn. rewrite lookup_insert_ne; [done|]. intros <-. congruence.
    + apply list_lookup_singleton_Some in Hk as [Hk _].
      exfalso. eapply (Hun i); cbn; [apply lookup_insert_eq|]. cbn. f_equal. lia.
  - intros k c Hk. apply lookup_app_Some in Hk as [Hk|[Hge Hk]].
    + by apply (ok_numbers _ _ Hs).
    + apply list_lookup_singleton_Some in Hk as [Hk <-]. cbn.
      rewrite (ok_count _ _ Hs). do 2 f_equal. lia.
  - rewrite length_app. cbn. rewrite (ok_count _ _ Hs) in *.
    rewrite u64_small by (unfold is_u64; lia). lia.
  - done.
Qed.

(** The state after the connection of [i], with context [k], was closed. *)
Definition closed (i : Z) (k : nat) (c : ConnectionContext) (s : t D) : t D :=
  mk (<[k := mk_ctx c.(context_id_) false false c.(ctx_server)]> s.(conns_))
     (delete i s.(ids)) s.(ec_) s.(gen_ctx_) s.(id_count_) s.(derived).

Lemma disconnected_ok i x k c (s : t D) : s.(ids) !! i = Some x ->
  x.(id_context) = Some k -> s.(conns_) !! k = Some c ->
  handle_event (mk_event DISCONNECTED i) s = (closed i k c s, Ok tt).
Proof.
  intros Hx Hk Hc. unfold handle_event, handle_disconnection. cbn [ev_type ev_id].
  unfold bind at 1, ret. mstep (deref_id_ok i x s Hx).
  unfold update_id, bind at 1, modify at 1. unfold handle_disconnected.
  rewrite <- bind_assoc.
  erewrite bind_ok; [|eapply deref_context_ok with (k := k) (c := c); cbn;
                      [by rewrite lookup_alter_eq, Hx|done|done]].
  unfold bind, modify, closed, set_ids, set_conns. cbn.
  by rewrite delete_alter_eq.
Qed.

Lemma closed_ok ph (s : t D) i x k c : server_ok ph s ->
  ph !! i = Some Connected -> s.(ids) !! i = Some x ->
  x.(id_context) = Some k -> s.(conns_) !! k = Some c ->
  server_ok (delete i ph) (closed i k c s).
Proof.
  intros Hs Hi Hx Hk Hc. split; cbn [closed conns_ ids id_count_ gen_ctx_].
  - intros j p [Hne Hp]%lookup_delete_Some.
    destruct (ok_ids _ _ Hs j p Hp) as (y & Hy & k' & c' & H1 & H2 & H3).
    exists y. rewrite lookup_delete_ne by done. split; [done|]. exists k', c'.
    split; [done|]. split; [|done]. cbn. rewrite list_lookup_insert_ne; [done|].
    intros ->. apply Hne, (ok_own _ _ Hs i j x y Hx Hy). congruence.
  - intros j Hj. destruct (decide (i = j)) as [<-|Hne]; [by apply lookup_delete_eq|].
    rewrite lookup_delete_ne in Hj by done. rewrite lookup_delete_ne by done. by apply (ok_dom _ _ Hs).
  - intros j j' y y' [_ Hy]%lookup_delete_Some [_ Hy']%lookup_delete_Some.
    by apply (ok_own _ _ Hs).
  - intros k' c' Hk' Hun. destruct (decide (k = k')) as [<-|Hne].
    + rewrite list_lookup_insert_eq in Hk' by (by eapply lookup_lt_Some). by injection Hk' as <-.
    + rewrite list_lookup_insert_ne in Hk' by done. apply (ok_ended _ _ Hs k' c' Hk').
      intros j y Hy Hctx. apply (Hun j y); [|done]. cbn. rewrite lookup_delete_ne; [done|].
      intros <-. simplify_eq.
  - intros k' c' Hk'. destruct (decide (k = k')) as [<-|Hne].
    + rewrite list_lookup_insert_eq in Hk' by (by eapply lookup_lt_Some).
      injection Hk' as <-. exact (ok_numbers _ _ Hs k c Hc).
    + rewrite list_lookup_insert_ne in Hk' by done. by apply (ok_numbers _ _ Hs).
  - rewrite length_insert. apply (ok_count _ _ Hs).
  - intros Hnn. apply (ok_gen _ _ Hs). intros H0. rewrite H0 in Hc. done.
Qed.

(** The messages that a run receives are handled: the handler returns and only
    changes its own members and sends. *)
Definition handles (l : list input) : Prop :=
  forall ph s i msg, Completion i true IBV_WC_RECV msg ∈ l -> server_ok ph s ->
    ph !! i = Some Connected ->
    exists s', process_message i msg s = (s', Ok tt) /\ handler_effect i s s'.

(** The completed receive request is posted again before the handler runs. *)
Lemma on_completion_recv ph (s : t D) i msg :
  server_ok ph s -> ph !! i = Some Connected ->
  on_completion i IBV_WC_RECV msg s = process_message i msg s.
Proof.
  intros Hs Hi.
  destruct (ok_ids _ _ Hs i _ Hi) as (x & Hx & k & c & Hk & Hc & Hr & Hsd & Hsv & Hq & Hn).
  unfold on_completion. mstep (deref_context_ok i x k c s Hx Hk Hc).
  unfold update_id, bind at 1, modify at 1. set (s1 := set_ids _ s).
  assert (Hx1 : s1.(ids) !! i = Some (mk_id (Some k) true 3 x.(id_sent))).
  { cbn. rewrite lookup_alter_eq, Hx. cbn. by rewrite Hk, Hq, Hn. }
  mstep (post_msg_receive_ok i _ k c s1 Hx1 eq_refl Hc Hr). rewrite Hsv. f_equal.
  destruct s as [cs m e g z d]. unfold s1, set_ids. cbn in *. f_equal.
  rewrite alter_alter. apply alter_id. intros y Hy. simplify_eq.
  destruct x; cbn in *. by subst.
Qed.

Lemma receive_ok ph (s : t D) i msg : server_ok ph s -> ph !! i = Some Connected ->
  handles [Completion i true IBV_WC_RECV msg] ->
  exists s', on_completion i IBV_WC_RECV msg s = (s', Ok tt) /\ server_ok ph s' /\
    s'.(conns_) = s.(conns_) /\ s'.(id_count_) = s.(id_count_).
Proof.
  intros Hs Hi Hh. rewrite (on_completion_recv ph) by done.
  destruct (Hh ph s i msg ltac:(set_solver) Hs Hi) as (s3 & Hp & He).
  exists s3. split; [done|]. by apply (handler_effect_ok ph s s3 i).
Qed.

Lemma handle_input_ok ph ph' (s : t D) x : server_ok ph s -> allows ph x = Some ph' ->
  handles [x] -> s.(id_count_) + 1 < 2 ^ 64 ->
  exists s', handle x s = (s', Ok tt) /\ server_ok ph' s' /\
    length s'.(conns_) = (length s.(conns_) + requests [x])%nat /\
    (is_receive x = false -> s'.(derived) = s.(derived)).
Proof.
  intros Hs Ha Hh Hc. destruct x as [[ty i]|i [] o msg]; cbn [handle].
  - destruct ty; cbn in Ha; try done; simplify_eq;
      try (exists s; unfold requests; cbn; rewrite Nat.add_0_r; done).
    + destruct (ph !! i) eqn:Hi; [done|]. simplify_eq. rewrite connect_request_ok.
      eexists. split; [done|]. split; [by apply requested_ok|].
      cbn. by rewrite length_app.
    + destruct (ph !! i) as [[]|] eqn:Hi; try done. simplify_eq.
      destruct (ok_ids _ _ Hs i _ Hi) as (x & Hx & k & c & Hk & Hct & Hr & Hsd & Hsv & Hq & Hn).
      unfold handle_event. cbn [ev_type ev_id]. unfold handle_established.
      rewrite (bind_ok _ _ _ _ _ (post_receives_ok 4 i x k c s Hx Hk Hct Hr)).
      eexists. split; [done|]. split; [|unfold requests; cbn; by rewrite Nat.add_0_r].
      apply (server_ok_alter ph s i Requested); [done..|]. intros y Hy. cbn. by rewrite Hy.
    + destruct (ph !! i) as [[]|] eqn:Hi; try done. simplify_eq.
      destruct (ok_ids _ _ Hs i _ Hi) as (x & Hx & k & c & Hk & Hct & _).
      rewrite (disconnected_ok i x k c s Hx Hk Hct). eexists. split; [done|].
      split; [by apply (closed_ok ph s i x k c)|].
      cbn. rewrite length_insert. unfold requests; cbn. by rewrite Nat.add_0_r.
  - destruct o; cbn in Ha; try done; destruct (ph !! i) as [[]|] eqn:Hi; try done;
      simplify_eq; cbn [poll_cq_one].
    + destruct (receive_ok ph' s i msg Hs Hi Hh) as (s' & H1 & H2 & H3 & _).
      exists s'. rewrite H3. unfold requests; cbn. by rewrite Nat.add_0_r.
    + destruct (ok_ids _ _ Hs i _ Hi) as (x & Hx & k & c & Hk & Hct & _).
      unfold on_completion. mstep (deref_context_ok i x k c s Hx Hk Hct).
      exists s. unfold requests; cbn. by rewrite Nat.add_0_r.
  - cbn in Ha. simplify_eq. exists s. unfold requests; cbn. by rewrite Nat.add_0_r.
Qed.

Lemma handle_all_ok l : forall ph ph' (s : t D), server_ok ph s ->
  allows_all ph l = Some ph' -> handles l ->
  s.(id_count_) + Z.of_nat (requests l) + 1 < 2 ^ 64 ->
  exists s', mfor l handle s = (s', Ok tt) /\ server_ok ph' s' /\
    length s'.(conns_) = (length s.(conns_) + requests l)%nat.
Proof.
  induction l as [|x l IH]; intros ph ph' s Hs Ha Hh Hc.
  { cbn in *. simplify_eq. exists s. rewrite Nat.add_0_r. done. }
  cbn [allows_all] in Ha. apply bind_Some in Ha as (ph1 & Hx & Ha).
  assert (Hreq : requests (x :: l) = (requests [x] + requests l)%nat).
  { unfold requests. cbn. by destruct (is_request x). }
  destruct (handle_input_ok ph ph1 s x Hs Hx) as (s1 & H1 & Hs1 & Hn & _); [|lia|].
  { intros p t i msg Hin. apply Hh. set_solver. }
  destruct (IH ph1 ph' s1 Hs1 Ha) as (s2 & H2 & Hs2 & Hn2).
  { intros p t i msg Hin. apply Hh. set_solver. }
  { rewrite (ok_count _ _ Hs1), Hn. rewrite (ok_count _ _ Hs) in Hc. lia. }
  exists s2. cbn [mfor]. mstep H1. split; [done|]. split; [done|]. lia.
Qed.

Lemma construct_ok d : server_ok ∅ (set_ec true (construct d)).
Proof. split; cbn; try done; intros; by rewrite ?lookup_empty in *. Qed.

Lemma init_ok (s : t D) : init s = (set_ec true s, Ok tt).
Proof. unfold init. tstep. unfold bind at 1, modify. do 2 tstep. apply test_ok. Qed.
End no_failure.

End server.

(** C13: while the library calls succeed and events come in the order that
    rdmacm promises, a server that was constructed and initialised serves any
    sequence of connection events and received messages, from any number of
    clients, without undefined behaviour: every open connection has a context
    of its own, tied to the server, with both buffers registered, and exactly
    four receive requests posted once it is established, so that a message
    always finds one; the context of a connection that has ended has neither
    buffer registered any more; the general context is built once; contexts are
    numbered in order, as an [int] holds the count, and none is ever taken out
    of [conns_], so that the vector has one entry per connection ever
    requested. *)
Theorem connections_invariant {D : Type} (fails : t D -> verb -> bool)
    (process_message : Z -> bytes -> M (t D) unit) (d : D) l ph :
  (forall s v, fails s v = false) ->
  allows_all ∅ l = Some ph -> handles process_message l ->
  Z.of_nat (requests l) + 1 < 2 ^ 64 ->
  exists s, (init fails ;;; mfor l (handle fails process_message)) (construct d) =
      (s, Ok tt) /\
    server_ok ph s /\ length s.(conns_) = requests l.
Proof.
  intros Hv Ha Hh Hn.
  rewrite (bind_ok _ _ _ _ _ (init_ok fails Hv (construct d))).
  by apply (handle_all_ok fails process_message Hv l ∅ ph
              (set_ec true (construct d)) (construct_ok d)).
Qed.

(** Two clients of a server that sends messages back; one of them leaves. *)
Definition demo_fails (_ : t unit) (_ : verb) : bool := false.
Definition echo : Z -> bytes -> M (t unit) unit := send_message demo_fails.
Definition demo_inputs : list input :=
  [Event (mk_event CONNECT_REQUEST 7); Event (mk_event ESTABLISHED 7);
   Event (mk_event CONNECT_REQUEST 8); Completion 7 true IBV_WC_RECV [x61];
   Event (mk_event DISCONNECTED 7); Event (mk_event ESTABLISHED 8)].

Lemma echo_handles : handles echo demo_inputs.
Proof.
  intros ph s i msg Hin Hs Hi.
  assert (Hl : Z.of_nat (length msg) <= SEND_MSG_SIZE).
  { unfold demo_inputs in Hin. set_unfold in Hin.
    destruct Hin as [[=]|[[=]|[[=]|[[= -> ->]|[[=]|[[=]|[]]]]]]]. done. }
  destruct (ok_ids _ _ Hs i _ Hi) as (x & Hx & k & c & Hk & Hc & _ & Hsd & _).
  exists (set_ids (alter (add_sent [msg]) i s.(ids)) s). split.
  - by apply (send_message_ok demo_fails (fun _ _ => eq_refl) i x k c).
  - exists s.(derived), [msg]. by destruct s.
Qed.

Lemma connections_invariant_witness :
  exists s, (init demo_fails ;;; mfor demo_inputs (handle demo_fails echo)) (construct tt) =
      (s, Ok tt) /\ length s.(conns_) = 2%nat /\
    (forall c, s.(conns_) !! 0%nat = Some c -> c.(recv_msg_mr) = false /\ c.(send_msg_mr) = false).
Proof.
  destruct (connections_invariant demo_fails echo tt demo_inputs
    {[8 := Connected]} (fun _ _ => eq_refl) eq_refl echo_handles ltac:(reflexivity))
    as (s & H1 & Hs & H2).
  exists s. split; [exact H1|]. split; [exact H2|]. intros c Hc. apply (ok_ended _ _ Hs 0 c Hc).
  vm_compute in H1. injection H1 as <-. intros i x Hx Hctx. vm_compute in Hx.
  destruct (decide (i = 8)) as [->|Hne].
  - vm_compute in Hx. by simplify_eq.
  - change (({[8 := mk_id (Some 1%nat) true 4 []]} : gmap Z cm_id) !! i = Some x) in Hx.
    by rewrite lookup_singleton_ne in Hx.
Defined.

End RDMAServer.
