(* ===== verification/BladeServers.v ===== *)
(** * The servers derived from RDMAServer ([src/server])

    BladeAllocServer.cpp (allocations in a pool), BladePoolServer.cpp (one block
    for everybody), BladeObjectStore.cpp, and ResourceAllocator.cpp with the
    messages of common/AllocatorMessage.h and AllocatorMessageGenerator.cpp and
    the tokens of authentication/.  Each class is its members and its
    [process_message], the handler of RDMAServer.v. *)

From stdpp Require Import gmap list strings.
From S2P Require Import Prelude Common RDMAVerbs RDMAServer.

(** ** BladeAllocServer.cpp *)

Module BladeAllocServer.
Section alloc_server.
Context `{ManagedBuffer} `{RootTable BladeMessage.t}.

(** [big_pool_mr_]: the key of the region, once it is registered. *)
Record t := mk {
  big_pool_mr_ : option Z;
  big_pool_data_ : Z;
  big_pool_size_ : Z;
  pool_flag_ : bool;
  mrs_data_ : gset Z;
  id_to_alloc_ : gmap Z Z;
  num_allocs_ : Z;
  mem_allocated : Z;
  allocator : option mb;
}.

Definition construct (pool_size : Z) : t := mk None 0 pool_size false ∅ ∅ 0 0 None.

Context (fails : RDMAServer.t t -> verb -> bool).
(** The address that [posix_memalign] gives and the key that [ibv_reg_mr]
    gives for the pool. *)
Context (pool_base pool_rkey : Z).

Definition update (f : t -> t) : M (RDMAServer.t t) unit :=
  modify (fun s => RDMAServer.set_derived (f s.(RDMAServer.derived)) s).

(** [create_pool(size)]; Boost throws when the buffer is too small for it. *)
Definition create_pool (size : Z) : M (RDMAServer.t t) bool :=
  RDMAServer.test fails posix_memalign ;;;
  update (fun a => mk a.(big_pool_mr_) pool_base a.(big_pool_size_) a.(pool_flag_)
    a.(mrs_data_) a.(id_to_alloc_) a.(num_allocs_) a.(mem_allocated) a.(allocator)) ;;;
  RDMAServer.test fails ibv_reg_mr ;;;
  update (fun a => mk (Some pool_rkey) a.(big_pool_data_) a.(big_pool_size_) a.(pool_flag_)
    a.(mrs_data_) a.(id_to_alloc_) a.(num_allocs_) a.(mem_allocated) a.(allocator)) ;;;
  match mb_create pool_base size with
  | None => throw (RuntimeError "boost::interprocess::interprocess_exception")
  | Some b =>
      update (fun a => mk a.(big_pool_mr_) a.(big_pool_data_) a.(big_pool_size_)
        a.(pool_flag_) a.(mrs_data_) a.(id_to_alloc_) a.(num_allocs_)
        a.(mem_allocated) (Some b)) ;;;
      ret true
  end.

(** [std::call_once(pool_flag_, ...)]. *)
Definition create_pool_once : M (RDMAServer.t t) unit :=
  let* s := gets RDMAServer.derived in
  if s.(pool_flag_) then ret tt else
  let* _ := create_pool s.(big_pool_size_) in
  update (fun a => mk a.(big_pool_mr_) a.(big_pool_data_) a.(big_pool_size_) true
    a.(mrs_data_) a.(id_to_alloc_) a.(num_allocs_) a.(mem_allocated) a.(allocator)).

(** The two cases of the [try] block: the id and the address of the answer. *)
Definition try_allocate (size : Z) : M (RDMAServer.t t) (Z * Z) :=
  let* a := gets RDMAServer.derived in
  match a.(allocator) with
  | None => undefined
  | Some b =>
      match mb_allocate size b with
      | Some (ptr, b) =>
          let alloc_id := a.(num_allocs_) in
          update (fun a => mk a.(big_pool_mr_) a.(big_pool_data_) a.(big_pool_size_)
            a.(pool_flag_) ({[ptr]} ∪ a.(mrs_data_)) (<[alloc_id := ptr]> a.(id_to_alloc_))
            (u64 (alloc_id + 1)) a.(mem_allocated) (Some b)) ;;;
          ret (alloc_id, ptr)
      | None => ret (0, 0)
      end
  end.

Definition deallocate (addr : Z) : M (RDMAServer.t t) unit :=
  let* a := gets RDMAServer.derived in
  match a.(allocator) with
  | None => undefined
  | Some b =>
      let* b := stop (mb_deallocate addr b) in
      update (fun a => mk a.(big_pool_mr_) a.(big_pool_data_) a.(big_pool_size_)
        a.(pool_flag_) a.(mrs_data_) a.(id_to_alloc_) a.(num_allocs_)
        a.(mem_allocated) (Some b))
  end.

(** [big_pool_mr_->rkey], a [uint32_t]. *)
Definition pool_key : M (RDMAServer.t t) Z :=
  let* a := gets RDMAServer.derived in
  match a.(big_pool_mr_) with Some k => ret (u32 k) | None => undefined end.

Definition process_message (i : Z) (message : bytes) : M (RDMAServer.t t) unit :=
  create_pool_once ;;;
  match rt_decode message with
  | None => undefined
  | Some (BladeMessage.Alloc size) =>
      let* '(alloc_id, remote_addr) := try_allocate size in
      let* rkey := pool_key in
      RDMAServer.send_message fails i
        (rt_encode (BladeMessage.AllocAck alloc_id remote_addr rkey))
  | Some (BladeMessage.Dealloc addr) =>
      deallocate addr ;;;
      RDMAServer.send_message fails i (rt_encode (BladeMessage.DeallocAck 1))
  | Some _ => stop Exited
  end.
End alloc_server.

(** *** The promise of the server *)

(** The blocks that have been granted and not been given back, with their
    sizes: an abstract server over the region of [size] bytes at [base]. *)
Inductive grants (base size key : Z) :
    gmap Z Z -> BladeMessage.t -> BladeMessage.t -> gmap Z Z -> Prop :=
| grants_block g n id a :
    is_u64 id -> 0 <= n -> base <= a -> a + n <= base + size -> g !! a = None ->
    (forall a' n', g !! a' = Some n' -> disjoint_blocks a n a' n') ->
    grants base size key g (BladeMessage.Alloc n) (BladeMessage.AllocAck id a key)
      (<[a := n]> g)
| grants_refused g n :
    grants base size key g (BladeMessage.Alloc n) (BladeMessage.AllocAck 0 0 key) g
| grants_freed g a n :
    g !! a = Some n ->
    grants base size key g (BladeMessage.Dealloc a) (BladeMessage.DeallocAck 1)
      (delete a g).

(** Granted blocks lie in the pool and do not overlap. *)
Definition granted_ok (base size : Z) (g : gmap Z Z) : Prop :=
  (forall a n, g !! a = Some n -> 0 <= n /\ base <= a /\ a + n <= base + size) /\
  (forall a n a' n', g !! a = Some n -> g !! a' = Some n' -> a <> a' ->
     disjoint_blocks a n a' n').

Lemma grants_preserve base size key g m r g' :
  grants base size key g m r g' -> granted_ok base size g -> granted_ok base size g'.
Proof.
  intros Hg [Hin Hd]. destruct Hg as [g n id a _ Hn0 Hb He Hn Hdj|g n|g a n Ha].
  - split.
    + intros a' n' [[<- <-]|[Hne Hl]]%lookup_insert_Some; eauto.
    + intros a1 n1 a2 n2 [[<- <-]|[Hne1 H1]]%lookup_insert_Some
        [[<- <-]|[Hne2 H2]]%lookup_insert_Some Hne; [done|by apply Hdj| |by eauto].
      specialize (Hdj a1 n1 H1). unfold disjoint_blocks in *. lia.
  - done.
  - split; [intros a' n' [_ Hl]%lookup_delete_Some; eauto|].
    intros a1 n1 a2 n2 [_ H1]%lookup_delete_Some [_ H2]%lookup_delete_Some. eauto.
Qed.

Section spec.
Context `{Hmb : ManagedBufferSpec} `{Hbm : BladeMessageSpec}.
Context (fails : RDMAServer.t t -> verb -> bool) (Hv : forall s v, fails s v = false).
Context (base size rkey : Z) (Hcreate : mb_create base size <> None).

(** The members, once the pool has been made or not yet. *)
Definition members_ok (a : t) : Prop :=
  a.(big_pool_size_) = size /\ is_u64 a.(num_allocs_) /\
  if a.(pool_flag_) then
    a.(big_pool_mr_) = Some rkey /\
    exists b, a.(allocator) = Some b /\ mb_wf base size b
  else a.(allocator) = None.

Definition granted (a : t) : gmap Z Z :=
  match a.(allocator) with Some b => mb_live b | None => ∅ end.

Definition with_derived (a : t) (s : RDMAServer.t t) := RDMAServer.set_derived a s.

Lemma create_pool_once_ok (s : RDMAServer.t t) a :
  s.(RDMAServer.derived) = a -> members_ok a ->
  exists a', create_pool_once fails base rkey s = (with_derived a' s, Ok tt) /\
    members_ok a' /\ pool_flag_ a' = true /\ granted a' = granted a.
Proof.
  intros Ha (Hsz & Hid & Hok). unfold create_pool_once, bind at 1, gets. rewrite Ha.
  destruct (pool_flag_ a) eqn:Hf.
  { exists a. unfold ret, members_ok, with_derived. rewrite Hf.
    split; [|done]. by destruct s; cbn in *; subst. }
  destruct (mb_create base size) as [b|] eqn:Hb; [|done].
  destruct (mb_create_spec base size b Hb) as [Hwf Hl].
  eexists. split.
  - rewrite Hsz. unfold create_pool. rewrite <- bind_assoc.
    mstep (RDMAServer.test_ok fails Hv posix_memalign s). rewrite <- bind_assoc.
    unfold bind at 1, update at 1, modify at 1. rewrite <- bind_assoc.
    erewrite bind_ok by (apply (RDMAServer.test_ok fails Hv)). rewrite <- bind_assoc.
    unfold bind at 1, update at 1, modify at 1. rewrite Hb. done.
  - cbn. rewrite Ha. unfold members_ok, granted. cbn. rewrite Hok.
    split_and!; [done|done|done|eauto|done|by rewrite Hl].
Qed.

Lemma process_message_ok ph (s : RDMAServer.t t) i m rest :
  RDMAServer.server_ok ph s -> ph !! i = Some RDMAServer.Connected ->
  members_ok s.(RDMAServer.derived) -> BladeMessage.fits m ->
  match m with
  | BladeMessage.Alloc _ => True
  | BladeMessage.Dealloc a => is_Some (granted s.(RDMAServer.derived) !! a)
  | _ => False
  end ->
  exists a' ack,
    process_message fails base rkey i (rt_encode m ++ rest) s =
      (with_derived a' (RDMAServer.set_ids
         (alter (RDMAServer.add_sent [rt_encode ack]) i s.(RDMAServer.ids)) s), Ok tt) /\
    members_ok a' /\
    grants base size (u32 rkey) (granted s.(RDMAServer.derived)) m ack (granted a').
Proof.
  intros Hs Hi Ha Hfit Hm. unfold process_message.
  destruct (create_pool_once_ok s _ eq_refl Ha) as (a1 & H1 & (Hsz & Hid & Hok1) & Hf1 & Hg1).
  mstep H1. rewrite Hf1 in Hok1. destruct Hok1 as (Hmr & b & Hb & Hwf).
  rewrite bm_roundtrip by done.
  destruct (RDMAServer.ok_ids _ _ Hs i _ Hi)
    as (x & Hx & k & c & Hk & Hc & _ & Hsd & _).
  assert (Hsend : forall a2 msg, (length msg <= 1000)%nat ->
    RDMAServer.send_message fails i msg (with_derived a2 s) =
      (with_derived a2 (RDMAServer.set_ids
         (alter (RDMAServer.add_sent [msg]) i s.(RDMAServer.ids)) s), Ok tt)).
  { intros a2 msg Hl. erewrite (RDMAServer.send_message_ok fails Hv i x k c);
      [done|done|done|done|done|]. unfold RDMAServer.SEND_MSG_SIZE. lia. }
  rewrite <- Hg1. unfold granted at 1. rewrite Hb.
  assert (Hg : granted (RDMAServer.derived s) = mb_live b)
    by (rewrite <- Hg1; unfold granted; by rewrite Hb).
  rewrite Hg in Hm. clear Hg. destruct m as [n| |addr|]; try done.
  - unfold try_allocate. rewrite <- bind_assoc. unfold bind at 1, gets at 1.
    cbn [with_derived RDMAServer.set_derived RDMAServer.derived]. rewrite Hb.
    destruct (mb_allocate n b) as [[ptr b']|] eqn:Hal.
    + cbn in Hfit. destruct Hfit as [Hn0 _].
      destruct (mb_allocate_spec base size b n ptr b' Hn0 Hwf Hal)
        as (Hwf' & Hnone & Hlive & Hlo & Hhi & Hdj).
      rewrite <- bind_assoc. unfold bind at 1, update at 1, modify at 1.
      unfold bind at 1, ret. unfold bind at 1, pool_key, bind at 1, gets at 1. cbn.
      rewrite Hmr. eexists _, (BladeMessage.AllocAck (num_allocs_ a1) ptr (u32 rkey)).
      cbn. split; [apply (Hsend (mk _ _ _ _ _ _ _ _ _)); apply bm_small|].
      split; [unfold members_ok; cbn; rewrite Hf1; split_and!; eauto using u64_range|].
      unfold granted; cbn. rewrite Hlive. by constructor.
    + unfold bind at 1, ret. unfold bind at 1, pool_key, bind at 1, gets at 1. cbn.
      rewrite Hmr. exists a1, (BladeMessage.AllocAck 0 0 (u32 rkey)).
      cbn. split; [apply Hsend; apply bm_small|].
      split; [unfold members_ok; rewrite Hf1; split_and!; eauto|].
      unfold granted; cbn. rewrite Hb. by constructor.
  - destruct Hm as [n Hn].
    destruct (mb_deallocate_spec base size b addr n Hwf Hn) as (b' & Hd & Hwf' & Hlive).
    unfold deallocate. rewrite <- bind_assoc. unfold bind at 1, gets at 1.
    cbn [with_derived RDMAServer.set_derived RDMAServer.derived]. rewrite Hb, Hd.
    rewrite <- bind_assoc. unfold bind at 1, stop. unfold bind at 1, update at 1, modify at 1.
    eexists _, (BladeMessage.DeallocAck 1).
    cbn. split; [apply (Hsend (mk _ _ _ _ _ _ _ _ _)); apply bm_small|].
    split; [unfold members_ok; cbn; rewrite Hf1; split_and!; eauto|].
    unfold granted; cbn. rewrite Hlive. by econstructor.
Qed.

(** The states that a server reaches from its construction, serving events and
    completions in the order that rdmacm promises; clients only give back
    blocks that they were granted. *)
Definition legal (g : gmap Z Z) (m : BladeMessage.t) : Prop :=
  BladeMessage.fits m /\
  match m with
  | BladeMessage.Alloc _ => True
  | BladeMessage.Dealloc a => is_Some (g !! a)
  | _ => False
  end.

Definition legal_input (s : RDMAServer.t t) (x : RDMAServer.input) : Prop :=
  match x with
  | RDMAServer.Completion _ true IBV_WC_RECV msg =>
      exists m rest, msg = rt_encode m ++ rest /\ legal (granted s.(RDMAServer.derived)) m
  | _ => True
  end.

Inductive reach : gmap Z RDMAServer.phase -> RDMAServer.t t -> Prop :=
| reach_init :
    reach ∅ (RDMAServer.set_ec true (RDMAServer.construct (construct size)))
| reach_step ph ph' s x s' : reach ph s -> RDMAServer.allows ph x = Some ph' ->
    legal_input s x -> s.(RDMAServer.id_count_) + 1 < 2 ^ 64 ->
    RDMAServer.handle fails (process_message fails base rkey) x s = (s', Ok tt) ->
    reach ph' s'.

Definition alloc_inv (ph : gmap Z RDMAServer.phase) (s : RDMAServer.t t) : Prop :=
  RDMAServer.server_ok ph s /\ members_ok s.(RDMAServer.derived) /\
  granted_ok base size (granted s.(RDMAServer.derived)).

(** A message of a connected client is answered as the abstract server does. *)
Lemma serve_one ph s i m rest : alloc_inv ph s ->
  ph !! i = Some RDMAServer.Connected -> legal (granted s.(RDMAServer.derived)) m ->
  exists a' ack,
    RDMAServer.on_completion fails (process_message fails base rkey) i IBV_WC_RECV
      (rt_encode m ++ rest) s =
      (with_derived a' (RDMAServer.set_ids
         (alter (RDMAServer.add_sent [rt_encode ack]) i s.(RDMAServer.ids)) s), Ok tt) /\
    grants base size (u32 rkey) (granted s.(RDMAServer.derived)) m ack (granted a') /\
    alloc_inv ph (with_derived a' (RDMAServer.set_ids
         (alter (RDMAServer.add_sent [rt_encode ack]) i s.(RDMAServer.ids)) s)).
Proof.
  intros (Hs & Ha & Hg) Hi [Hfit Hl]. rewrite (RDMAServer.on_completion_recv fails _ Hv ph) by done.
  destruct (process_message_ok ph s i m rest Hs Hi Ha Hfit Hl) as (a' & ack & H1 & H2 & H3).
  exists a', ack. split; [done|]. split; [done|]. split; [|split; [done|]].
  - eapply (RDMAServer.handler_effect_ok ph s _ i Hs Hi). by exists a', [rt_encode ack].
  - cbn. by eapply grants_preserve.
Qed.

Lemma legal_handled ph s x : alloc_inv ph s -> legal_input s x ->
  RDMAServer.is_receive x = true -> RDMAServer.allows ph x = Some ph ->
  exists s', RDMAServer.handle fails (process_message fails base rkey) x s = (s', Ok tt) /\
    alloc_inv ph s'.
Proof.
  intros Hinv Hx Hr Ha. destruct x as [|i [] [] msg]; try done. cbn in Ha.
  destruct (ph !! i) as [[]|] eqn:Hi; try done.
  destruct Hx as (m & rest & -> & Hl).
  destruct (serve_one ph s i m rest Hinv Hi Hl) as (a' & ack & H1 & H2 & H3). eauto.
Qed.

Lemma reach_inv ph s : reach ph s -> alloc_inv ph s.
Proof.
  induction 1 as [|ph ph' s x s' Hr IH Ha Hl Hc Hx].
  - split; [apply RDMAServer.construct_ok|]. split; [|by split].
    split; [done|]. split; [by split|done].
  - destruct (RDMAServer.is_receive x) eqn:Hrx.
    + assert (Hph : ph' = ph).
      { destruct x as [|i [] [] msg]; try done. cbn in Ha.
        destruct (ph !! i) as [[]|]; congruence. }
      subst ph'. destruct (legal_handled ph s x IH Hl Hrx Ha) as (s2 & H2 & H3).
      congruence.
    + destruct IH as (Hs & Hm & Hg).
      destruct (RDMAServer.handle_input_ok fails (process_message fails base rkey) Hv ph ph' s x
        Hs Ha) as (s2 & H1 & H2 & _ & H3); [|done|].
      { intros p t i msg Hin. apply list_elem_of_singleton in Hin. by subst x. }
      rewrite Hx in H1. injection H1 as <-. specialize (H3 Hrx).
      split; [done|]. by rewrite H3.
Qed.

End spec.
(** C12: over any allocator that keeps its contract, the allocation server
    answers every request of a connected client, in every state that it can
    reach with any clients connecting, allocating, giving back and leaving: a
    grant is a block of the pool that overlaps no block still in use (or the
    request is refused with address 0), a block given back is free again, the
    answer is sent on the client's connection, and the server stays ready for
    the next request. *)
Theorem allocations_disjoint `{Hmb : ManagedBufferSpec} `{Hbm : BladeMessageSpec}
    (fails : RDMAServer.t t -> verb -> bool) base size rkey ph s i m rest :
  (forall s v, fails s v = false) -> mb_create base size <> None ->
  reach fails base size rkey ph s -> ph !! i = Some RDMAServer.Connected ->
  legal (granted s.(RDMAServer.derived)) m ->
  exists s' ack x,
    RDMAServer.on_completion fails (process_message fails base rkey) i IBV_WC_RECV
      (rt_encode m ++ rest) s = (s', Ok tt) /\
    s.(RDMAServer.ids) !! i = Some x /\
    s'.(RDMAServer.ids) !! i = Some (RDMAServer.add_sent [rt_encode ack] x) /\
    grants base size (u32 rkey) (granted s.(RDMAServer.derived)) m ack
      (granted s'.(RDMAServer.derived)) /\
    granted_ok base size (granted s'.(RDMAServer.derived)) /\
    RDMAServer.server_ok ph s'.
Proof.
  intros Hv Hc Hr Hi Hl. pose proof (reach_inv fails Hv base size rkey Hc ph s Hr) as Hinv.
  destruct (serve_one fails Hv base size rkey Hc ph s i m rest Hinv Hi Hl)
    as (a' & ack & H1 & H2 & H3 & H4 & H5).
  destruct (RDMAServer.ok_ids _ _ (proj1 Hinv) i _ Hi) as (x & Hx & _).
  eexists _, ack, x. split; [exact H1|]. split; [done|]. split; [|done].
  cbn. by rewrite lookup_alter_eq, Hx.
Qed.

(** One client connects and asks for five bytes of a pool of sixteen. *)
Definition demo_fails (_ : RDMAServer.t t) (_ : verb) : bool := false.
Definition demo_handle := RDMAServer.handle demo_fails (process_message demo_fails 4096 9).
Definition demo_0 : RDMAServer.t t :=
  RDMAServer.set_ec true (RDMAServer.construct (construct 16)).
Definition demo_1 : RDMAServer.t t :=
  (demo_handle (RDMAServer.Event (mk_event CONNECT_REQUEST 7)) demo_0).1.
Definition demo_2 : RDMAServer.t t :=
  (demo_handle (RDMAServer.Event (mk_event ESTABLISHED 7)) demo_1).1.

Lemma demo_reach : reach demo_fails 4096 16 9 {[7 := RDMAServer.Connected]} demo_2.
Proof.
  apply (reach_step demo_fails 4096 16 9 {[7 := RDMAServer.Requested]} _ demo_1
           (RDMAServer.Event (mk_event ESTABLISHED 7)));
    [|reflexivity|exact I|vm_compute; reflexivity|
     apply pair_ok; vm_compute; reflexivity].
  apply (reach_step demo_fails 4096 16 9 ∅ _ demo_0
           (RDMAServer.Event (mk_event CONNECT_REQUEST 7)));
    [apply reach_init|reflexivity|exact I|vm_compute; reflexivity|
     apply pair_ok; vm_compute; reflexivity].
Qed.

Lemma allocations_disjoint_witness :
  exists s', RDMAServer.on_completion demo_fails (process_message demo_fails 4096 9) 7
    IBV_WC_RECV (rt_encode (BladeMessage.Alloc 5) ++ []) demo_2 = (s', Ok tt).
Proof.
  destruct (allocations_disjoint demo_fails 4096 16 9 {[7 := RDMAServer.Connected]} demo_2 7
    (BladeMessage.Alloc 5) [] (fun _ _ => eq_refl) ltac:(discriminate) demo_reach eq_refl)
    as (s' & ack & x & H & _).
  - split; [split; [discriminate|reflexivity]|exact I].
  - exists s'. exact H.
Defined.

End BladeAllocServer.

(** ** BladePoolServer.cpp *)

Module BladePoolServer.
Section pool_server.
Context `{RootTable BladeMessage.t}.

(** [mr_pool_]: the keys of the registered regions. *)
Record t := mk {
  mr_data_ : list Z;
  mr_pool_ : list Z;
  pool_size_ : Z;
  pool_flag_ : bool;
}.

Definition construct (pool_size : Z) : t := mk [] [] pool_size false.

Context (fails : RDMAServer.t t -> verb -> bool) (pool_base pool_rkey : Z).

Definition update (f : t -> t) : M (RDMAServer.t t) unit :=
  modify (fun s => RDMAServer.set_derived (f s.(RDMAServer.derived)) s).

Definition create_pool (size : Z) : M (RDMAServer.t t) Z :=
  RDMAServer.test fails posix_memalign ;;;
  update (fun a => mk (a.(mr_data_) ++ [pool_base]) a.(mr_pool_) a.(pool_size_) a.(pool_flag_)) ;;;
  RDMAServer.test fails ibv_reg_mr ;;;
  update (fun a => mk a.(mr_data_) (a.(mr_pool_) ++ [pool_rkey]) a.(pool_size_) a.(pool_flag_)) ;;;
  ret 0.

(** [mr_data_[0]] and [mr_pool_[0]->rkey]. *)
Definition first_pool : M (RDMAServer.t t) (Z * Z) :=
  let* a := gets RDMAServer.derived in
  match a.(mr_data_), a.(mr_pool_) with
  | addr :: _, k :: _ => ret (addr, u32 k)
  | _, _ => undefined
  end.

(** The message is decoded before the pool is made. *)
Definition process_message (i : Z) (message : bytes) : M (RDMAServer.t t) unit :=
  let msg := rt_decode message in
  let* a := gets RDMAServer.derived in
  (if a.(pool_flag_) then ret tt else
   let* _ := create_pool a.(pool_size_) in
   update (fun a => mk a.(mr_data_) a.(mr_pool_) a.(pool_size_) true)) ;;;
  match msg with
  | None => undefined
  | Some (BladeMessage.Alloc _) =>
      let* '(remote_addr, rkey) := first_pool in
      RDMAServer.send_message fails i
        (rt_encode (BladeMessage.AllocAck 42 remote_addr rkey))
  | Some _ => stop Exited
  end.
End pool_server.
End BladePoolServer.

(** ** BladeObjectStore.cpp *)

Module BladeObjectStore.
Import BladeObjectStoreMessage.
Section object_store.
Context `{ManagedBuffer} `{RootTable BladeObjectStoreMessage.t}.

(** The members are those of BladeAllocServer. *)
Record t := mk {
  big_pool_mr_ : option Z;
  big_pool_data_ : Z;
  big_pool_size_ : Z;
  pool_flag_ : bool;
  mrs_data_ : gset Z;
  id_to_alloc_ : gmap Z Z;
  num_allocs_ : Z;
  mem_allocated : Z;
  allocator : option mb;
}.

Definition construct (pool_size : Z) : t := mk None 0 pool_size false ∅ ∅ 0 0 None.

Context (fails : RDMAServer.t t -> verb -> bool) (pool_base pool_rkey : Z).

Definition update (f : t -> t) : M (RDMAServer.t t) unit :=
  modify (fun s => RDMAServer.set_derived (f s.(RDMAServer.derived)) s).

Definition create_pool (size : Z) : M (RDMAServer.t t) bool :=
  RDMAServer.test fails posix_memalign ;;;
  update (fun a => mk a.(big_pool_mr_) pool_base a.(big_pool_size_) a.(pool_flag_)
    a.(mrs_data_) a.(id_to_alloc_) a.(num_allocs_) a.(mem_allocated) a.(allocator)) ;;;
  RDMAServer.test fails ibv_reg_mr ;;;
  update (fun a => mk (Some pool_rkey) a.(big_pool_data_) a.(big_pool_size_) a.(pool_flag_)
    a.(mrs_data_) a.(id_to_alloc_) a.(num_allocs_) a.(mem_allocated) a.(allocator)) ;;;
  match mb_create pool_base size with
  | None => throw (RuntimeError "boost::interprocess::interprocess_exception")
  | Some b =>
      update (fun a => mk a.(big_pool_mr_) a.(big_pool_data_) a.(big_pool_size_)
        a.(pool_flag_) a.(mrs_data_) a.(id_to_alloc_) a.(num_allocs_)
        a.(mem_allocated) (Some b)) ;;;
      ret true
  end.

Definition create_pool_once : M (RDMAServer.t t) unit :=
  let* s := gets RDMAServer.derived in
  if s.(pool_flag_) then ret tt else
  let* _ := create_pool s.(big_pool_size_) in
  update (fun a => mk a.(big_pool_mr_) a.(big_pool_data_) a.(big_pool_size_) true
    a.(mrs_data_) a.(id_to_alloc_) a.(num_allocs_) a.(mem_allocated) a.(allocator)).

(** Nobody catches [bad_alloc] here. *)
Definition allocate (size : Z) : M (RDMAServer.t t) (Z * Z) :=
  let* a := gets RDMAServer.derived in
  match a.(allocator) with
  | None => undefined
  | Some b =>
      match mb_allocate size b with
      | Some (ptr, b) =>
          let alloc_id := a.(num_allocs_) in
          update (fun a => mk a.(big_pool_mr_) a.(big_pool_data_) a.(big_pool_size_)
            a.(pool_flag_) ({[ptr]} ∪ a.(mrs_data_)) (<[alloc_id := ptr]> a.(id_to_alloc_))
            (u64 (alloc_id + 1)) a.(mem_allocated) (Some b)) ;;;
          ret (alloc_id, ptr)
      | None => throw (RuntimeError "boost::interprocess::bad_alloc")
      end
  end.

Definition deallocate (addr : Z) : M (RDMAServer.t t) unit :=
  let* a := gets RDMAServer.derived in
  match a.(allocator) with
  | None => undefined
  | Some b =>
      let* b := stop (mb_deallocate addr b) in
      update (fun a => mk a.(big_pool_mr_) a.(big_pool_data_) a.(big_pool_size_)
        a.(pool_flag_) a.(mrs_data_) a.(id_to_alloc_) a.(num_allocs_)
        a.(mem_allocated) (Some b))
  end.

Definition pool_key : M (RDMAServer.t t) Z :=
  let* a := gets RDMAServer.derived in
  match a.(big_pool_mr_) with Some k => ret (u32 k) | None => undefined end.

(** The message is decoded before the pool is made; subscriptions, flushes and
    locks are acknowledged and nothing else. *)
Definition process_message (i : Z) (message : bytes) : M (RDMAServer.t t) unit :=
  let msg := rt_decode message in
  create_pool_once ;;;
  match msg with
  | None => undefined
  | Some (Alloc size) =>
      let* '(alloc_id, remote_addr) := allocate size in
      let* rkey := pool_key in
      RDMAServer.send_message fails i (rt_encode (AllocAck alloc_id remote_addr rkey))
  | Some (Dealloc addr) =>
      deallocate addr ;;; RDMAServer.send_message fails i (rt_encode (DeallocAck 1))
  | Some (KeepAlive rand) => RDMAServer.send_message fails i (rt_encode (KeepAliveAck rand))
  | Some (Sub oid _) => RDMAServer.send_message fails i (rt_encode (SubAck oid))
  | Some (Flush oid) => RDMAServer.send_message fails i (rt_encode (FlushAck oid))
  | Some (Lock oid) => RDMAServer.send_message fails i (rt_encode (LockAck oid))
  | Some _ => stop Exited
  end.
End object_store.
End BladeObjectStore.

(** ** AllocatorMessage.h, AllocatorMessageGenerator.cpp and the tokens *)

Module AllocatorMessage.

Inductive auth_msg_type := AUTH1 | AUTH_ACK1 | AUTH2 | AUTH_ACK2 | STATS
  | STATS_ACK | ALLOC | ALLOC_ACK.

(** The value of the enumerator, in the order of the declaration. *)
Definition type_to_Z (ty : auth_msg_type) : Z :=
  match ty with
  | AUTH1 => 0 | AUTH_ACK1 => 1 | AUTH2 => 2 | AUTH_ACK2 => 3
  | STATS => 4 | STATS_ACK => 5 | ALLOC => 6 | ALLOC_ACK => 7
  end.

Definition type_of_Z (z : Z) : option auth_msg_type :=
  nth_error [AUTH1; AUTH_ACK1; AUTH2; AUTH_ACK2; STATS; STATS_ACK; ALLOC; ALLOC_ACK]
    (Z.to_nat z).

(** GrantingKey.cpp: ten zero bytes.  AuthenticationToken.cpp. *)
Definition KEY_SIZE : nat := 10.
Definition GrantingKey : bytes := replicate KEY_SIZE x00.

Record AuthenticationToken := mk_token { gkey : bytes; allow : bool }.

Definition new_token (a : bool) : AuthenticationToken := mk_token GrantingKey a.
Definition create_default_allow_token : AuthenticationToken := new_token true.
Definition create_default_deny_token : AuthenticationToken := new_token false.

(** The memory of a message: the struct is [int id], the type, and a union of
    16 bytes aligned to 8 ([char allow] at its front, 64-bit fields at 8 behind
    a [char] and at 0 otherwise, the token at 1). *)
Definition SIZE : nat := 24.
Definition off_type : nat := 4.
Definition off_data : nat := 8.

Definition char_of_bool (b : bool) : byte := if b then x01 else x00.

(** [p->f = v; p->g = w]: stores one after the other. *)
Fixpoint stores (l : list (nat * bytes)) (msg : bytes) : outcome bytes :=
  match l with
  | [] => Ok msg
  | (off, bs) :: l =>
      match write_at off bs msg with Ok msg => stores l msg | _ => Undefined end
  end.

Definition store_type (ty : auth_msg_type) : nat * bytes :=
  (off_type, le_bytes 4 (type_to_Z ty)).

Definition auth1 (app_id : Z) : bytes -> outcome bytes :=
  stores [store_type AUTH1; (off_data, le_bytes 8 app_id)].
Definition auth_ack1 (a : byte) (challenge : Z) : bytes -> outcome bytes :=
  stores [store_type AUTH_ACK1; (off_data, [a]); (off_data + 8, le_bytes 8 challenge)%nat].
Definition auth2 (response : Z) : bytes -> outcome bytes :=
  stores [store_type AUTH2; (off_data, le_bytes 8 response)].
Definition auth_ack2 (a : byte) (tok : AuthenticationToken) : bytes -> outcome bytes :=
  stores [store_type AUTH_ACK2; (off_data, [a]);
          (off_data + 1, tok.(gkey) ++ [char_of_bool tok.(allow)])%nat].
Definition stats : bytes -> outcome bytes := stores [store_type STATS].
Definition stats_ack (total : Z) : bytes -> outcome bytes :=
  stores [store_type STATS_ACK; (off_data, le_bytes 8 total)].
Definition alloc : bytes -> outcome bytes := stores [store_type ALLOC].
Definition alloc_ack : bytes -> outcome bytes := stores [store_type ALLOC_ACK].

(** [msg->type]. *)
Definition get_type (msg : bytes) : outcome (option auth_msg_type) :=
  match read_at off_type 4 msg with
  | Ok bs => Ok (type_of_Z (le_val bs))
  | _ => Undefined
  end.

End AllocatorMessage.

(** ** ResourceAllocator.cpp *)

Module ResourceAllocator.
Import AllocatorMessage.

(** The front of the send buffer of each connection, besides the member. *)
Record t := mk {
  total_mem_allocated_ : Z;
  send_msgs : gmap Z bytes;
}.

(** What an unused send buffer starts with is not initialised. *)
Definition construct : t := mk 0 ∅.

Section resource_allocator.
Context (fails : RDMAServer.t t -> verb -> bool) (uninit : bytes).

Definition send_msg (i : Z) (a : t) : bytes := default uninit (a.(send_msgs) !! i).

(** Fill [ctx->send_msg] and send [sizeof(AllocatorMessage)] bytes of it. *)
Definition fill_and_send (i : Z) (fill : bytes -> outcome bytes) : M (RDMAServer.t t) unit :=
  let* a := gets RDMAServer.derived in
  let* msg := stop (fill (send_msg i a)) in
  modify (fun s => RDMAServer.set_derived
    (mk s.(RDMAServer.derived).(total_mem_allocated_)
        (<[i := msg]> s.(RDMAServer.derived).(send_msgs))) s) ;;;
  RDMAServer.send_message fails i (take SIZE msg).

(** The token that is made is not used. *)
Definition send_challenge (i : Z) : M (RDMAServer.t t) unit :=
  fill_and_send i (auth_ack1 x01 42).

Definition send_stats (i : Z) : M (RDMAServer.t t) unit :=
  let* a := gets RDMAServer.derived in
  fill_and_send i (stats_ack a.(total_mem_allocated_)).

Definition process_message (i : Z) (message : bytes) : M (RDMAServer.t t) unit :=
  let* ty := stop (get_type message) in
  match ty with
  | Some AUTH1 => send_challenge i
  | Some AUTH2 => ret tt
  | Some STATS => send_stats i
  | _ => stop Exited
  end.
End resource_allocator.
End ResourceAllocator.
