(* ===== verification/RDMAClient.v ===== *)
(** * The RDMA client ([src/client/RDMAClient.cpp], [RDMAClient.h])

    The client keeps, for each object, the block of the server's pool that
    holds it ([objects_]).  It asks the server for blocks by messages and moves
    the bytes itself, by RDMA reads and writes: it posts work requests, the
    network adapter executes them, and the thread that polls the completion
    queue completes the operations ([on_completion]).

    Local memory is a heap of blocks, so that the lifetime of a buffer is that
    of the code: freed by [on_completion] for writes, owned by the future for
    reads.  The descriptions of pending operations ([RDMAOpInfo]) live in a heap
    of their own, since [on_completion] deletes them while the caller may still
    use them.  What the adapter and the server do is the step [env], a
    parameter: a thread that waits lets them run, and so may a thread that is
    preempted ([windows] says for how long, at the places where it matters). *)

From stdpp Require Import gmap list strings.
From S2P Require Import Prelude Common RDMAVerbs RDMAServer BladeClient.

Inductive wr_opcode := IBV_WR_RDMA_WRITE | IBV_WR_RDMA_READ | IBV_WR_SEND.

#[global] Instance wr_opcode_eq_dec : EqDecision wr_opcode.
Proof. solve_decision. Defined.

Module RDMAClient.

(** ** Constants and data of RDMAClient.h *)

Definition MB : Z := 1024 * 1024.
Definition RECV_MSG_SIZE : Z := 200 * MB.
Definition SEND_MSG_SIZE : Z := 200 * MB.
Definition CQ_DEPTH : Z := 500.
Definition MAX_SEND_WR : Z := 500.
Definition MAX_RECV_WR : Z := 100.

(** A local pointer: null, the start of a block of the heap, or one of the two
    message buffers. *)
Inductive addr := Null | Blk (b : nat) | SendMsg | RecvMsg.

#[global] Instance addr_eq_dec : EqDecision addr.
Proof. solve_decision. Defined.

(** A block holds its bytes; once a future's [shared_ptr] owns it, the bytes are
    those that the future's [data_ptr] gives access to. *)
Inductive block := Plain (bs : bytes) | Shared (fd : nat).

(** [struct RDMAMem]; [mr] is the number of the registration. *)
Record RDMAMem := mk_mem {
  addr_ : addr;
  size_ : Z;
  mr : option nat;
  registered_ : bool;
  cleared_ : bool;
  default_ : bool;
}.

Definition default_RDMAMem : RDMAMem := mk_mem Null 0 None false false true.
Definition new_RDMAMem (a : addr) (size : Z) (m : option nat) : RDMAMem :=
  mk_mem a size m false false false.
Definition isDefault (m : RDMAMem) : bool := m.(default_).
Definition set_addr_ (a : addr) (m : RDMAMem) : RDMAMem :=
  mk_mem a m.(size_) m.(mr) m.(registered_) m.(cleared_) m.(default_).
Definition set_size_ (z : Z) (m : RDMAMem) : RDMAMem :=
  mk_mem m.(addr_) z m.(mr) m.(registered_) m.(cleared_) m.(default_).

(** [class BladeLocation]. *)
Record BladeLocation := mk_loc { size : Z; allocRec : AllocationRecord }.

(** [struct RDMAOpInfo]: the buffer to delete, the future, whether its lock is
    the connection's [recv_sem], and the memory that [apply_fn] clears. *)
Record RDMAOpInfo := mk_op {
  oi_data : addr;
  oi_fd : nat;
  oi_recv : bool;
  oi_apply : option RDMAMem;
}.

(** [ibv_send_wr] with its one [ibv_sge], and [ibv_wc]. *)
Record send_wr := mk_wr {
  wr_id : nat;
  opcode : wr_opcode;
  sge_addr : addr;
  sge_length : Z;
  lkey : nat;
  rdma_remote_addr : Z;
  rdma_rkey : Z;
}.

Record wc := mk_wc { wc_wr_id : nat; wc_op : wc_opcode; wc_success : bool }.

(** The members of the client and of its [ConnectionContext]; the blocks and
    registrations of the process; the queues of the adapter: the requests that
    it has not executed, the posted receives and the completions that were not
    polled.  [send_msg] and [recv_msg] are the front of the two buffers of 200
    MB, as far as it was written.  [connecting]: [rdma_connect] was called.
    [peer] is the rest of the world. *)
Record t (P : Type) := mk {
  objects_ : gmap Z BladeLocation;
  futs : list FutureData;
  heap : gmap nat block;
  next_blk : nat;
  ops : gmap nat RDMAOpInfo;
  next_op : nat;
  mrs : gset nat;
  next_mr : nat;
  send_msg : bytes;
  send_msg_mr : option nat;
  recv_msg : bytes;
  recv_msg_mr : option nat;
  recv_sem : SpinLock.t;
  setup_done : bool;
  default_recv_mem_ : RDMAMem;
  default_send_mem_ : RDMAMem;
  ec_ : bool;
  gen_ctx_ : bool;
  qp : bool;
  connecting : bool;
  send_q : list send_wr;
  recv_q : list nat;
  cq : list wc;
  outstanding_send_wr : Z;
  windows : list nat;
  peer : P;
}.
#[global] Arguments mk {P}.
#[global] Arguments objects_ {P} _.
#[global] Arguments futs {P} _.
#[global] Arguments heap {P} _.
#[global] Arguments next_blk {P} _.
#[global] Arguments ops {P} _.
#[global] Arguments next_op {P} _.
#[global] Arguments mrs {P} _.
#[global] Arguments next_mr {P} _.
#[global] Arguments send_msg {P} _.
#[global] Arguments send_msg_mr {P} _.
#[global] Arguments recv_msg {P} _.
#[global] Arguments recv_msg_mr {P} _.
#[global] Arguments recv_sem {P} _.
#[global] Arguments setup_done {P} _.
#[global] Arguments default_recv_mem_ {P} _.
#[global] Arguments default_send_mem_ {P} _.
#[global] Arguments ec_ {P} _.
#[global] Arguments gen_ctx_ {P} _.
#[global] Arguments qp {P} _.
#[global] Arguments connecting {P} _.
#[global] Arguments send_q {P} _.
#[global] Arguments recv_q {P} _.
#[global] Arguments cq {P} _.
#[global] Arguments outstanding_send_wr {P} _.
#[global] Arguments windows {P} _.
#[global] Arguments peer {P} _.

Section client.
Context {P : Type}.

Definition set_objects (v : gmap Z BladeLocation) (s : t P) : t P :=
  mk
    v s.(futs) s.(heap) s.(next_blk) s.(ops) s.(next_op) s.(mrs)
    s.(next_mr) s.(send_msg) s.(send_msg_mr) s.(recv_msg) s.(recv_msg_mr)
    s.(recv_sem) s.(setup_done) s.(default_recv_mem_)
    s.(default_send_mem_) s.(ec_) s.(gen_ctx_) s.(qp) s.(connecting)
    s.(send_q) s.(recv_q) s.(cq) s.(outstanding_send_wr) s.(windows)
    s.(peer).
Definition set_futs (v : list FutureData) (s : t P) : t P :=
  mk
    s.(objects_) v s.(heap) s.(next_blk) s.(ops) s.(next_op) s.(mrs)
    s.(next_mr) s.(send_msg) s.(send_msg_mr) s.(recv_msg) s.(recv_msg_mr)
    s.(recv_sem) s.(setup_done) s.(default_recv_mem_)
    s.(default_send_mem_) s.(ec_) s.(gen_ctx_) s.(qp) s.(connecting)
    s.(send_q) s.(recv_q) s.(cq) s.(outstanding_send_wr) s.(windows)
    s.(peer).
Definition set_heap (v : gmap nat block) (s : t P) : t P :=
  mk
    s.(objects_) s.(futs) v s.(next_blk) s.(ops) s.(next_op) s.(mrs)
    s.(next_mr) s.(send_msg) s.(send_msg_mr) s.(recv_msg) s.(recv_msg_mr)
    s.(recv_sem) s.(setup_done) s.(default_recv_mem_)
    s.(default_send_mem_) s.(ec_) s.(gen_ctx_) s.(qp) s.(connecting)
    s.(send_q) s.(recv_q) s.(cq) s.(outstanding_send_wr) s.(windows)
    s.(peer).
Definition set_next_blk (v : nat) (s : t P) : t P :=
  mk
    s.(objects_) s.(futs) s.(heap) v s.(ops) s.(next_op) s.(mrs)
    s.(next_mr) s.(send_msg) s.(send_msg_mr) s.(recv_msg) s.(recv_msg_mr)
    s.(recv_sem) s.(setup_done) s.(default_recv_mem_)
    s.(default_send_mem_) s.(ec_) s.(gen_ctx_) s.(qp) s.(connecting)
    s.(send_q) s.(recv_q) s.(cq) s.(outstanding_send_wr) s.(windows)
    s.(peer).
Definition set_ops (v : gmap nat RDMAOpInfo) (s : t P) : t P :=
  mk
    s.(objects_) s.(futs) s.(heap) s.(next_blk) v s.(next_op) s.(mrs)
    s.(next_mr) s.(send_msg) s.(send_msg_mr) s.(recv_msg) s.(recv_msg_mr)
    s.(recv_sem) s.(setup_done) s.(default_recv_mem_)
    s.(default_send_mem_) s.(ec_) s.(gen_ctx_) s.(qp) s.(connecting)
    s.(send_q) s.(recv_q) s.(cq) s.(outstanding_send_wr) s.(windows)
    s.(peer).
Definition set_next_op (v : nat) (s : t P) : t P :=
  mk
    s.(objects_) s.(futs) s.(heap) s.(next_blk) s.(ops) v s.(mrs)
    s.(next_mr) s.(send_msg) s.(send_msg_mr) s.(recv_msg) s.(recv_msg_mr)
    s.(recv_sem) s.(setup_done) s.(default_recv_mem_)
    s.(default_send_mem_) s.(ec_) s.(gen_ctx_) s.(qp) s.(connecting)
    s.(send_q) s.(recv_q) s.(cq) s.(outstanding_send_wr) s.(windows)
    s.(peer).
Definition set_mrs (v : gset nat) (s : t P) : t P :=
  mk
    s.(objects_) s.(futs) s.(heap) s.(next_blk) s.(ops) s.(next_op) v
    s.(next_mr) s.(send_msg) s.(send_msg_mr) s.(recv_msg) s.(recv_msg_mr)
    s.(recv_sem) s.(setup_done) s.(default_recv_mem_)
    s.(default_send_mem_) s.(ec_) s.(gen_ctx_) s.(qp) s.(connecting)
    s.(send_q) s.(recv_q) s.(cq) s.(outstanding_send_wr) s.(windows)
    s.(peer).
Definition set_next_mr (v : nat) (s : t P) : t P :=
  mk
    s.(objects_) s.(futs) s.(heap) s.(next_blk) s.(ops) s.(next_op)
    s.(mrs) v s.(send_msg) s.(send_msg_mr) s.(recv_msg) s.(recv_msg_mr)
    s.(recv_sem) s.(setup_done) s.(default_recv_mem_)
    s.(default_send_mem_) s.(ec_) s.(gen_ctx_) s.(qp) s.(connecting)
    s.(send_q) s.(recv_q) s.(cq) s.(outstanding_send_wr) s.(windows)
    s.(peer).
Definition set_send_msg (v : bytes) (s : t P) : t P :=
  mk
    s.(objects_) s.(futs) s.(heap) s.(next_blk) s.(ops) s.(next_op)
    s.(mrs) s.(next_mr) v s.(send_msg_mr) s.(recv_msg) s.(recv_msg_mr)
    s.(recv_sem) s.(setup_done) s.(default_recv_mem_)
    s.(default_send_mem_) s.(ec_) s.(gen_ctx_) s.(qp) s.(connecting)
    s.(send_q) s.(recv_q) s.(cq) s.(outstanding_send_wr) s.(windows)
    s.(peer).
Definition set_send_msg_mr (v : option nat) (s : t P) : t P :=
  mk
    s.(objects_) s.(futs) s.(heap) s.(next_blk) s.(ops) s.(next_op)
    s.(mrs) s.(next_mr) s.(send_msg) v s.(recv_msg) s.(recv_msg_mr)
    s.(recv_sem) s.(setup_done) s.(default_recv_mem_)
    s.(default_send_mem_) s.(ec_) s.(gen_ctx_) s.(qp) s.(connecting)
    s.(send_q) s.(recv_q) s.(cq) s.(outstanding_send_wr) s.(windows)
    s.(peer).
Definition set_recv_msg (v : bytes) (s : t P) : t P :=
  mk
    s.(objects_) s.(futs) s.(heap) s.(next_blk) s.(ops) s.(next_op)
    s.(mrs) s.(next_mr) s.(send_msg) s.(send_msg_mr) v s.(recv_msg_mr)
    s.(recv_sem) s.(setup_done) s.(default_recv_mem_)
    s.(default_send_mem_) s.(ec_) s.(gen_ctx_) s.(qp) s.(connecting)
    s.(send_q) s.(recv_q) s.(cq) s.(outstanding_send_wr) s.(windows)
    s.(peer).
Definition set_recv_msg_mr (v : option nat) (s : t P) : t P :=
  mk
    s.(objects_) s.(futs) s.(heap) s.(next_blk) s.(ops) s.(next_op)
    s.(mrs) s.(next_mr) s.(send_msg) s.(send_msg_mr) s.(recv_msg) v
    s.(recv_sem) s.(setup_done) s.(default_recv_mem_)
    s.(default_send_mem_) s.(ec_) s.(gen_ctx_) s.(qp) s.(connecting)
    s.(send_q) s.(recv_q) s.(cq) s.(outstanding_send_wr) s.(windows)
    s.(peer).
Definition set_recv_sem (v : SpinLock.t) (s : t P) : t P :=
  mk
    s.(objects_) s.(futs) s.(heap) s.(next_blk) s.(ops) s.(next_op)
    s.(mrs) s.(next_mr) s.(send_msg) s.(send_msg_mr) s.(recv_msg)
    s.(recv_msg_mr) v s.(setup_done) s.(default_recv_mem_)
    s.(default_send_mem_) s.(ec_) s.(gen_ctx_) s.(qp) s.(connecting)
    s.(send_q) s.(recv_q) s.(cq) s.(outstanding_send_wr) s.(windows)
    s.(peer).
Definition set_setup_done (v : bool) (s : t P) : t P :=
  mk
    s.(objects_) s.(futs) s.(heap) s.(next_blk) s.(ops) s.(next_op)
    s.(mrs) s.(next_mr) s.(send_msg) s.(send_msg_mr) s.(recv_msg)
    s.(recv_msg_mr) s.(recv_sem) v s.(default_recv_mem_)
    s.(default_send_mem_) s.(ec_) s.(gen_ctx_) s.(qp) s.(connecting)
    s.(send_q) s.(recv_q) s.(cq) s.(outstanding_send_wr) s.(windows)
    s.(peer).
Definition set_default_recv_mem (v : RDMAMem) (s : t P) : t P :=
  mk
    s.(objects_) s.(futs) s.(heap) s.(next_blk) s.(ops) s.(next_op)
    s.(mrs) s.(next_mr) s.(send_msg) s.(send_msg_mr) s.(recv_msg)
    s.(recv_msg_mr) s.(recv_sem) s.(setup_done) v s.(default_send_mem_)
    s.(ec_) s.(gen_ctx_) s.(qp) s.(connecting) s.(send_q) s.(recv_q)
    s.(cq) s.(outstanding_send_wr) s.(windows) s.(peer).
Definition set_default_send_mem (v : RDMAMem) (s : t P) : t P :=
  mk
    s.(objects_) s.(futs) s.(heap) s.(next_blk) s.(ops) s.(next_op)
    s.(mrs) s.(next_mr) s.(send_msg) s.(send_msg_mr) s.(recv_msg)
    s.(recv_msg_mr) s.(recv_sem) s.(setup_done) s.(default_recv_mem_) v
    s.(ec_) s.(gen_ctx_) s.(qp) s.(connecting) s.(send_q) s.(recv_q)
    s.(cq) s.(outstanding_send_wr) s.(windows) s.(peer).
Definition set_ec (v : bool) (s : t P) : t P :=
  mk
    s.(objects_) s.(futs) s.(heap) s.(next_blk) s.(ops) s.(next_op)
    s.(mrs) s.(next_mr) s.(send_msg) s.(send_msg_mr) s.(recv_msg)
    s.(recv_msg_mr) s.(recv_sem) s.(setup_done) s.(default_recv_mem_)
    s.(default_send_mem_) v s.(gen_ctx_) s.(qp) s.(connecting) s.(send_q)
    s.(recv_q) s.(cq) s.(outstanding_send_wr) s.(windows) s.(peer).
Definition set_gen_ctx (v : bool) (s : t P) : t P :=
  mk
    s.(objects_) s.(futs) s.(heap) s.(next_blk) s.(ops) s.(next_op)
    s.(mrs) s.(next_mr) s.(send_msg) s.(send_msg_mr) s.(recv_msg)
    s.(recv_msg_mr) s.(recv_sem) s.(setup_done) s.(default_recv_mem_)
    s.(default_send_mem_) s.(ec_) v s.(qp) s.(connecting) s.(send_q)
    s.(recv_q) s.(cq) s.(outstanding_send_wr) s.(windows) s.(peer).
Definition set_qp (v : bool) (s : t P) : t P :=
  mk
    s.(objects_) s.(futs) s.(heap) s.(next_blk) s.(ops) s.(next_op)
    s.(mrs) s.(next_mr) s.(send_msg) s.(send_msg_mr) s.(recv_msg)
    s.(recv_msg_mr) s.(recv_sem) s.(setup_done) s.(default_recv_mem_)
    s.(default_send_mem_) s.(ec_) s.(gen_ctx_) v s.(connecting) s.(send_q)
    s.(recv_q) s.(cq) s.(outstanding_send_wr) s.(windows) s.(peer).
Definition set_connecting (v : bool) (s : t P) : t P :=
  mk
    s.(objects_) s.(futs) s.(heap) s.(next_blk) s.(ops) s.(next_op)
    s.(mrs) s.(next_mr) s.(send_msg) s.(send_msg_mr) s.(recv_msg)
    s.(recv_msg_mr) s.(recv_sem) s.(setup_done) s.(default_recv_mem_)
    s.(default_send_mem_) s.(ec_) s.(gen_ctx_) s.(qp) v s.(send_q)
    s.(recv_q) s.(cq) s.(outstanding_send_wr) s.(windows) s.(peer).
Definition set_send_q (v : list send_wr) (s : t P) : t P :=
  mk
    s.(objects_) s.(futs) s.(heap) s.(next_blk) s.(ops) s.(next_op)
    s.(mrs) s.(next_mr) s.(send_msg) s.(send_msg_mr) s.(recv_msg)
    s.(recv_msg_mr) s.(recv_sem) s.(setup_done) s.(default_recv_mem_)
    s.(default_send_mem_) s.(ec_) s.(gen_ctx_) s.(qp) s.(connecting) v
    s.(recv_q) s.(cq) s.(outstanding_send_wr) s.(windows) s.(peer).
Definition set_recv_q (v : list nat) (s : t P) : t P :=
  mk
    s.(objects_) s.(futs) s.(heap) s.(next_blk) s.(ops) s.(next_op)
    s.(mrs) s.(next_mr) s.(send_msg) s.(send_msg_mr) s.(recv_msg)
    s.(recv_msg_mr) s.(recv_sem) s.(setup_done) s.(default_recv_mem_)
    s.(default_send_mem_) s.(ec_) s.(gen_ctx_) s.(qp) s.(connecting)
    s.(send_q) v s.(cq) s.(outstanding_send_wr) s.(windows) s.(peer).
Definition set_cq (v : list wc) (s : t P) : t P :=
  mk
    s.(objects_) s.(futs) s.(heap) s.(next_blk) s.(ops) s.(next_op)
    s.(mrs) s.(next_mr) s.(send_msg) s.(send_msg_mr) s.(recv_msg)
    s.(recv_msg_mr) s.(recv_sem) s.(setup_done) s.(default_recv_mem_)
    s.(default_send_mem_) s.(ec_) s.(gen_ctx_) s.(qp) s.(connecting)
    s.(send_q) s.(recv_q) v s.(outstanding_send_wr) s.(windows) s.(peer).
Definition set_outstanding_send_wr (v : Z) (s : t P) : t P :=
  mk
    s.(objects_) s.(futs) s.(heap) s.(next_blk) s.(ops) s.(next_op)
    s.(mrs) s.(next_mr) s.(send_msg) s.(send_msg_mr) s.(recv_msg)
    s.(recv_msg_mr) s.(recv_sem) s.(setup_done) s.(default_recv_mem_)
    s.(default_send_mem_) s.(ec_) s.(gen_ctx_) s.(qp) s.(connecting)
    s.(send_q) s.(recv_q) s.(cq) v s.(windows) s.(peer).
Definition set_windows (v : list nat) (s : t P) : t P :=
  mk
    s.(objects_) s.(futs) s.(heap) s.(next_blk) s.(ops) s.(next_op)
    s.(mrs) s.(next_mr) s.(send_msg) s.(send_msg_mr) s.(recv_msg)
    s.(recv_msg_mr) s.(recv_sem) s.(setup_done) s.(default_recv_mem_)
    s.(default_send_mem_) s.(ec_) s.(gen_ctx_) s.(qp) s.(connecting)
    s.(send_q) s.(recv_q) s.(cq) s.(outstanding_send_wr) v s.(peer).
Definition set_peer (v : P) (s : t P) : t P :=
  mk
    s.(objects_) s.(futs) s.(heap) s.(next_blk) s.(ops) s.(next_op)
    s.(mrs) s.(next_mr) s.(send_msg) s.(send_msg_mr) s.(recv_msg)
    s.(recv_msg_mr) s.(recv_sem) s.(setup_done) s.(default_recv_mem_)
    s.(default_send_mem_) s.(ec_) s.(gen_ctx_) s.(qp) s.(connecting)
    s.(send_q) s.(recv_q) s.(cq) s.(outstanding_send_wr) s.(windows) v.

#[global] Instance has_futures : HasFutures (t P) :=
  { futures := futs; set_futures := set_futs }.

#[global] Instance has_futures_spec : HasFuturesSpec (t P).
Proof. split; [done|]. by intros []. Qed.

Context `{RootTable BladeMessage.t}.
(** Which library calls fail, and what new memory contains. *)
Context (fails : t P -> verb -> bool) (uninit : nat -> bytes).

(** The members before [connect].  [outstanding_send_wr] has no initialiser:
    it starts with any value. *)
Definition construct (outstanding : Z) (w : list nat) (p : P) : t P :=
  mk ∅ [] ∅ 0 ∅ 0 ∅ 0 [] None [] None (SpinLock.trywait lk_init).1 false
    default_RDMAMem default_RDMAMem false false false false [] [] []
    outstanding w p.

Definition test (v : verb) : M (t P) unit :=
  let* s := gets id in if fails s v then stop Exited else ret tt.

(** ** Memory *)

(** [new char[n]]. *)
Definition new_char (n : Z) : M (t P) addr :=
  let* s := gets id in
  modify (fun s => set_next_blk (S s.(next_blk))
    (set_heap (<[s.(next_blk) := Plain (uninit (Z.to_nat n))]> s.(heap)) s)) ;;;
  ret (Blk s.(next_blk)).

(** The bytes that a pointer gives access to. *)
Definition load (a : addr) : M (t P) bytes :=
  let* s := gets id in
  match a with
  | Blk b =>
      match s.(heap) !! b with
      | Some (Plain bs) => ret bs
      | Some (Shared fd) =>
          match s.(futs) !! fd with
          | Some d => match d.(data_ptr) with Some bs => ret bs | None => undefined end
          | None => undefined
          end
      | None => undefined
      end
  | SendMsg => ret s.(send_msg)
  | RecvMsg => ret s.(recv_msg)
  | Null => undefined
  end.

Definition set_data_ptr (p : option bytes) (d : FutureData) : FutureData :=
  mk_fd d.(result) d.(result_available) d.(sem) d.(fd_error_code) p d.(data_size).

(** A store of all the bytes of a block, which keeps its length. *)
Definition store (a : addr) (bs : bytes) : M (t P) unit :=
  let* s := gets id in
  match a with
  | Blk b =>
      match s.(heap) !! b with
      | Some (Plain _) => modify (fun s => set_heap (<[b := Plain bs]> s.(heap)) s)
      | Some (Shared fd) => ClientFuture.update fd (set_data_ptr (Some bs))
      | None => undefined
      end
  | SendMsg => modify (set_send_msg bs)
  | RecvMsg => modify (set_recv_msg bs)
  | Null => undefined
  end.

(** [memcpy(dst, src, n)]: reading past a block is undefined. *)
Definition load_n (a : addr) (n : Z) : M (t P) bytes :=
  let* bs := load a in
  if Z.of_nat (length bs) <? n then undefined else ret (take (Z.to_nat n) bs).

(** [delete[] p]: only a block of [new char[]] that nobody else owns. *)
Definition delete_array (a : addr) : M (t P) unit :=
  let* s := gets id in
  match a with
  | Null => ret tt
  | Blk b =>
      match s.(heap) !! b with
      | Some (Plain _) => modify (fun s => set_heap (delete b s.(heap)) s)
      | _ => undefined
      end
  | _ => undefined
  end.

(** *** RDMAMem *)

(** [ibv_reg_mr]: a new registration. *)
Definition reg_mr : M (t P) nat :=
  let* s := gets id in
  modify (fun s => set_next_mr (S s.(next_mr)) (set_mrs ({[s.(next_mr)]} ∪ s.(mrs)) s)) ;;;
  ret s.(next_mr).

(** [prepare]: the memory as it is after the call. *)
Definition prepare (m : RDMAMem) : M (t P) RDMAMem :=
  if m.(registered_) then ret m else
  let* s := gets id in
  if fails s ibv_reg_mr then throw (RuntimeError "Error in prepare()") else
  let* k := reg_mr in
  ret (mk_mem m.(addr_) m.(size_) (Some k) true m.(cleared_) m.(default_)).

Definition clear (m : RDMAMem) : M (t P) bool :=
  if negb m.(registered_) then throw (RuntimeError "Not registered") else
  match m.(mr) with
  | None => undefined
  | Some k =>
      let* s := gets id in
      modify (fun s => set_mrs (s.(mrs) ∖ {[k]}) s) ;;;
      ret (negb (fails s ibv_dereg_mr))
  end.

(** *** RDMAOpInfo *)

(** [new RDMAOpInfo(...)], with its [FutureData]. *)
Definition new_RDMAOpInfo (recv : bool) (fn : option RDMAMem) : M (t P) nat :=
  let* s := gets id in
  modify (fun s => set_next_op (S s.(next_op))
    (set_ops (<[s.(next_op) := mk_op Null (length s.(futs)) recv fn]> s.(ops))
       (set_futs (s.(futs) ++ [new_FutureData]) s))) ;;;
  ret s.(next_op).

(** [*op_info]: undefined once it has been deleted. *)
Definition deref_op (o : nat) : M (t P) RDMAOpInfo :=
  let* s := gets id in
  match s.(ops) !! o with Some x => ret x | None => undefined end.

Definition update_op (o : nat) (f : RDMAOpInfo -> RDMAOpInfo) : M (t P) unit :=
  modify (fun s => set_ops (alter f o s.(ops)) s).

Definition set_oi_data (a : addr) (x : RDMAOpInfo) : RDMAOpInfo :=
  mk_op a x.(oi_fd) x.(oi_recv) x.(oi_apply).

Definition complete_fd (d : FutureData) : FutureData :=
  mk_fd true true d.(sem) d.(fd_error_code) d.(data_ptr) d.(data_size).

(** [apply()]. *)
Definition apply_op (x : RDMAOpInfo) : M (t P) unit :=
  (match x.(oi_apply) with
   | Some m => let* _ := clear m in ret tt
   | None => ret tt
   end) ;;;
  ClientFuture.update x.(oi_fd) complete_fd.

(** [op_info->fd->sem->signal()]. *)
Definition signal_op (x : RDMAOpInfo) : M (t P) unit :=
  if x.(oi_recv) then modify (fun s => set_recv_sem (lk_signal s.(recv_sem)) s)
  else ClientFuture.update x.(oi_fd) (fun d => set_sem (lk_signal d.(sem)) d).

(** ** The polling thread *)

(** [assert(outstanding_send_wr > 0); outstanding_send_wr--]. *)
Definition dec_outstanding : M (t P) unit :=
  let* s := gets id in
  if 0 <? s.(outstanding_send_wr) then
    modify (set_outstanding_send_wr (s.(outstanding_send_wr) - 1))
  else stop Exited.

Definition on_completion (w : wc) : M (t P) unit :=
  let* x := deref_op w.(wc_wr_id) in
  apply_op x ;;;
  (match w.(wc_op) with
   | IBV_WC_RECV => signal_op x
   | IBV_WC_RDMA_READ | IBV_WC_RDMA_WRITE =>
       dec_outstanding ;;; signal_op x ;;; delete_array x.(oi_data)
   | IBV_WC_SEND => dec_outstanding ;;; signal_op x
   | IBV_WC_OTHER => stop Exited
   end) ;;;
  modify (fun s => set_ops (delete w.(wc_wr_id) s.(ops)) s).

(** One completion of the loop of [poll_cq]; an exception that leaves the
    thread ends the process. *)
Definition poll_cq_one : M (t P) unit :=
  let* s := gets id in
  match s.(cq) with
  | [] => ret tt
  | w :: ws =>
      modify (set_cq ws) ;;;
      if w.(wc_success) then on_completion w else stop Exited
  end.

(** ** Posting requests *)

(** [post_send]: an error of [ibv_post_send] is only reported. *)
Definition post_send (w : send_wr) : M (t P) bool :=
  let* s := gets id in
  if s.(outstanding_send_wr) =? MAX_SEND_WR then ret false else
  modify (fun s => set_outstanding_send_wr (u64 (s.(outstanding_send_wr) + 1)) s) ;;;
  (if fails s ibv_post_send then ret tt
   else modify (fun s => set_send_q (s.(send_q) ++ [w]) s)) ;;;
  ret true.

Definition deref_mr (m : option nat) : M (t P) nat :=
  match m with Some k => ret k | None => undefined end.

(** [post_receive], under the [TEST_NZ] of its only caller. *)
Definition post_receive : M (t P) unit :=
  let* o := new_RDMAOpInfo true None in
  let* s := gets id in
  let* _ := deref_mr s.(recv_msg_mr) in
  test ibv_post_recv ;;;
  modify (fun s => set_recv_q (s.(recv_q) ++ [o]) s).

Definition send_message (sz : Z) : M (t P) (option nat) :=
  let* o := new_RDMAOpInfo false None in
  let* s := gets id in
  let* k := deref_mr s.(send_msg_mr) in
  let* ok := post_send (mk_wr o IBV_WR_SEND SendMsg (u32 sz) k 0 0) in
  ret (if ok : bool then Some o else None).

Definition write_rdma_async (sz raddr rkey : Z) (m : RDMAMem) (o : nat) : M (t P) unit :=
  update_op o (set_oi_data m.(addr_)) ;;;
  let* k := deref_mr m.(mr) in
  let* ok := post_send (mk_wr o IBV_WR_RDMA_WRITE m.(addr_) (u32 sz) k raddr (u32 rkey)) in
  if ok : bool then ret tt
  else throw (RuntimeError "write_rdma_async: error post_send").

Definition read_rdma_async (sz raddr rkey : Z) (m : RDMAMem) (o : nat) : M (t P) unit :=
  let* k := deref_mr m.(mr) in
  let* ok := post_send (mk_wr o IBV_WR_RDMA_READ m.(addr_) (u32 sz) k raddr (u32 rkey)) in
  if ok : bool then ret tt
  else throw (RuntimeError "read_rdma_async: error post_send").

(** ** Operations that wait *)

(** A step of the adapter, the server or the polling thread, and fuel. *)
Context (env : M (t P) unit) (fuel : nat).

Fixpoint env_steps (n : nat) : M (t P) unit :=
  match n with
  | O => ret tt
  | S n => env ;;; env_steps n
  end.

(** The caller may lose the processor here: the next entry of [windows] says
    how many steps the others make meanwhile. *)
Definition preempt : M (t P) unit :=
  let* s := gets id in
  match s.(windows) with
  | [] => ret tt
  | n :: ws => modify (set_windows ws) ;;; env_steps n
  end.

(** [op_info->fd->sem->wait()]. *)
Definition op_wait (o : nat) : M (t P) unit :=
  let* x := deref_op o in
  ClientFuture.sem_wait env fuel x.(oi_fd).

(** [con_ctx->recv_sem->wait()]. *)
Fixpoint recv_wait (n : nat) : M (t P) unit :=
  let* s := gets id in
  let '(l, got) := lk_acquire s.(recv_sem) in
  modify (set_recv_sem l) ;;;
  if got : bool then ret tt else
  match n with
  | O => stop OutOfFuel
  | S n => env ;;; recv_wait n
  end.

Definition send_receive_message_sync (sz : Z) : M (t P) bool :=
  post_receive ;;;
  let* o := send_message sz in
  match o with
  | None => ret false
  | Some o => preempt ;;; op_wait o ;;; recv_wait fuel ;;; ret true
  end.

Definition write_rdma_sync (sz raddr rkey : Z) (m : RDMAMem) : M (t P) bool :=
  let* o := new_RDMAOpInfo false None in
  write_rdma_async sz raddr rkey m o ;;;
  preempt ;;;
  op_wait o ;;;
  ret true.

(** The loop of [read_rdma_sync]: every round reads [*op_info]. *)
Fixpoint read_wait (n : nat) (o : nat) : M (t P) unit :=
  let* x := deref_op o in
  let* d := ClientFuture.deref x.(oi_fd) in
  if d.(result_available) then ret tt else
  match n with
  | O => stop OutOfFuel
  | S n => op_wait o ;;; read_wait n o
  end.

Definition read_rdma_sync (sz raddr rkey : Z) (m : RDMAMem) : M (t P) unit :=
  let* o := new_RDMAOpInfo false None in
  read_rdma_async sz raddr rkey m o ;;;
  preempt ;;;
  read_wait fuel o.

(** *** RPCs *)

(** Build a message, copy it to the send buffer, send it and wait for the
    answer; the result of [send_receive_message_sync] is not looked at. *)
Definition call (m : BladeMessage.t) : M (t P) (option BladeMessage.t) :=
  modify (set_send_msg (rt_encode m)) ;;;
  let* _ := send_receive_message_sync (Z.of_nat (length (rt_encode m))) in
  let* s := gets id in
  ret (rt_decode s.(recv_msg)).

(** [data_as_AllocAck()] of another message is a null pointer. *)
Definition allocate (sz : Z) : M (t P) AllocationRecord :=
  let* msg := call (BladeMessage.Alloc sz) in
  match msg with
  | Some (BladeMessage.AllocAck mr_id raddr rkey) =>
      if raddr =? 0 then
        throw (ServerMemoryErrorException
                 "Server threw exception when allocating memory.")
      else ret (new_AllocationRecord mr_id raddr rkey)
  | _ => undefined
  end.

Definition deallocate (ar : AllocationRecord) : M (t P) bool :=
  let* msg := call (BladeMessage.Dealloc ar.(remote_addr)) in
  match msg with
  | Some (BladeMessage.DeallocAck r) =>
      if r =? 0 then throw (RuntimeError "Error with deallocation") else ret true
  | _ => undefined
  end.

(** *** Reads and writes of a block *)

Definition rdma_write_sync (ar : AllocationRecord) (offset len : Z) (data : addr)
    (m : RDMAMem) : M (t P) bool :=
  if SEND_MSG_SIZE <? len then ret false else
  let raddr := u64 (ar.(remote_addr) + offset) in
  (if negb (isDefault m) then
     let* m := prepare (set_addr_ data m) in
     write_rdma_sync len raddr ar.(peer_rkey) m
   else
     let* bs := load_n data len in
     store SendMsg bs ;;;
     let* s := gets id in
     write_rdma_sync len raddr ar.(peer_rkey) s.(default_send_mem_)) ;;;
  ret true.

(** The result is the address of the future's data. *)
Definition rdma_write_async (ar : AllocationRecord) (offset len : Z) (data : addr)
    (m : RDMAMem) : M (t P) nat :=
  if SEND_MSG_SIZE <? len then
    throw (Exception "Message being sent is over RDMA max size.")
  else
  let raddr := u64 (ar.(remote_addr) + offset) in
  let* o := new_RDMAOpInfo false None in
  let* x := deref_op o in
  (if negb (isDefault m) then
     let* m := prepare (set_size_ len (set_addr_ data m)) in
     write_rdma_async len raddr ar.(peer_rkey) m o
   else
     let* m := prepare (new_RDMAMem data len None) in
     write_rdma_async len raddr ar.(peer_rkey) m o) ;;;
  ret x.(oi_fd).

Definition rdma_read_sync (ar : AllocationRecord) (offset len : Z) (data : addr)
    (m : RDMAMem) : M (t P) bool :=
  if RECV_MSG_SIZE <? len then ret false else
  let raddr := u64 (ar.(remote_addr) + offset) in
  (if negb (isDefault m) then
     let* m := prepare (set_size_ len (set_addr_ data m)) in
     read_rdma_sync len raddr ar.(peer_rkey) m
   else
     let* s := gets id in
     read_rdma_sync len raddr ar.(peer_rkey) s.(default_recv_mem_) ;;;
     let* bs := load_n RecvMsg len in
     store data bs) ;;;
  ret true.

(** The future's [shared_ptr] takes over the block of [data]. *)
Definition share (data : addr) (fd : nat) : M (t P) unit :=
  let* bs := load data in
  ClientFuture.update fd (set_data_ptr (Some bs)) ;;;
  match data with
  | Blk b => modify (fun s => set_heap (<[b := Shared fd]> s.(heap)) s)
  | _ => undefined
  end.

Definition rdma_read_async (ar : AllocationRecord) (offset len : Z) (data : addr)
    (m : RDMAMem) : M (t P) nat :=
  if RECV_MSG_SIZE <? len then
    throw (Exception "Incoming message greater than RDMA max message size.")
  else
  let raddr := u64 (ar.(remote_addr) + offset) in
  let* '(m, o) :=
    (if negb (isDefault m) then
       let* m := prepare (set_addr_ data m) in
       let* o := new_RDMAOpInfo false None in ret (m, o)
     else
       let* m := prepare (new_RDMAMem data len None) in
       let* o := new_RDMAOpInfo false (Some m) in ret (m, o)) in
  let* x := deref_op o in
  share data x.(oi_fd) ;;;
  read_rdma_async len raddr ar.(peer_rkey) m o ;;;
  ret x.(oi_fd).

(** ** The operations of BladeClient *)

Definition insertObjectLocation (oid sz : Z) (ar : AllocationRecord) : M (t P) bool :=
  modify (fun s => set_objects (<[oid := mk_loc sz ar]> s.(objects_)) s) ;;; ret true.

Definition readToLocal (loc : BladeLocation) (p : addr) : M (t P) bool :=
  let* _ := rdma_read_sync loc.(allocRec) 0 loc.(size) p (new_RDMAMem p loc.(size) None) in
  ret true.

Definition readToLocalAsync (loc : BladeLocation) (p : addr) : M (t P) nat :=
  rdma_read_async loc.(allocRec) 0 loc.(size) p default_RDMAMem.

Definition writeRemote (data : addr) (loc : BladeLocation) (m : RDMAMem) : M (t P) bool :=
  let mm := new_RDMAMem data loc.(size) None in
  let* _ := rdma_write_sync loc.(allocRec) 0 loc.(size) data (if isDefault m then mm else m) in
  ret true.

Definition writeRemoteAsync (data : addr) (loc : BladeLocation) : M (t P) nat :=
  rdma_write_async loc.(allocRec) 0 loc.(size) data default_RDMAMem.

(** [objects_.find(oid, loc)]. *)
Definition find (oid : Z) : M (t P) (option BladeLocation) :=
  let* s := gets id in ret (s.(objects_) !! oid).

Definition no_such_id : exn :=
  NoSuchIDException "Requested ObjectID does not exist remotely.".

Section objects.
Context {T : Type} `{Serializer T}.

(** [new char[w.size()]] and [w.serialize(data)]. *)
Definition serialize_new (w : T) : M (t P) addr :=
  let* data := new_char (u64 (WriteUnit.size w)) in
  let* buf := load data in
  let* bs := stop (WriteUnit.serialize w buf) in
  store data bs ;;;
  ret data.

Definition write_async (oid : Z) (w : T) : M (t P) nat :=
  let sz := u64 (WriteUnit.size w) in
  let* data := serialize_new w in
  let* l := find oid in
  match l with
  | Some loc => writeRemoteAsync data loc
  | None =>
      let* ar := allocate sz in
      let* _ := insertObjectLocation oid sz ar in
      writeRemoteAsync data (mk_loc sz ar)
  end.

Definition write_sync (oid : Z) (w : T) : M (t P) bool :=
  let sz := u64 (WriteUnit.size w) in
  let* data := serialize_new w in
  let* l := find oid in
  match l with
  | Some loc => writeRemote data loc default_RDMAMem
  | None =>
      let* ar := allocate sz in
      let* _ := insertObjectLocation oid sz ar in
      writeRemote data (mk_loc sz ar) default_RDMAMem
  end.

Definition write_async_bulk (_ : list Z) (_ : list T) : M (t P) nat :=
  throw (RuntimeError "Not implemented").
Definition write_sync_bulk (_ : list Z) (_ : list T) : M (t P) bool :=
  throw (RuntimeError "Not implemented").
End objects.

Definition read_async (oid : Z) : M (t P) nat :=
  let* l := find oid in
  match l with
  | None => throw no_such_id
  | Some loc => let* data := new_char loc.(size) in readToLocalAsync loc data
  end.

Definition read_sync (oid : Z) : M (t P) (bytes * Z) :=
  let* l := find oid in
  match l with
  | Some loc =>
      let* data := new_char loc.(size) in
      let* fd := readToLocalAsync loc data in
      ClientFuture.getDataPair env fuel fd
  | None => throw no_such_id
  end.

Definition read_async_bulk (_ : list Z) : M (t P) nat :=
  throw (RuntimeError "Not implemented").
Definition read_sync_bulk (_ : list Z) : M (t P) (bytes * Z) :=
  throw (RuntimeError "Not implemented").

Definition remove (oid : Z) : M (t P) bool :=
  let* l := find oid in
  match l with
  | Some loc =>
      modify (fun s => set_objects (delete oid s.(objects_)) s) ;;;
      deallocate loc.(allocRec)
  | None =>
      throw (NoSuchIDException "Error. Trying to remove nonnexistent object")
  end.

(** ** Connecting *)

(** [build_context] with the polling thread, then the queue pair. *)
Definition build_context : M (t P) unit :=
  test ibv_alloc_pd ;;;
  test ibv_create_comp_channel ;;;
  test ibv_create_cq ;;;
  test ibv_req_notify_cq ;;;
  modify (set_gen_ctx true).

Definition build_connection : M (t P) unit :=
  build_context ;;;
  test rdma_create_qp ;;;
  modify (set_qp true).

(** [setup_memory] with [alloc_rdma_memory]. *)
Definition setup_memory : M (t P) unit :=
  test posix_memalign ;;;
  test posix_memalign ;;;
  test ibv_reg_mr ;;;
  let* k := reg_mr in
  modify (set_recv_msg_mr (Some k)) ;;;
  test ibv_reg_mr ;;;
  let* k' := reg_mr in
  modify (set_send_msg_mr (Some k')) ;;;
  modify (set_default_recv_mem (new_RDMAMem RecvMsg RECV_MSG_SIZE (Some k))) ;;;
  modify (set_default_send_mem (new_RDMAMem SendMsg SEND_MSG_SIZE (Some k'))) ;;;
  modify (set_setup_done true).

(** The loop over the events of the channel; it also ends when
    [rdma_get_cm_event] reports an error, after [events]. *)
Fixpoint connect_loop (events : list cm_event_type) : M (t P) unit :=
  match events with
  | [] => ret tt
  | ADDR_RESOLVED :: events =>
      build_connection ;;;
      setup_memory ;;;
      test rdma_resolve_route ;;;
      connect_loop events
  | ROUTE_RESOLVED :: events =>
      test rdma_connect ;;;
      modify (set_connecting true) ;;;
      connect_loop events
  | ESTABLISHED :: _ => ret tt
  | _ :: _ => stop Exited
  end.

(** [connect], with [connect_rdma_cm]: the first event channel is leaked. *)
Definition connect (events : list cm_event_type) : M (t P) unit :=
  test getaddrinfo ;;;
  test rdma_create_event_channel ;;;
  modify (set_ec true) ;;;
  test rdma_create_id ;;;
  test rdma_resolve_addr ;;;
  connect_loop events.

(** [RDMAClient : public BladeClient]. *)
Definition blade_client {T} `{Serializer T} : BladeClient (t P) T := {|
  bc_connection := list cm_event_type;
  bc_connect := connect;
  bc_read_sync := read_sync;
  bc_read_sync_bulk := read_sync_bulk;
  bc_read_async := read_async;
  bc_read_async_bulk := read_async_bulk;
  bc_write_sync := write_sync;
  bc_write_sync_bulk := write_sync_bulk;
  bc_write_async := write_async;
  bc_write_async_bulk := write_async_bulk;
  bc_remove := remove;
|}.

End client.
End RDMAClient.
