(* ===== verification/RDMASystem.v ===== *)
(** * An RDMA client, the network adapter and the allocation server together

    RDMAClient.v takes the rest of the world as a step [env].  Here it is made
    of an adapter that executes the posted requests of a reliable connection in
    order, on the memory of both sides; of the allocation server of
    BladeServers.v, which serves the messages; and of the client's polling
    thread.  A schedule says which of them runs next.

    The client is proved to behave as a map of objects, over any allocator that
    keeps its contract and under every schedule, as long as the caller is not
    overtaken by the completion of its own request ([windows]), objects keep
    their size, and the send queue does not fill up.  The last section shows
    what happens at these limits. *)

From stdpp Require Import gmap list strings.
From S2P Require Import Prelude Common Wire Codec RDMAVerbs RDMAServer BladeServers.
From S2P Require Import BladeClient RDMAClient.

Module RDMASystem.
Import RDMAClient.

Section system.
Context `{ManagedBuffer} `{RootTable BladeMessage.t}.

(** The server process, its pool as the adapter sees it, the connection, and
    the schedule: [true] for a step of the adapter, [false] for one of the
    polling thread.  After the schedule, completions are polled first. *)
Record peer := mk_peer {
  srv : RDMAServer.t BladeAllocServer.t;
  region : Region.t;
  schedule : list bool;
}.

Definition world := RDMAClient.t peer.

Context (srv_fails : RDMAServer.t BladeAllocServer.t -> verb -> bool).
Context (conn base rkey : Z).

Definition set_region (r : Region.t) (s : world) : world :=
  set_peer (mk_peer s.(RDMAClient.peer).(srv) r s.(RDMAClient.peer).(schedule)) s.
Definition set_srv (x : RDMAServer.t BladeAllocServer.t) (s : world) : world :=
  set_peer (mk_peer x s.(RDMAClient.peer).(region) s.(RDMAClient.peer).(schedule)) s.
Definition set_schedule (l : list bool) (s : world) : world :=
  set_peer (mk_peer s.(RDMAClient.peer).(srv) s.(RDMAClient.peer).(region) l) s.

(** The adapter adds a completion. *)
Definition push_wc (w : wc) : M world unit :=
  modify (fun s => set_cq (s.(cq) ++ [w]) s).

(** The remote side checks the key and the bounds of the region. *)
Definition granted_access (r : Region.t) (k a len : Z) : bool :=
  bool_decide (k = r.(Region.rkey) /\ Region.covers r a len).

Definition exec_write (w : send_wr) : M world unit :=
  let* bs := load_n w.(sge_addr) w.(sge_length) in
  let* r := gets (fun s => s.(RDMAClient.peer).(region)) in
  if granted_access r w.(rdma_rkey) w.(rdma_remote_addr) w.(sge_length) then
    modify (set_region (Region.store r w.(rdma_remote_addr) bs)) ;;;
    push_wc (mk_wc w.(wr_id) IBV_WC_RDMA_WRITE true)
  else push_wc (mk_wc w.(wr_id) IBV_WC_RDMA_WRITE false).

(** Data that arrives behind the end of a local block is undefined. *)
Definition exec_read (w : send_wr) : M world unit :=
  let* old := load w.(sge_addr) in
  let* r := gets (fun s => s.(RDMAClient.peer).(region)) in
  if granted_access r w.(rdma_rkey) w.(rdma_remote_addr) w.(sge_length) then
    if Z.of_nat (length old) <? w.(sge_length) then undefined else
    let n := Z.to_nat w.(sge_length) in
    store w.(sge_addr) (Region.load r w.(rdma_remote_addr) n ++ drop n old) ;;;
    push_wc (mk_wc w.(wr_id) IBV_WC_RDMA_READ true)
  else push_wc (mk_wc w.(wr_id) IBV_WC_RDMA_READ false).

(** Take the messages that the server has sent on the connection. *)
Definition take_sent : M world (list bytes) :=
  let* s := gets id in
  let x := s.(RDMAClient.peer).(srv) in
  modify (set_srv (RDMAServer.set_ids
    (alter (fun i => RDMAServer.mk_id (RDMAServer.id_context i) (RDMAServer.id_qp i)
                       (RDMAServer.id_recvs i) []) conn (RDMAServer.ids x)) x)) ;;;
  ret (match RDMAServer.ids x !! conn with Some i => RDMAServer.id_sent i | None => [] end).

(** A message for the client fills the oldest posted receive of 1000 bytes. *)
Definition deliver (msg : bytes) : M world unit :=
  let* s := gets id in
  match s.(recv_q) with
  | [] => ret tt
  | o :: os =>
      modify (set_recv_q os) ;;;
      if Z.of_nat (length msg) <=? 1000 then
        modify (set_recv_msg msg) ;;; push_wc (mk_wc o IBV_WC_RECV true)
      else push_wc (mk_wc o IBV_WC_RECV false)
  end.

(** A message arrives: the server's polling thread handles it.  Should the
    server end or fail, no answer comes. *)
Definition exec_send (w : send_wr) : M world unit :=
  let* bs := load_n w.(sge_addr) w.(sge_length) in
  let* s := gets id in
  let '(x, _) := RDMAServer.on_completion srv_fails
    (BladeAllocServer.process_message srv_fails base rkey) conn IBV_WC_RECV bs
    s.(RDMAClient.peer).(srv) in
  modify (set_srv x) ;;;
  push_wc (mk_wc w.(wr_id) IBV_WC_SEND true) ;;;
  let* msgs := take_sent in
  mfor msgs deliver.

(** The adapter executes the oldest request. *)
Definition hw_step : M world unit :=
  let* s := gets id in
  match s.(send_q) with
  | [] => ret tt
  | w :: ws =>
      modify (set_send_q ws) ;;;
      match w.(opcode) with
      | IBV_WR_RDMA_WRITE => exec_write w
      | IBV_WR_RDMA_READ => exec_read w
      | IBV_WR_SEND => exec_send w
      end
  end.

Context (fails : world -> verb -> bool).

Definition env : M world unit :=
  let* s := gets id in
  match s.(RDMAClient.peer).(schedule) with
  | b :: bs =>
      modify (set_schedule bs) ;;;
      if b : bool then hw_step else poll_cq_one fails
  | [] =>
      match s.(cq) with
      | [] => hw_step
      | _ :: _ => poll_cq_one fails
      end
  end.

(** ** Pending operations *)

(** What the proofs know of an operation that has been posted and not been
    completed.  A write has its own copy of the bytes; a read knows the bytes
    it will bring. *)
Inductive kind :=
| KWrite (blk : nat) (bs : bytes) (raddr : Z) (k : nat)
| KRead (blk : nat) (raddr : Z) (val : bytes) (k : nat)
| KSend (len : Z) (k : nat)
| KRecv.

Record job := mk_job { j_op : nat; j_fd : nat; j_kind : kind }.

Section jobs.
Context (key : Z).

Definition wr_of (j : job) : send_wr :=
  match j.(j_kind) with
  | KWrite b bs a k => mk_wr j.(j_op) IBV_WR_RDMA_WRITE (Blk b) (Z.of_nat (length bs)) k a key
  | KRead b a v k => mk_wr j.(j_op) IBV_WR_RDMA_READ (Blk b) (Z.of_nat (length v)) k a key
  | KSend n k => mk_wr j.(j_op) IBV_WR_SEND SendMsg n k 0 0
  | KRecv => mk_wr j.(j_op) IBV_WR_SEND Null 0 0 0 0
  end.

Definition wc_of (j : job) : wc :=
  mk_wc j.(j_op)
    match j.(j_kind) with
    | KWrite _ _ _ _ => IBV_WC_RDMA_WRITE
    | KRead _ _ _ _ => IBV_WC_RDMA_READ
    | KSend _ _ => IBV_WC_SEND
    | KRecv => IBV_WC_RECV
    end true.

(** The memory that a read has registered. *)
Definition read_mem (b : nat) (len : Z) (k : nat) : RDMAMem :=
  mk_mem (Blk b) len (Some k) true false false.

Definition op_of (j : job) : RDMAOpInfo :=
  match j.(j_kind) with
  | KWrite b _ _ _ => mk_op (Blk b) j.(j_fd) false None
  | KRead b _ v k => mk_op Null j.(j_fd) false (Some (read_mem b (Z.of_nat (length v)) k))
  | KSend _ _ => mk_op Null j.(j_fd) false None
  | KRecv => mk_op Null j.(j_fd) true None
  end.

(** The future of an operation that the adapter has executed ([ex]) or not. *)
Definition pending (ex : bool) (j : job) (d : FutureData) : Prop :=
  result_available d = false /\ fd_error_code d = 0 /\ data_size d = 0 /\
  match j.(j_kind) with
  | KRead _ _ v _ =>
      exists old, data_ptr d = Some old /\ length old = length v /\ (ex = true -> old = v)
  | _ => True
  end.

Definition owns (h : gmap nat block) (j : job) : Prop :=
  match j.(j_kind) with
  | KWrite b bs _ _ => h !! b = Some (Plain bs)
  | KRead b _ _ _ => h !! b = Some (Shared j.(j_fd))
  | _ => True
  end.

Definition job_ok (ex : bool) (o : gmap nat RDMAOpInfo) (f : list FutureData)
    (h : gmap nat block) (j : job) : Prop :=
  o !! j.(j_op) = Some (op_of j) /\ (exists d, f !! j.(j_fd) = Some d /\ pending ex j d) /\
  owns h j.

Definition wblk (j : job) : option nat :=
  match j.(j_kind) with KWrite b _ _ _ => Some b | _ => None end.

(** The bytes that a read brings. *)
Definition val_of (j : job) : option bytes :=
  match j.(j_kind) with KRead _ _ v _ => Some v | _ => None end.

Definition counted (j : job) : bool :=
  match j.(j_kind) with KRecv => false | _ => true end.

Definition count (l : list job) : Z := Z.of_nat (length (List.filter counted l)).

(** A future that has been completed; [exp] has the bytes that reads bring. *)
Definition finished (exp : gmap nat bytes) (fd : nat) (d : FutureData) : Prop :=
  result_available d = true /\ result d = true /\ fd_error_code d = 0 /\
  data_size d = 0 /\ (forall v, exp !! fd = Some v -> data_ptr d = Some v).

Record Fab (exp : gmap nat bytes) (done todo recvs : list job) (s : world) : Prop := {
  fab_cq : s.(cq) = wc_of <$> done;
  fab_sq : s.(send_q) = wr_of <$> todo;
  fab_rq : s.(recv_q) = j_op <$> recvs;
  fab_done : Forall (job_ok true s.(ops) s.(futs) s.(heap)) done;
  fab_todo : Forall (job_ok false s.(ops) s.(futs) s.(heap)) (todo ++ recvs);
  fab_kinds : Forall (fun j => j_kind j <> KRecv) todo;
  fab_recvs : Forall (fun j => j_kind j = KRecv) recvs;
  fab_op : NoDup (j_op <$> done ++ todo ++ recvs);
  fab_fd : NoDup (j_fd <$> done ++ todo ++ recvs);
  fab_blk : NoDup (omap wblk (done ++ todo ++ recvs));
  fab_ops o : is_Some (s.(ops) !! o) -> (o < s.(next_op))%nat;
  fab_heap b : is_Some (s.(heap) !! b) -> (b < s.(next_blk))%nat;
  fab_out : s.(outstanding_send_wr) = count (done ++ todo);
  fab_fin fd d : s.(futs) !! fd = Some d -> fd ∉ (j_fd <$> done ++ todo ++ recvs) ->
    finished exp fd d;
  fab_exp j : j ∈ done ++ todo ++ recvs -> exp !! j_fd j = val_of j;
  fab_exp_dom fd : is_Some (exp !! fd) -> (fd < length s.(futs))%nat;
}.

(** *** Completing the oldest executed operation *)

Definition finish_fd (d : FutureData) : FutureData := set_sem false (complete_fd d).

Definition completed (j : job) (s : world) : world :=
  let s := set_cq (tail s.(cq)) s in
  let s := match j.(j_kind) with
           | KRead _ _ _ k => set_mrs (s.(mrs) ∖ {[k]}) s
           | _ => s end in
  let s := set_futs (alter complete_fd j.(j_fd) s.(futs)) s in
  let s := match j.(j_kind) with
           | KRecv => set_recv_sem false s
           | _ => set_futs (alter (fun d => set_sem false d) j.(j_fd) s.(futs))
                    (set_outstanding_send_wr (s.(outstanding_send_wr) - 1) s)
           end in
  let s := match j.(j_kind) with
           | KWrite b _ _ _ => set_heap (delete b s.(heap)) s
           | _ => s end in
  set_ops (delete j.(j_op) s.(ops)) s.

(** What completing [j] does to the parts that the other jobs use. *)
Lemma completed_parts j s :
  (completed j s).(ops) = delete j.(j_op) s.(ops) /\
  (completed j s).(heap) =
    match wblk j with Some b => delete b s.(heap) | None => s.(heap) end /\
  (completed j s).(futs) =
    alter (if counted j then finish_fd else complete_fd) j.(j_fd) s.(futs) /\
  (completed j s).(outstanding_send_wr) =
    s.(outstanding_send_wr) - (if counted j then 1 else 0) /\
  (completed j s).(recv_sem) = (if counted j then s.(recv_sem) else false) /\
  (completed j s).(cq) = tail s.(cq) /\ (completed j s).(send_q) = s.(send_q) /\
  (completed j s).(recv_q) = s.(recv_q) /\ (completed j s).(next_op) = s.(next_op) /\
  (completed j s).(next_blk) = s.(next_blk) /\ (completed j s).(objects_) = s.(objects_) /\
  (completed j s).(RDMAClient.peer) = s.(RDMAClient.peer) /\
  (completed j s).(recv_msg) = s.(recv_msg) /\ (completed j s).(send_msg) = s.(send_msg) /\
  (completed j s).(windows) = s.(windows) /\ (completed j s).(send_msg_mr) = s.(send_msg_mr) /\
  (completed j s).(recv_msg_mr) = s.(recv_msg_mr).
Proof.
  unfold completed, wblk, counted, finish_fd.
  destruct (j_kind j); cbn; split_and!; try done; try lia;
    apply list_eq; intros i; destruct (decide (i = j_fd j)) as [->|Hne];
    rewrite ?list_lookup_alter_eq, ?list_lookup_alter_ne by done; try done;
    by destruct (futs s !! j_fd j).
Qed.

Lemma job_ok_other ex o f h j j0 g :
  job_ok ex o f h j -> job_ok true o f h j0 -> j_op j <> j_op j0 -> j_fd j <> j_fd j0 ->
  (forall b, wblk j = Some b -> wblk j0 <> Some b) ->
  job_ok ex (delete (j_op j0) o) (alter g (j_fd j0) f)
    (match wblk j0 with Some b => delete b h | None => h end) j.
Proof.
  intros (H1 & (d & Hd & Hp) & Ho) (_ & _ & Ho0) Hop Hfd Hb. split; [|split].
  - by rewrite lookup_delete_ne.
  - exists d. by rewrite list_lookup_alter_ne.
  - unfold owns, wblk in *. destruct (j_kind j0) as [b0 bs0 a0 k0| | |]; [|done..].
    destruct (j_kind j) as [b bs a k|b a v k| |]; [| |done..].
    + rewrite lookup_delete_ne; [done|]. intros ->. by apply (Hb b).
    + rewrite lookup_delete_ne; [done|]. intros ->. congruence.
Qed.

Lemma fd_update_ok fd f (s : world) :
  ClientFuture.update fd f s = (set_futs (alter f fd s.(futs)) s, Ok tt).
Proof. done. Qed.

Lemma count_cons j l : count (j :: l) = (if counted j then 1 else 0) + count l.
Proof. unfold count. cbn. destruct (counted j); cbn [length]; lia. Qed.

Lemma count_app l1 l2 : count (l1 ++ l2) = count l1 + count l2.
Proof. unfold count. rewrite List.filter_app, length_app. lia. Qed.

Lemma count_nonneg l : 0 <= count l.
Proof. unfold count. lia. Qed.

Lemma poll_runs exp j done todo recvs s : Fab exp (j :: done) todo recvs s ->
  poll_cq_one fails s = (completed j s, Ok tt).
Proof.
  intros HF. pose proof (fab_cq _ _ _ _ _ HF) as Hcq. cbn in Hcq.
  pose proof (fab_done _ _ _ _ _ HF) as Hd. apply Forall_cons in Hd as [(Ho & (d & Hd & Hp) & Hown) _].
  pose proof (fab_out _ _ _ _ _ HF) as Hout. cbn [app] in Hout. rewrite count_cons in Hout.
  pose proof (count_nonneg (done ++ todo)) as Hnn.
  unfold poll_cq_one, bind at 1, gets, id. rewrite Hcq.
  unfold bind at 1, modify at 1. cbn [wc_success wc_of].
  unfold on_completion. cbn [wc_wr_id wc_op]. unfold deref_op, bind at 1, bind at 1, gets, id.
  cbn [set_cq ops wc_wr_id wc_op wc_of]. rewrite Ho. unfold ret at 1.
  unfold completed. rewrite Hcq. cbn [tail].
  unfold op_of, counted, owns, apply_op, signal_op, dec_outstanding, delete_array in *.
  destruct (j_kind j) as [b bs a k|b a v k|n k|]; cbn -[delete alter] in *;
    repeat (unfold bind, ret, gets, modify, id, clear; cbn -[delete alter];
            rewrite ?fd_update_ok; cbn -[delete alter]).
  - destruct (Z.ltb_spec 0 (outstanding_send_wr s)); [|lia].
    cbn -[delete alter]. rewrite Hown. done.
  - destruct (Z.ltb_spec 0 (outstanding_send_wr s)); [|lia]. done.
  - destruct (Z.ltb_spec 0 (outstanding_send_wr s)); [|lia]. done.
  - done.
Qed.

Lemma finish_finished exp j d g :
  g = finish_fd \/ g = complete_fd -> pending true j d -> exp !! j_fd j = val_of j ->
  finished exp (j_fd j) (g d).
Proof.
  intros Hg (Ha & He & Hz & Hk) Hr.
  assert (Hgd : result_available (g d) = true /\ result (g d) = true /\
    fd_error_code (g d) = fd_error_code d /\ data_size (g d) = data_size d /\
    data_ptr (g d) = data_ptr d) by (destruct Hg as [-> | ->]; done).
  destruct Hgd as (G1 & G2 & G3 & G4 & G5). unfold finished.
  rewrite G1, G2, G3, G4, G5, Hr. split_and!; try done. unfold val_of.
  intros v Hv. destruct (j_kind j); simplify_eq. destruct Hk as (old & Hold & _ & Hex).
  by rewrite Hold, (Hex eq_refl).
Qed.

(** Jobs other than [j] in the list have other keys. *)
Lemma NoDup_split {A} (f : job -> A) l1 j l2 : NoDup (f <$> l1 ++ j :: l2) ->
  forall j', j' ∈ l1 ++ l2 -> f j' <> f j.
Proof.
  rewrite fmap_app, fmap_cons. intros Hn j' Hj' Heq.
  apply NoDup_app in Hn as (_ & H2 & H3%NoDup_cons). destruct H3 as [H3 _].
  apply elem_of_app in Hj' as [Hj'|Hj'].
  - apply (H2 (f j')); [by apply list_elem_of_fmap_2|]. rewrite Heq. set_solver.
  - apply H3. rewrite <- Heq. by apply list_elem_of_fmap_2.
Qed.

Lemma NoDup_omap_split l1 j l2 b : NoDup (omap wblk (l1 ++ j :: l2)) ->
  wblk j = Some b -> forall j', j' ∈ l1 ++ l2 -> wblk j' <> Some b.
Proof.
  rewrite omap_app. cbn. intros Hn Hb j' Hj' Hb'. rewrite Hb in Hn.
  apply NoDup_app in Hn as (_ & H2 & H3%NoDup_cons). destruct H3 as [H3 _].
  apply elem_of_app in Hj' as [Hj'|Hj'].
  - apply (H2 b); [apply list_elem_of_omap; eauto|]. set_solver.
  - apply H3, list_elem_of_omap. eauto.
Qed.

(** Membership in the list of pending operations, from the given facts only. *)
Ltac in_jobs H := revert H; clear; set_solver.
Ltac in_jobs2 H H' := revert H H'; clear; set_solver.

Lemma poll_Fab exp j done todo recvs s : Fab exp (j :: done) todo recvs s ->
  Fab exp done todo recvs (completed j s).
Proof.
  intros HF. pose proof HF as [].
  destruct (completed_parts j s) as
    (Po & Ph & Pf & Pout & Prs & Pcq & Psq & Prq & Pno & Pnb & _).
  apply Forall_cons in fab_done0 as [Hj Hdone].
  pose proof (NoDup_split j_op [] j _ fab_op0) as Nop.
  pose proof (NoDup_split j_fd [] j _ fab_fd0) as Nfd. cbn [app] in Nop, Nfd.
  assert (Hother : forall ex j', j' ∈ done ++ todo ++ recvs ->
    job_ok ex s.(ops) s.(futs) s.(heap) j' ->
    job_ok ex (completed j s).(ops) (completed j s).(futs) (completed j s).(heap) j').
  { intros ex j' Hin Hok. rewrite Po, Ph, Pf. apply job_ok_other; try done.
    - by apply Nop.
    - by apply Nfd.
    - intros b Hb Hb'. by apply (NoDup_omap_split [] j (done ++ todo ++ recvs) b fab_blk0 Hb' j'). }
  cbn [app] in *. split; rewrite ?Psq, ?Prq, ?Pno, ?Pnb; try done.
  - rewrite Pcq, fab_cq0. done.
  - rewrite Forall_forall in Hdone |- *. intros j' Hj'. apply Hother; [in_jobs Hj'|auto].
  - rewrite Forall_forall in fab_todo0 |- *. intros j' Hj'. apply Hother; [in_jobs Hj'|auto].
  - rewrite fmap_cons in fab_op0. by apply NoDup_cons in fab_op0 as [_ ?].
  - rewrite fmap_cons in fab_fd0. by apply NoDup_cons in fab_fd0 as [_ ?].
  - cbn in fab_blk0. destruct (wblk j); [by apply NoDup_cons in fab_blk0 as [_ ?]|done].
  - intros o. rewrite Po. intros [x [_ Hx]%lookup_delete_Some]. apply fab_ops0. eauto.
  - intros b. rewrite Ph. destruct (wblk j); [|apply fab_heap0].
    intros [x [_ Hx]%lookup_delete_Some]. apply fab_heap0. eauto.
  - rewrite Pout, fab_out0, count_cons. lia.
  - intros fd d. rewrite Pf. destruct (decide (fd = j_fd j)) as [->|Hne].
    + rewrite list_lookup_alter_eq. destruct Hj as (_ & (d0 & Hd0 & Hp) & _).
      rewrite Hd0. intros [= <-] _. apply finish_finished; [|done|apply fab_exp0, list_elem_of_here].
      destruct (counted j); auto.
    + rewrite list_lookup_alter_ne by done. intros Hd Hn. apply fab_fin0; [done|].
      rewrite fmap_cons. in_jobs2 Hn Hne.
  - intros j' Hj'. apply fab_exp0. in_jobs Hj'.
  - intros fd Hfd. rewrite Pf, length_alter. auto.
Qed.

(** *** Executing the oldest request *)

Lemma Fab_execute exp done j todo recvs s s' g :
  Fab exp done (j :: todo) recvs s ->
  s'.(cq) = s.(cq) ++ [wc_of j] -> s'.(send_q) = tail s.(send_q) ->
  s'.(recv_q) = s.(recv_q) -> s'.(ops) = s.(ops) -> s'.(heap) = s.(heap) ->
  s'.(next_op) = s.(next_op) -> s'.(next_blk) = s.(next_blk) ->
  s'.(outstanding_send_wr) = s.(outstanding_send_wr) ->
  s'.(futs) = alter g j.(j_fd) s.(futs) ->
  (forall d, pending false j d -> pending true j (g d)) ->
  Fab exp (done ++ [j]) todo recvs s'.
Proof.
  intros [] Ecq Esq Erq Eo Eh Eno Enb Eout Ef Hg.
  assert (Happ : forall l, (done ++ [j]) ++ l = done ++ j :: l)
    by (intros; by rewrite <- app_assoc).
  pose proof (NoDup_split j_fd done j _ fab_fd0) as Nfd.
  assert (Hother : forall ex j', j' ∈ done ++ todo ++ recvs ->
    job_ok ex s.(ops) s.(futs) s.(heap) j' ->
    job_ok ex s.(ops) (alter g (j_fd j) s.(futs)) s.(heap) j').
  { intros ex j' Hin (H1 & (d & Hd & Hp) & H3). split; [done|]. split; [|done].
    exists d. rewrite list_lookup_alter_ne; [done|]. intros Heq. by apply (Nfd j'). }
  cbn [app] in fab_todo0. apply Forall_cons in fab_todo0 as [Hj Ht].
  apply Forall_cons in fab_kinds0 as [Hk Hks]. cbn [app] in *.
  split; rewrite ?Eo, ?Eh, ?Ef, ?Erq, ?Eno, ?Enb, ?Happ; try done.
  - rewrite Ecq, fab_cq0, fmap_app. done.
  - rewrite Esq, fab_sq0. done.
  - apply Forall_app. split.
    + rewrite Forall_forall in fab_done0 |- *. intros j' Hj'. apply Hother; [in_jobs Hj'|auto].
    + apply Forall_singleton. destruct Hj as (H1 & (d & Hd & Hp) & H3).
      split; [done|]. split; [|done]. exists (g d). rewrite list_lookup_alter_eq, Hd.
      split; [done|]. by apply Hg.
  - rewrite Forall_forall in Ht |- *. intros j' Hj'. apply Hother; [in_jobs Hj'|auto].
  - rewrite Eout, fab_out0. done.
  - intros fd d. destruct (decide (fd = j_fd j)) as [->|Hne].
    + intros _ Hn. exfalso. apply Hn. rewrite fmap_app, fmap_cons. set_solver.
    + rewrite list_lookup_alter_ne by done. apply fab_fin0.
  - intros fd Hfd. rewrite length_alter. auto.
Qed.

(** The region once the queue has been executed satisfies [Pr], and the reads
    in the queue bring what they are expected to. *)
Fixpoint queue_ok (Pr : Region.t -> Prop) (todo : list job) (r : Region.t) : Prop :=
  match todo with
  | [] => Pr r
  | j :: l =>
      match j.(j_kind) with
      | KWrite _ bs a _ =>
          Region.covers r a (Z.of_nat (length bs)) /\ queue_ok Pr l (Region.store r a bs)
      | KRead _ a v _ =>
          Region.covers r a (Z.of_nat (length v)) /\ Region.load r a (length v) = v /\
          queue_ok Pr l r
      | _ => queue_ok Pr l r
      end
  end.

Lemma queue_ok_app Pr l1 l2 r :
  queue_ok Pr (l1 ++ l2) r <-> queue_ok (queue_ok Pr l2) l1 r.
Proof.
  revert r. induction l1 as [|j l1 IH]; intros r; [done|]. cbn [app queue_ok].
  destruct (j_kind j); by rewrite IH.
Qed.

Lemma queue_ok_mono (Pr Qr : Region.t -> Prop) l r :
  (forall r', Pr r' -> Qr r') -> queue_ok Pr l r -> queue_ok Qr l r.
Proof.
  intros Himp. revert r. induction l as [|j l IH]; intros r; cbn [queue_ok]; [auto|].
  destruct (j_kind j); intuition auto.
Qed.

Abbreviation region_of s := (region (RDMAClient.peer s)).
Abbreviation srv_of s := (srv (RDMAClient.peer s)).
Abbreviation schedule_of s := (schedule (RDMAClient.peer s)).

Lemma granted_access_ok r a len : Region.rkey r = key -> Region.covers r a len ->
  granted_access r key a len = true.
Proof. intros Hk Hc. unfold granted_access. by apply bool_decide_eq_true. Qed.

Lemma hw_write exp done j todo recvs s b bs a k Pr :
  Fab exp done (j :: todo) recvs s -> j_kind j = KWrite b bs a k ->
  Region.rkey (region_of s) = key -> queue_ok Pr (j :: todo) (region_of s) ->
  let s' := set_cq (s.(cq) ++ [wc_of j])
    (set_region (Region.store (region_of s) a bs) (set_send_q (tail s.(send_q)) s)) in
  hw_step s = (s', Ok tt) /\ Fab exp (done ++ [j]) todo recvs s' /\
  queue_ok Pr todo (region_of s').
Proof.
  intros HF Hj Hkey Hq. cbn [queue_ok] in Hq. rewrite Hj in Hq. destruct Hq as [Hc Hq].
  split; [|split].
  - pose proof (fab_sq _ _ _ _ _ HF) as Hs. cbn in Hs.
    pose proof (fab_todo _ _ _ _ _ HF) as Ht. cbn in Ht.
    apply Forall_cons in Ht as [(_ & _ & Ho) _]. unfold owns in Ho. rewrite Hj in Ho.
    unfold hw_step, bind at 1, gets, id. rewrite Hs. unfold bind at 1, modify at 1.
    unfold wr_of. rewrite Hj. cbn [opcode tail].
    unfold exec_write, load_n, load, bind, gets, id.
    cbn [sge_addr sge_length rdma_rkey rdma_remote_addr set_send_q heap].
    rewrite Ho. unfold ret. cbn -[Z.ltb].
    rewrite Z.ltb_irrefl, Nat2Z.id, firstn_all. unfold modify.
    rewrite granted_access_ok by done. unfold wc_of, push_wc, modify. rewrite Hj. done.
  - apply (Fab_execute exp done j todo recvs s _ (fun d => d)); try done.
    + cbn. symmetry. apply list_alter_id. done.
    + intros d. unfold pending. by rewrite Hj.
  - done.
Qed.

Lemma hw_read exp done j todo recvs s b v a k Pr :
  Fab exp done (j :: todo) recvs s -> j_kind j = KRead b a v k ->
  Region.rkey (region_of s) = key -> queue_ok Pr (j :: todo) (region_of s) ->
  exists s', hw_step s = (s', Ok tt) /\ Fab exp (done ++ [j]) todo recvs s' /\
    s' = set_cq (s.(cq) ++ [wc_of j])
      (set_futs (alter (set_data_ptr (Some v)) (j_fd j) s.(futs))
         (set_send_q (tail s.(send_q)) s)) /\
    queue_ok Pr todo (region_of s').
Proof.
  intros HF Hj Hkey Hq. cbn [queue_ok] in Hq. rewrite Hj in Hq. destruct Hq as (Hc & Hv & Hq).
  eexists. split; [|split; [|split; [reflexivity|done]]].
  - pose proof (fab_sq _ _ _ _ _ HF) as Hs. cbn in Hs.
    pose proof (fab_todo _ _ _ _ _ HF) as Ht. cbn in Ht.
    apply Forall_cons in Ht as [(_ & (d & Hd & Hp) & Ho) _]. unfold owns in Ho.
    unfold pending in Hp. rewrite Hj in Ho, Hp. destruct Hp as (_ & _ & _ & old & Hold & Hlen & _).
    unfold hw_step, bind at 1, gets, id. rewrite Hs. unfold bind at 1, modify at 1.
    unfold wr_of. rewrite Hj. cbn [opcode tail].
    unfold exec_read, load, bind, gets, id.
    cbn [sge_addr sge_length rdma_rkey rdma_remote_addr set_send_q heap futs].
    rewrite Ho, Hd, Hold. unfold ret. cbn -[Z.ltb]. rewrite granted_access_ok by done.
    rewrite Hlen, Z.ltb_irrefl, Nat2Z.id, Hv, drop_ge, app_nil_r by lia.
    unfold store, bind, gets, id. cbn [set_send_q heap]. rewrite Ho, fd_update_ok.
    unfold wc_of, push_wc, modify. rewrite Hj. done.
  - apply (Fab_execute exp done j todo recvs s _ (set_data_ptr (Some v))); try done.
    intros d. unfold pending. rewrite Hj.
    intros (H1 & H2 & H3 & old & Hold & Hlen & _). cbn. eauto 10.
Qed.

(** *** A message to the server *)

Section serving.
Context `{!ManagedBufferSpec} `{!BladeMessageSpec} (pool_size : Z).
Context (Hsf : forall x v, srv_fails x v = false).
Context (Hcreate : mb_create base pool_size <> None).

Definition granted_of (x : RDMAServer.t BladeAllocServer.t) : gmap Z Z :=
  BladeAllocServer.granted (RDMAServer.derived x).

(** The server is connected to this client and has nothing left to deliver. *)
Definition srv_ok (x : RDMAServer.t BladeAllocServer.t) : Prop :=
  exists ph i, BladeAllocServer.alloc_inv base pool_size rkey ph x /\
    ph !! conn = Some RDMAServer.Connected /\
    RDMAServer.ids x !! conn = Some i /\ RDMAServer.id_sent i = [].

Definition no_sent (i : RDMAServer.cm_id) : RDMAServer.cm_id :=
  RDMAServer.mk_id (RDMAServer.id_context i) (RDMAServer.id_qp i) (RDMAServer.id_recvs i) [].

Lemma take_sent_ok (s : world) i : RDMAServer.ids (srv_of s) !! conn = Some i ->
  take_sent s = (set_srv (RDMAServer.set_ids
    (alter no_sent conn (RDMAServer.ids (srv_of s))) (srv_of s)) s,
    Ok (RDMAServer.id_sent i)).
Proof. intros Hi. unfold take_sent, bind, gets, id, modify, ret. by rewrite Hi. Qed.

Lemma deliver_ok (s : world) o msg : s.(recv_q) = [o] -> (length msg <= 1000)%nat ->
  deliver msg s = (set_cq (s.(cq) ++ [mk_wc o IBV_WC_RECV true])
    (set_recv_msg msg (set_recv_q [] s)), Ok tt).
Proof.
  intros Hr Hl. unfold deliver, bind at 1, gets, id. rewrite Hr.
  unfold bind at 1, modify at 1.
  by rewrite (proj2 (Z.leb_le (Z.of_nat (length msg)) 1000) ltac:(lia)).
Qed.

Lemma load_send_ok (s : world) : load_n SendMsg (Z.of_nat (length s.(send_msg))) s = (s, Ok s.(send_msg)).
Proof.
  unfold load_n, load, bind, gets, id, ret. by rewrite Z.ltb_irrefl, Nat2Z.id, firstn_all.
Qed.

(** The answer has been taken from the server again. *)
Lemma taken_again x a' msg i : RDMAServer.ids x !! conn = Some i ->
  RDMAServer.id_sent i = [] ->
  RDMAServer.set_ids (alter no_sent conn (alter (RDMAServer.add_sent [msg]) conn
      (RDMAServer.ids x))) (BladeAllocServer.with_derived a' (RDMAServer.set_ids
        (alter (RDMAServer.add_sent [msg]) conn (RDMAServer.ids x)) x)) =
    BladeAllocServer.with_derived a' x.
Proof.
  intros Hi Hs. destruct x as [cs ids e g z dd]. cbn in *.
  unfold BladeAllocServer.with_derived, RDMAServer.set_derived, RDMAServer.set_ids. cbn.
  f_equal. rewrite alter_alter. apply alter_id. intros y Hy. simplify_eq.
  destruct i as [c q n sent]. cbn in *. by subst sent.
Qed.

Lemma exec_send_ok (s : world) j n k r a' msg i :
  RDMAServer.on_completion srv_fails
    (BladeAllocServer.process_message srv_fails base rkey) conn IBV_WC_RECV
    s.(send_msg) (srv_of s) =
    (BladeAllocServer.with_derived a' (RDMAServer.set_ids
       (alter (RDMAServer.add_sent [msg]) conn (RDMAServer.ids (srv_of s))) (srv_of s)), Ok tt) ->
  RDMAServer.ids (srv_of s) !! conn = Some i -> RDMAServer.id_sent i = [] ->
  n = Z.of_nat (length s.(send_msg)) -> s.(recv_q) = [r] -> (length msg <= 1000)%nat ->
  exec_send (mk_wr j IBV_WR_SEND SendMsg n k 0 0) s =
    (set_cq (s.(cq) ++ [mk_wc j IBV_WC_SEND true; mk_wc r IBV_WC_RECV true])
       (set_recv_msg msg (set_recv_q []
         (set_srv (BladeAllocServer.with_derived a' (srv_of s)) s))), Ok tt).
Proof.
  intros Hrun Hi Hs -> Hr Hl. unfold exec_send. cbn [sge_addr sge_length wr_id].
  mstep (load_send_ok s). unfold bind at 1, gets, id. rewrite Hrun.
  unfold bind at 1, modify at 1. unfold bind at 1, push_wc, modify at 1.
  set (s1 := set_cq _ _).
  assert (Hi1 : RDMAServer.ids (srv_of s1) !! conn = Some (RDMAServer.add_sent [msg] i)).
  { cbn. by rewrite lookup_alter_eq, Hi. }
  mstep (take_sent_ok s1 _ Hi1). unfold RDMAServer.add_sent at 1. cbn [RDMAServer.id_sent].
  rewrite Hs. cbn [app mfor]. unfold bind. erewrite deliver_ok; [|exact Hr|exact Hl].
  unfold ret. f_equal.
  assert (Hx : RDMAServer.set_ids (alter no_sent conn (RDMAServer.ids (srv_of s1))) (srv_of s1) =
    BladeAllocServer.with_derived a' (srv_of s)) by (by apply (taken_again _ a' msg i)).
  rewrite Hx. clear. destruct s. cbn. unfold set_cq. cbn. by rewrite <- app_assoc.
Qed.

Lemma hw_send exp done j todo r s len k m :
  Fab exp done (j :: todo) [r] s -> j_kind j = KSend len k ->
  srv_ok (srv_of s) -> BladeAllocServer.legal (granted_of (srv_of s)) m ->
  s.(send_msg) = rt_encode m -> len = Z.of_nat (length (rt_encode m)) ->
  exists x ack, BladeAllocServer.grants base pool_size (u32 rkey)
      (granted_of (srv_of s)) m ack (granted_of x) /\ srv_ok x /\
    let s' := set_cq (s.(cq) ++ [wc_of j; wc_of r])
      (set_recv_msg (rt_encode ack) (set_recv_q []
        (set_srv x (set_send_q (tail s.(send_q)) s)))) in
    hw_step s = (s', Ok tt) /\ Fab exp (done ++ [j; r]) todo [] s'.
Proof.
  intros HF Hj (ph & i & Hinv & Hph & Hi & Hsent) Hlegal Hmsg Hlen.
  destruct (BladeAllocServer.serve_one srv_fails Hsf base pool_size rkey Hcreate ph
    (srv_of s) conn m [] Hinv Hph Hlegal) as (a' & ack & Hrun & Hgr & Hinv').
  rewrite app_nil_r in Hrun.
  pose proof (fab_recvs _ _ _ _ _ HF) as Hrk. apply Forall_cons in Hrk as [Hrk _].
  exists (BladeAllocServer.with_derived a' (srv_of s)), ack.
  split; [done|]. split.
  { exists ph, i. split_and!; try done. destruct Hinv as (I1 & _ & _).
    destruct Hinv' as (_ & I2 & I3). split; [by apply RDMAServer.server_ok_derived|done]. }
  split.
  - pose proof (fab_sq _ _ _ _ _ HF) as Hs. cbn in Hs.
    pose proof (fab_rq _ _ _ _ _ HF) as Hr. cbn in Hr. rewrite <- Hmsg in Hrun, Hlen.
    unfold hw_step, bind at 1, gets, id. rewrite Hs. unfold bind at 1, modify at 1.
    cbn [tail]. unfold wr_of at 1. rewrite Hj. cbn [opcode].
    unfold wr_of at 1. rewrite Hj. unfold wc_of. rewrite Hj, Hrk.
    by rewrite (exec_send_ok (set_send_q (wr_of <$> todo) s) (j_op j) len k (j_op r)
              a' (rt_encode ack) i Hrun Hi Hsent Hlen Hr (bm_small ack)).
  - set (s' := set_cq _ _).
    assert (HF' : Fab exp (done ++ [j]) todo [r]
      (set_cq (s.(cq) ++ [wc_of j]) (set_send_q (tail s.(send_q)) s))).
    { apply (Fab_execute exp done j todo [r] s _ (fun d => d)); try done.
      + cbn. symmetry. by apply list_alter_id.
      + intros d. unfold pending. by rewrite Hj. }
    assert (HP : (done ++ [j; r]) ++ todo ++ [] ≡ₚ (done ++ [j]) ++ todo ++ [r]).
    { rewrite app_nil_r. rewrite <- !app_assoc. apply Permutation_app_head. cbn.
      constructor. apply Permutation_cons_append. }
    assert (HE : forall l, j_op <$> l ++ [] = j_op <$> l) by (intros; by rewrite app_nil_r).
    destruct HF'. cbn -[rt_encode] in *.
    apply Forall_app in fab_todo0 as [Ht [Hr _]%Forall_cons].
    split; cbn -[rt_encode].
    + rewrite fmap_app. cbn. rewrite (fab_cq _ _ _ _ _ HF). done.
    + done.
    + done.
    + change [j; r] with ([j] ++ [r]). rewrite (app_assoc done).
      apply Forall_app. split; [done|]. apply Forall_singleton.
      destruct Hr as (R1 & (d & Hd & Hp) & R3). split; [done|]. split; [|done].
      exists d. split; [done|]. unfold pending in *. by rewrite Hrk in *.
    + by rewrite app_nil_r.
    + done.
    + constructor.
    + by rewrite HP.
    + by rewrite HP.
    + by rewrite HP.
    + done.
    + done.
    + rewrite fab_out0. rewrite !count_app. cbn.
      change [j; r] with ([j] ++ [r]). rewrite count_app.
      assert (Hc : count [r] = 0) by (unfold count, counted; cbn; by rewrite Hrk). lia.
    + intros fd d Hd Hn. apply fab_fin0; [done|]. by rewrite <- HP.
    + intros j' Hj'. apply fab_exp0. by rewrite <- HP.
    + done.
Qed.

End serving.

(** *** One step of the environment *)

(** What the caller's code reads besides the operations. *)
Record static (ob : gmap Z BladeLocation) (s : world) : Prop := {
  st_objects : s.(objects_) = ob;
  st_smr : is_Some s.(send_msg_mr);
  st_rmr : is_Some s.(recv_msg_mr);
  st_windows : s.(windows) = [];
}.

Record Sys (exp : gmap nat bytes) (ob : gmap Z BladeLocation) (Pr : Region.t -> Prop)
    (done todo recvs : list job) (s : world) : Prop := {
  sys_fab : Fab exp done todo recvs s;
  sys_key : Region.rkey (region_of s) = key;
  sys_queue : queue_ok Pr todo (region_of s);
  sys_static : static ob s;
}.

Definition is_send (j : job) : bool :=
  match j.(j_kind) with KSend _ _ => true | _ => false end.

(** Bounds the number of steps until nothing is pending. *)
Definition work (s : world) : nat :=
  length (schedule_of s) + 3 * length s.(send_q) + length s.(cq).

Definition unscheduled (s : world) : world := set_schedule (tail (schedule_of s)) s.

Lemma unscheduled_Fab exp done todo recvs s :
  Fab exp done todo recvs s -> Fab exp done todo recvs (unscheduled s).
Proof. intros []. by split. Qed.

Lemma unscheduled_nil s : schedule_of s = [] -> unscheduled s = s.
Proof.
  intros Hs. transitivity (set_peer s.(RDMAClient.peer) s); [|by destruct s].
  unfold unscheduled, set_schedule. f_equal.
  destruct (RDMAClient.peer s) as [x r l]. cbn in *. by subst.
Qed.

(** Either nothing happens, or the oldest executed operation is completed, or
    the oldest request is executed. *)
Lemma env_cases exp done todo recvs s : Fab exp done todo recvs s ->
  (env s = (unscheduled s, Ok tt) /\ (schedule_of s <> [] \/ done = [] /\ todo = [])) \/
  (exists j done', done = j :: done' /\ env s = (completed j (unscheduled s), Ok tt)) \/
  (exists j todo', todo = j :: todo' /\ env s = hw_step (unscheduled s)).
Proof.
  intros HF.
  assert (Hpoll : poll_cq_one fails (unscheduled s) = (unscheduled s, Ok tt) /\ done = [] \/
    exists j done', done = j :: done' /\
      poll_cq_one fails (unscheduled s) = (completed j (unscheduled s), Ok tt)).
  { destruct done as [|j done'].
    - left. split; [|done]. unfold poll_cq_one, bind, gets, id. cbn.
      by rewrite (fab_cq _ _ _ _ _ HF).
    - right. exists j, done'. split; [done|].
      eapply poll_runs, unscheduled_Fab. done. }
  assert (Hhw : hw_step (unscheduled s) = (unscheduled s, Ok tt) /\ todo = [] \/
    exists j todo', todo = j :: todo').
  { destruct todo as [|j todo']; [|eauto]. left. split; [|done].
    unfold hw_step, bind, gets, id. cbn. by rewrite (fab_sq _ _ _ _ _ HF). }
  destruct (schedule_of s) as [|b bs] eqn:Hsch.
  - assert (He : env s = match s.(cq) with [] => hw_step s | _ => poll_cq_one fails s end).
    { unfold env, bind at 1, gets, id. rewrite Hsch. by destruct (cq s). }
    rewrite He. rewrite (unscheduled_nil s Hsch) in *. rewrite (fab_cq _ _ _ _ _ HF).
    destruct done as [|j done']; cbn [fmap list_fmap].
    + destruct Hhw as [[Hr ->]|(j & todo' & ->)];
        [left; by auto|right; right; by exists j, todo'].
    + destruct Hpoll as [[_ [=]]|(j2 & d2 & Heq & Hr)]. right; left; by exists j2, d2.
  - assert (Hu : unscheduled s = set_schedule bs s) by (unfold unscheduled; by rewrite Hsch).
    assert (He : env s = if b then hw_step (unscheduled s) else poll_cq_one fails (unscheduled s)).
    { unfold env, bind at 1, gets, id. rewrite Hsch, Hu. by destruct b. }
    rewrite He. destruct b.
    + destruct Hhw as [[Hr _]|(j & todo' & ->)];
        [left; by auto|right; right; by exists j, todo'].
    + destruct Hpoll as [[Hr _]|(j & d2 & Heq & Hr)];
        [left; by auto|right; left; by exists j, d2].
Qed.

Lemma work_unscheduled s :
  work (unscheduled s) = (work s - match schedule_of s with [] => 0 | _ => 1 end)%nat.
Proof. unfold work, unscheduled. cbn. destruct (schedule_of s); cbn [tail length]; lia. Qed.

Lemma work_completed exp j done todo recvs s : Fab exp (j :: done) todo recvs s ->
  (work (completed j (unscheduled s)) < work s)%nat.
Proof.
  intros HF. destruct (completed_parts j (unscheduled s)) as
    (_ & _ & _ & _ & _ & Pcq & Psq & _ & _ & _ & _ & Ppe & _).
  unfold work at 1. rewrite Pcq, Psq, Ppe.
  pose proof (work_unscheduled s) as Hw. unfold work at 1 in Hw.
  assert (Hc : length (cq (unscheduled s)) = S (length (tail (cq (unscheduled s))))).
  { change (cq (unscheduled s)) with (cq s). by rewrite (fab_cq _ _ _ _ _ HF). }
  rewrite Hc in Hw. destruct (schedule_of s); lia.
Qed.

(** How a step moves the pending operations on, and what it does to futures. *)
Inductive moved : list job -> list job -> list job -> list job -> Prop :=
| moved_none done todo : moved done todo done todo
| moved_polled j done todo : counted j = true -> moved (j :: done) todo done todo
| moved_executed j done todo : is_send j = false ->
    moved done (j :: todo) (done ++ [j]) todo.

Definition fd_step (d d' : FutureData) : Prop :=
  result_available d' = result_available d /\ sem d' = sem d \/
  result_available d' = true /\ sem d' = false.

(** A block that belongs to no pending operation. *)
Definition orphan (b : nat) (bs : bytes) (jobs : list job) (s : world) : Prop :=
  s.(heap) !! b = Some (Plain bs) /\ b ∉ omap wblk jobs.

(** A step, unless it delivers a message to the server or polls an answer. *)
Definition stepped (exp : gmap nat bytes) (ob : gmap Z BladeLocation)
    (Pr : Region.t -> Prop) (done todo recvs : list job) (s : world) : Prop :=
  exists s' done' todo', env s = (s', Ok tt) /\ Sys exp ob Pr done' todo' recvs s' /\
    moved done todo done' todo' /\ srv_of s' = srv_of s /\
    s'.(recv_msg) = s.(recv_msg) /\ s'.(send_msg) = s.(send_msg) /\
    s'.(recv_sem) = s.(recv_sem) /\ schedule_of s' = tail (schedule_of s) /\
    ((work s' < work s)%nat \/ done = [] /\ todo = []) /\
    length s'.(futs) = length s.(futs) /\
    (forall fd d, s.(futs) !! fd = Some d ->
      exists d', s'.(futs) !! fd = Some d' /\ fd_step d d') /\
    (forall b bs, orphan b bs (done ++ todo) s -> orphan b bs (done' ++ todo') s').

Lemma env_step exp ob Pr done todo recvs s :
  Sys exp ob Pr done todo recvs s ->
  stepped exp ob Pr done todo recvs s \/
  (exists j done', done = j :: done' /\ counted j = false /\
     env s = (completed j (unscheduled s), Ok tt)) \/
  (exists j todo', todo = j :: todo' /\ is_send j = true /\ env s = hw_step (unscheduled s)).
Proof.
  intros [HF Hkey Hq Hst]. pose proof (work_unscheduled s) as Hwu.
  destruct (env_cases _ _ _ _ _ HF) as [[He Hor]|[(j & done' & -> & He)|(j & todo' & -> & He)]].
  - left. exists (unscheduled s), done, todo. split; [done|]. split.
    { split; [by apply unscheduled_Fab|done|done|]. by destruct Hst. }
    split_and!; try done; [constructor|unfold work in *; destruct Hor; [left|by right]|].
    + destruct (schedule_of s); cbn in *; [done|lia].
    + intros fd d Hd. exists d. split; [done|]. by left.
  - destruct (counted j) eqn:Hj; [left|right; left; by exists j, done'].
    pose proof (unscheduled_Fab _ _ _ _ _ HF) as HF1.
    destruct (completed_parts j (unscheduled s)) as
      (Po & Ph & Pf & Pout & Prs & Pcq & Psq & Prq & Pno & Pnb & Pob & Ppe & Prm & Psm & Pw & Pk1 & Pk2).
    exists (completed j (unscheduled s)), done', todo. split; [done|]. split.
    { split; [by apply poll_Fab|by rewrite Ppe|by rewrite Ppe|].
      destruct Hst. split; rewrite ?Pob, ?Pk1, ?Pk2, ?Pw; done. }
    rewrite Hj in *. split_and!; rewrite ?Ppe, ?Prm, ?Psm, ?Prs; try done; [by constructor| | | |].
    + left. by apply (work_completed exp j done' todo recvs).
    + rewrite Pf, length_alter. done.
    + intros fd d Hd. rewrite Pf. destruct (decide (fd = j_fd j)) as [->|Hne].
      * rewrite list_lookup_alter_eq. cbn. rewrite Hd. eexists. split; [done|]. by right.
      * rewrite list_lookup_alter_ne by done. exists d. split; [done|]. by left.
    + intros b bs [Hb Hn]. unfold orphan. rewrite Ph. cbn in Hn |- *.
      destruct (wblk j) as [b0|] eqn:Hb0; [|done].
      apply not_elem_of_cons in Hn as [Hn1 Hn2].
      split; [by rewrite lookup_delete_ne|done].
  - destruct (is_send j) eqn:Hns; [right; right; by exists j, todo'|left].
    pose proof (unscheduled_Fab _ _ _ _ _ HF) as HF1.
    assert (Hw1 : forall s', s'.(send_q) = tail s.(send_q) -> length s'.(cq) = S (length s.(cq)) ->
      schedule_of s' = schedule_of (unscheduled s) -> (work s' < work s)%nat).
    { intros s' Hsq Hcq Hsc. unfold work. rewrite Hsq, Hcq, Hsc, (fab_sq _ _ _ _ _ HF).
      cbn. destruct (schedule_of s); cbn; lia. }
    destruct (j_kind j) as [b bs a k|b a v k|n k|] eqn:Hk.
    + destruct (hw_write exp done j todo' recvs (unscheduled s) b bs a k Pr HF1 Hk Hkey Hq)
        as (Hr & HF2 & Hq2). rewrite Hr in He.
      eexists _, (done ++ [j]), todo'. split; [exact He|]. split.
      { split; [exact HF2|done|exact Hq2|]. by destruct Hst. }
      split_and!; try done; [by constructor| | |].
      * left. apply Hw1; [done| |done]. cbn. rewrite length_app. cbn. lia.
      * intros fd d Hd. exists d. split; [done|]. by left.
      * intros b' bs'. unfold orphan. by rewrite <- app_assoc.
    + destruct (hw_read exp done j todo' recvs (unscheduled s) b v a k Pr HF1 Hk Hkey Hq)
        as (s' & Hr & HF2 & Heq & Hq2). rewrite Hr in He.
      exists s', (done ++ [j]), todo'. split; [exact He|]. subst s'. split.
      { split; [exact HF2|done|exact Hq2|]. by destruct Hst. }
      split_and!; try done; [by constructor| | | |].
      * left. apply Hw1; [done| |done]. cbn. rewrite length_app. cbn. lia.
      * cbn. by rewrite length_alter.
      * intros fd d Hd. cbn. destruct (decide (fd = j_fd j)) as [->|Hne].
        -- rewrite list_lookup_alter_eq, Hd. eexists. split; [done|]. by left.
        -- rewrite list_lookup_alter_ne by done. exists d. split; [done|]. by left.
      * intros b' bs'. unfold orphan. by rewrite <- app_assoc.
    + unfold is_send in Hns. by rewrite Hk in Hns.
    + pose proof (fab_kinds _ _ _ _ _ HF) as Hks. by apply Forall_cons in Hks as [? _].
Qed.

(** *** Posting an operation *)

Lemma job_ok_grow ex o f h o' f' h' j :
  (forall k x, o !! k = Some x -> o' !! k = Some x) ->
  (forall k d, f !! k = Some d -> f' !! k = Some d) ->
  (forall b x, h !! b = Some x -> h' !! b = Some x) ->
  job_ok ex o f h j -> job_ok ex o' f' h' j.
Proof.
  intros Ho Hf Hh (H1 & (d & Hd & Hp) & H3). split; [auto|]. split; [eauto|].
  unfold owns in *. destruct (j_kind j); auto.
Qed.

(** The state [s'] has one more operation, [j], than [s]. *)
Record added (j : job) (s s' : world) : Prop := {
  add_cq : s'.(cq) = s.(cq);
  add_op : j_op j = s.(next_op);
  add_fd : j_fd j = length s.(futs);
  add_ops : s'.(ops) = <[j_op j := op_of j]> s.(ops);
  add_futs : exists d, s'.(futs) = s.(futs) ++ [d] /\ pending false j d;
  add_heap b x : s.(heap) !! b = Some x -> s'.(heap) !! b = Some x;
  add_owns : owns s'.(heap) j;
  add_next_op : s'.(next_op) = S s.(next_op);
  add_next_blk b : is_Some (s'.(heap) !! b) -> (b < s'.(next_blk))%nat;
}.

Section added.
Context (exp : gmap nat bytes) (done todo recvs : list job) (s s' : world) (j : job).
Context (HF : Fab exp done todo recvs s) (HA : added j s s').

Lemma added_fresh j' : j' ∈ done ++ todo ++ recvs ->
  j_op j' <> j_op j /\ j_fd j' <> j_fd j.
Proof.
  intros Hin.
  assert (Hok : exists ex, job_ok ex s.(ops) s.(futs) s.(heap) j').
  { destruct HF as [_ _ _ Hd Ht _ _ _ _ _ _ _ _ _ _ _].
    rewrite Forall_forall in Hd. rewrite Forall_forall in Ht.
    apply elem_of_app in Hin as [Hin|Hin]; [exists true|exists false]; auto. }
  destruct Hok as (ex & H1 & (d & Hd & _) & _). destruct HA as [_ Ho Hf _ _ _ _ _ _].
  apply lookup_lt_Some in Hd. pose proof (fab_ops _ _ _ _ _ HF (j_op j') ltac:(eauto)). lia.
Qed.

Lemma added_jobs ex l : Forall (job_ok ex s.(ops) s.(futs) s.(heap)) l ->
  Forall (job_ok ex s'.(ops) s'.(futs) s'.(heap)) l.
Proof.
  destruct HA as [_ Ho Hf Eo (d & Ef & Hd) Hh _ _ _]. intros Hl.
  eapply Forall_impl; [exact Hl|]. intros j'. apply job_ok_grow; [| |done].
  - intros k x Hx. rewrite Eo, lookup_insert_ne; [done|]. intros <-.
    pose proof (fab_ops _ _ _ _ _ HF (j_op j) ltac:(eauto)). lia.
  - intros k d' Hd'. rewrite Ef. by apply lookup_app_l_Some.
Qed.

Lemma added_self : job_ok false s'.(ops) s'.(futs) s'.(heap) j.
Proof.
  destruct HA as [_ Ho Hf Eo (d & Ef & Hd) _ Hown _ _]. split; [|split; [|done]].
  - by rewrite Eo, lookup_insert_eq.
  - exists d. rewrite Ef, Hf, lookup_app_r, Nat.sub_diag by lia. done.
Qed.

Lemma added_ops_dom o : is_Some (s'.(ops) !! o) -> (o < s'.(next_op))%nat.
Proof.
  destruct HA as [_ Ho _ Eo _ _ _ En _]. rewrite Eo, En.
  intros [x [[<- _]|[_ Hx]]%lookup_insert_Some]; [lia|].
  pose proof (fab_ops _ _ _ _ _ HF o ltac:(eauto)). lia.
Qed.

(** The bytes that reads bring, with those of [j]. *)
Definition add_exp : gmap nat bytes :=
  match val_of j with Some v => <[j_fd j := v]> exp | None => exp end.

Lemma add_exp_self : add_exp !! j_fd j = val_of j.
Proof.
  unfold add_exp. destruct (val_of j); [by rewrite lookup_insert_eq|].
  destruct (exp !! j_fd j) eqn:He; [|done].
  pose proof (fab_exp_dom _ _ _ _ _ HF (j_fd j) ltac:(eauto)).
  destruct HA as [_ _ Hf _ _ _ _ _ _]. lia.
Qed.

Lemma add_exp_other fd : fd <> j_fd j -> add_exp !! fd = exp !! fd.
Proof. intros Hne. unfold add_exp. destruct (val_of j); [by rewrite lookup_insert_ne|done]. Qed.

Lemma Fab_post : j_kind j <> KRecv ->
  s'.(send_q) = s.(send_q) ++ [wr_of j] -> s'.(recv_q) = s.(recv_q) ->
  s'.(outstanding_send_wr) = s.(outstanding_send_wr) + 1 ->
  (forall b, wblk j = Some b -> b ∉ omap wblk (done ++ todo ++ recvs)) ->
  Fab add_exp done (todo ++ [j]) recvs s'.
Proof.
  intros Hk Esq Erq Eout Hblk.
  assert (HP : done ++ (todo ++ [j]) ++ recvs ≡ₚ j :: done ++ todo ++ recvs).
  { rewrite <- app_assoc. cbn. rewrite !app_assoc.
    symmetry. apply Permutation_middle. }
  pose proof added_fresh as Hfr. destruct HF. split.
  - by rewrite (add_cq _ _ _ HA).
  - rewrite Esq, fab_sq0, fmap_app. done.
  - by rewrite Erq.
  - by apply added_jobs.
  - rewrite <- app_assoc. cbn. apply Forall_app in fab_todo0 as [Ht Hr].
    apply Forall_app. split; [by apply added_jobs|].
    constructor; [apply added_self|by apply added_jobs].
  - apply Forall_app. split; [done|by constructor].
  - done.
  - rewrite HP, fmap_cons. apply NoDup_cons. split; [|done].
    intros (j' & Heq & Hin)%list_elem_of_fmap.
    destruct (Hfr j' Hin). congruence.
  - rewrite HP, fmap_cons. apply NoDup_cons. split; [|done].
    intros (j' & Heq & Hin)%list_elem_of_fmap.
    destruct (Hfr j' Hin). congruence.
  - rewrite HP. cbn. destruct (wblk j) as [b|] eqn:Hb; [|done].
    apply NoDup_cons. split; [|done]. by apply Hblk.
  - apply added_ops_dom.
  - apply (add_next_blk _ _ _ HA).
  - rewrite Eout, fab_out0, app_assoc, (count_app (done ++ todo)).
    unfold count at 3. cbn. unfold counted. by destruct (j_kind j).
  - destruct HA as [_ _ Hf _ (d0 & Ef & _) _ _ _ _]. rewrite Ef. intros fd d Hd Hn.
    rewrite HP, fmap_cons in Hn. apply lookup_app_Some in Hd as [Hd|[Hge Hd]].
    + destruct (fab_fin0 fd d Hd ltac:(in_jobs Hn)) as (F1 & F2 & F3 & F4 & F5).
      split_and!; try done. rewrite add_exp_other by (in_jobs Hn). done.
    + apply list_lookup_singleton_Some in Hd as [Hd _]. exfalso. apply Hn.
      assert (fd = j_fd j) as -> by lia. apply list_elem_of_here.
  - intros j'. rewrite HP, elem_of_cons. intros [->|Hin]; [apply add_exp_self|].
    rewrite add_exp_other by (by apply Hfr). auto.
  - destruct HA as [_ _ Hf _ (d0 & Ef & _) _ _ _ _]. intros fd Hfd. rewrite Ef, length_app. cbn.
    destruct (decide (fd = j_fd j)) as [->|Hne]; [lia|].
    rewrite add_exp_other in Hfd by done. specialize (fab_exp_dom0 fd Hfd). lia.
Qed.

Lemma Fab_post_recv : j_kind j = KRecv -> recvs = [] ->
  s'.(send_q) = s.(send_q) -> s'.(recv_q) = s.(recv_q) ++ [j_op j] ->
  s'.(outstanding_send_wr) = s.(outstanding_send_wr) -> Fab exp done todo [j] s'.
Proof.
  intros Hk Hr Esq Erq Eout.
  assert (HP : done ++ todo ++ [j] ≡ₚ j :: done ++ todo).
  { rewrite app_assoc. symmetry. apply Permutation_cons_append. }
  assert (Hexp : add_exp = exp) by (unfold add_exp, val_of; by rewrite Hk).
  pose proof added_fresh as Hfr. pose proof HF as HF'. rewrite Hr in Hfr, HF'.
  rewrite app_nil_r in Hfr. destruct HF'.
  rewrite app_nil_r in fab_todo0, fab_op0, fab_fd0, fab_blk0, fab_fin0, fab_exp0. split.
  - by rewrite (add_cq _ _ _ HA).
  - by rewrite Esq.
  - by rewrite Erq, fab_rq0.
  - by apply added_jobs.
  - apply Forall_app. split; [by apply added_jobs|].
    constructor; [apply added_self|constructor].
  - done.
  - by constructor.
  - rewrite HP, fmap_cons. apply NoDup_cons. split; [|done].
    intros (j' & Heq & Hin)%list_elem_of_fmap.
    destruct (Hfr j' Hin). congruence.
  - rewrite HP, fmap_cons. apply NoDup_cons. split; [|done].
    intros (j' & Heq & Hin)%list_elem_of_fmap.
    destruct (Hfr j' Hin). congruence.
  - rewrite HP. cbn. unfold wblk at 1. by rewrite Hk.
  - apply added_ops_dom.
  - apply (add_next_blk _ _ _ HA).
  - by rewrite Eout.
  - destruct HA as [_ _ Hf _ (d0 & Ef & _) _ _ _ _]. rewrite Ef. intros fd d Hd Hn.
    rewrite HP, fmap_cons in Hn. apply lookup_app_Some in Hd as [Hd|[Hge Hd]].
    + apply (fab_fin0 fd d Hd). in_jobs Hn.
    + apply list_lookup_singleton_Some in Hd as [Hd _]. exfalso. apply Hn.
      assert (fd = j_fd j) as -> by lia. apply list_elem_of_here.
  - intros j'. rewrite HP, elem_of_cons. intros [->|Hin].
    + rewrite <- Hexp. apply add_exp_self.
    + auto.
  - destruct HA as [_ _ Hf _ (d0 & Ef & _) _ _ _ _]. intros fd Hfd. rewrite Ef, length_app. cbn.
    specialize (fab_exp_dom0 fd Hfd). lia.
Qed.
End added.

(** *** Waiting for the last operation *)

Definition plain (j : job) : Prop := counted j = true /\ is_send j = false.

(** Between two operations of the client: only reads and writes are pending. *)
Record Quiet (exp : gmap nat bytes) (ob : gmap Z BladeLocation) (Pr : Region.t -> Prop)
    (x : RDMAServer.t BladeAllocServer.t) (done todo : list job) (s : world) : Prop := {
  qu_sys : Sys exp ob Pr done todo [] s;
  qu_plain : Forall plain (done ++ todo);
  qu_srv : srv_of s = x;
  qu_sem : s.(recv_sem) = true;
}.

Lemma Quiet_work exp ob Pr x done todo s : Quiet exp ob Pr x done todo s ->
  (work s <= length (schedule_of s) + 3 * length (done ++ todo))%nat.
Proof.
  intros [[HF _ _ _] _ _ _]. unfold work.
  rewrite (fab_sq _ _ _ _ _ HF), (fab_cq _ _ _ _ _ HF), length_app, !length_fmap. lia.
Qed.

Lemma Quiet_out exp ob Pr x done todo s : Quiet exp ob Pr x done todo s ->
  s.(outstanding_send_wr) = Z.of_nat (length (done ++ todo)).
Proof.
  intros [[HF _ _ _] Hp _ _]. rewrite (fab_out _ _ _ _ _ HF). unfold count. do 2 f_equal.
  induction Hp as [|j l [Hj _] _ IH]; cbn; [done|]. by rewrite Hj, IH.
Qed.

Lemma Fab_set_sem exp done todo recvs s fd d l :
  Fab exp done todo recvs s -> s.(futs) !! fd = Some d ->
  Fab exp done todo recvs (set_futs (<[fd := set_sem l d]> s.(futs)) s).
Proof.
  intros [] Hd.
  assert (Hjob : forall ex j, job_ok ex s.(ops) s.(futs) s.(heap) j ->
    job_ok ex s.(ops) (<[fd := set_sem l d]> s.(futs)) s.(heap) j).
  { intros ex j (H1' & (d0 & Hd0 & Hp) & H3). split; [done|]. split; [|done].
    destruct (decide (fd = j_fd j)) as [->|Hne].
    - exists (set_sem l d). rewrite list_lookup_insert_eq by (by eapply lookup_lt_Some).
      split; [done|]. simplify_eq. exact Hp.
    - exists d0. by rewrite list_lookup_insert_ne. }
  split; cbn; try done.
  - eapply Forall_impl; [done|]. intros j. apply Hjob.
  - eapply Forall_impl; [done|]. intros j. apply Hjob.
  - intros fd' d' Hd' Hn. destruct (decide (fd = fd')) as [<-|Hne].
    + rewrite list_lookup_insert_eq in Hd' by (by eapply lookup_lt_Some).
      injection Hd' as <-. exact (fab_fin0 fd d Hd Hn).
    + rewrite list_lookup_insert_ne in Hd' by done. by apply fab_fin0.
  - intros fd' Hfd'. rewrite length_insert. auto.
Qed.

Lemma moved_tail done todo done' todo' : moved done todo done' todo' ->
  done' ++ todo' = done ++ todo \/ exists j, done ++ todo = j :: done' ++ todo'.
Proof.
  destruct 1; [by left|right; eauto|left]. by rewrite <- app_assoc.
Qed.

Lemma Quiet_env exp ob Pr x done todo s : Quiet exp ob Pr x done todo s ->
  exists s' done' todo', env s = (s', Ok tt) /\ Quiet exp ob Pr x done' todo' s' /\
    (done' ++ todo' = done ++ todo \/ exists j, done ++ todo = j :: done' ++ todo') /\
    schedule_of s' = tail (schedule_of s) /\
    ((work s' < work s)%nat \/ done = [] /\ todo = []) /\
    length s'.(futs) = length s.(futs) /\
    (forall fd d, s.(futs) !! fd = Some d ->
      exists d', s'.(futs) !! fd = Some d' /\ fd_step d d').
Proof.
  intros [HS Hp Hx Hsem]. pose proof Hp as Hp'. apply Forall_app in Hp' as [Hpd Hpt].
  destruct (env_step exp ob Pr done todo [] s HS) as
    [(s' & done' & todo' & He & HS' & Hm & E1 & _ & _ & E2 & E3 & E4 & E5 & E6 & _)
    |[(j & done' & -> & Hc & _)|(j & todo' & -> & Hc & _)]].
  2: { apply Forall_cons in Hpd as [[] _]. congruence. }
  2: { apply Forall_cons in Hpt as [[] _]. congruence. }
  apply moved_tail in Hm. exists s', done', todo'. split; [done|]. split.
  - split; [done| |congruence|congruence].
    destruct Hm as [Hm|[j Hm]]; [by rewrite Hm|].
    rewrite Hm in Hp. by apply Forall_cons in Hp as [_ ?].
  - eauto 10.
Qed.

Lemma wait_last fuel exp ob Pr x done todo s fd j N :
  Quiet exp ob Pr x done todo s -> last (done ++ todo) = Some j -> j_fd j = fd ->
  (length (schedule_of s) <= N)%nat ->
  (length (schedule_of s) + 3 * length (done ++ todo) + 1 < fuel)%nat ->
  exists s' d, ClientFuture.wait env fuel fd s = (s', Ok tt) /\
    Quiet exp ob Pr x [] [] s' /\ s'.(futs) !! fd = Some d /\ finished exp fd d /\
    (length (schedule_of s') <= N)%nat.
Proof.
  intros HQ Hl Hfd HN Hf. pose proof (Quiet_work _ _ _ _ _ _ _ HQ) as Hw.
  set (I := fun s => exists done todo, Quiet exp ob Pr x done todo s /\
    (fd < length s.(futs))%nat /\ (length (schedule_of s) <= N)%nat /\
    (done ++ todo = [] \/ exists j, last (done ++ todo) = Some j /\ j_fd j = fd)).
  assert (Hin : forall done todo s j, Quiet exp ob Pr x done todo s ->
    last (done ++ todo) = Some j -> j_fd j = fd ->
    exists d, s.(futs) !! fd = Some d /\ result_available d = false).
  { clear. intros done todo s j [[[] _ _ _] _ _ _] Hlast <-. rewrite app_nil_r in fab_todo0.
    assert (Hj : j ∈ done ++ todo) by (by apply last_Some_elem_of).
    rewrite Forall_forall in fab_done0. rewrite Forall_forall in fab_todo0.
    apply elem_of_app in Hj as [Hj|Hj];
      [destruct (fab_done0 j Hj) as (_ & (d & Hd & Ha & _) & _)
      |destruct (fab_todo0 j Hj) as (_ & (d & Hd & Ha & _) & _)]; eauto. }
  destruct (wait_measured env fd I work) with (fuel := fuel) (s := s)
    as (s' & Hwait & (done' & todo' & HQ' & Hlt & HN' & Hlast) & d & Hd & Ha).
  - intros s0 (d0 & t0 & HQ0 & Hlt & _). by apply lookup_lt_is_Some.
  - intros s0 d l (d0 & t0 & [[HF K Q St] Hp Hx Hsem] & Hlt & HN0 & Hlast) Hd. cbn.
    split; [|done]. exists d0, t0. split; [|cbn; by rewrite length_insert].
    split; [|done|done|done]. split; [by apply Fab_set_sem|done|done|]. by destruct St.
  - intros s0 d (d0 & t0 & HQ0 & Hlt & HN0 & Hlast) Hd Ha.
    destruct (Quiet_env exp ob Pr x d0 t0 s0 HQ0)
      as (s1 & d1 & t1 & He & HQ1 & Hm & Hsc & Hwk & Hlen & Hstep).
    destruct (Hstep fd d Hd) as (d' & Hd' & Hfs). exists s1, d'. split; [done|].
    assert (Hne : d0 ++ t0 <> []).
    { intros Hnil. apply app_nil in Hnil as [-> ->]. destruct HQ0 as [[[] _ _ _] _ _ _].
      destruct (fab_fin0 fd d Hd ltac:(cbn; intros Hx0; by apply elem_of_nil in Hx0)). congruence. }
    destruct Hlast as [?|(j0 & Hj0 & Hfd0)]; [done|].
    split; [|split_and!; [|done|]].
    + exists d1, t1. split; [done|]. rewrite Hlen, Hsc. split; [done|].
      split; [destruct (schedule_of s0); cbn in *; lia|].
      destruct Hm as [Hm|[j1 Hm]]; [right; rewrite Hm; eauto|].
      destruct (d1 ++ t1) as [|j2 l2] eqn:Hl2; [by left|right].
      rewrite Hm, last_cons_cons in Hj0. eauto.
    + destruct Hwk as [Hwk|[-> ->]]; [done|done].
    + destruct Hfs as [[F1 F2]|[F1 F2]]; [left; split; congruence|by right].
  - exists done, todo. split; [done|]. destruct (Hin done todo s j HQ Hl Hfd) as (d & Hd & _).
    split; [by eapply lookup_lt_Some|]. split; [done|]. right. eauto.
  - lia.
  - exists s', d. split; [done|].
    destruct Hlast as [Hnil|(j0 & Hj0 & Hfd0)].
    + apply app_nil in Hnil as [-> ->]. split; [done|]. split; [done|]. split; [|done].
      destruct HQ' as [[[] _ _ _] _ _ _]. apply fab_fin0; [done|].
      cbn. intros Hx0. by apply elem_of_nil in Hx0.
    + destruct (Hin _ _ _ _ HQ' Hj0 Hfd0) as (d2 & Hd2 & Ha2). cbn in Hd. congruence.
Qed.

(** *** Calling the server *)

Section calling.
Context `{!ManagedBufferSpec} `{!BladeMessageSpec} (pool_size : Z).
Context (Hsf : forall x v, srv_fails x v = false).
Context (Hcreate : mb_create base pool_size <> None).
Context (exp : gmap nat bytes) (ob : gmap Z BladeLocation) (Pr : Region.t -> Prop).
Context (x : RDMAServer.t BladeAllocServer.t) (m : BladeMessage.t) (N : nat).
(** A block that the caller keeps meanwhile. *)
Context (orph : option (nat * bytes)).

Definition keeps (jobs : list job) (s : world) : Prop :=
  (forall b bs, orph = Some (b, bs) -> orphan b bs jobs s) /\
  (length (schedule_of s) <= N)%nat.

(** The request is on its way, behind the operations posted before it. *)
Definition Calling (s : world) : Prop := exists done todo j r n k,
  Sys exp ob Pr done (todo ++ [j]) [r] s /\ Forall plain (done ++ todo) /\
  j_kind j = KSend n k /\ n = Z.of_nat (length (rt_encode m)) /\
  s.(send_msg) = rt_encode m /\ srv_of s = x /\ s.(recv_sem) = true /\
  keeps (done ++ todo ++ [j]) s.

(** The answer is in [recv_msg]; its completion has not been polled, or it has
    and the lock is free. *)
Definition Answered (s : world) : Prop := exists done x' ack,
  Sys exp ob Pr done [] [] s /\
  BladeAllocServer.grants base pool_size (u32 rkey) (granted_of x) m ack (granted_of x') /\
  srv_ok pool_size x' /\ srv_of s = x' /\ s.(recv_msg) = rt_encode ack /\
  ((exists d r, done = d ++ [r] /\ j_kind r = KRecv /\
      Forall (fun j => counted j = true) d /\ s.(recv_sem) = true) \/
   done = [] /\ s.(recv_sem) = false) /\
  keeps done s.

Lemma keeps_step jobs jobs' s s' : keeps jobs s ->
  schedule_of s' = tail (schedule_of s) ->
  (forall b bs, orphan b bs jobs s -> orphan b bs jobs' s') -> keeps jobs' s'.
Proof.
  intros [Ho Hn] Hs Himp. split; [by eauto|]. rewrite Hs.
  destruct (schedule_of s); cbn in *; lia.
Qed.

Lemma answered_step s : Answered s -> s.(recv_sem) = true ->
  exists s', env s = (s', Ok tt) /\ Answered s' /\ (work s' < work s)%nat.
Proof.
  intros (done & x' & ack & HS & Hg & Hok & Hx & Hmsg & Hph & Hk) Hsem.
  destruct Hph as [(d & r & -> & Hr & Hd & _)|[-> Hf]]; [|congruence].
  destruct (env_step exp ob Pr _ [] [] s HS) as
    [(s' & done' & todo' & He & HS' & Hm & E1 & E2 & _ & E3 & E4 & E5 & _ & _ & E6)
    |[(j & done' & Heq & Hc & He)|(j & todo' & [=] & _)]].
  - exists s'. split; [done|]. split; [|destruct E5 as [?|[E5 _]]; [done|by destruct d]].
    rewrite app_nil_r in E6.
    assert (Hd' : exists d', done' = d' ++ [r] /\ todo' = [] /\
      Forall (fun j => counted j = true) d').
    { inversion Hm as [|j d0 t0 Hc Heq|]; subst; [by exists d|].
      destruct d as [|j0 d]; cbn in Heq; simplify_eq.
      - unfold counted in Hc. by rewrite Hr in Hc.
      - exists d. by apply Forall_cons in Hd as [_ ?]. }
    destruct Hd' as (d' & -> & -> & Hd'). rewrite app_nil_r in E6.
    exists (d' ++ [r]), x', ack. split; [done|]. split; [done|]. split; [done|].
    split; [congruence|]. split; [congruence|]. split; [|by eapply keeps_step].
    left. exists d', r. split_and!; (done || congruence).
  - assert (d = [] /\ j = r /\ done' = []) as (-> & -> & ->).
    { destruct d as [|j0 d]; cbn in Heq; simplify_eq; [done|].
      apply Forall_cons in Hd as [Hd _]. congruence. }
    exists (completed r (unscheduled s)). split; [done|]. destruct HS as [HF K Q St].
    split; [|by apply (work_completed exp r [] [] [])].
    destruct (completed_parts r (unscheduled s)) as
      (_ & Ph & _ & _ & Prs & _ & _ & _ & _ & _ & Pob & Ppe & Prm & _ & Pw & Pk1 & Pk2).
    exists [], x', ack. rewrite Ppe, Prm, Prs, Hc. split; [|split_and!; try done].
    + split; [by apply (poll_Fab exp r [] [] []), unscheduled_Fab|by rewrite Ppe|by rewrite Ppe|].
      destruct St. split; rewrite ?Pob, ?Pk1, ?Pk2, ?Pw; done.
    + by right.
    + eapply (keeps_step _ _ s); [done|by rewrite Ppe|]. intros b bs [Ho1 Ho2].
      unfold orphan. rewrite Ph. unfold wblk. rewrite Hr. split; [done|]. apply not_elem_of_nil.
Qed.

Lemma calling_step s : Calling s -> srv_ok pool_size x ->
  BladeAllocServer.legal (granted_of x) m ->
  exists s', env s = (s', Ok tt) /\ (Calling s' \/ Answered s') /\ (work s' < work s)%nat.
Proof.
  intros (done & todo & j & r & n & k & HS & Hp & Hj & Hn & Hmsg & Hx & Hsem & Hk) Hok Hl.
  pose proof Hp as Hp'. apply Forall_app in Hp' as [Hpd Hpt].
  destruct (env_step exp ob Pr _ _ _ s HS) as
    [(s' & done' & todo' & He & HS' & Hm & E1 & E2 & E7 & E3 & E4 & E5 & _ & _ & E6)
    |[(j0 & done' & -> & Hc & He)|(j0 & todo' & Heq & Hc & He)]].
  - exists s'. split; [done|]. split; [left|destruct E5 as [?|[_ E5]]; [done|by destruct todo]].
    assert (Hd' : exists todo1, todo' = todo1 ++ [j] /\ Forall plain (done' ++ todo1)).
    { inversion Hm as [|j1 d0 t0 Hc Heq|j1 d0 t0 Hc]; subst; [by exists todo| |].
      - exists todo. split; [done|]. by apply Forall_cons in Hp as [_ ?].
      - destruct todo as [|t todo]; cbn in *; simplify_eq.
        + unfold is_send in Hc. by rewrite Hj in Hc.
        + exists todo. split; [done|]. rewrite <- app_assoc. done. }
    destruct Hd' as (todo1 & -> & Hp1). exists done', todo1, j, r, n, k.
    split_and!; try done; try congruence. eapply keeps_step; done.
  - apply Forall_cons in Hpd as [[] _]. congruence.
  - assert (todo = [] /\ j0 = j /\ todo' = []) as (-> & -> & ->).
    { destruct todo as [|t todo]; cbn in Heq; simplify_eq; [done|].
      apply Forall_cons in Hpt as [[] _]. congruence. }
    destruct HS as [HF K Q St]. cbn [app] in *. cbn in Q. rewrite Hj in Q.
    pose proof (unscheduled_Fab _ _ _ _ _ HF) as HF1.
    destruct (hw_send pool_size Hsf Hcreate exp done j [] r (unscheduled s) n k m HF1 Hj)
      as (x' & ack & Hgr & Hok' & Hrun & HF2); try done; [by rewrite <- Hx in Hok|by rewrite <- Hx in Hl|].
    rewrite Hrun in He. eexists. split; [exact He|]. split.
    + right. exists (done ++ [j; r]), x', ack.
      split; [split; [exact HF2|exact K|exact Q|by destruct St]|].
      split; [by rewrite <- Hx|]. split_and!; try done.
      * left. exists (done ++ [j]), r. rewrite <- app_assoc.
        pose proof (fab_recvs _ _ _ _ _ HF) as Hr. apply Forall_cons in Hr as [Hr _].
        split_and!; try done. apply Forall_app. split.
        -- apply Forall_app in Hp as [Hp _]. eapply Forall_impl; [exact Hp|]. by intros ? [].
        -- constructor; [|constructor]. unfold counted. by rewrite Hj.
      * eapply (keeps_step _ _ s); [exact Hk|done|]. intros b bs [Ho1 Ho2].
        split; [done|]. pose proof (fab_recvs _ _ _ _ _ HF) as Hr.
        apply Forall_cons in Hr as [Hr _]. rewrite omap_app in Ho2 |- *. cbn in Ho2 |- *.
        unfold wblk at 2 in Ho2. rewrite Hj in Ho2.
        unfold wblk at 2. rewrite Hj. unfold wblk at 2. by rewrite Hr.
    + unfold work. cbn. rewrite length_app, (fab_sq _ _ _ _ _ HF). cbn.
      destruct (schedule_of s); cbn; lia.
Qed.

Lemma set_recv_sem_same l (s : world) : s.(recv_sem) = l -> set_recv_sem l s = s.
Proof. intros <-. by destruct s. Qed.

Lemma recv_wait_held n (s : world) : s.(recv_sem) = true ->
  recv_wait env (S n) s = (env ;;; recv_wait env n) s.
Proof.
  intros Hs. rewrite <- (set_recv_sem_same true s Hs) at 2.
  cbn [recv_wait]. unfold bind at 1, gets, id. by rewrite Hs.
Qed.

Lemma recv_wait_free n (s : world) : s.(recv_sem) = false ->
  recv_wait env n s = (set_recv_sem true s, Ok tt).
Proof. intros Hs. destruct n; cbn [recv_wait]; unfold bind at 1, gets, id; by rewrite Hs. Qed.

(** The lock of the connection is obtained when the answer has been polled. *)
Lemma recv_wait_answered n s : Answered s -> (work s < n)%nat ->
  exists s' x' ack, recv_wait env n s = (s', Ok tt) /\ Quiet exp ob Pr x' [] [] s' /\
    BladeAllocServer.grants base pool_size (u32 rkey) (granted_of x) m ack (granted_of x') /\
    srv_ok pool_size x' /\ s'.(recv_msg) = rt_encode ack /\ keeps [] s'.
Proof.
  revert s. induction n as [|n IH]; intros s HA Hw; [lia|].
  destruct (recv_sem s) eqn:Hsem; [rewrite recv_wait_held by done|rewrite recv_wait_free by done].
  - destruct (answered_step s HA Hsem) as (s1 & He & HA1 & Hw1).
    mstep He. apply IH; [done|lia].
  - destruct HA as (done & x' & ack & HS & Hg & Hok & Hx & Hmsg & Hph & Hk).
    destruct Hph as [(d & r & _ & _ & _ & Hf)|[-> _]]; [congruence|].
    exists (set_recv_sem true s), x', ack. split; [done|]. split; [|done].
    destruct HS as [[] K Q St]. split; [|constructor|done|done].
    split; [by split|done|done|]. by destruct St.
Qed.

Lemma recv_wait_calling n s : Calling s -> srv_ok pool_size x ->
  BladeAllocServer.legal (granted_of x) m -> (work s < n)%nat ->
  exists s' x' ack, recv_wait env n s = (s', Ok tt) /\ Quiet exp ob Pr x' [] [] s' /\
    BladeAllocServer.grants base pool_size (u32 rkey) (granted_of x) m ack (granted_of x') /\
    srv_ok pool_size x' /\ s'.(recv_msg) = rt_encode ack /\ keeps [] s'.
Proof.
  intros HC Hok Hl. revert s HC. induction n as [|n IH]; intros s HC Hw; [lia|].
  assert (Hsem : recv_sem s = true) by (destruct HC as (? & ? & ? & ? & ? & ? & HC); tauto).
  rewrite recv_wait_held by done.
  destruct (calling_step s HC Hok Hl) as (s1 & He & [HC1|HA1] & Hw1); mstep He.
  - apply IH; [done|lia].
  - apply recv_wait_answered; [done|lia].
Qed.

End calling.

(** ** The operations of the client *)

Section operations.
Context `{!ManagedBufferSpec} `{!BladeMessageSpec} (pool_size : Z).
Context (Hsf : forall x v, srv_fails x v = false).
Context (Hcreate : mb_create base pool_size <> None).
Context (Hbase : 0 < base) (Htop : base + pool_size < 2 ^ 64).
Context (Hf : forall (s : world) v, fails s v = false) (Hk32 : u32 key = key).
Context (uninit : nat -> bytes) (Huninit : forall n, length (uninit n) = n).
Context (fuel : nat).

Lemma client_test_ok v (s : world) : RDMAClient.test fails v s = (s, Ok tt).
Proof. unfold test, bind, gets, id. by rewrite Hf. Qed.

(** The state with a new [RDMAOpInfo]. *)
Definition with_op (recv : bool) (fn : option RDMAMem) (s : world) : world :=
  set_next_op (S s.(next_op))
    (set_ops (<[s.(next_op) := mk_op Null (length s.(futs)) recv fn]> s.(ops))
       (set_futs (s.(futs) ++ [new_FutureData]) s)).

Lemma new_op_ok recv fn (s : world) :
  new_RDMAOpInfo recv fn s = (with_op recv fn s, Ok s.(next_op)).
Proof. done. Qed.

Lemma deref_new_op recv fn (s : world) :
  deref_op s.(next_op) (with_op recv fn s) =
    (with_op recv fn s, Ok (mk_op Null (length s.(futs)) recv fn)).
Proof. unfold deref_op, bind, gets, id. cbn. by rewrite lookup_insert_eq. Qed.

Definition posted (w : send_wr) (s : world) : world :=
  set_send_q (s.(send_q) ++ [w])
    (set_outstanding_send_wr (u64 (s.(outstanding_send_wr) + 1)) s).

Lemma post_send_ok w (s : world) : s.(outstanding_send_wr) <> MAX_SEND_WR ->
  post_send fails w s = (posted w s, Ok true).
Proof.
  intros Hne. unfold post_send, bind at 1, gets, id. apply Z.eqb_neq in Hne.
  rewrite Hne, Hf. done.
Qed.

Lemma post_receive_ok (s : world) : is_Some s.(recv_msg_mr) ->
  post_receive fails s =
    (set_recv_q (s.(recv_q) ++ [s.(next_op)]) (with_op true None s), Ok tt).
Proof.
  intros [k Hk]. unfold post_receive. mstep (new_op_ok true None s).
  unfold bind at 1, gets, id. unfold bind at 1, deref_mr. cbn [with_op recv_msg_mr set_next_op set_ops set_futs].
  rewrite Hk. unfold ret at 1. by mstep (client_test_ok ibv_post_recv (with_op true None s)).
Qed.

Lemma client_send_ok (s : world) n k : s.(send_msg_mr) = Some k ->
  s.(outstanding_send_wr) <> MAX_SEND_WR ->
  send_message fails n s =
    (posted (mk_wr s.(next_op) IBV_WR_SEND SendMsg (u32 n) k 0 0) (with_op false None s),
     Ok (Some s.(next_op))).
Proof.
  intros Hk Hne. unfold send_message. mstep (new_op_ok false None s).
  unfold bind at 1, gets, id. unfold bind at 1, deref_mr. cbn [with_op send_msg_mr set_next_op set_ops set_futs].
  rewrite Hk. unfold ret at 1. by rewrite (bind_ok _ _ _ _ _ (post_send_ok _ (with_op false None s) Hne)).
Qed.

Lemma Fab_send_msg exp done todo recvs s msg : Fab exp done todo recvs s ->
  Fab exp done todo recvs (set_send_msg msg s).
Proof. intros []. by split. Qed.

(** The state once the receive and the request are posted and the caller has
    taken the lock of its own operation, which is free from the start. *)
Lemma send_receive_calling exp ob Pr x m N orph done todo s :
  Quiet exp ob Pr x done todo s -> keeps N orph (done ++ todo) s ->
  s.(send_msg) = rt_encode m ->
  Z.of_nat (length (done ++ todo)) < MAX_SEND_WR ->
  exists s2, send_receive_message_sync fails env fuel (Z.of_nat (length (rt_encode m))) s =
      (recv_wait env fuel ;;; ret true) s2 /\
    Calling exp ob Pr x m N orph s2 /\
    (work s2 <= length (schedule_of s2) + 3 * length (done ++ todo) + 3)%nat.
Proof.
  intros HQ Hkeep Hmsg Hmax. pose proof (Quiet_out _ _ _ _ _ _ _ HQ) as Hout.
  pose proof (Quiet_work _ _ _ _ _ _ _ HQ) as Hwk.
  destruct HQ as [[HF K Q [St1 [ks St2] St3 St4]] Hp Hx Hsem].
  unfold send_receive_message_sync. mstep (post_receive_ok s St3). set (s1 := set_recv_q _ _).
  set (r := mk_job s.(next_op) (length s.(futs)) KRecv).
  assert (HF1 : Fab exp done todo [r] s1).
  { apply (Fab_post_recv exp done todo [] s s1 r HF); try done.
    split; try done.
    - exists new_FutureData. split; [done|]. by split.
    - intros b Hb. by apply (fab_heap _ _ _ _ _ HF). }
  mstep (client_send_ok s1 (Z.of_nat (length (rt_encode m))) ks St2
    ltac:(cbn; rewrite Hout; lia)).
  set (n := Z.of_nat (length (rt_encode m))).
  set (j := mk_job (next_op s1) (length (futs s1)) (KSend n ks)).
  assert (Hn : u32 n = n).
  { apply u32_small. pose proof (bm_small m). unfold is_u32, n. lia. }
  rewrite Hn. set (s2 := posted _ _).
  assert (HF2 : Fab exp done (todo ++ [j]) [r] s2).
  { apply (Fab_post exp done todo [r] s1 s2 j HF1); try done.
    - split; try done.
      + exists new_FutureData. split; [done|]. by split.
      + intros b Hb. by apply (fab_heap _ _ _ _ _ HF).
    - cbn. rewrite Hout. apply u64_small. unfold is_u64, MAX_SEND_WR in *. lia. }
  unfold preempt, bind at 1, bind at 1, gets, id. cbn [windows].
  change (windows s2) with (windows s). rewrite St4. unfold ret at 1.
  unfold op_wait. rewrite <- bind_assoc.
  assert (Hd : deref_op (next_op s1) s2 =
    (s2, Ok (mk_op Null (length (futs s1)) false None))).
  { unfold deref_op, bind, gets, id. cbn. by rewrite lookup_insert_eq. }
  mstep Hd. cbn [oi_fd]. set (fd := length (futs s1)).
  assert (Hfd : futures s2 !! fd = Some new_FutureData).
  { cbn. unfold fd. by rewrite lookup_app_r, Nat.sub_diag by lia. }
  assert (Hw : ClientFuture.sem_wait env fuel fd s2 =
    (set_futs (<[fd := set_sem true new_FutureData]> s2.(futs)) s2, Ok tt)).
  { pose proof (sem_trywait_ok fd _ s2 Hfd) as Ht.
    destruct fuel; cbn [ClientFuture.sem_wait]; mstep Ht; done. }
  mstep Hw. eexists. split; [reflexivity|]. split.
  - exists done, todo, j, r, n, ks. split_and!; try done.
    + split; [by apply Fab_set_sem|done| |by split].
      change (region_of _) with (region_of s). apply queue_ok_app.
      eapply queue_ok_mono; [|exact Q]. done.
    + destruct Hkeep as [Ho Hsc]. split; [|done]. intros b bs Hb.
      destruct (Ho b bs Hb) as [O1 O2]. split; [done|].
      rewrite app_assoc, omap_app. cbn. by rewrite app_nil_r.
  - unfold work in *. cbn. rewrite length_app. cbn. lia.
Qed.

Lemma grants_fits g m ack g' : BladeMessage.fits m ->
  BladeAllocServer.grants base pool_size (u32 rkey) g m ack g' -> BladeMessage.fits ack.
Proof.
  intros Hm Hg. pose proof (u32_range rkey) as Hr. unfold is_u32 in Hr.
  destruct Hg as [g n id a Hid Hn Hb He|g n|g a n Ha]; cbn in *.
  - unfold is_u64 in *. lia.
  - unfold is_u64. lia.
  - lia.
Qed.

(** Fuel for a call with [k] operations pending and a schedule of [N] steps. *)
Definition enough (N k : nat) : Prop := (N + 3 * k + 4 < fuel)%nat.

Lemma call_ok exp ob Pr x m N orph done todo s :
  Quiet exp ob Pr x done todo s -> keeps N orph (done ++ todo) s ->
  srv_ok pool_size x -> BladeAllocServer.legal (granted_of x) m ->
  Z.of_nat (length (done ++ todo)) < MAX_SEND_WR -> enough N (length (done ++ todo)) ->
  exists s' x' ack, call fails env fuel m s = (s', Ok (Some ack)) /\
    Quiet exp ob Pr x' [] [] s' /\
    BladeAllocServer.grants base pool_size (u32 rkey) (granted_of x) m ack (granted_of x') /\
    srv_ok pool_size x' /\ keeps N orph [] s'.
Proof.
  intros HQ Hkeep Hok Hl Hmax Hfu. unfold call, bind at 1, modify at 1.
  set (s0 := set_send_msg (rt_encode m) s).
  assert (HQ0 : Quiet exp ob Pr x done todo s0).
  { destruct HQ as [[HF K Q []] Hp Hx Hsem]. split; try done.
    split; [by apply Fab_send_msg|done|done|by split]. }
  assert (Hkeep0 : keeps N orph (done ++ todo) s0) by exact Hkeep.
  destruct (send_receive_calling exp ob Pr x m N orph done todo s0 HQ0 Hkeep0 eq_refl Hmax)
    as (s2 & Hsr & HC & Hwk).
  destruct (recv_wait_calling pool_size Hsf Hcreate exp ob Pr x m N orph fuel s2 HC Hok Hl)
    as (s3 & x' & ack & Hrw & HQ3 & Hgr & Hok3 & Hmsg & Hk3).
  { unfold enough in Hfu. destruct HC as (? & ? & ? & ? & ? & ? & HC).
    destruct HC as (_ & _ & _ & _ & _ & _ & _ & [_ Hsc]). lia. }
  exists s3, x', ack. split; [|done].
  assert (Hcall : send_receive_message_sync fails env fuel
    (Z.of_nat (length (rt_encode m))) s0 = (s3, Ok true)).
  { rewrite Hsr. by mstep Hrw. }
  mstep Hcall. unfold bind, gets, id, ret. rewrite Hmsg.
  rewrite <- (app_nil_r (rt_encode ack)), bm_roundtrip; [done|].
  eapply grants_fits; [|done]. apply Hl.
Qed.

(** [allocate]: a new block, or the exception for memory. *)
Lemma allocate_ok exp ob Pr x n N orph done todo s :
  Quiet exp ob Pr x done todo s -> keeps N orph (done ++ todo) s ->
  srv_ok pool_size x -> is_u64 n ->
  Z.of_nat (length (done ++ todo)) < MAX_SEND_WR -> enough N (length (done ++ todo)) ->
  exists s' x', Quiet exp ob Pr x' [] [] s' /\ srv_ok pool_size x' /\ keeps N orph [] s' /\
    ((allocate fails env fuel n s =
       (s', Throw (ServerMemoryErrorException
                     "Server threw exception when allocating memory.")) /\
      granted_of x' = granted_of x) \/
     exists ar, allocate fails env fuel n s = (s', Ok ar) /\
       peer_rkey ar = u32 rkey /\ base <= remote_addr ar /\
       remote_addr ar + n <= base + pool_size /\
       granted_of x !! remote_addr ar = None /\
       (forall a' n', granted_of x !! a' = Some n' ->
          disjoint_blocks (remote_addr ar) n a' n') /\
       granted_of x' = <[remote_addr ar := n]> (granted_of x)).
Proof.
  intros HQ Hkeep Hok Hn Hmax Hfu.
  destruct (call_ok exp ob Pr x (BladeMessage.Alloc n) N orph done todo s HQ Hkeep Hok)
    as (s' & x' & ack & Hc & HQ' & Hgr & Hok' & Hk'); [by split|done|done|].
  exists s', x'. split; [done|]. split; [done|]. split; [done|].
  unfold allocate. rewrite (bind_ok _ _ _ _ _ Hc).
  remember (BladeMessage.Alloc n) as m eqn:Hm. destruct Hgr; simplify_eq.
  - right. destruct (Z.eqb_spec a 0); [lia|].
    exists (new_AllocationRecord id a (u32 rkey)). done.
  - left. done.
Qed.

Lemma deallocate_ok exp ob Pr x ar n N done todo s :
  Quiet exp ob Pr x done todo s -> keeps N None (done ++ todo) s ->
  srv_ok pool_size x -> granted_of x !! remote_addr ar = Some n ->
  Z.of_nat (length (done ++ todo)) < MAX_SEND_WR -> enough N (length (done ++ todo)) ->
  exists s' x', deallocate fails env fuel ar s = (s', Ok true) /\
    Quiet exp ob Pr x' [] [] s' /\ srv_ok pool_size x' /\ keeps N None [] s' /\
    granted_of x' = delete (remote_addr ar) (granted_of x).
Proof.
  intros HQ Hkeep Hok Hn Hmax Hfu.
  destruct (call_ok exp ob Pr x (BladeMessage.Dealloc (remote_addr ar)) N None done todo s
    HQ Hkeep Hok) as (s' & x' & ack & Hc & HQ' & Hgr & Hok' & Hk'); [|done|done|].
  { destruct Hok as (ph & i & (_ & _ & [Hg _]) & _). destruct (Hg _ _ Hn) as (G0 & G1 & G2).
    split; [|by eauto]. cbn. unfold is_u64. lia. }
  exists s', x'. unfold deallocate. rewrite (bind_ok _ _ _ _ _ Hc).
  remember (BladeMessage.Dealloc (remote_addr ar)) as m eqn:Hm.
  destruct Hgr; simplify_eq. done.
Qed.

(** *** Blocks *)

Definition with_block (bs : bytes) (s : world) : world :=
  set_next_blk (S s.(next_blk)) (set_heap (<[s.(next_blk) := Plain bs]> s.(heap)) s).

Lemma new_char_ok n (s : world) :
  new_char uninit n s = (with_block (uninit (Z.to_nat n)) s, Ok (Blk s.(next_blk))).
Proof. done. Qed.

Lemma with_block_next (bs : bytes) (s : world) b x :
  (forall b, is_Some (s.(heap) !! b) -> (b < s.(next_blk))%nat) ->
  s.(heap) !! b = Some x -> (with_block bs s).(heap) !! b = Some x.
Proof.
  intros Hn Hb. cbn. rewrite lookup_insert_ne; [done|]. intros <-.
  specialize (Hn _ (mk_is_Some _ _ Hb)). lia.
Qed.

Lemma Fab_with_block exp done todo recvs s bs : Fab exp done todo recvs s ->
  Fab exp done todo recvs (with_block bs s).
Proof.
  intros []. assert (Hg : forall b x, s.(heap) !! b = Some x ->
    (with_block bs s).(heap) !! b = Some x) by (intros b x; by apply with_block_next).
  assert (Hj : forall ex l, Forall (job_ok ex s.(ops) s.(futs) s.(heap)) l ->
    Forall (job_ok ex s.(ops) s.(futs) (with_block bs s).(heap)) l).
  { intros ex l Hl. eapply Forall_impl; [done|]. intros j. by apply job_ok_grow. }
  split; try done; try by apply Hj.
  intros b. cbn. intros [y [[<- _]|[_ Hy]]%lookup_insert_Some]; [lia|].
  specialize (fab_heap0 b (mk_is_Some _ _ Hy)). lia.
Qed.

Lemma Quiet_with_block exp ob Pr x done todo s bs : Quiet exp ob Pr x done todo s ->
  Quiet exp ob Pr x done todo (with_block bs s) /\
  orphan s.(next_blk) bs (done ++ todo) (with_block bs s).
Proof.
  intros [[HF K Q []] Hp Hx Hsem]. split.
  - split; try done. split; [by apply Fab_with_block|done|done|by split].
  - split; [cbn; by rewrite lookup_insert_eq|].
    intros (j & Hj & Hb)%list_elem_of_omap. unfold wblk in Hb.
    destruct HF. rewrite app_nil_r in fab_todo0.
    rewrite Forall_forall in fab_done0. rewrite Forall_forall in fab_todo0.
    assert (Hown : owns s.(heap) j).
    { apply elem_of_app in Hj as [Hj|Hj]; [apply (fab_done0 j Hj)|apply (fab_todo0 j Hj)]. }
    unfold owns in Hown. destruct (j_kind j); simplify_eq.
    specialize (fab_heap0 _ (mk_is_Some _ _ Hown)). lia.
Qed.

Section objects.
Context {T : Type} `{SerializerSpec T}.

(** Objects that fit in one message. *)
Definition fits_msg (w : T) : Prop := Z.of_nat (length (ser_serialize w)) <= SEND_MSG_SIZE.

Lemma fits_size w : fits_msg w ->
  u64 (WriteUnit.size w) = Z.of_nat (length (ser_serialize w)).
Proof.
  unfold fits_msg, WriteUnit.size, SEND_MSG_SIZE, MB. rewrite ser_size_spec. intros Hw.
  apply u64_small. unfold is_u64. lia.
Qed.

Lemma serialize_new_ok w (s : world) : fits_msg w ->
  serialize_new uninit w s = (with_block (ser_serialize w) s, Ok (Blk s.(next_blk))).
Proof.
  intros Hw. unfold serialize_new. rewrite fits_size by done.
  mstep (new_char_ok (Z.of_nat (length (ser_serialize w))) s).
  unfold load, bind at 1, bind at 1, gets, id. cbn [with_block heap set_next_blk set_heap].
  rewrite lookup_insert_eq. unfold ret at 1. unfold bind at 1, stop.
  rewrite WriteUnit.unit_serialize_exact
    by (rewrite Huninit; unfold WriteUnit.size; rewrite ser_size_spec; lia).
  unfold store, bind at 1, bind at 1, gets, id. cbn [with_block heap set_next_blk set_heap].
  rewrite lookup_insert_eq. unfold modify, ret, with_block. do 2 f_equal.
  unfold set_heap, set_next_blk. cbn. by rewrite insert_insert_eq.
Qed.
End objects.

(** *** Posting reads and writes *)

Definition registered (s : world) : world :=
  set_next_mr (S s.(next_mr)) (set_mrs ({[s.(next_mr)]} ∪ s.(mrs)) s).

Definition prepared (a : addr) (len : Z) (s : world) : RDMAMem :=
  mk_mem a len (Some s.(next_mr)) true false false.

Lemma prepare_ok a len (s : world) :
  prepare fails (new_RDMAMem a len None) s = (registered s, Ok (prepared a len s)).
Proof. unfold prepare, bind at 1, gets, id. cbn [new_RDMAMem registered_]. by rewrite Hf. Qed.

(** A request that the state [s'] has in addition to [s] leaves it quiet. *)
Lemma Quiet_post exp ob Pr Pr' x done todo s s' j :
  Quiet exp ob Pr x done todo s -> added j s s' -> plain j ->
  s'.(send_q) = s.(send_q) ++ [wr_of j] -> s'.(recv_q) = s.(recv_q) ->
  s'.(outstanding_send_wr) = u64 (s.(outstanding_send_wr) + 1) ->
  Z.of_nat (length (done ++ todo)) < MAX_SEND_WR ->
  (forall b, wblk j = Some b -> b ∉ omap wblk (done ++ todo)) ->
  s'.(RDMAClient.peer) = s.(RDMAClient.peer) -> s'.(recv_sem) = s.(recv_sem) ->
  static ob s' -> (forall r, Pr r -> queue_ok Pr' [j] r) ->
  Quiet (add_exp exp j) ob Pr' x done (todo ++ [j]) s'.
Proof.
  intros HQ HA [Hc Hs] Esq Erq Eout Hmax Hb Ep Es St Himp.
  pose proof (Quiet_out _ _ _ _ _ _ _ HQ) as Hout. destruct HQ as [[HF K Q _] Hp Hx Hsem].
  split; [split| | |].
  - apply (Fab_post exp done todo [] s s' j HF HA); try done.
    + intros Hk. unfold counted in Hc. by rewrite Hk in Hc.
    + rewrite Eout, Hout. apply u64_small. unfold is_u64, MAX_SEND_WR in *. lia.
    + by rewrite app_nil_r.
  - by rewrite Ep.
  - rewrite Ep. apply queue_ok_app. eapply queue_ok_mono; [|exact Q]. exact Himp.
  - done.
  - rewrite app_assoc. apply Forall_app. split; [done|]. by constructor.
  - by rewrite Ep.
  - by rewrite Es.
Qed.

(** The job of a write of the block [b]. *)
Definition write_job (b : nat) (bs : bytes) (a : Z) (s : world) : job :=
  mk_job s.(next_op) (length s.(futs)) (KWrite b bs a s.(next_mr)).

Section posting.
Context (exp : gmap nat bytes) (ob : gmap Z BladeLocation) (Pr Pr' : Region.t -> Prop).
Context (x : RDMAServer.t BladeAllocServer.t) (done todo : list job) (s : world).
Context (HQ : Quiet exp ob Pr x done todo s).
Context (Hmax : Z.of_nat (length (done ++ todo)) < MAX_SEND_WR).
Context (b : nat) (bs : bytes) (a : Z) (ar : AllocationRecord).
Context (Ha : remote_addr ar = a) (Hk : peer_rkey ar = key) (Hu : is_u64 a).
Context (Hlen : Z.of_nat (length bs) <= SEND_MSG_SIZE).

Lemma raddr_ok : u64 (remote_addr ar + 0) = a.
Proof using Ha Hu. rewrite Ha, Z.add_0_r. by apply u64_small. Qed.

Lemma len_ok : u32 (Z.of_nat (length bs)) = Z.of_nat (length bs).
Proof using Hlen. clear - Hlen. apply u32_small. unfold is_u32, SEND_MSG_SIZE, MB in *. lia. Qed.

(** The state with the write posted. *)
Definition write_state : world :=
  posted (wr_of (write_job b bs a s))
    (set_ops (<[s.(next_op) := op_of (write_job b bs a s)]> s.(ops))
       (set_futs (s.(futs) ++ [new_FutureData])
          (set_next_op (S s.(next_op)) (registered s)))).

Lemma write_rdma_async_ok (s1 : world) k o : s1.(outstanding_send_wr) <> MAX_SEND_WR ->
  write_rdma_async fails (Z.of_nat (length bs)) a key
    (mk_mem (Blk b) (Z.of_nat (length bs)) (Some k) true false false) o s1 =
  (posted (mk_wr o IBV_WR_RDMA_WRITE (Blk b) (Z.of_nat (length bs)) k a key)
     (set_ops (alter (set_oi_data (Blk b)) o s1.(ops)) s1), Ok tt).
Proof.
  intros Ho. unfold write_rdma_async, update_op. unfold bind at 1, modify at 1.
  unfold bind at 1, deref_mr, ret at 1. cbn [mr addr_]. rewrite len_ok, Hk32.
  mstep (post_send_ok
    (mk_wr o IBV_WR_RDMA_WRITE (Blk b) (Z.of_nat (length bs)) k a key)
    (set_ops (alter (set_oi_data (Blk b)) o s1.(ops)) s1) Ho). done.
Qed.

Lemma out_ok : s.(outstanding_send_wr) <> MAX_SEND_WR.
Proof using HQ Hmax. rewrite (Quiet_out _ _ _ _ _ _ _ HQ). clear - Hmax. lia. Qed.

Lemma rdma_write_async_ok :
  rdma_write_async fails ar 0 (Z.of_nat (length bs)) (Blk b) default_RDMAMem s =
    (write_state, Ok (length s.(futs))).
Proof.
  unfold rdma_write_async. destruct (Z.ltb_spec SEND_MSG_SIZE (Z.of_nat (length bs))); [lia|].
  rewrite raddr_ok, Hk. mstep (new_op_ok false None s). mstep (deref_new_op false None s).
  cbn [isDefault default_RDMAMem default_ negb]. rewrite <- bind_assoc.
  mstep (prepare_ok (Blk b) (Z.of_nat (length bs)) (with_op false None s)).
  unfold prepared. mstep (write_rdma_async_ok (registered (with_op false None s))
    (next_mr (with_op false None s)) s.(next_op) out_ok).
  unfold ret. f_equal. unfold write_state, posted, with_op, registered. cbn.
  by rewrite alter_insert_eq.
Qed.

(** Both branches of [write_rdma_sync] return at once: its lock is free. *)
Lemma write_sync_state :
  rdma_write_sync fails env fuel ar 0 (Z.of_nat (length bs)) (Blk b)
    (new_RDMAMem (Blk b) (Z.of_nat (length bs)) None) s =
  (set_futs (<[length s.(futs) := set_sem true new_FutureData]> write_state.(futs))
     write_state, Ok true).
Proof.
  unfold rdma_write_sync. destruct (Z.ltb_spec SEND_MSG_SIZE (Z.of_nat (length bs))); [lia|].
  rewrite raddr_ok, Hk. cbn [isDefault new_RDMAMem default_ negb]. rewrite <- bind_assoc.
  change (set_addr_ _ _) with (new_RDMAMem (Blk b) (Z.of_nat (length bs)) None).
  mstep (prepare_ok (Blk b) (Z.of_nat (length bs)) s). unfold write_rdma_sync.
  rewrite <- bind_assoc. mstep (new_op_ok false None (registered s)). rewrite <- bind_assoc.
  unfold prepared. mstep (write_rdma_async_ok (with_op false None (registered s))
    s.(next_mr) s.(next_op) out_ok).
  assert (Hst : posted (mk_wr (next_op s) IBV_WR_RDMA_WRITE (Blk b) (Z.of_nat (length bs))
      (next_mr s) a key) (set_ops (alter (set_oi_data (Blk b)) (next_op s)
        (ops (with_op false None (registered s)))) (with_op false None (registered s)))
    = write_state).
  { unfold write_state, posted, with_op, registered. cbn. by rewrite alter_insert_eq. }
  rewrite Hst. clear Hst. rewrite <- bind_assoc.
  assert (Hpre : preempt env write_state = (write_state, Ok tt)).
  { unfold preempt, bind, gets, id. change (windows write_state) with (windows s).
    destruct HQ as [[_ _ _ [_ _ _ Hw]] _ _ _]. by rewrite Hw. }
  mstep Hpre. rewrite <- bind_assoc. unfold op_wait. rewrite <- bind_assoc.
  assert (Hd : deref_op (next_op s) write_state =
    (write_state, Ok (op_of (write_job b bs a s)))).
  { unfold deref_op, bind, gets, id. cbn. by rewrite lookup_insert_eq. }
  change (next_op (registered s)) with (next_op s). mstep Hd. cbn [oi_fd op_of j_kind j_fd write_job].
  assert (Hfd : futures write_state !! length s.(futs) = Some new_FutureData).
  { cbn. by rewrite lookup_app_r, Nat.sub_diag by lia. }
  assert (Hw : ClientFuture.sem_wait env fuel (length s.(futs)) write_state =
    (set_futs (<[length s.(futs) := set_sem true new_FutureData]> write_state.(futs))
       write_state, Ok tt)).
  { pose proof (sem_trywait_ok (length s.(futs)) _ write_state Hfd) as Ht.
    destruct fuel; cbn [ClientFuture.sem_wait]; mstep Ht; done. }
  by mstep Hw.
Qed.

Lemma write_state_Quiet : orphan b bs (done ++ todo) s ->
  (forall r, Pr r -> Region.covers r a (Z.of_nat (length bs)) /\ Pr' (Region.store r a bs)) ->
  Quiet exp ob Pr' x done (todo ++ [write_job b bs a s]) write_state.
Proof.
  intros [Ho1 Ho2] Himp.
  assert (HA : added (write_job b bs a s) s write_state).
  { split; try done.
    - exists new_FutureData. split; [done|]. by split.
    - intros b0 Hb0. destruct HQ as [[HF _ _ _] _ _ _]. by apply (fab_heap _ _ _ _ _ HF). }
  apply (Quiet_post exp ob Pr Pr' x done todo s write_state (write_job b bs a s) HQ HA);
    try done.
  - intros b0 [= <-]. done.
  - destruct HQ as [[_ _ _ []] _ _ _]. by split.
Qed.

(** The same after the caller has taken the lock. *)
Lemma write_sync_Quiet : orphan b bs (done ++ todo) s ->
  (forall r, Pr r -> Region.covers r a (Z.of_nat (length bs)) /\ Pr' (Region.store r a bs)) ->
  Quiet exp ob Pr' x done (todo ++ [write_job b bs a s])
    (set_futs (<[length s.(futs) := set_sem true new_FutureData]> write_state.(futs))
       write_state).
Proof.
  intros Ho Himp. destruct (write_state_Quiet Ho Himp) as [[HF K Q []] Hp Hx Hsem].
  split; try done. split; [|done|done|by split]. apply Fab_set_sem; [done|].
  cbn. by rewrite lookup_app_r, Nat.sub_diag by lia.
Qed.
End posting.

(** *** Reading *)

Definition read_job (a : Z) (v : bytes) (s : world) : job :=
  mk_job s.(next_op) (length s.(futs)) (KRead s.(next_blk) a v s.(next_mr)).

Definition read_fd (n : nat) : FutureData := set_data_ptr (Some (uninit n)) new_FutureData.

(** The state with the read into a new block posted. *)
Definition read_state (a : Z) (v : bytes) (s : world) : world :=
  posted (wr_of (read_job a v s))
    (set_heap (<[s.(next_blk) := Shared (length s.(futs))]>
                (<[s.(next_blk) := Plain (uninit (length v))]> s.(heap)))
       (set_ops (<[s.(next_op) := op_of (read_job a v s)]> s.(ops))
          (set_futs (s.(futs) ++ [read_fd (length v)])
             (set_next_op (S s.(next_op)) (registered (set_next_blk (S s.(next_blk)) s)))))).

Lemma alter_last {A} (f : A -> A) (l : list A) x :
  alter f (length l) (l ++ [x]) = l ++ [f x].
Proof. rewrite alter_app_r_alt by lia. by rewrite Nat.sub_diag. Qed.

Section reading.
Context (exp : gmap nat bytes) (ob : gmap Z BladeLocation) (Pr : Region.t -> Prop).
Context (x : RDMAServer.t BladeAllocServer.t) (done todo : list job) (s : world).
Context (HQ : Quiet exp ob Pr x done todo s).
Context (Hmax : Z.of_nat (length (done ++ todo)) < MAX_SEND_WR).
Context (v : bytes) (a : Z) (ar : AllocationRecord).
Context (Ha : remote_addr ar = a) (Hk : peer_rkey ar = key) (Hu : is_u64 a).
Context (Hlen : Z.of_nat (length v) <= SEND_MSG_SIZE).

Lemma share_ok (s1 : world) b fd bs : s1.(heap) !! b = Some (Plain bs) ->
  share (Blk b) fd s1 =
    (set_heap (<[b := Shared fd]> s1.(heap))
       (set_futs (alter (set_data_ptr (Some bs)) fd s1.(futs)) s1), Ok tt).
Proof.
  intros Hb. unfold share, load, bind at 1, bind at 1, gets, id. rewrite Hb.
  unfold ret at 1. unfold bind at 1. by rewrite fd_update_ok.
Qed.

Lemma readToLocalAsync_ok :
  (let* data := new_char uninit (Z.of_nat (length v)) in
   readToLocalAsync fails (mk_loc (Z.of_nat (length v)) ar) data) s =
  (read_state a v s, Ok (length s.(futs))).
Proof.
  mstep (new_char_ok (Z.of_nat (length v)) s). rewrite Nat2Z.id.
  unfold readToLocalAsync, rdma_read_async. cbn [size allocRec].
  destruct (Z.ltb_spec RECV_MSG_SIZE (Z.of_nat (length v)));
    [unfold RECV_MSG_SIZE, SEND_MSG_SIZE in *; lia|].
  rewrite (raddr_ok a ar Ha Hu), Hk. cbn [isDefault default_RDMAMem default_ negb].
  rewrite <- !bind_assoc. set (s1 := with_block _ s).
  mstep (prepare_ok (Blk (next_blk s)) (Z.of_nat (length v)) s1). rewrite <- !bind_assoc.
  set (m := prepared _ _ _). mstep (new_op_ok false (Some m) (registered s1)).
  unfold bind at 1, ret at 1. mstep (deref_new_op false (Some m) (registered s1)). cbn [oi_fd].
  assert (Hb : (with_op false (Some m) (registered s1)).(heap) !! s.(next_blk) =
    Some (Plain (uninit (length v)))) by (cbn; apply lookup_insert_eq).
  mstep (share_ok _ _ (length (futs (registered s1))) _ Hb).
  unfold read_rdma_async. rewrite <- bind_assoc. unfold bind at 1, deref_mr, ret at 1.
  cbn [m prepared mr addr_]. rewrite (len_ok v Hlen), Hk32. rewrite <- bind_assoc.
  erewrite bind_ok by (apply post_send_ok; exact (out_ok exp ob Pr x done todo s HQ Hmax)).
  unfold bind, ret. f_equal. unfold read_state, posted, with_op, registered, s1, with_block.
  cbn -[alter]. by rewrite alter_last.
Qed.

Lemma read_state_Quiet :
  (forall r, Pr r -> Region.covers r a (Z.of_nat (length v)) /\
     Region.load r a (length v) = v) ->
  Quiet (<[length s.(futs) := v]> exp) ob Pr x done (todo ++ [read_job a v s])
    (read_state a v s).
Proof.
  intros Himp. pose proof HQ as [[HF _ _ _] _ _ _].
  assert (Hnew : forall b0 y, s.(heap) !! b0 = Some y -> b0 <> s.(next_blk)).
  { intros b0 y Hy ->. pose proof (fab_heap _ _ _ _ _ HF _ (mk_is_Some _ _ Hy)). lia. }
  assert (HA : added (read_job a v s) s (read_state a v s)).
  { split; try done.
    - exists (read_fd (length v)). split; [done|]. split; [done|]. split; [done|].
      split; [done|]. cbn. exists (uninit (length v)). by rewrite Huninit.
    - intros b0 y Hy. cbn. rewrite !lookup_insert_ne by (by eapply not_eq_sym, Hnew). done.
    - unfold owns. cbn. by rewrite lookup_insert_eq.
    - intros b0. cbn. destruct (decide (b0 = s.(next_blk))) as [->|Hne]; [lia|].
      rewrite !lookup_insert_ne by done. intros Hb0.
      pose proof (fab_heap _ _ _ _ _ HF b0 Hb0). lia. }
  apply (Quiet_post exp ob Pr Pr x done todo s _ (read_job a v s) HQ HA); try done.
  - destruct HQ as [[_ _ _ []] _ _ _]. by split.
  - intros r Hr. cbn. destruct (Himp r Hr). done.
Qed.
End reading.

(** *** The client as a map *)

(** The map [m] of objects, the client's locations [ob] and the server [x]. *)
Record Rep (m : gmap Z bytes) (ob : gmap Z BladeLocation)
    (x : RDMAServer.t BladeAllocServer.t) : Prop := {
  rep_none oid : m !! oid = None <-> ob !! oid = None;
  rep_loc oid bs loc : m !! oid = Some bs -> ob !! oid = Some loc ->
    size loc = Z.of_nat (length bs) /\ peer_rkey (allocRec loc) = key /\
    Z.of_nat (length bs) <= SEND_MSG_SIZE /\
    granted_of x !! remote_addr (allocRec loc) = Some (size loc);
  rep_inj i j l l' : ob !! i = Some l -> ob !! j = Some l' ->
    remote_addr (allocRec l) = remote_addr (allocRec l') -> i = j;
}.

(** The pool holds every object at its location. *)
Definition Holds (m : gmap Z bytes) (ob : gmap Z BladeLocation) (r : Region.t) : Prop :=
  Region.base r = base /\ Region.size r = pool_size /\
  forall oid bs loc, m !! oid = Some bs -> ob !! oid = Some loc ->
    Region.load r (remote_addr (allocRec loc)) (length bs) = bs.

Lemma srv_granted x : srv_ok pool_size x ->
  BladeAllocServer.granted_ok base pool_size (granted_of x).
Proof. intros (ph & i & (_ & _ & Hg) & _). done. Qed.

Lemma covers_granted r m ob x a n : Holds m ob r -> srv_ok pool_size x ->
  granted_of x !! a = Some n -> Region.covers r a n.
Proof.
  intros (Hb & Hs & _) Hx Ha. destruct (srv_granted x Hx) as [Hg _].
  destruct (Hg a n Ha) as (_ & G1 & G2). unfold Region.covers. lia.
Qed.

(** A write at the location of [oid] changes the object of [oid] only. *)
Lemma Holds_write m ob x oid loc bs r : Rep m ob x -> srv_ok pool_size x ->
  granted_of x !! remote_addr (allocRec loc) = Some (Z.of_nat (length bs)) ->
  (forall i l, i <> oid -> ob !! i = Some l ->
     remote_addr (allocRec l) <> remote_addr (allocRec loc)) ->
  Holds m ob r ->
  Region.covers r (remote_addr (allocRec loc)) (Z.of_nat (length bs)) /\
  Holds (<[oid := bs]> m) (<[oid := loc]> ob) (Region.store r (remote_addr (allocRec loc)) bs).
Proof.
  intros HR Hx Hg Hne HH. pose proof (covers_granted r m ob x _ _ HH Hx Hg) as Hc.
  split; [done|]. destruct (srv_granted x Hx) as [_ Hd]. pose proof HH as (Hb & Hs & Hl).
  split; [done|]. split; [by rewrite Region.size_store|]. intros i v l.
  destruct (decide (oid = i)) as [<-|Hi].
  - rewrite !lookup_insert_eq. intros [= <-] [= <-]. by apply Region.load_store_same.
  - rewrite !lookup_insert_ne by done. intros Hv Hli.
    destruct (rep_loc _ _ _ HR i v l Hv Hli) as (S1 & _ & _ & S2). rewrite S1 in S2.
    rewrite Region.load_store_other; [by apply (Hl i)|done| |].
    + by apply (covers_granted r m ob x).
    + apply (Hd _ _ _ _ Hg S2). apply not_eq_sym. by apply (Hne i l).
Qed.

(** The client after some operations: at most [n] requests are outstanding and
    at most [N] steps of the schedule are left. *)
Definition Inv (m : gmap Z bytes) (n N : nat) (s : world) : Prop :=
  exists exp ob x done todo, Quiet exp ob (Holds m ob) x done todo s /\ Rep m ob x /\
    srv_ok pool_size x /\ (length (done ++ todo) <= n)%nat /\
    (length (schedule_of s) <= N)%nat.

Lemma addr_u64 x a n : srv_ok pool_size x -> granted_of x !! a = Some n -> is_u64 a.
Proof.
  intros Hx Ha. destruct (srv_granted x Hx) as [Hg _].
  destruct (Hg a n Ha) as (G0 & G1 & G2). unfold is_u64. lia.
Qed.

Lemma find_ok oid (s : world) : find oid s = (s, Ok (s.(objects_) !! oid)).
Proof. done. Qed.

Lemma Quiet_objects exp ob ob' Pr x done todo s : Quiet exp ob Pr x done todo s ->
  Quiet exp ob' Pr x done todo (set_objects ob' s).
Proof.
  intros [[HF K Q []] Hp Hx Hsem]. split; [|done|done|done]. split; [|done|done|by split].
  destruct HF. by split.
Qed.

(** What [find], and for a new object [allocate] and [insertObjectLocation],
    give to the write that follows: a location of the right size. *)
Definition located (m : gmap Z bytes) (n N : nat) (oid : Z) (b : nat) (bs : bytes)
    (loc : BladeLocation) (s : world) : Prop :=
  exists exp ob x done todo, Quiet exp (<[oid := loc]> ob) (Holds m ob) x done todo s /\
    orphan b bs (done ++ todo) s /\ Rep m ob x /\ srv_ok pool_size x /\
    (length (done ++ todo) <= n)%nat /\ (length (schedule_of s) <= N)%nat /\
    size loc = Z.of_nat (length bs) /\ peer_rkey (allocRec loc) = key /\
    granted_of x !! remote_addr (allocRec loc) = Some (Z.of_nat (length bs)) /\
    (forall i l, i <> oid -> ob !! i = Some l ->
       remote_addr (allocRec l) <> remote_addr (allocRec loc)).

Definition memory_error : exn :=
  ServerMemoryErrorException "Server threw exception when allocating memory.".

Section locating.
Context (Hkey : key = u32 rkey).

Lemma Rep_grow m ob x x' a n : Rep m ob x -> granted_of x !! a = None ->
  granted_of x' = <[a := n]> (granted_of x) -> Rep m ob x'.
Proof.
  intros [] Hn Hg. split; try done. intros oid bs loc Hm Hl.
  destruct (rep_loc0 oid bs loc Hm Hl) as (R1 & R2 & R3 & R4). split_and!; try done.
  rewrite Hg, lookup_insert_ne; [done|]. intros ->. congruence.
Qed.

Lemma locate_ok {B} (k : BladeLocation -> M world B) m n N oid b bs s :
  (exists exp ob x done todo, Quiet exp ob (Holds m ob) x done todo s /\
     orphan b bs (done ++ todo) s /\ Rep m ob x /\ srv_ok pool_size x /\
     (length (done ++ todo) <= n)%nat /\ (length (schedule_of s) <= N)%nat) ->
  Z.of_nat (length bs) <= SEND_MSG_SIZE -> Z.of_nat n < MAX_SEND_WR -> enough N n ->
  (forall bs', m !! oid = Some bs' -> length bs = length bs') ->
  let run := (let* l := find oid in
     match l with
     | Some loc => k loc
     | None =>
         let* ar := allocate fails env fuel (Z.of_nat (length bs)) in
         let* _ := insertObjectLocation oid (Z.of_nat (length bs)) ar in
         k (mk_loc (Z.of_nat (length bs)) ar)
     end) s in
  (exists s' loc, run = k loc s' /\ located m n N oid b bs loc s') \/
  (exists s', run = (s', Throw memory_error) /\ m !! oid = None /\ Inv m 0 N s').
Proof.
  intros (exp & ob & x & done & todo & HQ & Ho & HR & Hx & Hn & HN) Hlen Hmax Hfu Hsize run.
  unfold run. mstep (find_ok oid s).
  assert (Hob : s.(objects_) = ob) by (by destruct HQ as [[_ _ _ []] _ _ _]).
  rewrite Hob. destruct (ob !! oid) as [loc|] eqn:Hl.
  - left. exists s, loc. split; [done|].
    destruct (m !! oid) as [bs'|] eqn:Hm;
      [|apply (rep_none _ _ _ HR) in Hm; congruence].
    destruct (rep_loc _ _ _ HR oid bs' loc Hm Hl) as (R1 & R2 & R3 & R4).
    specialize (Hsize bs' eq_refl). rewrite <- Hsize in R1. rewrite R1 in R4.
    exists exp, ob, x, done, todo. rewrite insert_id by done.
    split_and!; try done. intros i l Hi Hil Heq. apply Hi. by apply (rep_inj _ _ _ HR i oid l loc).
  - assert (Hm : m !! oid = None) by (by apply (rep_none _ _ _ HR)).
    destruct (allocate_ok exp ob (Holds m ob) x (Z.of_nat (length bs)) N (Some (b, bs))
      done todo s) as (s' & x' & HQ' & Hx' & [Hk1 Hk2] & Hcase); try done.
    { split; [|done]. by intros b0 bs0 [= <- <-]. }
    { unfold is_u64, SEND_MSG_SIZE, MB in *. lia. }
    { lia. }
    { unfold enough in *. lia. }
    destruct Hcase as [[Hr Hg]|(ar & Hr & A1 & A2 & A3 & A4 & A5 & A6)].
    + right. exists s'. split; [by apply bind_throw|]. split; [done|].
      exists exp, ob, x', [], []. split_and!; try done.
      destruct HR. split; [done| |done]. intros i v l Hv Hli.
      destruct (rep_loc0 i v l Hv Hli) as (R1 & R2 & R3 & R4). by rewrite Hg.
    + left. rewrite (bind_ok _ _ _ _ _ Hr).
      eexists _, (mk_loc (Z.of_nat (length bs)) ar). split; [reflexivity|].
      exists exp, ob, x', [], []. split; [|split_and!; try done].
      * assert (Hob' : objects_ s' = ob) by (by destruct HQ' as [[_ _ _ []] _ _ _]).
        rewrite Hob'. by apply (Quiet_objects _ ob).
      * by apply (Hk1 b bs).
      * by apply (Rep_grow m ob x x' _ _ HR A4 A6).
      * cbn. lia.
      * cbn. by rewrite A1.
      * cbn. rewrite A6. apply lookup_insert_eq.
      * intros i l Hi Hil Heq. destruct (m !! i) as [v|] eqn:Hv;
          [|apply (rep_none _ _ _ HR) in Hv; congruence].
        destruct (rep_loc _ _ _ HR i v l Hv Hil) as (R1 & R2 & R3 & R4).
        cbn in Heq. rewrite Heq in R4. congruence.
Qed.
End locating.

Lemma Rep_write m ob x oid loc bs : Rep m ob x ->
  size loc = Z.of_nat (length bs) -> peer_rkey (allocRec loc) = key ->
  Z.of_nat (length bs) <= SEND_MSG_SIZE ->
  granted_of x !! remote_addr (allocRec loc) = Some (Z.of_nat (length bs)) ->
  (forall i l, i <> oid -> ob !! i = Some l ->
     remote_addr (allocRec l) <> remote_addr (allocRec loc)) ->
  Rep (<[oid := bs]> m) (<[oid := loc]> ob) x.
Proof.
  intros [] Hs Hk Hl Hg Hne. split.
  - intros i. destruct (decide (oid = i)) as [<-|Hi].
    + by rewrite !lookup_insert_eq.
    + rewrite !lookup_insert_ne by done. apply rep_none0.
  - intros i v l. destruct (decide (oid = i)) as [<-|Hi].
    + rewrite !lookup_insert_eq. intros [= <-] [= <-]. by rewrite Hs.
    + rewrite !lookup_insert_ne by done. apply rep_loc0.
  - intros i j l l'. destruct (decide (oid = i)) as [<-|Hi], (decide (oid = j)) as [<-|Hj];
      rewrite ?lookup_insert_eq, ?lookup_insert_ne by done; intros Hli Hlj Heq;
      simplify_eq; try done.
    + exfalso. by apply (Hne j l').
    + exfalso. by apply (Hne i l).
    + by apply (rep_inj0 i j l l').
Qed.

Lemma get_finished exp fd d (s : world) : futures s !! fd = Some d -> finished exp fd d ->
  ClientFuture.get env fuel fd s = (s, Ok true).
Proof.
  intros Hd (F1 & F2 & F3 & _). rewrite (get_available env fuel fd d s Hd F1).
  by rewrite F3, F2.
Qed.

(** [get] once the future has arrived, by way of [wait]. *)
Lemma get_after_wait exp fd d (s s' : world) :
  ClientFuture.wait env fuel fd s = (s', Ok tt) -> futures s' !! fd = Some d ->
  finished exp fd d -> ClientFuture.get env fuel fd s = (s', Ok true).
Proof.
  intros Hw Hd Hfin. unfold ClientFuture.get. mstep Hw.
  pose proof (get_finished exp fd d s' Hd Hfin) as Hg. unfold ClientFuture.get in Hg.
  destruct Hfin as (F1 & _).
  rewrite (bind_ok _ _ _ _ _ (wait_available env fuel fd d s' Hd F1)) in Hg. done.
Qed.

(** Starting an operation on a quiet client with a new block. *)
Lemma Inv_block m n N s bs : Inv m n N s -> 
  exists exp ob x done todo, Quiet exp ob (Holds m ob) x done todo (with_block bs s) /\
     orphan s.(next_blk) bs (done ++ todo) (with_block bs s) /\ Rep m ob x /\
     srv_ok pool_size x /\ (length (done ++ todo) <= n)%nat /\
     (length (schedule_of (with_block bs s)) <= N)%nat.
Proof.
  intros (exp & ob & x & done & todo & HQ & HR & Hx & Hn & HN).
  destruct (Quiet_with_block _ _ _ _ _ _ s bs HQ) as [HQ' Ho].
  exists exp, ob, x, done, todo. done.
Qed.

Section map_operations.
Context (Hkey : key = u32 rkey) {T : Type} `{SerializerSpec T}.

Definition same_size (m : gmap Z bytes) (oid : Z) (w : T) : Prop :=
  forall bs, m !! oid = Some bs -> length (ser_serialize w) = length bs.

Lemma client_put_ok m n N oid (w : T) s : Inv m n N s -> fits_msg w -> same_size m oid w ->
  Z.of_nat n < MAX_SEND_WR -> enough N (S n) ->
  let run := (let* fd := write_async fails uninit env fuel oid w in
              ClientFuture.get env fuel fd) s in
  (exists s', run = (s', Ok true) /\ Inv (<[oid := ser_serialize w]> m) 0 N s') \/
  (exists s', run = (s', Throw memory_error) /\ m !! oid = None /\ Inv m 0 N s').
Proof.
  intros HI Hw Hss Hmax Hfu run. unfold run. set (bs := ser_serialize w).
  assert (Hlen : Z.of_nat (length bs) <= SEND_MSG_SIZE) by exact Hw.
  unfold write_async. rewrite (fits_size w Hw), <- bind_assoc.
  mstep (serialize_new_ok w s Hw).
  destruct (locate_ok Hkey (writeRemoteAsync fails (Blk (next_blk s))) m n N oid (next_blk s) bs
    (with_block bs s) (Inv_block m n N s bs HI) Hlen Hmax) as [(s1 & loc & Hr & HL)|(s1 & Hr & Hm & HI1)].
  { unfold enough in *. lia. }
  { exact Hss. }
  - left. destruct HL as (exp & ob & x & done & todo & HQ & Ho & HR & Hx & Hn & HN & L1 & L2 & L3 & L4).
    assert (Hmax1 : Z.of_nat (length (done ++ todo)) < MAX_SEND_WR) by lia.
    pose proof (addr_u64 x _ _ Hx L3) as Hu.
    assert (Hpost : writeRemoteAsync fails (Blk (next_blk s)) loc s1 =
      (write_state s1 (next_blk s) bs (remote_addr (allocRec loc)), Ok (length (futs s1)))).
    { unfold writeRemoteAsync. rewrite L1. by eapply rdma_write_async_ok. }
    fold bs. rewrite Hpost in Hr. rewrite (bind_ok _ _ _ _ _ Hr).
    pose proof (write_state_Quiet exp _ _ (Holds (<[oid := bs]> m) (<[oid := loc]> ob)) x
      done todo s1 HQ Hmax1 (next_blk s) bs (remote_addr (allocRec loc)) Ho) as HQ2.
    specialize (HQ2 ltac:(intros r Hr0; by apply (Holds_write m ob x))).
    destruct (wait_last fuel _ _ _ _ _ _ _ (length (futs s1))
      (write_job (next_blk s) bs (remote_addr (allocRec loc)) s1) N HQ2) as
      (s2 & d & Hwait & HQ3 & Hd & Hfin & HN2); [by rewrite app_assoc, last_snoc|done|done| |].
    { cbn. rewrite app_assoc, length_app. unfold enough in Hfu. cbn. lia. }
    exists s2. split; [by eapply get_after_wait|].
    exists exp, (<[oid := loc]> ob), x, [], []. split_and!; try done.
    by apply Rep_write.
  - right. exists s1. fold bs. split; [by apply bind_throw|done].
Qed.

Lemma put_sync_ok m n N oid (w : T) s : Inv m n N s -> fits_msg w -> same_size m oid w ->
  Z.of_nat n < MAX_SEND_WR -> enough N (S n) ->
  (exists s', write_sync fails uninit env fuel oid w s = (s', Ok true) /\
     Inv (<[oid := ser_serialize w]> m) (S n) N s') \/
  (exists s', write_sync fails uninit env fuel oid w s = (s', Throw memory_error) /\
     m !! oid = None /\ Inv m 0 N s').
Proof.
  intros HI Hw Hss Hmax Hfu. set (bs := ser_serialize w).
  assert (Hlen : Z.of_nat (length bs) <= SEND_MSG_SIZE) by exact Hw.
  unfold write_sync. rewrite (fits_size w Hw). mstep (serialize_new_ok w s Hw).
  destruct (locate_ok Hkey (fun loc => writeRemote fails env fuel (Blk (next_blk s)) loc default_RDMAMem)
    m n N oid (next_blk s) bs
    (with_block bs s) (Inv_block m n N s bs HI) Hlen Hmax) as [(s1 & loc & Hr & HL)|(s1 & Hr & Hm & HI1)].
  { unfold enough in *. lia. }
  { exact Hss. }
  - left. destruct HL as (exp & ob & x & done & todo & HQ & Ho & HR & Hx & Hn & HN & L1 & L2 & L3 & L4).
    assert (Hmax1 : Z.of_nat (length (done ++ todo)) < MAX_SEND_WR) by lia.
    pose proof (addr_u64 x _ _ Hx L3) as Hu.
    set (s2 := write_state s1 (next_blk s) bs (remote_addr (allocRec loc))).
    assert (Hpost : writeRemote fails env fuel (Blk (next_blk s)) loc default_RDMAMem s1 =
      (set_futs (<[length (futs s1) := set_sem true new_FutureData]> s2.(futs)) s2, Ok true)).
    { unfold writeRemote. rewrite L1. cbn [isDefault default_RDMAMem default_].
      erewrite bind_ok by (by eapply write_sync_state). done. }
    eexists. split; [rewrite <- Hpost; exact Hr|].
    exists exp, (<[oid := loc]> ob), x, done, (todo ++ [write_job (next_blk s) bs (remote_addr (allocRec loc)) s1]).
    split; [|split_and!; [by apply Rep_write|done|rewrite app_assoc, length_app; cbn; lia|done]].
    eapply write_sync_Quiet; try done. intros r Hr0. by apply (Holds_write m ob x).
  - right. exists s1. done.
Qed.

Lemma client_get_ok m n N oid s : Inv m n N s -> Z.of_nat n < MAX_SEND_WR -> enough N (S n) ->
  (exists s' bs, m !! oid = Some bs /\
     read_sync fails uninit env fuel oid s = (s', Ok (bs, 0)) /\ Inv m 0 N s') \/
  (m !! oid = None /\ read_sync fails uninit env fuel oid s = (s, Throw no_such_id)).
Proof.
  intros (exp & ob & x & done & todo & HQ & HR & Hx & Hn & HN) Hmax Hfu.
  unfold read_sync. mstep (find_ok oid s).
  assert (Hob : s.(objects_) = ob) by (by destruct HQ as [[_ _ _ []] _ _ _]).
  rewrite Hob. destruct (ob !! oid) as [loc|] eqn:Hl.
  2: { right. split; [by apply (rep_none _ _ _ HR)|done]. }
  left. destruct (m !! oid) as [bs|] eqn:Hm; [|apply (rep_none _ _ _ HR) in Hm; congruence].
  destruct (rep_loc _ _ _ HR oid bs loc Hm Hl) as (R1 & R2 & R3 & R4).
  assert (Hmax1 : Z.of_nat (length (done ++ todo)) < MAX_SEND_WR) by lia.
  destruct loc as [sz ar]. cbn [size allocRec] in *. subst sz.
  pose proof (addr_u64 x _ _ Hx R4) as Hu. rewrite bind_assoc.
  rewrite (bind_ok _ _ _ _ _ (readToLocalAsync_ok exp ob (Holds m ob) x done todo s HQ Hmax1
    bs _ ar eq_refl R2 Hu R3)).
  set (a := remote_addr ar). set (fd := length (futs s)).
  assert (HQ2 : Quiet (<[fd := bs]> exp) ob (Holds m ob) x done (todo ++ [read_job a bs s])
    (read_state a bs s)).
  { apply read_state_Quiet; try done. intros r Hr.
    split; [by apply (covers_granted r m ob x)|].
    destruct Hr as (_ & _ & Hr). by apply (Hr oid bs (mk_loc (Z.of_nat (length bs)) ar)). }
  destruct (wait_last fuel _ _ _ _ _ _ _ fd (read_job a bs s) N HQ2) as
    (s2 & d & Hwait & HQ3 & Hd & Hfin & HN2); [by rewrite app_assoc, last_snoc|done|done| |].
  { cbn. rewrite app_assoc, length_app. unfold enough in Hfu. cbn. lia. }
  exists s2, bs. split; [done|]. split.
  - change (futures s2 !! fd = Some d) in Hd. unfold ClientFuture.getDataPair.
    mstep (get_after_wait _ fd d (read_state a bs s) s2 Hwait Hd Hfin).
    rewrite (bind_ok _ _ _ _ _ (deref_ok fd d s2 Hd)).
    destruct Hfin as (_ & _ & _ & F4 & F5). rewrite (F5 bs) by (apply lookup_insert_eq).
    by rewrite F4.
  - exists (<[fd := bs]> exp), ob, x, [], []. split_and!; done.
Qed.

Lemma Rep_remove m ob x x' oid loc : Rep m ob x -> ob !! oid = Some loc ->
  granted_of x' = delete (remote_addr (allocRec loc)) (granted_of x) ->
  Rep (delete oid m) (delete oid ob) x'.
Proof.
  intros [] Hl Hg. split.
  - intros i. destruct (decide (oid = i)) as [<-|Hi].
    + by rewrite !lookup_delete_eq.
    + rewrite !lookup_delete_ne by done. apply rep_none0.
  - intros i v l [Hi Hv]%lookup_delete_Some [_ Hli]%lookup_delete_Some.
    destruct (rep_loc0 i v l Hv Hli) as (R1 & R2 & R3 & R4). split_and!; try done.
    rewrite Hg, lookup_delete_ne; [done|]. intros Heq. apply Hi.
    by apply (rep_inj0 oid i loc l).
  - intros i j l l' [_ H1']%lookup_delete_Some [_ H2']%lookup_delete_Some. by apply rep_inj0.
Qed.

Lemma Holds_remove m ob oid r : Holds m ob r -> Holds (delete oid m) (delete oid ob) r.
Proof.
  intros (H1' & H2' & H3'). split; [done|]. split; [done|].
  intros i v l [_ Hv]%lookup_delete_Some [_ Hl]%lookup_delete_Some. by apply (H3' i).
Qed.

Lemma Quiet_mono exp ob (Pr Pr' : Region.t -> Prop) x done todo s :
  (forall r, Pr r -> Pr' r) -> Quiet exp ob Pr x done todo s -> Quiet exp ob Pr' x done todo s.
Proof.
  intros Himp [[HF K Q St] Hp Hx Hsem]. split; try done. split; try done.
  by eapply queue_ok_mono.
Qed.

Definition no_object : exn := NoSuchIDException "Error. Trying to remove nonnexistent object".

Lemma client_remove_ok m n N oid s : Inv m n N s -> Z.of_nat n < MAX_SEND_WR -> enough N (S n) ->
  (exists s', is_Some (m !! oid) /\ remove fails env fuel oid s = (s', Ok true) /\
     Inv (delete oid m) 0 N s') \/
  (m !! oid = None /\ remove fails env fuel oid s = (s, Throw no_object)).
Proof.
  intros (exp & ob & x & done & todo & HQ & HR & Hx & Hn & HN) Hmax Hfu.
  unfold remove. mstep (find_ok oid s).
  assert (Hob : s.(objects_) = ob) by (by destruct HQ as [[_ _ _ []] _ _ _]).
  rewrite Hob. destruct (ob !! oid) as [loc|] eqn:Hl.
  2: { right. split; [by apply (rep_none _ _ _ HR)|done]. }
  left. destruct (m !! oid) as [bs|] eqn:Hm; [|apply (rep_none _ _ _ HR) in Hm; congruence].
  destruct (rep_loc _ _ _ HR oid bs loc Hm Hl) as (R1 & R2 & R3 & R4).
  unfold bind at 1, modify. rewrite Hob.
  pose proof (Quiet_objects exp ob (delete oid ob) _ x done todo s HQ) as HQ1.
  destruct (deallocate_ok exp _ _ x (allocRec loc) (size loc) N done todo _ HQ1) as
    (s2 & x' & Hr & HQ2 & Hx2 & [_ HN2] & Hg); [by split|done|done|lia|unfold enough in *; lia|].
  exists s2. split; [done|]. split; [done|]. exists exp, (delete oid ob), x', [], [].
  split; [eapply Quiet_mono; [|exact HQ2]; intros r; apply Holds_remove|].
  split_and!; try done. by apply (Rep_remove m ob x x' oid loc).
Qed.
End map_operations.

End operations.
End jobs.
End system.
End RDMASystem.
