(* ===== verification/RDMAStore.v ===== *)
(** * The RDMA client as a store of objects

    Sequences of operations of RDMAClient.cpp, from [connect] on, over the
    adapter and the allocation server of RDMASystem.v: an abstract store that
    is a map of ids to bytes, and the theorem that the client refines it under
    every schedule of the adapter and the polling thread while the caller waits.
    Two assumptions on the client are hypotheses of the theorems: its counter of
    requests starts at 0 (the code does not initialise it), and the caller is not
    preempted between posting a request and waiting for it. *)

From stdpp Require Import gmap list strings.
From S2P Require Import Prelude Common Wire Codec RDMAVerbs RDMAServer BladeServers.
From S2P Require Import BladeClient ObjectStore RDMAClient RDMASystem.

Module RDMAStore.
Import RDMAClient RDMASystem.
#[local] Notation no_such_id := RDMAClient.no_such_id.

(** What a caller does: [Put] is [write_async] and the future's [get]. *)
Inductive op (T : Type) :=
| Put (oid : Z) (w : T)
| PutSync (oid : Z) (w : T)
| Get (oid : Z)
| Remove (oid : Z).
Arguments Put {T} _ _.
Arguments PutSync {T} _ _.
Arguments Get {T} _.
Arguments Remove {T} _.

(** What a caller observes; [size] is the number that comes with the bytes. *)
Inductive reply :=
| Stored (ok : bool)
| Found (bs : bytes) (size : Z)
| Raised (e : exn).

(** ** The abstract store *)

Section specification.
Context {T : Type} `{Serializer T}.

(** A new object may be refused, for want of memory; an object that is there
    is always overwritten.  The length that is reported is 0. *)
Inductive spec (m : gmap Z bytes) : op T -> reply -> gmap Z bytes -> Prop :=
| spec_put oid w : spec m (Put oid w) (Stored true) (<[oid := ser_serialize w]> m)
| spec_put_sync oid w : spec m (PutSync oid w) (Stored true) (<[oid := ser_serialize w]> m)
| spec_put_full oid w : m !! oid = None -> spec m (Put oid w) (Raised memory_error) m
| spec_put_sync_full oid w : m !! oid = None ->
    spec m (PutSync oid w) (Raised memory_error) m
| spec_get oid bs : m !! oid = Some bs -> spec m (Get oid) (Found bs 0) m
| spec_get_none oid : m !! oid = None -> spec m (Get oid) (Raised no_such_id) m
| spec_remove oid : is_Some (m !! oid) -> spec m (Remove oid) (Stored true) (delete oid m)
| spec_remove_none oid : m !! oid = None -> spec m (Remove oid) (Raised no_object) m.

Inductive specs : gmap Z bytes -> list (op T) -> list reply -> gmap Z bytes -> Prop :=
| specs_nil m : specs m [] [] m
| specs_cons m o r m' os rs m'' :
    spec m o r m' -> specs m' os rs m'' -> specs m (o :: os) (r :: rs) m''.

(** Objects have the size that is fixed for their id and fit into the send
    buffer. *)
Definition sized (sz : Z -> nat) (o : op T) : Prop :=
  match o with
  | Put oid w | PutSync oid w => length (ser_serialize w) = sz oid /\ fits_msg w
  | Get _ | Remove _ => True
  end.

(** Fewer than [MAX_SEND_WR] synchronous writes in a row: nothing else waits
    for them. *)
Fixpoint paced (n : nat) (os : list (op T)) : Prop :=
  match os with
  | [] => True
  | o :: os => Z.of_nat n < MAX_SEND_WR /\
      paced (match o with Put _ _ => 0 | PutSync _ _ => S n | _ => n end)%nat os
  end.

End specification.

(** ** The client *)

Section store.
Context `{ManagedBuffer} `{RootTable BladeMessage.t}.
Context (srv_fails : RDMAServer.t BladeAllocServer.t -> verb -> bool).
Context (conn base rkey : Z) (fails : world -> verb -> bool).
Context (uninit : nat -> bytes) (fuel : nat).
Context {T : Type} `{Serializer T}.

Local Notation env := (env srv_fails conn base rkey fails).

(** The call, and the exception that it ends with, if any. *)
Definition caught (m : M world reply) : M world reply := fun s =>
  match m s with
  | (s', Throw e) => (s', Ok (Raised e))
  | r => r
  end.

Definition perform (o : op T) : M world reply :=
  match o with
  | Put oid w =>
      let* ok := (let* fd := write_async fails uninit env fuel oid w in
                  ClientFuture.get env fuel fd) in ret (Stored ok)
  | PutSync oid w => let* ok := write_sync fails uninit env fuel oid w in ret (Stored ok)
  | Get oid => let* p := read_sync fails uninit env fuel oid in ret (Found p.1 p.2)
  | Remove oid => let* ok := remove fails env fuel oid in ret (Stored ok)
  end.

Fixpoint performs (os : list (op T)) : M world (list reply) :=
  match os with
  | [] => ret []
  | o :: os =>
      let* r := caught (perform o) in
      let* rs := performs os in
      ret (r :: rs)
  end.

Lemma caught_ok (m : M world reply) s s' r : m s = (s', Ok r) -> caught m s = (s', Ok r).
Proof. intros Hm. unfold caught. by rewrite Hm. Qed.

Lemma caught_throw (m : M world reply) s s' e : m s = (s', Throw e) ->
  caught m s = (s', Ok (Raised e)).
Proof. intros Hm. unfold caught. by rewrite Hm. Qed.
End store.

Section refinement.
Context `{ManagedBufferSpec} `{BladeMessageSpec} `{SerializerSpec T}.
Context (srv_fails : RDMAServer.t BladeAllocServer.t -> verb -> bool).
Context (conn base rkey : Z) (fails : world -> verb -> bool).
Context (uninit : nat -> bytes) (fuel : nat) (pool_size : Z).
Context (Hsf : forall x v, srv_fails x v = false).
Context (Hcreate : mb_create base pool_size <> None).
Context (Hbase : 0 < base) (Htop : base + pool_size < 2 ^ 64).
Context (Hf : forall (s : world) v, fails s v = false).
Context (Huninit : forall n, length (uninit n) = n).

Local Notation Inv := (Inv conn base rkey (u32 rkey) pool_size).
Local Notation perform := (perform srv_fails conn base rkey fails uninit fuel).
Local Notation performs := (performs srv_fails conn base rkey fails uninit fuel).

Lemma Inv_mono m n n' N s : Inv m n N s -> (n <= n')%nat -> Inv m n' N s.
Proof.
  intros (exp & ob & x & done & todo & HQ & HR & Hx & Hn & HN) Hle.
  exists exp, ob, x, done, todo. split_and!; try done. lia.
Qed.

Definition sizes (sz : Z -> nat) (m : gmap Z bytes) : Prop :=
  forall oid bs, m !! oid = Some bs -> length bs = sz oid.

Lemma sizes_put sz m oid bs : sizes sz m -> length bs = sz oid -> sizes sz (<[oid := bs]> m).
Proof. intros Hm Hb i v [[<- <-]|[_ Hv]]%lookup_insert_Some; [done|by apply Hm]. Qed.

Lemma sizes_delete sz m oid : sizes sz m -> sizes sz (delete oid m).
Proof. intros Hm i v [_ Hv]%lookup_delete_Some. by apply Hm. Qed.

Lemma sizes_same sz m oid w : sizes sz m -> length (ser_serialize w) = sz oid ->
  same_size m oid w.
Proof. intros Hm Hw bs Hb. by rewrite Hw, (Hm oid bs). Qed.

Lemma perform_ok sz m n N o os s : Inv m n N s -> sizes sz m -> sized sz o ->
  paced n (o :: os) -> (N + 1600 <= fuel)%nat ->
  exists s' r m' n', caught (perform o) s = (s', Ok r) /\ spec m o r m' /\
    Inv m' n' N s' /\ sizes sz m' /\ paced n' os.
Proof.
  intros HI Hm Hs [Hn Hp] Hfu. pose proof Hn as Hn'. unfold MAX_SEND_WR in Hn'.
  assert (Hk32 : u32 (u32 rkey) = u32 rkey) by (apply u32_small, u32_range).
  assert (Hen : enough fuel N (S n)) by (unfold enough; lia).
  destruct o as [oid w|oid w|oid|oid]; cbn [sized] in Hs; cbn [perform].
  - destruct Hs as [Hs Hw]. pose proof (sizes_same sz m oid w Hm Hs) as Hss.
    edestruct (client_put_ok srv_fails conn base rkey fails (u32 rkey) pool_size) as
      [(s' & Hr & HI')|(s' & Hr & Hno & HI')]; try done.
    + exists s', (Stored true), (<[oid := ser_serialize w]> m), 0%nat. split_and!; try done.
      * apply caught_ok. by rewrite (bind_ok _ _ _ _ _ Hr).
      * constructor.
      * by apply sizes_put.
    + exists s', (Raised memory_error), m, 0%nat. split_and!; try done.
      * apply caught_throw. by apply bind_throw.
      * by constructor.
  - destruct Hs as [Hs Hw]. pose proof (sizes_same sz m oid w Hm Hs) as Hss.
    edestruct (put_sync_ok srv_fails conn base rkey fails (u32 rkey) pool_size) as
      [(s' & Hr & HI')|(s' & Hr & Hno & HI')]; try done.
    + exists s', (Stored true), (<[oid := ser_serialize w]> m), (S n). split_and!; try done.
      * apply caught_ok. by rewrite (bind_ok _ _ _ _ _ Hr).
      * constructor.
      * by apply sizes_put.
    + exists s', (Raised memory_error), m, (S n). split_and!; try done.
      * apply caught_throw. by apply bind_throw.
      * by constructor.
      * eapply Inv_mono; [done|lia].
  - edestruct (client_get_ok srv_fails conn base rkey fails (u32 rkey) pool_size) as
      [(s' & bs & Hbs & Hr & HI')|[Hno Hr]]; try done.
    + exists s', (Found bs 0), m, n. split_and!; try done.
      * apply caught_ok. by rewrite (bind_ok _ _ _ _ _ Hr).
      * by constructor.
      * eapply Inv_mono; [done|lia].
    + exists s, (Raised no_such_id), m, n. split_and!; try done.
      * apply caught_throw. by apply bind_throw.
      * by constructor.
  - edestruct (client_remove_ok srv_fails conn base rkey fails (u32 rkey) pool_size) as
      [(s' & Hbs & Hr & HI')|[Hno Hr]]; try done.
    + exists s', (Stored true), (delete oid m), n. split_and!; try done.
      * apply caught_ok. by rewrite (bind_ok _ _ _ _ _ Hr).
      * by constructor.
      * eapply Inv_mono; [done|lia].
      * by apply sizes_delete.
    + exists s, (Raised no_object), m, n. split_and!; try done.
      * apply caught_throw. by apply bind_throw.
      * by constructor.
Qed.

Lemma performs_ok sz N os os' : (N + 1600 <= fuel)%nat -> Forall (sized sz) os ->
  forall m n s, Inv m n N s -> sizes sz m -> paced n (os ++ os') ->
  exists s' rs m' n', performs os s = (s', Ok rs) /\ specs m os rs m' /\ Inv m' n' N s' /\
    paced n' os'.
Proof.
  intros Hfu Hs. induction Hs as [|o os Ho _ IH]; intros m n s HI Hm Hp.
  { exists s, [], m, n. split_and!; [done|constructor|done|done]. }
  destruct (perform_ok sz m n N o (os ++ os') s HI Hm Ho Hp Hfu) as
    (s1 & r & m1 & n1 & Hr & Hsp & HI1 & Hm1 & Hp1).
  destruct (IH m1 n1 s1 HI1 Hm1 Hp1) as (s2 & rs & m2 & n2 & Hrs & Hsps & HI2 & Hp2).
  exists s2, (r :: rs), m2, n2. split_and!; [|by econstructor|done|done].
  cbn [performs]. mstep Hr. by rewrite (bind_ok _ _ _ _ _ Hrs).
Qed.

(** ** Connecting *)

(** The events of a connection that succeeds. *)
Definition accepted : list cm_event_type := [ADDR_RESOLVED; ROUTE_RESOLVED; ESTABLISHED].

(** A new client of the connected server [x]: [outstanding] is what its counter
    of requests holds, which no constructor sets, and [windows] for how long
    the caller loses the processor between posting a request and waiting. *)
Definition fresh (outstanding : Z) (windows : list nat) (x : RDMAServer.t BladeAllocServer.t)
    (r : Region.t) (sched : list bool) : world :=
  construct outstanding windows (mk_peer x r sched).

Lemma test_bind {B} v (k : unit -> M world B) s :
  bind (test fails v) k s = k tt s.
Proof using Hf. apply bind_ok. by apply client_test_ok. Qed.

Lemma modify_bind {B} f (k : unit -> M world B) s : bind (modify f) k s = k tt (f s).
Proof. done. Qed.

Lemma reg_mr_bind {B} (k : nat -> M world B) s :
  bind reg_mr k s = k s.(next_mr) (registered s).
Proof. done. Qed.

Lemma connect_Inv x r sched : srv_ok conn base rkey pool_size x ->
  Region.base r = base -> Region.size r = pool_size -> Region.rkey r = u32 rkey ->
  exists s, connect fails accepted (fresh 0 [] x r sched) = (s, Ok tt) /\
    Inv ∅ 0 (length sched) s.
Proof using Hf.
  intros Hx Hb Hs Hk. clear -Hf Hx Hb Hs Hk. eexists. split.
  - unfold connect, accepted, connect_loop, build_connection, build_context, setup_memory.
    repeat first [rewrite test_bind | rewrite modify_bind | rewrite <- bind_assoc |
                  rewrite reg_mr_bind; cbv beta zeta].
    reflexivity.
  - exists ∅, ∅, x, [], []. split.
    + split; try done; split; try done; split; try done; cbn; try constructor; try done.
      all: first [by intros ? [? ?%lookup_empty_Some] | set_solver].
    + done.
Qed.

Lemma connected_ok srv_fails' ph x i r sched :
  (forall x v, srv_fails' x v = false) -> mb_create base pool_size <> None ->
  BladeAllocServer.reach srv_fails' base pool_size rkey ph x ->
  ph !! conn = Some RDMAServer.Connected ->
  RDMAServer.ids x !! conn = Some i -> RDMAServer.id_sent i = [] ->
  Region.base r = base -> Region.size r = pool_size -> Region.rkey r = u32 rkey ->
  exists s, connect fails accepted (fresh 0 [] x r sched) = (s, Ok tt) /\
    Inv ∅ 0 (length sched) s.
Proof using Hf H2.
  intros Hsf' Hc Hreach Hph Hi Hsent Rb Rs Rk. apply connect_Inv; try done.
  exists ph, i. split; [|done]. by eapply BladeAllocServer.reach_inv.
Qed.

End refinement.

(** ** Refinement *)

(** C10: over any allocator, message library and serializer that keep their
    contracts, a client of RDMAClient.cpp that connects to a reachable,
    connected allocation server behaves as a map of ids to bytes: every
    operation returns, a read brings the bytes of the last write of its id, a
    new object is stored or refused with a memory error, and reading or
    removing an id that is not there throws.  This holds for every way to
    interleave the adapter and the polling thread while the caller waits; the
    caller is not preempted between posting a request and waiting for it
    ([windows = []]; [completion_overtakes_caller] is the run in which it is),
    and its counter of requests, which the code does not initialise, starts at
    0.  Objects keep the size of their id, and fewer than [MAX_SEND_WR]
    synchronous writes come in a row. *)
Theorem client_refines_map `{Hmb : ManagedBufferSpec} `{Hbm : BladeMessageSpec}
    `{Hser : SerializerSpec T} srv_fails conn base rkey (fails : world -> verb -> bool)
    uninit fuel pool_size ph x i r sched sz (os : list (op T)) outstanding windows :
  outstanding = 0 -> windows = [] ->
  (forall x v, srv_fails x v = false) -> (forall s v, fails s v = false) ->
  (forall n, length (uninit n) = n) -> (length sched + 1600 <= fuel)%nat ->
  0 < base -> base + pool_size < 2 ^ 64 -> mb_create base pool_size <> None ->
  BladeAllocServer.reach srv_fails base pool_size rkey ph x ->
  ph !! conn = Some RDMAServer.Connected ->
  RDMAServer.ids x !! conn = Some i -> RDMAServer.id_sent i = [] ->
  Region.base r = base -> Region.size r = pool_size -> Region.rkey r = u32 rkey ->
  Forall (sized sz) os -> paced 0 os ->
  exists s s' rs m, connect fails accepted (fresh outstanding windows x r sched) = (s, Ok tt) /\
    performs srv_fails conn base rkey fails uninit fuel os s = (s', Ok rs) /\
    specs ∅ os rs m.
Proof.
  intros -> -> Hsf Hf Hun Hfu Hb Htop Hc Hreach Hph Hi Hsent Rb Rs Rk Hsz Hp.
  destruct (connected_ok conn base rkey fails pool_size Hf srv_fails ph x i r sched)
    as (s & Hcon & HI); try done.
  destruct (performs_ok srv_fails conn base rkey fails uninit fuel pool_size Hsf Hc Hb Htop Hf
    Hun sz (length sched) os [] Hfu Hsz ∅ 0%nat s HI) as (s' & rs & m & n & Hr & Hsp & _);
    [done|by rewrite app_nil_r|].
  by exists s, s', rs, m.
Qed.

(** Eight bytes written, read, overwritten and removed, over the first-fit
    allocator and with the adapter ahead of the polling thread. *)
Definition demo_region : Region.t := Region.mk 4096 (replicate 16 x00) (u32 9).
Definition demo_ops : list (op bytes) :=
  [Get 1; Put 1 (replicate 8 x01); PutSync 1 (replicate 8 x00); Get 1; Remove 1; Get 1].

Lemma client_refines_map_witness :
  exists s s' rs m,
    connect (fun _ _ => false) accepted
      (fresh 0 [] BladeAllocServer.demo_2 demo_region [true; true; false]) = (s, Ok tt) /\
    performs BladeAllocServer.demo_fails 7 4096 9 (fun _ _ => false)
      (fun n => replicate n x00) 2000 demo_ops s = (s', Ok rs) /\
    specs ∅ demo_ops rs m.
Proof.
  apply (client_refines_map BladeAllocServer.demo_fails 7 4096 9 (fun _ _ => false)
    (fun n => replicate n x00) 2000 16 {[7 := RDMAServer.Connected]}
    BladeAllocServer.demo_2 (RDMAServer.mk_id (Some 0%nat) true 4 []) demo_region
    [true; true; false] (fun _ => 8%nat) demo_ops 0 []).
  - reflexivity.
  - reflexivity.
  - reflexivity.
  - reflexivity.
  - intros n. apply length_replicate.
  - cbn. lia.
  - lia.
  - lia.
  - discriminate.
  - exact BladeAllocServer.demo_reach.
  - reflexivity.
  - vm_compute. reflexivity.
  - reflexivity.
  - reflexivity.
  - reflexivity.
  - reflexivity.
  - repeat constructor; discriminate.
  - repeat split.
Defined.

(** ** The object store over this client *)

(** C15: FullBladeObjectStore over the RDMA client: after any such sequence of
    operations, [get] of a stored object hands the bytes that were last written
    to the deserializer, with a length of 0, and returns its result; [get] of an
    id that is not there throws.  (The future of a read never gets the length of
    its data.)  As for C10, the counter of requests starts at 0 and the caller is
    not preempted between posting a request and waiting for it. *)
Theorem object_store_over_rdma `{Hmb : ManagedBufferSpec} `{Hbm : BladeMessageSpec}
    `{Hser : SerializerSpec T} `{Hdes : Deserializer T} srv_fails conn base rkey
    (fails : world -> verb -> bool)
    uninit fuel pool_size ph x i r sched sz (os : list (op T)) oid outstanding windows :
  outstanding = 0 -> windows = [] ->
  (forall x v, srv_fails x v = false) -> (forall s v, fails s v = false) ->
  (forall n, length (uninit n) = n) -> (length sched + 1600 <= fuel)%nat ->
  0 < base -> base + pool_size < 2 ^ 64 -> mb_create base pool_size <> None ->
  BladeAllocServer.reach srv_fails base pool_size rkey ph x ->
  ph !! conn = Some RDMAServer.Connected ->
  RDMAServer.ids x !! conn = Some i -> RDMAServer.id_sent i = [] ->
  Region.base r = base -> Region.size r = pool_size -> Region.rkey r = u32 rkey ->
  Forall (sized sz) os -> paced 0 (os ++ [Get oid]) ->
  let client := blade_client fails uninit (env srv_fails conn base rkey fails) fuel in
  exists s s' rs m s'',
    FullBladeObjectStore.ctor client accepted (fresh outstanding windows x r sched) = (s, Ok tt) /\
    performs srv_fails conn base rkey fails uninit fuel os s = (s', Ok rs) /\
    specs ∅ os rs m /\
    FullBladeObjectStore.get client oid s' =
      (s'', match m !! oid with
            | Some bs => deserialize bs 0
            | None => Throw no_such_id
            end).
Proof.
  intros -> -> Hsf Hf Hun Hfu Hb Htop Hc Hreach Hph Hi Hsent Rb Rs Rk Hsz Hp client.
  destruct (connected_ok conn base rkey fails pool_size Hf srv_fails ph x i r sched)
    as (s & Hcon & HI); try done.
  destruct (performs_ok srv_fails conn base rkey fails uninit fuel pool_size Hsf Hc Hb Htop Hf
    Hun sz (length sched) os [Get oid] Hfu Hsz ∅ 0%nat s HI)
    as (s' & rs & m & n & Hr & Hsp & HI' & Hn & _); [done|done|].
  assert (Hk32 : u32 (u32 rkey) = u32 rkey) by (apply u32_small, u32_range).
  assert (Hen : enough fuel (length sched) (S n)).
  { unfold enough. unfold MAX_SEND_WR in Hn. lia. }
  edestruct (client_get_ok srv_fails conn base rkey fails (u32 rkey) pool_size) as
    [(s'' & bs & Hbs & Hg & _)|[Hno Hg]]; try done.
  - exists s, s', rs, m, s''. split_and!; try done. rewrite Hbs.
    unfold FullBladeObjectStore.get, client, bc_read_sync, blade_client. by mstep Hg.
  - exists s, s', rs, m, s'. split_and!; try done. rewrite Hno.
    unfold FullBladeObjectStore.get, client, bc_read_sync, blade_client. by apply bind_throw.
Qed.

Definition demo_client : BladeClient world bytes :=
  blade_client (fun _ _ => false) (fun n => replicate n x00)
    (env BladeAllocServer.demo_fails 7 4096 9 (fun _ _ => false)) 2000.

Lemma object_store_over_rdma_witness :
  exists s s' rs m s'',
    FullBladeObjectStore.ctor demo_client accepted
      (fresh 0 [] BladeAllocServer.demo_2 demo_region [true; true; false]) = (s, Ok tt) /\
    performs BladeAllocServer.demo_fails 7 4096 9 (fun _ _ => false)
      (fun n => replicate n x00) 2000 demo_ops s = (s', Ok rs) /\
    specs ∅ demo_ops rs m /\
    FullBladeObjectStore.get demo_client 1 s' =
      (s'', match m !! 1 with
            | Some bs => deserialize bs 0
            | None => Throw no_such_id
            end).
Proof.
  apply (object_store_over_rdma BladeAllocServer.demo_fails 7 4096 9 (fun _ _ => false)
    (fun n => replicate n x00) 2000 16 {[7 := RDMAServer.Connected]}
    BladeAllocServer.demo_2 (RDMAServer.mk_id (Some 0%nat) true 4 []) demo_region
    [true; true; false] (fun _ => 8%nat) demo_ops 1 0 []).
  - reflexivity.
  - reflexivity.
  - reflexivity.
  - reflexivity.
  - intros n. apply length_replicate.
  - cbn. lia.
  - lia.
  - lia.
  - discriminate.
  - exact BladeAllocServer.demo_reach.
  - reflexivity.
  - vm_compute. reflexivity.
  - reflexivity.
  - reflexivity.
  - reflexivity.
  - reflexivity.
  - repeat constructor; discriminate.
  - repeat split.
Defined.

End RDMAStore.
