(* ===== verification/RDMABounds.v ===== *)
(** * The RDMA client in an arbitrary environment

    RDMAStore.v assumes that library calls succeed and that the caller is well
    behaved.  Here nothing is assumed: any call of the client, on any
    arguments, with any library call failing, any schedule and any outcome.
    One invariant survives: the count of outstanding requests, which starts at
    most at the limit, bounds the send queue. *)

From stdpp Require Import gmap list strings.
From S2P Require Import Prelude Common Wire Codec RDMAVerbs RDMAServer BladeServers.
From S2P Require Import BladeClient RDMAClient RDMASystem.

Module RDMABounds.
Import RDMAClient.

(** ** From the primitive steps to the operations *)

Section operations.
Context {P : Type} `{RootTable BladeMessage.t}.
Context (fails : t P -> verb -> bool) (uninit : nat -> bytes).
Context (env : M (t P) unit) (fuel : nat).

(** What the steps that change the state are to preserve. *)
Class Steps (I : t P -> Prop) : Prop := {
  steps_env : preserves I env;
  steps_futs fd f : preserves I (ClientFuture.update fd f);
  steps_new_char n : preserves I (new_char uninit n);
  steps_store a bs : preserves I (store a bs);
  steps_reg_mr : preserves I reg_mr;
  steps_new_op r m : preserves I (new_RDMAOpInfo r m);
  steps_update_op o a : preserves I (update_op o (set_oi_data a));
  steps_post_send w : preserves I (post_send fails w);
  steps_post_recv o : preserves I (modify (fun s => set_recv_q (s.(recv_q) ++ [o]) s));
  steps_share a o {B} (k : RDMAOpInfo -> M (t P) B) : (forall x, preserves I (k x)) ->
    preserves I (let* x := deref_op o in share a x.(oi_fd) ;;; k x);
  steps_recv_sem l : preserves I (modify (set_recv_sem l));
  steps_windows w : preserves I (modify (set_windows w));
  steps_send_msg b : preserves I (modify (set_send_msg b));
  steps_insert oid sz ar : preserves I (insertObjectLocation oid (u64 sz) ar);
  steps_erase oid : preserves I (modify (fun s => set_objects (delete oid s.(objects_)) s));
  steps_recv_mr k : preserves I (modify (set_recv_msg_mr k));
  steps_send_mr k : preserves I (modify (set_send_msg_mr k));
  steps_recv_mem m : preserves I (modify (set_default_recv_mem m));
  steps_send_mem m : preserves I (modify (set_default_send_mem m));
  steps_setup : preserves I (modify (set_setup_done true));
  steps_gen_ctx : preserves I (modify (set_gen_ctx true));
  steps_qp : preserves I (modify (set_qp true));
  steps_connecting : preserves I (modify (set_connecting true));
  steps_ec : preserves I (modify (set_ec true));
}.

Context (I : t P -> Prop) `{!Steps I}.

#[local] Hint Resolve steps_env steps_futs steps_new_char steps_store steps_reg_mr
  steps_new_op steps_update_op steps_post_recv steps_recv_sem steps_windows steps_send_msg
  steps_insert steps_erase steps_recv_mr steps_send_mr steps_recv_mem steps_send_mem
  steps_setup steps_gen_ctx steps_qp steps_connecting steps_ec : preserving.

(** *** Waiting *)

Lemma pres_deref fd : preserves I (ClientFuture.deref (S := t P) fd).
Proof. unfold ClientFuture.deref, undefined. preserve. Qed.
#[local] Hint Resolve pres_deref : preserving.

Lemma pres_sem_trywait fd : preserves I (ClientFuture.sem_trywait (S := t P) fd).
Proof. unfold ClientFuture.sem_trywait. preserve. Qed.
#[local] Hint Resolve pres_sem_trywait : preserving.

Lemma pres_sem_wait n fd : preserves I (ClientFuture.sem_wait env n fd).
Proof. induction n; cbn [ClientFuture.sem_wait]; preserve. Qed.
#[local] Hint Resolve pres_sem_wait : preserving.

Lemma pres_wait n fd : preserves I (ClientFuture.wait env n fd).
Proof. induction n; cbn [ClientFuture.wait]; preserve. Qed.
#[local] Hint Resolve pres_wait : preserving.

Lemma pres_try_wait fd : preserves I (ClientFuture.try_wait (S := t P) fd).
Proof. unfold ClientFuture.try_wait. preserve. Qed.

Lemma pres_get fd : preserves I (ClientFuture.get env fuel fd).
Proof. unfold ClientFuture.get. preserve. Qed.
#[local] Hint Resolve pres_get : preserving.

Lemma pres_getDataPair fd : preserves I (ClientFuture.getDataPair env fuel fd).
Proof. unfold ClientFuture.getDataPair, throw. preserve. Qed.
#[local] Hint Resolve pres_getDataPair : preserving.

Lemma pres_env_steps n : preserves I (env_steps env n).
Proof. induction n; cbn [env_steps]; preserve. Qed.
#[local] Hint Resolve pres_env_steps : preserving.

Lemma pres_preempt : preserves I (preempt env).
Proof. unfold preempt. preserve. Qed.

Lemma pres_deref_op o : preserves I (deref_op (P := P) o).
Proof. unfold deref_op, undefined. preserve. Qed.
#[local] Hint Resolve pres_preempt pres_deref_op : preserving.

Lemma pres_op_wait o : preserves I (op_wait env fuel o).
Proof. unfold op_wait. preserve. Qed.
#[local] Hint Resolve pres_op_wait : preserving.

Lemma pres_recv_wait n : preserves I (recv_wait env n).
Proof. induction n; cbn [recv_wait]; preserve. Qed.

Lemma pres_read_wait n o : preserves I (read_wait env fuel n o).
Proof. induction n; cbn [read_wait]; preserve. Qed.
#[local] Hint Resolve pres_recv_wait pres_read_wait : preserving.

(** *** Posting *)

Lemma pres_test v : preserves I (RDMAClient.test fails v).
Proof. unfold RDMAClient.test. preserve. Qed.

Lemma pres_deref_mr m : preserves I (deref_mr (P := P) m).
Proof. unfold deref_mr, undefined. preserve. Qed.

#[local] Hint Resolve pres_test pres_deref_mr steps_post_send : preserving.

Lemma pres_post_receive : preserves I (post_receive fails).
Proof. unfold post_receive. preserve. Qed.

Lemma pres_send_message sz : preserves I (send_message fails sz).
Proof. unfold send_message. preserve. Qed.
#[local] Hint Resolve pres_post_receive pres_send_message : preserving.

Lemma pres_write_rdma_async sz raddr rkey m o:
  preserves I (write_rdma_async fails sz raddr rkey m o).
Proof. unfold write_rdma_async, throw. preserve. Qed.

Lemma pres_read_rdma_async sz raddr rkey m o:
  preserves I (read_rdma_async fails sz raddr rkey m o).
Proof. unfold read_rdma_async, throw. preserve. Qed.
#[local] Hint Resolve pres_write_rdma_async pres_read_rdma_async : preserving.

Lemma pres_send_receive sz : preserves I (send_receive_message_sync fails env fuel sz).
Proof. unfold send_receive_message_sync. preserve. Qed.

Lemma pres_write_rdma_sync sz raddr rkey m:
  preserves I (write_rdma_sync fails env fuel sz raddr rkey m).
Proof. unfold write_rdma_sync. preserve. Qed.

Lemma pres_read_rdma_sync sz raddr rkey m:
  preserves I (read_rdma_sync fails env fuel sz raddr rkey m).
Proof. unfold read_rdma_sync. preserve. Qed.
#[local] Hint Resolve pres_send_receive pres_write_rdma_sync pres_read_rdma_sync : preserving.

(** *** RPCs, reads and writes *)

Lemma pres_call m : preserves I (call fails env fuel m).
Proof. unfold call. preserve. Qed.
#[local] Hint Resolve pres_call : preserving.

Lemma pres_allocate sz : preserves I (allocate fails env fuel sz).
Proof. unfold allocate, throw, undefined. preserve. Qed.

Lemma pres_deallocate ar : preserves I (deallocate fails env fuel ar).
Proof. unfold deallocate, throw, undefined. preserve. Qed.

Lemma pres_prepare m : preserves I (prepare fails m).
Proof. unfold prepare, throw. preserve. Qed.

Lemma pres_load a : preserves I (load (P := P) a).
Proof. unfold load, undefined. preserve. Qed.
#[local] Hint Resolve pres_allocate pres_deallocate pres_prepare pres_load : preserving.

Lemma pres_load_n a n : preserves I (load_n (P := P) a n).
Proof. unfold load_n, undefined. preserve. Qed.
#[local] Hint Resolve pres_load_n : preserving.

Lemma pres_rdma_write_sync ar off len a m :
  preserves I (rdma_write_sync fails env fuel ar off len a m).
Proof. unfold rdma_write_sync. preserve. Qed.

Lemma pres_rdma_write_async ar off len a m :
  preserves I (rdma_write_async fails ar off len a m).
Proof. unfold rdma_write_async, throw. preserve. Qed.

Lemma pres_rdma_read_sync ar off len a m :
  preserves I (rdma_read_sync fails env fuel ar off len a m).
Proof. unfold rdma_read_sync. preserve. Qed.

Lemma pres_rdma_read_async ar off len a m :
  preserves I (rdma_read_async fails ar off len a m).
Proof.
  unfold rdma_read_async, throw.
  destruct (RECV_MSG_SIZE <? len); [preserve|]. apply preserves_bind; [preserve|].
  intros [m' o]. apply steps_share. preserve.
Qed.
#[local] Hint Resolve pres_rdma_write_sync pres_rdma_write_async pres_rdma_read_sync
  pres_rdma_read_async : preserving.

Lemma pres_readToLocal loc a : preserves I (readToLocal fails env fuel loc a).
Proof. unfold readToLocal. preserve. Qed.

Lemma pres_readToLocalAsync loc a : preserves I (readToLocalAsync fails loc a).
Proof. unfold readToLocalAsync. preserve. Qed.

Lemma pres_writeRemote a loc m : preserves I (writeRemote fails env fuel a loc m).
Proof. unfold writeRemote. preserve. Qed.

Lemma pres_writeRemoteAsync a loc : preserves I (writeRemoteAsync fails a loc).
Proof. unfold writeRemoteAsync. preserve. Qed.

Lemma pres_find oid : preserves I (find (P := P) oid).
Proof. unfold find. preserve. Qed.
#[local] Hint Resolve pres_readToLocal pres_readToLocalAsync pres_writeRemote
  pres_writeRemoteAsync pres_find : preserving.

Section objects.
Context {T : Type} `{Serializer T}.

Lemma pres_serialize_new (w : T) : preserves I (serialize_new uninit w).
Proof. unfold serialize_new. preserve. Qed.
#[local] Hint Resolve pres_serialize_new : preserving.

Lemma pres_write_async oid (w : T) : preserves I (write_async fails uninit env fuel oid w).
Proof. unfold write_async. preserve. Qed.

Lemma pres_write_sync oid (w : T) : preserves I (write_sync fails uninit env fuel oid w).
Proof. unfold write_sync. preserve. Qed.
End objects.

Lemma pres_read_async oid : preserves I (read_async fails uninit oid).
Proof. unfold read_async, throw. preserve. Qed.

Lemma pres_read_sync oid : preserves I (read_sync fails uninit env fuel oid).
Proof. unfold read_sync, throw. preserve. Qed.

Lemma pres_remove oid : preserves I (remove fails env fuel oid).
Proof. unfold remove, throw. preserve. Qed.

Lemma pres_setup_memory : preserves I (setup_memory fails).
Proof. unfold setup_memory. preserve. Qed.

Lemma pres_build_connection : preserves I (build_connection fails).
Proof. unfold build_connection, build_context. preserve. Qed.
#[local] Hint Resolve pres_setup_memory pres_build_connection : preserving.

Lemma pres_connect_loop es : preserves I (connect_loop fails es).
Proof. induction es as [|[] es IH]; cbn [connect_loop]; preserve. Qed.
#[local] Hint Resolve pres_connect_loop : preserving.

Lemma pres_connect es : preserves I (connect fails es).
Proof. unfold connect. preserve. Qed.

End operations.
(** ** Calls of a client *)

Inductive api (T : Type) :=
| Connect (events : list cm_event_type)
| WriteAsync (oid : Z) (w : T)
| WriteSync (oid : Z) (w : T)
| ReadAsync (oid : Z)
| ReadSync (oid : Z)
| Erase (oid : Z)
| Wait (fd : nat)
| TryWait (fd : nat)
| GetResult (fd : nat)
| GetData (fd : nat).
Arguments Connect {T} _.
Arguments WriteAsync {T} _ _.
Arguments WriteSync {T} _ _.
Arguments ReadAsync {T} _.
Arguments ReadSync {T} _.
Arguments Erase {T} _.
Arguments Wait {T} _.
Arguments TryWait {T} _.
Arguments GetResult {T} _.
Arguments GetData {T} _.

Section calls.
Context {P T : Type} `{RootTable BladeMessage.t} `{Serializer T}.
Context (fails : t P -> verb -> bool) (uninit : nat -> bytes).
Context (env : M (t P) unit) (fuel : nat).

(** The caller catches exceptions. *)
Definition attempt {A} (m : M (t P) A) : M (t P) unit := fun s =>
  match m s with
  | (s', Ok _) | (s', Throw _) => (s', Ok tt)
  | (s', Undefined) => (s', Undefined)
  | (s', Exited) => (s', Exited)
  | (s', Blocked) => (s', Blocked)
  | (s', OutOfFuel) => (s', OutOfFuel)
  end.

Definition invoke (c : api T) : M (t P) unit :=
  match c with
  | Connect es => attempt (connect fails es)
  | WriteAsync oid w => attempt (write_async fails uninit env fuel oid w)
  | WriteSync oid w => attempt (write_sync fails uninit env fuel oid w)
  | ReadAsync oid => attempt (read_async fails uninit oid)
  | ReadSync oid => attempt (read_sync fails uninit env fuel oid)
  | Erase oid => attempt (remove fails env fuel oid)
  | Wait fd => attempt (ClientFuture.wait env fuel fd)
  | TryWait fd => attempt (ClientFuture.try_wait (S := t P) fd)
  | GetResult fd => attempt (ClientFuture.get env fuel fd)
  | GetData fd => attempt (ClientFuture.getDataPair env fuel fd)
  end.

Context (I : t P -> Prop) `{!Steps fails uninit env I}.

Lemma pres_attempt {A} (m : M (t P) A) : preserves I m -> preserves I (attempt m).
Proof.
  intros Hm s Hs. specialize (Hm s Hs). unfold attempt. by destruct (m s) as [s' []].
Qed.

Lemma pres_invoke (c : api T) : preserves I (invoke c).
Proof.
  destruct c; cbn [invoke]; apply pres_attempt.
  - by eapply pres_connect.
  - by eapply pres_write_async.
  - by eapply pres_write_sync.
  - by eapply pres_read_async.
  - by eapply pres_read_sync.
  - by eapply pres_remove.
  - by eapply pres_wait.
  - by eapply pres_try_wait.
  - by eapply pres_get.
  - by eapply pres_getDataPair.
Qed.

Lemma pres_invokes (cs : list (api T)) : preserves I (mfor cs invoke).
Proof. apply preserves_mfor. apply pres_invoke. Qed.
End calls.

(** ** The bound on outstanding requests *)

(** Requests that were handed to the adapter and whose completion was not
    polled. *)
Definition counted_wc (w : wc) : bool :=
  match w.(wc_op) with IBV_WC_RECV => false | _ => true end.

Definition in_flight {P} (s : t P) : Z :=
  Z.of_nat (length s.(send_q) + length (List.filter counted_wc s.(cq))).

Definition bounded {P} (k : Z) (s : t P) : Prop :=
  in_flight s + k <= s.(outstanding_send_wr) <= MAX_SEND_WR.

(** Closes the cases of a step that leaves the queues alone. *)
Ltac untouched := intros s Hs; cbv [bind gets modify ret stop undefined throw id];
  repeat case_match; try done.

Section bounded.
Context {P : Type} `{RootTable BladeMessage.t}.
Context (fails : t P -> verb -> bool) (uninit : nat -> bytes) (k : Z).

Lemma bounded_store a bs : preserves (bounded (P := P) k) (store a bs).
Proof. unfold store, ClientFuture.update. untouched. Qed.

Lemma bounded_load a : preserves (bounded (P := P) k) (load a).
Proof. unfold load. untouched. Qed.

Lemma bounded_clear m : preserves (bounded (P := P) k) (clear fails m).
Proof. unfold clear. untouched. Qed.

Lemma bounded_update fd f : preserves (bounded (P := P) k) (ClientFuture.update fd f).
Proof. untouched. Qed.
#[local] Hint Resolve bounded_clear bounded_update : preserving.

Lemma bounded_apply x : preserves (bounded (P := P) k) (apply_op fails x).
Proof. unfold apply_op. preserve. Qed.

Lemma bounded_signal x : preserves (bounded (P := P) k) (signal_op x).
Proof. unfold signal_op, ClientFuture.update. untouched. Qed.

Lemma bounded_delete a : preserves (bounded (P := P) k) (delete_array a).
Proof. unfold delete_array. untouched. Qed.

Lemma bounded_deref o : preserves (bounded (P := P) k) (deref_op o).
Proof. unfold deref_op. untouched. Qed.
End bounded.

#[local] Hint Resolve bounded_store bounded_load bounded_apply bounded_signal bounded_delete
  bounded_deref : preserving.

(** A call between a condition and a weaker one. *)
Lemma bind_leads {S A B} (I J : S -> Prop) (m : M S A) (k : A -> M S B) s :
  (forall s, I s -> J s) -> preserves I m -> (forall a s, I s -> J (k a s).1) ->
  I s -> J (bind m k s).1.
Proof.
  intros Hw Hm Hk Hs. unfold bind. specialize (Hm s Hs).
  destruct (m s) as [s' []]; cbn in *; auto.
Qed.

Section bounded_env.
Context {P : Type} (fails : t P -> verb -> bool).

Lemma bounded_weaken (s : t P) : bounded 1 s -> bounded 0 s.
Proof. unfold bounded. lia. Qed.

Lemma bounded_dec (s : t P) : bounded 1 s -> bounded 0 (dec_outstanding s).1.
Proof.
  unfold dec_outstanding, bind, gets, id, stop, modify. intros Hs.
  destruct (0 <? outstanding_send_wr s); [|by apply bounded_weaken].
  revert Hs. unfold bounded, in_flight. cbn. lia.
Qed.

(** The rest of [on_completion] once the request is accounted for. *)
Lemma bounded_after_dec {B} (k : unit -> M (t P) B) (s : t P) :
  (forall a, preserves (bounded 0) (k a)) -> bounded 1 s ->
  bounded 0 (bind dec_outstanding k s).1.
Proof.
  intros Hk Hs. pose proof (bounded_dec s Hs) as Hd. unfold bind.
  destruct (dec_outstanding s) as [s' []]; try done. by apply Hk.
Qed.

Lemma bounded_on_completion w (s : t P) : bounded (if counted_wc w then 1 else 0) s ->
  bounded 0 (on_completion fails w s).1.
Proof.
  intros Hs. destruct (counted_wc w) eqn:Hw; revert s Hs.
  - intros s Hs. unfold on_completion.
    eapply (bind_leads (bounded 1)); [apply bounded_weaken|preserve| |done].
    intros x s1 H1. eapply (bind_leads (bounded 1)); [apply bounded_weaken|preserve| |done].
    clear s Hs s1 H1. intros _ s1 H1.
    unfold counted_wc in Hw. destruct (wc_op w); try done.
    all: rewrite <- ?bind_assoc.
    1-3: apply bounded_after_dec; [preserve; clear s1 H1; untouched|done].
    by apply bounded_weaken.
  - change (preserves (bounded (P := P) 0) (on_completion fails w)).
    unfold counted_wc in Hw. destruct w as [i [] ok]; try done.
    unfold on_completion. cbn [wc_op wc_wr_id]. preserve. untouched.
Qed.

Lemma bounded_poll : preserves (bounded 0) (poll_cq_one fails).
Proof.
  unfold poll_cq_one. apply preserves_read. intros s Hs. destruct (cq s) as [|w ws] eqn:Hcq.
  { done. }
  assert (H1 : bounded (if counted_wc w then 1 else 0) (set_cq ws s)).
  { revert Hs. unfold bounded, in_flight. cbn. rewrite Hcq. cbn.
    destruct (counted_wc w); cbn; lia. }
  unfold bind, modify. destruct (wc_success w).
  - by apply bounded_on_completion.
  - cbn. destruct (counted_wc w); [by apply bounded_weaken|done].
Qed.
End bounded_env.

Section bounded_system.
Context `{ManagedBuffer} `{RootTable BladeMessage.t}.
Context (srv_fails : RDMAServer.t BladeAllocServer.t -> verb -> bool).
Context (conn base rkey : Z) (fails : RDMASystem.world -> verb -> bool).
Context (uninit : nat -> bytes).
Import RDMASystem.

Lemma bounded_load_n k a n : preserves (bounded (P := peer) k) (load_n a n).
Proof. unfold load_n, undefined. preserve. Qed.

Lemma bounded_set_region k r : preserves (bounded (P := peer) k) (modify (set_region r)).
Proof. untouched. Qed.

Lemma bounded_set_srv k x : preserves (bounded (P := peer) k) (modify (set_srv x)).
Proof. untouched. Qed.
#[local] Hint Resolve bounded_load_n bounded_set_region bounded_set_srv : preserving.

(** The request has left the queue; its completion takes its place. *)
Lemma bounded_push w (s : world) : bounded 1 s -> bounded 0 (push_wc w s).1.
Proof.
  unfold bounded, in_flight. cbn. rewrite List.filter_app, length_app. cbn.
  destruct (counted_wc w); cbn; lia.
Qed.

Lemma bounded_push_recv o ok (s : world) : bounded 0 s ->
  bounded 0 (push_wc (mk_wc o IBV_WC_RECV ok) s).1.
Proof. unfold bounded, in_flight. cbn. rewrite List.filter_app, length_app. cbn. lia. Qed.

Lemma bounded_deliver msg : preserves (bounded (P := peer) 0) (deliver msg).
Proof.
  unfold deliver. preserve; try (untouched; fail).
  all: intros s Hs; by apply bounded_push_recv.
Qed.

Lemma bounded_take_sent k : preserves (bounded (P := peer) k) (take_sent conn).
Proof. unfold take_sent. untouched. Qed.
#[local] Hint Resolve bounded_deliver bounded_take_sent : preserving.

#[local] Hint Resolve bounded_weaken bounded_push : core.

(** The next call of a request that is being executed. *)
Ltac leads := eapply (bind_leads (S := t peer) (bounded 1) (bounded 0)); [by apply bounded_weaken|preserve| |eassumption].

Lemma bounded_exec_write w (s : world) : bounded 1 s -> bounded 0 (exec_write w s).1.
Proof.
  intros Hs. unfold exec_write. leads. intros bs s1 H1. leads. intros r s2 H2.
  destruct (granted_access _ _ _ _); [|auto]. leads. auto.
Qed.

Lemma bounded_exec_read w (s : world) : bounded 1 s -> bounded 0 (exec_read w s).1.
Proof.
  intros Hs. unfold exec_read. leads. intros old s1 H1. leads. intros r s2 H2.
  destruct (granted_access _ _ _ _); [|auto]. destruct (_ <? _); [by apply bounded_weaken|].
  leads. auto.
Qed.

Lemma bounded_exec_send w (s : world) : bounded 1 s ->
  bounded 0 (exec_send srv_fails conn base rkey w s).1.
Proof.
  intros Hs. unfold exec_send. leads. intros bs s1 H1. leads. intros s0 s2 H2.
  destruct (RDMAServer.on_completion _ _ _ _ _ _) as [x o]. leads. intros _ s3 H3.
  apply bounded_push with (w := mk_wc w.(wr_id) IBV_WC_SEND true) in H3.
  assert (Hp : preserves (bounded (P := peer) 0)
    (let* msgs := take_sent conn in mfor msgs deliver)) by preserve.
  exact (Hp _ H3).
Qed.

Lemma bounded_hw_step : preserves (bounded 0) (hw_step srv_fails conn base rkey).
Proof.
  unfold hw_step. apply preserves_read. intros s Hs.
  destruct (send_q s) as [|w ws] eqn:Hq; [done|].
  assert (H1 : bounded 1 (set_send_q ws s)).
  { revert Hs. unfold bounded, in_flight. cbn. rewrite Hq. cbn. lia. }
  unfold bind, modify. destruct (opcode w).
  - by apply bounded_exec_write.
  - by apply bounded_exec_read.
  - by apply bounded_exec_send.
Qed.
#[local] Hint Resolve bounded_hw_step bounded_poll : preserving.

Lemma bounded_env : preserves (bounded 0) (env srv_fails conn base rkey fails).
Proof. unfold env. preserve. untouched. Qed.

Lemma bounded_post_send w : preserves (bounded (P := peer) 0) (post_send fails w).
Proof.
  unfold post_send. apply preserves_read. intros s Hs.
  destruct (Z.eqb_spec (outstanding_send_wr s) MAX_SEND_WR) as [|Hn]; [done|].
  unfold bind, modify, ret. revert Hs Hn. unfold bounded, in_flight, MAX_SEND_WR.
  destruct (fails s ibv_post_send); cbn -[u64]; rewrite ?length_app; cbn -[u64]; intros;
    rewrite u64_small; unfold is_u64; lia.
Qed.

Lemma bounded_share a o {B} (k : RDMAOpInfo -> M world B) :
  (forall x, preserves (bounded 0) (k x)) ->
  preserves (bounded 0) (let* x := deref_op o in share a x.(oi_fd) ;;; k x).
Proof. intros Hk. unfold share, undefined. preserve; untouched. Qed.

#[global] Instance bounded_steps :
  Steps fails uninit (env srv_fails conn base rkey fails) (bounded 0).
Proof.
  split; intros; try (untouched; fail).
  - apply bounded_env.
  - preserve.
  - by apply bounded_post_send.
  - by apply bounded_share.
Qed.

End bounded_system.

(** ** Every reachable state *)

Section reachable.
Context `{ManagedBuffer} `{RootTable BladeMessage.t} `{Serializer T}.
Context (srv_fails : RDMAServer.t BladeAllocServer.t -> verb -> bool).
Context (conn base rkey : Z) (fails : RDMASystem.world -> verb -> bool).
Context (uninit : nat -> bytes) (fuel : nat).

(** The state after some calls of a new client, however they end. *)
Definition after (n : Z) (ws : list nat) (p : RDMASystem.peer) (cs : list (api T)) :
    RDMASystem.world :=
  (mfor cs (invoke fails uninit (RDMASystem.env srv_fails conn base rkey fails) fuel)
     (construct n ws p)).1.

(** C28: when the counter of requests, which has no initialiser in the code,
    starts between 0 and [MAX_SEND_WR], then whatever a program does with a
    client, whichever library calls fail and however the adapter, the server and
    the polling thread interleave, the requests in the adapter's send queue and
    the completions not yet polled are together at most [outstanding_send_wr],
    which is at most [MAX_SEND_WR]: the queue pair never overflows. *)
Theorem send_queue_bounded n ws p cs : 0 <= n <= MAX_SEND_WR ->
  let s := after n ws p cs in
  in_flight s <= s.(outstanding_send_wr) <= MAX_SEND_WR.
Proof.
  intros Hn. cbn. enough (bounded 0 (after n ws p cs)) as Hb by (unfold bounded in Hb; lia).
  unfold after. eapply pres_invokes; [apply bounded_steps|].
  unfold bounded, in_flight. cbn. lia.
Qed.
End reachable.

(** Connecting and a synchronous write. *)
Lemma send_queue_bounded_witness :
  let s := after (T := bytes) (fun _ _ => false) 7 4096 9 (fun _ _ => false)
    (fun n => replicate n x00) 3 0 [1%nat]
    (RDMASystem.mk_peer BladeAllocServer.demo_2 (Region.mk 4096 [] 9) [])
    [Connect [ADDR_RESOLVED; ROUTE_RESOLVED; ESTABLISHED]; WriteSync 1 [x01]] in
  in_flight s <= s.(outstanding_send_wr) <= MAX_SEND_WR.
Proof. apply send_queue_bounded. split; discriminate. Defined.

End RDMABounds.
