(* ===== verification/RDMALimits.v ===== *)
(** * Limits of the RDMA client

    What RDMAClient.cpp does outside of the conditions of RDMAStore.v: when the
    send queue is full, when a completion overtakes its caller, and when an
    object is too long for a message. *)

From stdpp Require Import gmap list strings.
From S2P Require Import Prelude Common Wire Codec RDMAVerbs RDMAServer BladeServers.
From S2P Require Import BladeClient RDMAClient RDMASystem RDMAStore.

Module RDMALimits.
Import RDMAClient.

Import RDMASystem.

Section full_queue.
Context `{ManagedBuffer} `{RootTable BladeMessage.t}.
Context (fails : world -> verb -> bool) (uninit : nat -> bytes).
Context (env : M world unit) (fuel : nat).
Context (Hf : forall s v, fails s v = false).

(** The send queue is full, and the client has been connected. *)
Definition full (s : world) : Prop :=
  s.(outstanding_send_wr) = MAX_SEND_WR /\ is_Some s.(recv_msg_mr) /\ is_Some s.(send_msg_mr).

(** Nothing was sent and nothing has arrived. *)
Definition idle (s s' : world) : Prop :=
  full s' /\ s'.(objects_) = s.(objects_) /\ s'.(recv_msg) = s.(recv_msg) /\
  s'.(send_q) = s.(send_q) /\ s'.(RDMAClient.peer) = s.(RDMAClient.peer).

Lemma idle_trans s1 s2 s3 : idle s1 s2 -> idle s2 s3 -> idle s1 s3.
Proof.
  intros (F1 & O1 & R1 & Q1 & P1) (F2 & O2 & R2 & Q2 & P2).
  unfold idle. by rewrite O2, R2, Q2, P2.
Qed.

Lemma idle_op recv fn s : full s -> idle s (with_op recv fn s).
Proof. done. Qed.

Lemma idle_recv_q q s : full s -> idle s (set_recv_q q s).
Proof. done. Qed.

Lemma idle_send_msg m s : full s -> idle s (set_send_msg m s).
Proof. done. Qed.

Lemma post_send_full w s : full s -> post_send fails w s = (s, Ok false).
Proof. intros [Ho _]. unfold post_send, bind, gets, id. by rewrite Ho, Z.eqb_refl. Qed.

Lemma send_message_full sz s : full s ->
  send_message fails sz s = (with_op false None s, Ok None).
Proof.
  intros Hs. pose proof Hs as (_ & _ & [k Hk]). unfold send_message.
  mstep (new_op_ok false None s). unfold bind at 1, gets, id.
  unfold bind at 1, deref_mr. cbn [with_op send_msg_mr set_next_op set_ops set_futs].
  rewrite Hk. unfold ret at 1.
  by rewrite (bind_ok _ _ _ _ _ (post_send_full _ (with_op false None s) Hs)).
Qed.

(** The request is not sent: the buffer still holds the previous answer. *)
Lemma call_full m s : full s ->
  exists s', call fails env fuel m s = (s', Ok (rt_decode s.(recv_msg))) /\ idle s s'.
Proof.
  intros Hs. unfold call. set (s1 := set_send_msg (rt_encode m) s).
  assert (I1 : idle s s1) by (by apply idle_send_msg). pose proof I1 as [F1 _].
  unfold bind at 1, modify. fold s1. unfold send_receive_message_sync. rewrite <- bind_assoc.
  pose proof F1 as (_ & Hr & _). mstep (post_receive_ok fails Hf s1 Hr).
  set (s2 := set_recv_q _ _).
  assert (I2 : idle s1 s2).
  { apply (idle_trans _ (with_op true None s1)); [by apply idle_op|by apply idle_recv_q]. }
  pose proof I2 as [F2 _]. rewrite <- bind_assoc. mstep (send_message_full
    (Z.of_nat (length (rt_encode m))) s2 F2).
  assert (I3 : idle s (with_op false None s2)).
  { apply (idle_trans _ s1); [done|]. apply (idle_trans _ s2); [done|by apply idle_op]. }
  exists (with_op false None s2). split; [|done]. unfold bind, ret, gets, id.
  by destruct I3 as (_ & _ & -> & _).
Qed.

Lemma allocate_full sz id a k s : full s ->
  rt_decode s.(recv_msg) = Some (BladeMessage.AllocAck id a k) -> a <> 0 ->
  exists s', allocate fails env fuel sz s = (s', Ok (new_AllocationRecord id a k)) /\ idle s s'.
Proof.
  intros Hs Hd Ha. destruct (call_full (BladeMessage.Alloc sz) s Hs) as (s' & Hc & Hi).
  exists s'. split; [|done]. unfold allocate. mstep Hc. rewrite Hd.
  by rewrite (proj2 (Z.eqb_neq a 0) Ha).
Qed.

Definition post_error : exn := RuntimeError "write_rdma_async: error post_send".

(** A write of a prepared block fails to post, before anything is waited for. *)
Lemma writeRemote_full b loc s : full s -> loc.(size) <= SEND_MSG_SIZE ->
  exists s', writeRemote fails env fuel (Blk b) loc default_RDMAMem s = (s', Throw post_error) /\
    idle s s'.
Proof.
  intros Hs Hsz. unfold writeRemote, rdma_write_sync.
  rewrite (proj2 (Z.ltb_ge SEND_MSG_SIZE (size loc)) Hsz).
  cbn [isDefault default_RDMAMem default_ negb].
  change (set_addr_ (Blk b) (new_RDMAMem (Blk b) (size loc) None))
    with (new_RDMAMem (Blk b) (size loc) None).
  change (isDefault (new_RDMAMem (Blk b) (size loc) None)) with false. cbn [negb].
  rewrite <- bind_assoc. set (s1 := registered s).
  rewrite <- bind_assoc. mstep (prepare_ok fails Hf (Blk b) (size loc) s). fold s1.
  unfold write_rdma_sync. rewrite <- bind_assoc. mstep (new_op_ok false None s1).
  set (s2 := with_op false None s1). unfold write_rdma_async, update_op.
  eexists. split.
  - rewrite <- bind_assoc. rewrite <- bind_assoc. unfold bind at 1, modify.
    rewrite <- bind_assoc. unfold bind at 1, deref_mr, prepared. cbn [mr]. unfold ret at 1.
    rewrite <- bind_assoc.
    erewrite bind_ok by (apply post_send_full; exact Hs). reflexivity.
  - done.
Qed.
End full_queue.

(** C39: two objects in one place.  Once [MAX_SEND_WR] requests are outstanding,
    writing a new object throws, and the client nevertheless records a location
    for it.  [allocate] does not look at the result of
    [send_receive_message_sync] and parses the answer to the previous request:
    when that was the allocation of another object [other], which the client
    still has, both objects are now recorded at the same allocation, and
    nothing was sent. *)
Theorem full_queue_aliases `{ManagedBuffer} `{RootTable BladeMessage.t} `{SerializerSpec T}
    (fails : RDMASystem.world -> verb -> bool) uninit env fuel oid other (w : T) id a k sz
    (s : RDMASystem.world) :
  (forall s v, fails s v = false) -> (forall n, length (uninit n) = n) ->
  full s -> RDMASystem.fits_msg w -> s.(objects_) !! oid = None ->
  rt_decode s.(recv_msg) = Some (BladeMessage.AllocAck id a k) -> a <> 0 ->
  s.(objects_) !! other = Some (mk_loc sz (new_AllocationRecord id a k)) ->
  exists s' l l', write_sync fails uninit env fuel oid w s = (s', Throw post_error) /\
    other <> oid /\ s'.(objects_) !! oid = Some l /\ s'.(objects_) !! other = Some l' /\
    l.(allocRec) = l'.(allocRec) /\ l.(size) = Z.of_nat (length (ser_serialize w)) /\
    delete oid s'.(objects_) = s.(objects_) /\
    s'.(send_q) = s.(send_q) /\ s'.(RDMAClient.peer) = s.(RDMAClient.peer).
Proof.
  intros Hf Hun Hs Hw Hno Hd Ha Hother. unfold write_sync. rewrite (fits_size w Hw).
  mstep (serialize_new_ok uninit Hun w s Hw).
  set (s1 := with_block _ s). mstep (find_ok oid s1).
  change (objects_ s1) with (objects_ s). rewrite Hno.
  destruct (allocate_full fails env fuel Hf (Z.of_nat (length (ser_serialize w))) id a k s1
    Hs Hd Ha) as (s2 & Hal & F2 & O2 & R2 & Q2 & P2).
  mstep Hal. unfold insertObjectLocation. rewrite <- bind_assoc.
  unfold bind at 1, modify, bind at 1, ret.
  set (s3 := set_objects _ s2). set (loc := mk_loc _ _).
  destruct (writeRemote_full fails env fuel Hf (next_blk s) loc s3 F2 Hw)
    as (s4 & Hw4 & _ & O4 & _ & Q4 & P4).
  assert (Hne : other <> oid) by congruence.
  exists s4, loc, (mk_loc sz (new_AllocationRecord id a k)). split; [exact Hw4|].
  rewrite O4, Q4, P4. change (objects_ s3) with (<[oid := loc]> s2.(objects_)). rewrite O2.
  rewrite lookup_insert_eq, lookup_insert_ne by done. split_and!; try done.
  by rewrite delete_insert_id.
Qed.

(** A connected client with a full queue whose last allocation was that of
    object 1. *)
Definition full_demo : world :=
  set_objects {[1 := mk_loc 1 (new_AllocationRecord 0 4096 9)]}
    (set_recv_msg (rt_encode (BladeMessage.AllocAck 0 4096 9))
      (set_recv_msg_mr (Some 0%nat) (set_send_msg_mr (Some 1%nat)
        (construct MAX_SEND_WR []
           (mk_peer BladeAllocServer.demo_2 RDMAStore.demo_region []))))).

Lemma full_queue_aliases_witness :
  exists s' l l',
    write_sync (fun _ _ => false) (fun n => replicate n x00) (ret tt) 5 2 [x01] full_demo =
      (s', Throw post_error) /\
    1 <> 2 /\ s'.(objects_) !! 2 = Some l /\ s'.(objects_) !! 1 = Some l' /\
    l.(allocRec) = l'.(allocRec) /\ l.(size) = Z.of_nat (length (ser_serialize [x01])) /\
    delete 2 s'.(objects_) = full_demo.(objects_) /\
    s'.(send_q) = full_demo.(send_q) /\ s'.(RDMAClient.peer) = full_demo.(RDMAClient.peer).
Proof.
  apply (full_queue_aliases (fun _ _ => false) (fun n => replicate n x00) (ret tt) 5 2 1 [x01]
    0 4096 9 1 full_demo).
  - reflexivity.
  - intros n. apply length_replicate.
  - split; [reflexivity|]. split; eexists; reflexivity.
  - discriminate.
  - reflexivity.
  - vm_compute. reflexivity.
  - discriminate.
  - reflexivity.
Defined.

(** A run into this state: 500 synchronous writes of object 1, a write of the
    new object 2, which throws, and, when the queue has drained, a read of
    object 2 that returns the bytes of object 1. *)
Definition alias_run : M world (list RDMAStore.reply) :=
  let run := RDMAStore.performs (T := bytes) BladeAllocServer.demo_fails 7 4096 9
    (fun _ _ => false) (fun n => replicate n x00) 2000 in
  connect (fun _ _ => false) RDMAStore.accepted ;;;
  let* _ := run (RDMAStore.Put 1 [x00] :: replicate 500 (RDMAStore.PutSync 1 [x00])) in
  let* rs := run [RDMAStore.PutSync 2 [x01]] in
  env_steps (env BladeAllocServer.demo_fails 7 4096 9 (fun _ _ => false)) 1000 ;;;
  let* rs' := run [RDMAStore.Get 2] in
  ret (rs ++ rs').

Example alias_run_reads_other_object :
  (alias_run (RDMAStore.fresh 0 [] BladeAllocServer.demo_2 RDMAStore.demo_region [])).2 =
    Ok [RDMAStore.Raised post_error; RDMAStore.Found [x00] 0].
Proof. vm_compute. reflexivity. Qed.

(** ** Completions that overtake the caller *)

(** Object 1 is stored, then overwritten synchronously; the caller loses the
    processor for [n] steps of the others after it has posted the write and
    before it waits. *)
Definition overtaken_run (n : nat) : outcome (list RDMAStore.reply) :=
  ((connect (fun _ _ => false) RDMAStore.accepted ;;;
    RDMAStore.performs (T := bytes) BladeAllocServer.demo_fails 7 4096 9
      (fun _ _ => false) (fun n => replicate n x00) 2000
      [RDMAStore.Put 1 [x00]; RDMAStore.PutSync 1 [x01]])
   (construct 0 [0%nat; n] (mk_peer BladeAllocServer.demo_2 RDMAStore.demo_region []))).2.

(** [write_sync] returns as long as its write has not been completed when
    the caller comes to wait; when the adapter and the polling thread were
    faster, the polling thread has deleted the operation's record, and the
    caller's [op_info->fd->sem->wait()] reads freed memory. *)
Theorem completion_overtakes_caller :
  overtaken_run 0 = Ok [RDMAStore.Stored true; RDMAStore.Stored true] /\
  overtaken_run 1 = Ok [RDMAStore.Stored true; RDMAStore.Stored true] /\
  overtaken_run 2 = Undefined.
Proof. split_and!; vm_compute; reflexivity. Qed.

(** ** Objects over the size of the buffers *)

(** A write of more than [SEND_MSG_SIZE] bytes is not sent; the failure of
    [rdma_write_sync] is dropped. *)
Lemma oversized_write_lost {P} (fails : t P -> verb -> bool) env fuel data loc m (s : t P) :
  SEND_MSG_SIZE < loc.(size) -> writeRemote fails env fuel data loc m s = (s, Ok true).
Proof.
  intros Hl. unfold writeRemote, rdma_write_sync. by rewrite (proj2 (Z.ltb_lt _ _) Hl).
Qed.

End RDMALimits.
